(** * The render backend of the three.js study copy, embedded in Rocq

    The development follows the JavaScript sources of the WebGL renderer:
    the render list (WebGLRenderLists.js), the program cache
    (WebGLPrograms.js), the state tracker (WebGLState.js), the attribute
    cache (WebGLAttributes.js), the texture cache (WebGLTextures.js) and
    the parts of WebGLRenderer.js that set the render target and walk the
    scene graph.

    Conventions.  JavaScript numbers that the code only compares, adds or
    rounds are rationals ([Q], no NaN), except in [Texture], where the
    numbers that are not finite are modelled; identifiers handed out by
    counters are integers ([Z]).  [null] and [undefined] are [None] of an option
    type where the code distinguishes the value from a number.  Calls into
    the graphics API are recorded in a log, newest call last. *)

From Stdlib Require Import ZArith QArith Qround Qabs Lqa Lia List Sorted Permutation.
From Stdlib Require Import Ascii String DecimalString DecimalZ.
From stdpp Require Import gmap strings list.
Import ListNotations.
Open Scope Z_scope.

(** ** JavaScript helpers shared by the modules *)

(** [a !== b] on numbers. *)
Definition num_neq (a b : Q) : bool := negb (Qeq_bool a b).

(** [a > 0] where [a] may be [undefined]: the comparison with [undefined]
    is false. *)
Definition gt_zero (a : option Q) : bool :=
  match a with
  | Some q => negb (Qle_bool q 0)
  | None => false
  end.

(** [Array.prototype.sort( compareFn )].  The engine's sort is stable and
    looks only at the sign of [compareFn]; it is embedded as the stable
    insertion sort: an element moves left past exactly the elements that
    [compareFn] places strictly after it. *)
Section ArraySort.
Context {A : Type}.
Variable compareFn : A -> A -> Q.

Fixpoint sorted_insert (x : A) (l : list A) : list A :=
  match l with
  | [] => [x]
  | y :: l' =>
      if Qle_bool (compareFn x y) 0 then x :: y :: l'
      else y :: sorted_insert x l'
  end.

Fixpoint array_sort (l : list A) : list A :=
  match l with
  | [] => []
  | x :: l' => sorted_insert x (array_sort l')
  end.
End ArraySort.

(** ** WebGLRenderLists.js *)
Module RenderList.

Record Material := {
  material_id : Z;
  transmission : option Q;
  transparent : bool;
  material_visible : bool
}.

(** A render item; [object], [geometry] and [group] are references. *)
Record RenderItem := {
  id : Z;
  object : Z;
  geometry : Z;
  material : Material;
  groupOrder : Q;
  renderOrder : Q;
  z : Q;
  group : option Z
}.

Definition painterSortStable (a b : RenderItem) : Q :=
  if num_neq (groupOrder a) (groupOrder b) then
    groupOrder a - groupOrder b
  else if num_neq (renderOrder a) (renderOrder b) then
    renderOrder a - renderOrder b
  else if negb (material_id (material a) =? material_id (material b))%Z then
    inject_Z (material_id (material a) - material_id (material b))
  else if num_neq (z a) (z b) then
    z a - z b
  else
    inject_Z (id a - id b).

Definition reversePainterSortStable (a b : RenderItem) : Q :=
  if num_neq (groupOrder a) (groupOrder b) then
    groupOrder a - groupOrder b
  else if num_neq (renderOrder a) (renderOrder b) then
    renderOrder a - renderOrder b
  else if num_neq (z a) (z b) then
    z b - z a
  else
    inject_Z (id a - id b).

(** The scene object as [getNextRenderItem] reads it. *)
Record Object3D := {
  object_ref : Z;
  object_id : Z;
  object_renderOrder : Q
}.

(** The closure state of one [WebGLRenderList].  The buckets hold the
    pooled items by value: between [init] and [finish] a pool slot is
    written once, before the item is pushed, so the copy and the pooled
    object agree. *)
Record State := {
  renderItems : list RenderItem;
  renderItemsIndex : nat;
  opaque : list RenderItem;
  transmissive : list RenderItem;
  transparent_list : list RenderItem
}.

Definition empty : State :=
  {| renderItems := []; renderItemsIndex := 0%nat;
     opaque := []; transmissive := []; transparent_list := [] |}.

Definition init (s : State) : State :=
  {| renderItems := renderItems s; renderItemsIndex := 0%nat;
     opaque := []; transmissive := []; transparent_list := [] |}.

Definition mkItem (o : Object3D) (geo : Z) (m : Material)
           (go zz : Q) (grp : option Z) : RenderItem :=
  {| id := object_id o; object := object_ref o; geometry := geo;
     material := m; groupOrder := go;
     renderOrder := object_renderOrder o; z := zz; group := grp |}.

(** [renderItems[ renderItemsIndex ]] is overwritten when present and
    appended when [undefined] (the index never exceeds the length). *)
Definition getNextRenderItem (o : Object3D) (geo : Z) (m : Material)
           (go zz : Q) (grp : option Z) (s : State) : RenderItem * State :=
  let it := mkItem o geo m go zz grp in
  let pool :=
    match renderItems s !! renderItemsIndex s with
    | None => renderItems s ++ [it]
    | Some _ => <[renderItemsIndex s := it]> (renderItems s)
    end in
  (it, {| renderItems := pool; renderItemsIndex := S (renderItemsIndex s);
          opaque := opaque s; transmissive := transmissive s;
          transparent_list := transparent_list s |}).

Definition push (o : Object3D) (geo : Z) (m : Material)
           (go zz : Q) (grp : option Z) (s : State) : State :=
  let '(renderItem, s1) := getNextRenderItem o geo m go zz grp s in
  if gt_zero (transmission m) then
    {| renderItems := renderItems s1; renderItemsIndex := renderItemsIndex s1;
       opaque := opaque s1;
       transmissive := transmissive s1 ++ [renderItem];
       transparent_list := transparent_list s1 |}
  else if transparent m then
    {| renderItems := renderItems s1; renderItemsIndex := renderItemsIndex s1;
       opaque := opaque s1;
       transmissive := transmissive s1;
       transparent_list := transparent_list s1 ++ [renderItem] |}
  else
    {| renderItems := renderItems s1; renderItemsIndex := renderItemsIndex s1;
       opaque := opaque s1 ++ [renderItem];
       transmissive := transmissive s1;
       transparent_list := transparent_list s1 |}.

(** [if ( bucket.length > 1 ) bucket.sort( custom || default )]. *)
Definition sort_bucket (custom : option (RenderItem -> RenderItem -> Q))
           (default : RenderItem -> RenderItem -> Q)
           (bucket : list RenderItem) : list RenderItem :=
  if (1 <? length bucket)%nat
  then array_sort (from_option (fun f => f) default custom) bucket
  else bucket.

Definition sort (customOpaqueSort customTransparentSort :
                   option (RenderItem -> RenderItem -> Q)) (s : State) : State :=
  {| renderItems := renderItems s; renderItemsIndex := renderItemsIndex s;
     opaque := sort_bucket customOpaqueSort painterSortStable (opaque s);
     transmissive :=
       sort_bucket customTransparentSort reversePainterSortStable (transmissive s);
     transparent_list :=
       sort_bucket customTransparentSort reversePainterSortStable
                   (transparent_list s) |}.

(** The order of the opaque bucket, as the specification words it:
    groupOrder, then renderOrder, then material id, then depth, all
    ascending, then item id. *)
Definition opaque_before (a b : RenderItem) : Prop :=
  (groupOrder a < groupOrder b)%Q \/
  (groupOrder a == groupOrder b)%Q /\
  ((renderOrder a < renderOrder b)%Q \/
   (renderOrder a == renderOrder b)%Q /\
   (material_id (material a) < material_id (material b) \/
    material_id (material a) = material_id (material b) /\
    ((z a < z b)%Q \/ (z a == z b)%Q /\ id a <= id b))).

(** The order of the transparent and transmissive buckets: groupOrder and
    renderOrder ascending, depth descending, then item id. *)
Definition transparent_before (a b : RenderItem) : Prop :=
  (groupOrder a < groupOrder b)%Q \/
  (groupOrder a == groupOrder b)%Q /\
  ((renderOrder a < renderOrder b)%Q \/
   (renderOrder a == renderOrder b)%Q /\
   ((z b < z a)%Q \/ (z a == z b)%Q /\ id a <= id b)).

(** The three buckets, and the bucket the specification assigns to a
    material: transmissive when [transmission > 0], else transparent when
    [transparent === true], else opaque. *)
Inductive Bucket := Opaque | Transmissive | Transparent.

Definition bucket_of (m : Material) : Bucket :=
  match transmission m with
  | Some q => if Qlt_le_dec 0 q then Transmissive
              else if transparent m then Transparent else Opaque
  | None => if transparent m then Transparent else Opaque
  end.

Definition bucket_items (b : Bucket) (s : State) : list RenderItem :=
  match b with
  | Opaque => opaque s
  | Transmissive => transmissive s
  | Transparent => transparent_list s
  end.

Definition Bucket_eqb (a b : Bucket) : bool :=
  match a, b with
  | Opaque, Opaque | Transmissive, Transmissive | Transparent, Transparent => true
  | _, _ => false
  end.

(** An item with its two order keys replaced, to write examples. *)
Definition with_orders (go ro : Q) (it : RenderItem) : RenderItem :=
  {| id := id it; object := object it; geometry := geometry it;
     material := material it; groupOrder := go; renderOrder := ro;
     z := z it; group := group it |}.

Definition with_opaque (l : list RenderItem) (s : State) : State :=
  {| renderItems := renderItems s; renderItemsIndex := renderItemsIndex s;
     opaque := l; transmissive := transmissive s;
     transparent_list := transparent_list s |}.

End RenderList.

(** ** WebGLPrograms.js: the program cache *)
Module Programs.

(** What the cache reads and writes of a [WebGLProgram] object.
    [handle] is the constant [program] of the constructor's closure, the
    GPU program that [destroy] deletes; the field [program] is
    [this.program], [None] once [destroy] has set it to [undefined]. *)
Record WebGLProgram := {
  id : Z;
  cacheKey : string;
  usedTimes : Z;
  handle : Z;
  program : option Z
}.

Inductive Event :=
| GlCreateProgram (h : Z)
| GlDeleteProgram (h : Z)
| ReleaseStatesOfProgram (r : nat).

(** Program objects live in [heap]; a JavaScript reference to a program
    is its index there, so the same index is the same instance.
    [programs] is the cache array of references. *)
Record State := {
  heap : list WebGLProgram;
  programs : list nat;
  programIdCount : Z;
  events : list Event
}.

Definition initial : State :=
  {| heap := []; programs := []; programIdCount := 0; events := [] |}.

(** [new WebGLProgram( renderer, cacheKey, parameters, bindingStates )]:
    [gl.createProgram()] returns a handle never returned before, written
    as the number of programs created so far. *)
Definition new_WebGLProgram (key : string) (s : State) : nat * State :=
  let h := Z.of_nat (length (heap s)) in
  (length (heap s),
   {| heap := heap s ++ [{| id := programIdCount s; cacheKey := key;
                             usedTimes := 1; handle := h; program := Some h |}];
      programs := programs s;
      programIdCount := programIdCount s + 1;
      events := events s ++ [GlCreateProgram h] |}).

(** The loop of [acquireProgram]: the first cached program whose
    [cacheKey] is the requested one. *)
Fixpoint find_program (hp : list WebGLProgram) (key : string)
         (ps : list nat) : option nat :=
  match ps with
  | [] => None
  | r :: ps' =>
      match hp !! r with
      | Some p => if String.eqb (cacheKey p) key then Some r
                  else find_program hp key ps'
      | None => find_program hp key ps'
      end
  end.

Definition set_usedTimes (n : Z) (p : WebGLProgram) : WebGLProgram :=
  {| id := id p; cacheKey := cacheKey p; usedTimes := n;
     handle := handle p; program := program p |}.

Definition acquireProgram (key : string) (s : State) : nat * State :=
  match find_program (heap s) key (programs s) with
  | Some r =>
      (r, {| heap := alter (fun p => set_usedTimes (usedTimes p + 1) p) r (heap s);
             programs := programs s;
             programIdCount := programIdCount s;
             events := events s |})
  | None =>
      let '(r, s1) := new_WebGLProgram key s in
      (r, {| heap := heap s1; programs := programs s1 ++ [r];
             programIdCount := programIdCount s1; events := events s1 |})
  end.

(** [programs.indexOf( program )]; [None] is the result [-1]. *)
Fixpoint indexOf (r : nat) (ps : list nat) : option nat :=
  match ps with
  | [] => None
  | x :: ps' => if Nat.eqb x r then Some 0%nat else S <$> indexOf r ps'
  end.

(** [programs[ i ] = programs[ programs.length - 1 ]; programs.pop()].
    With [i = -1] the assignment makes a property that is not an element
    and only the [pop] changes the array. *)
Definition swap_remove (i : option nat) (ps : list nat) : list nat :=
  match last ps with
  | None => ps
  | Some x =>
      removelast (match i with
                  | Some i => <[i := x]> ps
                  | None => ps
                  end)
  end.

Definition destroy (r : nat) (s : State) : State :=
  match heap s !! r with
  | None => s
  | Some p =>
      {| heap := <[r := {| id := id p; cacheKey := cacheKey p;
                           usedTimes := usedTimes p; handle := handle p;
                           program := None |}]> (heap s);
         programs := programs s;
         programIdCount := programIdCount s;
         events := events s ++
                   [ReleaseStatesOfProgram r; GlDeleteProgram (handle p)] |}
  end.

(** [releaseProgram( program )].  A reference always points to an object
    of the heap; for an index outside it nothing happens. *)
Definition releaseProgram (r : nat) (s : State) : State :=
  match heap s !! r with
  | None => s
  | Some p =>
      let n := usedTimes p - 1 in
      let s1 := {| heap := <[r := set_usedTimes n p]> (heap s);
                   programs := programs s;
                   programIdCount := programIdCount s;
                   events := events s |} in
      if n =? 0 then
        destroy r {| heap := heap s1;
                     programs := swap_remove (indexOf r (programs s1)) (programs s1);
                     programIdCount := programIdCount s1;
                     events := events s1 |}
      else s1
  end.

(** Calls on the cache, and a run of them. *)
Inductive Call :=
| Acquire (key : string)
| Release (r : nat).

Definition step (s : State) (c : Call) : State :=
  match c with
  | Acquire key => snd (acquireProgram key s)
  | Release r => releaseProgram r s
  end.

Definition run (cs : list Call) : State := fold_left step cs initial.

(** Observations used in the statements. *)
Definition usedTimes_of (r : nat) (s : State) : option Z :=
  usedTimes <$> heap s !! r.

Definition is_delete (h : Z) (e : Event) : bool :=
  match e with
  | GlDeleteProgram h' => Z.eqb h h'
  | _ => false
  end.

(** How often the GPU program of the instance [r] has been deleted. *)
Definition deletions (r : nat) (s : State) : nat :=
  length (List.filter (is_delete (Z.of_nat r)) (events s)).

Definition cached_keys (s : State) : list string :=
  omap (fun r => cacheKey <$> heap s !! r) (programs s).


(** The invariant of the cache: cached references point to live programs
    with a positive count, no reference and no cache key occurs twice, a
    program outside the cache has a count of zero or less, and a GPU
    program has been deleted once if its instance left the cache and not
    at all otherwise. *)
Record Inv (s : State) : Prop := {
  inv_live : forall r, r ∈ programs s ->
               exists p, heap s !! r = Some p /\ 1 <= usedTimes p;
  inv_nodup : NoDup (programs s);
  inv_keys : NoDup (cached_keys s);
  inv_handle : forall r p, heap s !! r = Some p -> handle p = Z.of_nat r;
  inv_dead : forall r p, heap s !! r = Some p -> r ∉ programs s ->
               usedTimes p <= 0;
  inv_deleted : forall r p, heap s !! r = Some p ->
                  deletions r s = if decide (r ∈ programs s) then 0%nat else 1%nat;
  inv_fresh : forall r, heap s !! r = None -> deletions r s = 0%nat
}.

End Programs.

(** ** WebGLState.js: the state tracker *)

(** The constants of the graphics API that the tracker uses. *)
Module gl.
Definition ZERO : Z := 0.
Definition ONE : Z := 1.
Definition SRC_COLOR : Z := 768.
Definition ONE_MINUS_SRC_COLOR : Z := 769.
Definition SRC_ALPHA : Z := 770.
Definition ONE_MINUS_SRC_ALPHA : Z := 771.
Definition DST_ALPHA : Z := 772.
Definition ONE_MINUS_DST_ALPHA : Z := 773.
Definition DST_COLOR : Z := 774.
Definition ONE_MINUS_DST_COLOR : Z := 775.
Definition SRC_ALPHA_SATURATE : Z := 776.
Definition CONSTANT_COLOR : Z := 32769.
Definition ONE_MINUS_CONSTANT_COLOR : Z := 32770.
Definition CONSTANT_ALPHA : Z := 32771.
Definition ONE_MINUS_CONSTANT_ALPHA : Z := 32772.
Definition FUNC_ADD : Z := 32774.
Definition MIN : Z := 32775.
Definition MAX : Z := 32776.
Definition FUNC_SUBTRACT : Z := 32778.
Definition FUNC_REVERSE_SUBTRACT : Z := 32779.
Definition NEVER : Z := 512.
Definition LEQUAL : Z := 515.
Definition ALWAYS : Z := 519.
Definition FRONT : Z := 1028.
Definition BACK : Z := 1029.
Definition FRONT_AND_BACK : Z := 1032.
Definition CW : Z := 2304.
Definition CCW : Z := 2305.
Definition CULL_FACE : Z := 2884.
Definition DEPTH_TEST : Z := 2929.
Definition STENCIL_TEST : Z := 2960.
Definition BLEND : Z := 3042.
Definition SCISSOR_TEST : Z := 3089.
Definition POLYGON_OFFSET_FILL : Z := 32823.
Definition SAMPLE_ALPHA_TO_COVERAGE : Z := 32926.
Definition READ_FRAMEBUFFER : Z := 36008.
Definition DRAW_FRAMEBUFFER : Z := 36009.
Definition FRAMEBUFFER : Z := 36160.
Definition COLOR_ATTACHMENT0 : Z := 36064.
Definition TEXTURE_CUBE_MAP_POSITIVE_X : Z := 34069.
Definition BYTE : Z := 5120.
Definition UNSIGNED_BYTE : Z := 5121.
Definition SHORT : Z := 5122.
Definition UNSIGNED_SHORT : Z := 5123.
Definition INT : Z := 5124.
Definition UNSIGNED_INT : Z := 5125.
Definition FLOAT : Z := 5126.
Definition HALF_FLOAT : Z := 5131.
End gl.

Module WebGLState.

(** The enumerations of constants.js that the tracker switches on. *)
Inductive Blending :=
| NoBlending | NormalBlending | AdditiveBlending | SubtractiveBlending
| MultiplyBlending | CustomBlending | InvalidBlending (n : Z).

Inductive Equation :=
| AddEquation | SubtractEquation | ReverseSubtractEquation
| MinEquation | MaxEquation.

Inductive Factor :=
| ZeroFactor | OneFactor | SrcColorFactor | SrcAlphaFactor
| SrcAlphaSaturateFactor | DstColorFactor | DstAlphaFactor
| OneMinusSrcColorFactor | OneMinusSrcAlphaFactor
| OneMinusDstColorFactor | OneMinusDstAlphaFactor
| ConstantColorFactor | OneMinusConstantColorFactor
| ConstantAlphaFactor | OneMinusConstantAlphaFactor.

Inductive CullFace :=
| CullFaceNone | CullFaceBack | CullFaceFront | CullFaceFrontBack.

Inductive DepthFunc :=
| NeverDepth | AlwaysDepth | LessDepth | LessEqualDepth | EqualDepth
| GreaterEqualDepth | GreaterDepth | NotEqualDepth.

#[global] Instance Blending_eq_dec : EqDecision Blending.
Proof. solve_decision. Defined.
#[global] Instance Equation_eq_dec : EqDecision Equation.
Proof. solve_decision. Defined.
#[global] Instance Factor_eq_dec : EqDecision Factor.
Proof. solve_decision. Defined.
#[global] Instance CullFace_eq_dec : EqDecision CullFace.
Proof. solve_decision. Defined.
#[global] Instance DepthFunc_eq_dec : EqDecision DepthFunc.
Proof. solve_decision. Defined.

(** [a !== b] on values compared by identity. *)
Definition neq {A : Type} `{EqDecision A} (a b : A) : bool :=
  bool_decide (a <> b).

Record Color := { r : Q; g : Q; b : Q }.

Definition Color_equals (c c' : Color) : bool :=
  Qeq_bool (r c') (r c) && Qeq_bool (g c') (g c) && Qeq_bool (b c') (b c).

Record Vector4 := { x : Q; y : Q; z : Q; w : Q }.

Definition Vector4_equals (u v : Vector4) : bool :=
  Qeq_bool (x v) (x u) && Qeq_bool (y v) (y u) &&
  Qeq_bool (z v) (z u) && Qeq_bool (w v) (w u).

(** Calls into the graphics API (and the console), as they are logged. *)
Inductive GLCall :=
| gl_enable (id : Z)
| gl_disable (id : Z)
| gl_bindFramebuffer (target : Z) (framebuffer : option Z)
| gl_drawBuffers (bufs : list Z)
| gl_useProgram (program : option Z)
| gl_blendEquation (mode : Z)
| gl_blendEquationSeparate (modeRGB modeAlpha : Z)
| gl_blendFunc (sfactor dfactor : Z)
| gl_blendFuncSeparate (srcRGB dstRGB srcAlpha dstAlpha : Z)
| gl_blendColor (red green blue alpha : Q)
| gl_frontFace (mode : Z)
| gl_cullFace (mode : Z)
| gl_colorMask (red green blue alpha : bool)
| gl_depthMask (flag : bool)
| gl_depthFunc (func : Z)
| gl_stencilMask (mask : Z)
| gl_stencilFunc (func ref mask : Z)
| gl_stencilOp (fail zfail zpass : Z)
| gl_clearColor (red green blue alpha : Q)
| gl_clearDepth (depth : Q)
| gl_clearStencil (s : Z)
| gl_scissor (x y width height : Q)
| gl_viewport (x y width height : Q)
| gl_framebufferTexture2D (target attachment textarget : Z)
                          (texture : option Z) (level : Z)
| gl_framebufferTextureLayer (target attachment : Z)
                             (texture : option Z) (level layer : Z)
| console_error (blending : Blending).

Record ColorBuffer := {
  color_locked : bool;
  currentColorMask : option bool;
  currentColorClear : Vector4
}.

Record DepthBuffer := {
  depth_locked : bool;
  currentDepthMask : option bool;
  currentDepthFunc : option DepthFunc;
  currentDepthClear : option Q
}.

Record StencilBuffer := {
  stencil_locked : bool;
  currentStencilMask : option Z;
  currentStencilFunc : option Z;
  currentStencilRef : option Z;
  currentStencilFuncMask : option Z;
  currentStencilFail : option Z;
  currentStencilZFail : option Z;
  currentStencilZPass : option Z;
  currentStencilClear : option Z
}.

Record Blend := {
  currentBlendingEnabled : bool;
  currentBlending : option Blending;
  currentBlendEquation : option Equation;
  currentBlendSrc : option Factor;
  currentBlendDst : option Factor;
  currentBlendEquationAlpha : option Equation;
  currentBlendSrcAlpha : option Factor;
  currentBlendDstAlpha : option Factor;
  currentBlendColor : Color;
  currentBlendAlpha : Q;
  currentPremultipledAlpha : option bool
}.

(** The variables of the closure of [WebGLState] that the setters below
    use, and the log of the calls issued so far. *)
Record State := {
  calls : list GLCall;
  enabledCapabilities : gmap Z bool;
  currentBoundFramebuffers : gmap Z (option Z);
  currentDrawbuffers : gmap Z (list Z);
  defaultDrawbuffers : list Z;
  currentProgram : option Z;
  blend : Blend;
  currentFlipSided : option bool;
  currentCullFace : option CullFace;
  colorBuffer : ColorBuffer;
  depthBuffer : DepthBuffer;
  stencilBuffer : StencilBuffer;
  currentScissor : Vector4;
  currentViewport : Vector4
}.

(** Field updates. *)
Definition issue (c : GLCall) (s : State) : State :=
  {| calls := calls s ++ [c];
     enabledCapabilities := enabledCapabilities s;
     currentBoundFramebuffers := currentBoundFramebuffers s;
     currentDrawbuffers := currentDrawbuffers s;
     defaultDrawbuffers := defaultDrawbuffers s;
     currentProgram := currentProgram s; blend := blend s;
     currentFlipSided := currentFlipSided s;
     currentCullFace := currentCullFace s;
     colorBuffer := colorBuffer s; depthBuffer := depthBuffer s;
     stencilBuffer := stencilBuffer s;
     currentScissor := currentScissor s;
     currentViewport := currentViewport s |}.

Definition set_enabledCapabilities (m : gmap Z bool) (s : State) : State :=
  {| calls := calls s;
     enabledCapabilities := m;
     currentBoundFramebuffers := currentBoundFramebuffers s;
     currentDrawbuffers := currentDrawbuffers s;
     defaultDrawbuffers := defaultDrawbuffers s;
     currentProgram := currentProgram s; blend := blend s;
     currentFlipSided := currentFlipSided s;
     currentCullFace := currentCullFace s;
     colorBuffer := colorBuffer s; depthBuffer := depthBuffer s;
     stencilBuffer := stencilBuffer s;
     currentScissor := currentScissor s;
     currentViewport := currentViewport s |}.

Definition set_currentBoundFramebuffers (m : gmap Z (option Z)) (s : State) : State :=
  {| calls := calls s;
     enabledCapabilities := enabledCapabilities s;
     currentBoundFramebuffers := m;
     currentDrawbuffers := currentDrawbuffers s;
     defaultDrawbuffers := defaultDrawbuffers s;
     currentProgram := currentProgram s; blend := blend s;
     currentFlipSided := currentFlipSided s;
     currentCullFace := currentCullFace s;
     colorBuffer := colorBuffer s; depthBuffer := depthBuffer s;
     stencilBuffer := stencilBuffer s;
     currentScissor := currentScissor s;
     currentViewport := currentViewport s |}.

Definition set_drawbuffers (m : gmap Z (list Z)) (d : list Z) (s : State) : State :=
  {| calls := calls s;
     enabledCapabilities := enabledCapabilities s;
     currentBoundFramebuffers := currentBoundFramebuffers s;
     currentDrawbuffers := m;
     defaultDrawbuffers := d;
     currentProgram := currentProgram s; blend := blend s;
     currentFlipSided := currentFlipSided s;
     currentCullFace := currentCullFace s;
     colorBuffer := colorBuffer s; depthBuffer := depthBuffer s;
     stencilBuffer := stencilBuffer s;
     currentScissor := currentScissor s;
     currentViewport := currentViewport s |}.


Definition set_blend (bl : Blend) (s : State) : State :=
  {| calls := calls s;
     enabledCapabilities := enabledCapabilities s;
     currentBoundFramebuffers := currentBoundFramebuffers s;
     currentDrawbuffers := currentDrawbuffers s;
     defaultDrawbuffers := defaultDrawbuffers s;
     currentProgram := currentProgram s; blend := bl;
     currentFlipSided := currentFlipSided s;
     currentCullFace := currentCullFace s;
     colorBuffer := colorBuffer s; depthBuffer := depthBuffer s;
     stencilBuffer := stencilBuffer s;
     currentScissor := currentScissor s;
     currentViewport := currentViewport s |}.

Definition set_currentFlipSided (f : option bool) (s : State) : State :=
  {| calls := calls s;
     enabledCapabilities := enabledCapabilities s;
     currentBoundFramebuffers := currentBoundFramebuffers s;
     currentDrawbuffers := currentDrawbuffers s;
     defaultDrawbuffers := defaultDrawbuffers s;
     currentProgram := currentProgram s; blend := blend s;
     currentFlipSided := f;
     currentCullFace := currentCullFace s;
     colorBuffer := colorBuffer s; depthBuffer := depthBuffer s;
     stencilBuffer := stencilBuffer s;
     currentScissor := currentScissor s;
     currentViewport := currentViewport s |}.

Definition set_currentCullFace (c : option CullFace) (s : State) : State :=
  {| calls := calls s;
     enabledCapabilities := enabledCapabilities s;
     currentBoundFramebuffers := currentBoundFramebuffers s;
     currentDrawbuffers := currentDrawbuffers s;
     defaultDrawbuffers := defaultDrawbuffers s;
     currentProgram := currentProgram s; blend := blend s;
     currentFlipSided := currentFlipSided s;
     currentCullFace := c;
     colorBuffer := colorBuffer s; depthBuffer := depthBuffer s;
     stencilBuffer := stencilBuffer s;
     currentScissor := currentScissor s;
     currentViewport := currentViewport s |}.

Definition set_colorBuffer (c : ColorBuffer) (s : State) : State :=
  {| calls := calls s;
     enabledCapabilities := enabledCapabilities s;
     currentBoundFramebuffers := currentBoundFramebuffers s;
     currentDrawbuffers := currentDrawbuffers s;
     defaultDrawbuffers := defaultDrawbuffers s;
     currentProgram := currentProgram s; blend := blend s;
     currentFlipSided := currentFlipSided s;
     currentCullFace := currentCullFace s;
     colorBuffer := c; depthBuffer := depthBuffer s;
     stencilBuffer := stencilBuffer s;
     currentScissor := currentScissor s;
     currentViewport := currentViewport s |}.

Definition set_depthBuffer (d : DepthBuffer) (s : State) : State :=
  {| calls := calls s;
     enabledCapabilities := enabledCapabilities s;
     currentBoundFramebuffers := currentBoundFramebuffers s;
     currentDrawbuffers := currentDrawbuffers s;
     defaultDrawbuffers := defaultDrawbuffers s;
     currentProgram := currentProgram s; blend := blend s;
     currentFlipSided := currentFlipSided s;
     currentCullFace := currentCullFace s;
     colorBuffer := colorBuffer s; depthBuffer := d;
     stencilBuffer := stencilBuffer s;
     currentScissor := currentScissor s;
     currentViewport := currentViewport s |}.

Definition set_stencilBuffer (b : StencilBuffer) (s : State) : State :=
  {| calls := calls s;
     enabledCapabilities := enabledCapabilities s;
     currentBoundFramebuffers := currentBoundFramebuffers s;
     currentDrawbuffers := currentDrawbuffers s;
     defaultDrawbuffers := defaultDrawbuffers s;
     currentProgram := currentProgram s; blend := blend s;
     currentFlipSided := currentFlipSided s;
     currentCullFace := currentCullFace s;
     colorBuffer := colorBuffer s; depthBuffer := depthBuffer s;
     stencilBuffer := b;
     currentScissor := currentScissor s;
     currentViewport := currentViewport s |}.

Definition set_currentScissor (v : Vector4) (s : State) : State :=
  {| calls := calls s;
     enabledCapabilities := enabledCapabilities s;
     currentBoundFramebuffers := currentBoundFramebuffers s;
     currentDrawbuffers := currentDrawbuffers s;
     defaultDrawbuffers := defaultDrawbuffers s;
     currentProgram := currentProgram s; blend := blend s;
     currentFlipSided := currentFlipSided s;
     currentCullFace := currentCullFace s;
     colorBuffer := colorBuffer s; depthBuffer := depthBuffer s;
     stencilBuffer := stencilBuffer s;
     currentScissor := v;
     currentViewport := currentViewport s |}.

Definition set_currentViewport (v : Vector4) (s : State) : State :=
  {| calls := calls s;
     enabledCapabilities := enabledCapabilities s;
     currentBoundFramebuffers := currentBoundFramebuffers s;
     currentDrawbuffers := currentDrawbuffers s;
     defaultDrawbuffers := defaultDrawbuffers s;
     currentProgram := currentProgram s; blend := blend s;
     currentFlipSided := currentFlipSided s;
     currentCullFace := currentCullFace s;
     colorBuffer := colorBuffer s; depthBuffer := depthBuffer s;
     stencilBuffer := stencilBuffer s;
     currentScissor := currentScissor s;
     currentViewport := v |}.

(** *** Capabilities, framebuffers, program *)

Definition enable (id : Z) (s : State) : State :=
  if neq (enabledCapabilities s !! id) (Some true) then
    set_enabledCapabilities (<[id := true]> (enabledCapabilities s))
                            (issue (gl_enable id) s)
  else s.

Definition disable (id : Z) (s : State) : State :=
  if neq (enabledCapabilities s !! id) (Some false) then
    set_enabledCapabilities (<[id := false]> (enabledCapabilities s))
                            (issue (gl_disable id) s)
  else s.

(** [framebuffer] is [null] ([None]) or a framebuffer object; an entry of
    [currentBoundFramebuffers] that was never written is [undefined]. *)
Definition bindFramebuffer (target : Z) (framebuffer : option Z) (s : State)
  : bool * State :=
  if neq (currentBoundFramebuffers s !! target) (Some framebuffer) then
    let s1 := issue (gl_bindFramebuffer target framebuffer) s in
    let m1 := <[target := framebuffer]> (currentBoundFramebuffers s1) in
    let m2 := if target =? gl.DRAW_FRAMEBUFFER
              then <[gl.FRAMEBUFFER := framebuffer]> m1 else m1 in
    let m3 := if target =? gl.FRAMEBUFFER
              then <[gl.DRAW_FRAMEBUFFER := framebuffer]> m2 else m2 in
    (true, set_currentBoundFramebuffers m3 s1)
  else (false, s).

(** [drawBuffers( renderTarget, framebuffer )]; of the render target only
    the number of its textures is read.  With a render target the
    framebuffer is the key of a WeakMap and has to be an object; the
    renderer passes [null] only together with a [null] render target. *)
Definition drawBuffers (renderTarget : option nat) (framebuffer : option Z)
           (s : State) : State :=
  match renderTarget with
  | Some textures_length =>
      match framebuffer with
      | Some fb =>
          let bufs := default [] (currentDrawbuffers s !! fb) in
          if negb (length bufs =? textures_length)%nat
             || neq (head bufs) (Some gl.COLOR_ATTACHMENT0) then
            let bufs' := (fun i => gl.COLOR_ATTACHMENT0 + Z.of_nat i)
                           <$> seq 0 textures_length in
            issue (gl_drawBuffers bufs')
                  (set_drawbuffers (<[fb := bufs']> (currentDrawbuffers s))
                                   (defaultDrawbuffers s) s)
          else s
      | None => s
      end
  | None =>
      if neq (head (defaultDrawbuffers s)) (Some gl.BACK) then
        let bufs' := gl.BACK :: tail (defaultDrawbuffers s) in
        issue (gl_drawBuffers bufs')
              (set_drawbuffers (currentDrawbuffers s) bufs' s)
      else s
  end.


(** *** Color, depth and stencil buffers *)

(** Truthiness of a parameter that is a boolean or [undefined]. *)
Definition is_true (b : option bool) : bool :=
  match b with Some true => true | _ => false end.


(** [setClear( r, g, b, a, premultipliedAlpha )]. *)
Definition colorBuffer_setClear (r g b a : Q) (premultipliedAlpha : option bool)
           (s : State) : State :=
  let '(r, g, b) :=
    if is_true premultipliedAlpha then ((r * a)%Q, (g * a)%Q, (b * a)%Q)
    else (r, g, b) in
  let color := {| x := r; y := g; z := b; w := a |} in
  if negb (Vector4_equals (currentColorClear (colorBuffer s)) color) then
    set_colorBuffer {| color_locked := color_locked (colorBuffer s);
                       currentColorMask := currentColorMask (colorBuffer s);
                       currentColorClear := color |}
                    (issue (gl_clearColor r g b a) s)
  else s.

Definition colorBuffer_setLocked (lock : bool) (s : State) : State :=
  set_colorBuffer {| color_locked := lock;
                     currentColorMask := currentColorMask (colorBuffer s);
                     currentColorClear := currentColorClear (colorBuffer s) |} s.



(** The [switch] of [setFunc] has the cases [NeverDepth] and
    [AlwaysDepth]; every other value takes the [default]. *)
Definition depthFuncToGL (depthFunc : DepthFunc) : Z :=
  match depthFunc with
  | NeverDepth => gl.NEVER
  | AlwaysDepth => gl.ALWAYS
  | _ => gl.LEQUAL
  end.

Definition depthBuffer_setFunc (depthFunc : DepthFunc) (s : State) : State :=
  if neq (currentDepthFunc (depthBuffer s)) (Some depthFunc) then
    set_depthBuffer {| depth_locked := depth_locked (depthBuffer s);
                       currentDepthMask := currentDepthMask (depthBuffer s);
                       currentDepthFunc := Some depthFunc;
                       currentDepthClear := currentDepthClear (depthBuffer s) |}
                    (issue (gl_depthFunc (depthFuncToGL depthFunc)) s)
  else s.

Definition depthBuffer_setClear (depth : Q) (s : State) : State :=
  if match currentDepthClear (depthBuffer s) with
     | Some d => num_neq d depth
     | None => true
     end then
    set_depthBuffer {| depth_locked := depth_locked (depthBuffer s);
                       currentDepthMask := currentDepthMask (depthBuffer s);
                       currentDepthFunc := currentDepthFunc (depthBuffer s);
                       currentDepthClear := Some depth |}
                    (issue (gl_clearDepth depth) s)
  else s.






Definition stencilBuffer_setClear (stencil : Z) (s : State) : State :=
  let sb := stencilBuffer s in
  if neq (currentStencilClear sb) (Some stencil) then
    set_stencilBuffer
      {| stencil_locked := stencil_locked sb;
         currentStencilMask := currentStencilMask sb;
         currentStencilFunc := currentStencilFunc sb;
         currentStencilRef := currentStencilRef sb;
         currentStencilFuncMask := currentStencilFuncMask sb;
         currentStencilFail := currentStencilFail sb;
         currentStencilZFail := currentStencilZFail sb;
         currentStencilZPass := currentStencilZPass sb;
         currentStencilClear := Some stencil |}
      (issue (gl_clearStencil stencil) s)
  else s.

Definition stencilBuffer_setLocked (lock : bool) (s : State) : State :=
  let sb := stencilBuffer s in
  set_stencilBuffer
    {| stencil_locked := lock;
       currentStencilMask := currentStencilMask sb;
       currentStencilFunc := currentStencilFunc sb;
       currentStencilRef := currentStencilRef sb;
       currentStencilFuncMask := currentStencilFuncMask sb;
       currentStencilFail := currentStencilFail sb;
       currentStencilZFail := currentStencilZFail sb;
       currentStencilZPass := currentStencilZPass sb;
         currentStencilClear := currentStencilClear sb |} s.

(** *** Face culling *)

Definition setFlipSided (flipSided : bool) (s : State) : State :=
  if neq (currentFlipSided s) (Some flipSided) then
    set_currentFlipSided (Some flipSided)
      (issue (gl_frontFace (if flipSided then gl.CW else gl.CCW)) s)
  else s.

Definition cullFaceToGL (cullFace : CullFace) : Z :=
  match cullFace with
  | CullFaceBack => gl.BACK
  | CullFaceFront => gl.FRONT
  | _ => gl.FRONT_AND_BACK
  end.

Definition setCullFace (cullFace : CullFace) (s : State) : State :=
  let s1 :=
    if neq cullFace CullFaceNone then
      let s2 := enable gl.CULL_FACE s in
      if neq (Some cullFace) (currentCullFace s2) then
        issue (gl_cullFace (cullFaceToGL cullFace)) s2
      else s2
    else disable gl.CULL_FACE s in
  set_currentCullFace (Some cullFace) s1.

Definition setScissorTest (scissorTest : bool) (s : State) : State :=
  if scissorTest then enable gl.SCISSOR_TEST s else disable gl.SCISSOR_TEST s.

(** *** Blending *)

Definition equationToGL (e : Equation) : Z :=
  match e with
  | AddEquation => gl.FUNC_ADD
  | SubtractEquation => gl.FUNC_SUBTRACT
  | ReverseSubtractEquation => gl.FUNC_REVERSE_SUBTRACT
  | MinEquation => gl.MIN
  | MaxEquation => gl.MAX
  end.

Definition factorToGL (f : Factor) : Z :=
  match f with
  | ZeroFactor => gl.ZERO
  | OneFactor => gl.ONE
  | SrcColorFactor => gl.SRC_COLOR
  | SrcAlphaFactor => gl.SRC_ALPHA
  | SrcAlphaSaturateFactor => gl.SRC_ALPHA_SATURATE
  | DstColorFactor => gl.DST_COLOR
  | DstAlphaFactor => gl.DST_ALPHA
  | OneMinusSrcColorFactor => gl.ONE_MINUS_SRC_COLOR
  | OneMinusSrcAlphaFactor => gl.ONE_MINUS_SRC_ALPHA
  | OneMinusDstColorFactor => gl.ONE_MINUS_DST_COLOR
  | OneMinusDstAlphaFactor => gl.ONE_MINUS_DST_ALPHA
  | ConstantColorFactor => gl.CONSTANT_COLOR
  | OneMinusConstantColorFactor => gl.ONE_MINUS_CONSTANT_COLOR
  | ConstantAlphaFactor => gl.CONSTANT_ALPHA
  | OneMinusConstantAlphaFactor => gl.ONE_MINUS_CONSTANT_ALPHA
  end.

(** The arguments of [setBlending] after [blending], as a material
    supplies them: the three [...Alpha] parameters may be [null], and
    [premultipliedAlpha] is [undefined] when the call passes [blending]
    only. *)
Record BlendParams := {
  blendEquation : Equation;
  blendSrc : Factor;
  blendDst : Factor;
  blendEquationAlpha : option Equation;
  blendSrcAlpha : option Factor;
  blendDstAlpha : option Factor;
  blendColor : Color;
  blendAlpha : Q;
  premultipliedAlpha : option bool
}.

(** Updates of the blending variables. *)
Definition with_enabled (e : bool) (bl : Blend) : Blend :=
  {| currentBlendingEnabled := e;
     currentBlending := currentBlending bl;
     currentBlendEquation := currentBlendEquation bl;
     currentBlendSrc := currentBlendSrc bl;
     currentBlendDst := currentBlendDst bl;
     currentBlendEquationAlpha := currentBlendEquationAlpha bl;
     currentBlendSrcAlpha := currentBlendSrcAlpha bl;
     currentBlendDstAlpha := currentBlendDstAlpha bl;
     currentBlendColor := currentBlendColor bl;
     currentBlendAlpha := currentBlendAlpha bl;
     currentPremultipledAlpha := currentPremultipledAlpha bl |}.

Definition with_equations (e ea : option Equation) (bl : Blend) : Blend :=
  {| currentBlendingEnabled := currentBlendingEnabled bl;
     currentBlending := currentBlending bl;
     currentBlendEquation := e;
     currentBlendSrc := currentBlendSrc bl;
     currentBlendDst := currentBlendDst bl;
     currentBlendEquationAlpha := ea;
     currentBlendSrcAlpha := currentBlendSrcAlpha bl;
     currentBlendDstAlpha := currentBlendDstAlpha bl;
     currentBlendColor := currentBlendColor bl;
     currentBlendAlpha := currentBlendAlpha bl;
     currentPremultipledAlpha := currentPremultipledAlpha bl |}.

Definition with_factors (src dst srcA dstA : option Factor) (bl : Blend) : Blend :=
  {| currentBlendingEnabled := currentBlendingEnabled bl;
     currentBlending := currentBlending bl;
     currentBlendEquation := currentBlendEquation bl;
     currentBlendSrc := src;
     currentBlendDst := dst;
     currentBlendEquationAlpha := currentBlendEquationAlpha bl;
     currentBlendSrcAlpha := srcA;
     currentBlendDstAlpha := dstA;
     currentBlendColor := currentBlendColor bl;
     currentBlendAlpha := currentBlendAlpha bl;
     currentPremultipledAlpha := currentPremultipledAlpha bl |}.

Definition with_color (c : Color) (a : Q) (bl : Blend) : Blend :=
  {| currentBlendingEnabled := currentBlendingEnabled bl;
     currentBlending := currentBlending bl;
     currentBlendEquation := currentBlendEquation bl;
     currentBlendSrc := currentBlendSrc bl;
     currentBlendDst := currentBlendDst bl;
     currentBlendEquationAlpha := currentBlendEquationAlpha bl;
     currentBlendSrcAlpha := currentBlendSrcAlpha bl;
     currentBlendDstAlpha := currentBlendDstAlpha bl;
     currentBlendColor := c;
     currentBlendAlpha := a;
     currentPremultipledAlpha := currentPremultipledAlpha bl |}.

Definition with_blending (b : option Blending) (p : option bool) (bl : Blend) : Blend :=
  {| currentBlendingEnabled := currentBlendingEnabled bl;
     currentBlending := b;
     currentBlendEquation := currentBlendEquation bl;
     currentBlendSrc := currentBlendSrc bl;
     currentBlendDst := currentBlendDst bl;
     currentBlendEquationAlpha := currentBlendEquationAlpha bl;
     currentBlendSrcAlpha := currentBlendSrcAlpha bl;
     currentBlendDstAlpha := currentBlendDstAlpha bl;
     currentBlendColor := currentBlendColor bl;
     currentBlendAlpha := currentBlendAlpha bl;
     currentPremultipledAlpha := p |}.

Definition set_currentBlendingEnabled (e : bool) (s : State) : State :=
  set_blend (with_enabled e (blend s)) s.

Definition set_blendEquations (e ea : option Equation) (s : State) : State :=
  set_blend (with_equations e ea (blend s)) s.

Definition set_blendFactors (src dst srcA dstA : option Factor) (s : State) : State :=
  set_blend (with_factors src dst srcA dstA (blend s)) s.

Definition set_blendColor (c : Color) (a : Q) (s : State) : State :=
  set_blend (with_color c a (blend s)) s.

Definition set_currentBlending (b : option Blending) (p : option bool)
           (s : State) : State :=
  set_blend (with_blending b p (blend s)) s.

(** The two [switch] statements of the built-in blending modes. *)
Definition blendFunc_call (premultiplied : bool) (blending : Blending) : GLCall :=
  if premultiplied then
    match blending with
    | NormalBlending =>
        gl_blendFuncSeparate gl.ONE gl.ONE_MINUS_SRC_ALPHA gl.ONE gl.ONE_MINUS_SRC_ALPHA
    | AdditiveBlending => gl_blendFunc gl.ONE gl.ONE
    | SubtractiveBlending =>
        gl_blendFuncSeparate gl.ZERO gl.ONE_MINUS_SRC_COLOR gl.ZERO gl.ONE
    | MultiplyBlending =>
        gl_blendFuncSeparate gl.ZERO gl.SRC_COLOR gl.ZERO gl.SRC_ALPHA
    | _ => console_error blending
    end
  else
    match blending with
    | NormalBlending =>
        gl_blendFuncSeparate gl.SRC_ALPHA gl.ONE_MINUS_SRC_ALPHA
                             gl.ONE gl.ONE_MINUS_SRC_ALPHA
    | AdditiveBlending => gl_blendFunc gl.SRC_ALPHA gl.ONE
    | SubtractiveBlending =>
        gl_blendFuncSeparate gl.ZERO gl.ONE_MINUS_SRC_COLOR gl.ZERO gl.ONE
    | MultiplyBlending => gl_blendFunc gl.ZERO gl.SRC_COLOR
    | _ => console_error blending
    end.

(** [a || b] for a value that is [null] or an enumeration constant (no
    constant is zero). *)
Definition or_else {A : Type} (a : option A) (b : A) : A := default b a.

Definition setBlending (blending : Blending) (p : BlendParams) (s : State) : State :=
  if bool_decide (blending = NoBlending) then
    if currentBlendingEnabled (blend s) then
      set_currentBlendingEnabled false (disable gl.BLEND s)
    else s
  else
    let s1 :=
      if negb (currentBlendingEnabled (blend s)) then
        set_currentBlendingEnabled true (enable gl.BLEND s)
      else s in
    if neq blending CustomBlending then
      if neq (Some blending) (currentBlending (blend s1))
         || neq (premultipliedAlpha p) (currentPremultipledAlpha (blend s1)) then
        let s2 :=
          if neq (currentBlendEquation (blend s1)) (Some AddEquation)
             || neq (currentBlendEquationAlpha (blend s1)) (Some AddEquation) then
            set_blendEquations (Some AddEquation) (Some AddEquation)
                               (issue (gl_blendEquation gl.FUNC_ADD) s1)
          else s1 in
        let s3 := issue (blendFunc_call (is_true (premultipliedAlpha p)) blending) s2 in
        let s4 := set_blendFactors None None None None s3 in
        let s5 := set_blendColor {| r := 0; g := 0; b := 0 |} 0 s4 in
        set_currentBlending (Some blending) (premultipliedAlpha p) s5
      else s1
    else
      let blendEquationAlpha' := or_else (blendEquationAlpha p) (blendEquation p) in
      let blendSrcAlpha' := or_else (blendSrcAlpha p) (blendSrc p) in
      let blendDstAlpha' := or_else (blendDstAlpha p) (blendDst p) in
      let s2 :=
        if neq (Some (blendEquation p)) (currentBlendEquation (blend s1))
           || neq (Some blendEquationAlpha') (currentBlendEquationAlpha (blend s1)) then
          set_blendEquations (Some (blendEquation p)) (Some blendEquationAlpha')
            (issue (gl_blendEquationSeparate (equationToGL (blendEquation p))
                                             (equationToGL blendEquationAlpha')) s1)
        else s1 in
      let s3 :=
        if neq (Some (blendSrc p)) (currentBlendSrc (blend s2))
           || neq (Some (blendDst p)) (currentBlendDst (blend s2))
           || neq (Some blendSrcAlpha') (currentBlendSrcAlpha (blend s2))
           || neq (Some blendDstAlpha') (currentBlendDstAlpha (blend s2)) then
          set_blendFactors (Some (blendSrc p)) (Some (blendDst p))
                           (Some blendSrcAlpha') (Some blendDstAlpha')
            (issue (gl_blendFuncSeparate (factorToGL (blendSrc p))
                                         (factorToGL (blendDst p))
                                         (factorToGL blendSrcAlpha')
                                         (factorToGL blendDstAlpha')) s2)
        else s2 in
      let s4 :=
        if negb (Color_equals (blendColor p) (currentBlendColor (blend s3)))
           || num_neq (blendAlpha p) (currentBlendAlpha (blend s3)) then
          set_blendColor (blendColor p) (blendAlpha p)
            (issue (gl_blendColor (r (blendColor p)) (g (blendColor p))
                                  (b (blendColor p)) (blendAlpha p)) s3)
        else s3 in
      set_currentBlending (Some blending) (Some false) s4.







(** *** Scissor and viewport *)

Definition scissor (v : Vector4) (s : State) : State :=
  if negb (Vector4_equals (currentScissor s) v) then
    set_currentScissor v (issue (gl_scissor (x v) (y v) (z v) (w v)) s)
  else s.

Definition viewport (v : Vector4) (s : State) : State :=
  if negb (Vector4_equals (currentViewport s) v) then
    set_currentViewport v (issue (gl_viewport (x v) (y v) (z v) (w v)) s)
  else s.

(** *** The tracker after construction *)

(** The values of the closure variables before the constructor's own
    setter calls; [scissorParam] and [viewportParam] are what
    [gl.getParameter] reports. *)
Definition blank (scissorParam viewportParam : Vector4) : State :=
  {| calls := [];
     enabledCapabilities := ∅;
     currentBoundFramebuffers := ∅;
     currentDrawbuffers := ∅;
     defaultDrawbuffers := [];
     currentProgram := None;
     blend := {| currentBlendingEnabled := false;
                 currentBlending := None;
                 currentBlendEquation := None;
                 currentBlendSrc := None;
                 currentBlendDst := None;
                 currentBlendEquationAlpha := None;
                 currentBlendSrcAlpha := None;
                 currentBlendDstAlpha := None;
                 currentBlendColor := {| r := 0; g := 0; b := 0 |};
                 currentBlendAlpha := 0;
                 currentPremultipledAlpha := Some false |};
     currentFlipSided := None;
     currentCullFace := None;
     colorBuffer := {| color_locked := false; currentColorMask := None;
                       currentColorClear := {| x := 0; y := 0; z := 0; w := 0 |} |};
     depthBuffer := {| depth_locked := false; currentDepthMask := None;
                       currentDepthFunc := None; currentDepthClear := None |};
     stencilBuffer := {| stencil_locked := false;
                         currentStencilMask := None;
                         currentStencilFunc := None;
                         currentStencilRef := None;
                         currentStencilFuncMask := None;
                         currentStencilFail := None;
                         currentStencilZFail := None;
                         currentStencilZPass := None;
                         currentStencilClear := None |};
     currentScissor := scissorParam;
     currentViewport := viewportParam |}.

Definition no_params : BlendParams :=
  {| blendEquation := AddEquation; blendSrc := OneFactor; blendDst := ZeroFactor;
     blendEquationAlpha := None; blendSrcAlpha := None; blendDstAlpha := None;
     blendColor := {| r := 0; g := 0; b := 0 |}; blendAlpha := 0;
     premultipliedAlpha := None |}.

(** The [init] block of the constructor. *)
Definition initial (scissorParam viewportParam : Vector4) : State :=
  let s := blank scissorParam viewportParam in
  let s := colorBuffer_setClear 0 0 0 1 None s in
  let s := depthBuffer_setClear 1 s in
  let s := stencilBuffer_setClear 0 s in
  let s := enable gl.DEPTH_TEST s in
  let s := depthBuffer_setFunc LessEqualDepth s in
  let s := setFlipSided false s in
  let s := setCullFace CullFaceBack s in
  let s := enable gl.CULL_FACE s in
  setBlending NoBlending no_params s.

(** *** The setters as one family *)

Inductive Setter :=
| UseProgram (program : option Z)
| Enable (id : Z)
| Disable (id : Z)
| BindFramebuffer (target : Z) (framebuffer : option Z)
| SetFlipSided (flipSided : bool)
| SetCullFace (cullFace : CullFace)
| SetBlending (blending : Blending) (p : BlendParams)
| ColorSetMask (colorMask : bool)
| ColorSetClear (r g b a : Q) (premultipliedAlpha : option bool)
| DepthSetTest (depthTest : bool)
| DepthSetMask (depthMask : bool)
| DepthSetFunc (depthFunc : DepthFunc)
| DepthSetClear (depth : Q)
| StencilSetTest (stencilTest : bool)
| StencilSetMask (stencilMask : Z)
| StencilSetFunc (stencilFunc stencilRef stencilMask : Z)
| StencilSetOp (stencilFail stencilZFail stencilZPass : Z)
| StencilSetClear (stencil : Z).




Definition opt_num_eq (a : option Q) (b : Q) : bool :=
  match a with
  | Some a => Qeq_bool a b
  | None => false
  end.

(** The mirrored snapshot already holds what the setter asks for. *)
Definition requested (c : Setter) (s : State) : bool :=
  match c with
  | UseProgram p => bool_decide (currentProgram s = p)
  | Enable id => bool_decide (enabledCapabilities s !! id = Some true)
  | Disable id => bool_decide (enabledCapabilities s !! id = Some false)
  | BindFramebuffer t fb =>
      bool_decide (currentBoundFramebuffers s !! t = Some fb)
  | SetFlipSided f => bool_decide (currentFlipSided s = Some f)
  | SetCullFace c =>
      bool_decide (currentCullFace s = Some c) &&
      bool_decide (enabledCapabilities s !! gl.CULL_FACE
                   = Some (neq c CullFaceNone))
  | SetBlending bl p =>
      let cur := blend s in
      match bl with
      | NoBlending => negb (currentBlendingEnabled cur)
      | CustomBlending =>
          currentBlendingEnabled cur &&
          bool_decide (currentBlending cur = Some CustomBlending) &&
          bool_decide (currentPremultipledAlpha cur = Some false) &&
          bool_decide (currentBlendEquation cur = Some (blendEquation p)) &&
          bool_decide (currentBlendEquationAlpha cur
                       = Some (or_else (blendEquationAlpha p) (blendEquation p))) &&
          bool_decide (currentBlendSrc cur = Some (blendSrc p)) &&
          bool_decide (currentBlendDst cur = Some (blendDst p)) &&
          bool_decide (currentBlendSrcAlpha cur
                       = Some (or_else (blendSrcAlpha p) (blendSrc p))) &&
          bool_decide (currentBlendDstAlpha cur
                       = Some (or_else (blendDstAlpha p) (blendDst p))) &&
          Color_equals (blendColor p) (currentBlendColor cur) &&
          Qeq_bool (blendAlpha p) (currentBlendAlpha cur)
      | _ =>
          currentBlendingEnabled cur &&
          bool_decide (currentBlending cur = Some bl) &&
          bool_decide (currentPremultipledAlpha cur = premultipliedAlpha p)
      end
  | ColorSetMask m => bool_decide (currentColorMask (colorBuffer s) = Some m)
  | ColorSetClear r g b a p =>
      Vector4_equals (currentColorClear (colorBuffer s))
        (if is_true p then {| x := r * a; y := g * a; z := b * a; w := a |}
         else {| x := r; y := g; z := b; w := a |})
  | DepthSetTest t =>
      bool_decide (enabledCapabilities s !! gl.DEPTH_TEST = Some t)
  | DepthSetMask m => bool_decide (currentDepthMask (depthBuffer s) = Some m)
  | DepthSetFunc f => bool_decide (currentDepthFunc (depthBuffer s) = Some f)
  | DepthSetClear d => opt_num_eq (currentDepthClear (depthBuffer s)) d
  | StencilSetTest t =>
      bool_decide (enabledCapabilities s !! gl.STENCIL_TEST = Some t)
  | StencilSetMask m =>
      bool_decide (currentStencilMask (stencilBuffer s) = Some m)
  | StencilSetFunc f r m =>
      bool_decide (currentStencilFunc (stencilBuffer s) = Some f) &&
      bool_decide (currentStencilRef (stencilBuffer s) = Some r) &&
      bool_decide (currentStencilFuncMask (stencilBuffer s) = Some m)
  | StencilSetOp a b c =>
      bool_decide (currentStencilFail (stencilBuffer s) = Some a) &&
      bool_decide (currentStencilZFail (stencilBuffer s) = Some b) &&
      bool_decide (currentStencilZPass (stencilBuffer s) = Some c)
  | StencilSetClear v =>
      bool_decide (currentStencilClear (stencilBuffer s) = Some v)
  end.


(** A viewport to build example states with. *)
Definition canvas_box : Vector4 := {| x := 0; y := 0; z := 300; w := 150 |}.

(** What a guard lets through: its call, unless the snapshot holds the
    values of the call already. *)
Definition unless (held : bool) (call : GLCall) : list GLCall :=
  if held then [] else [call].

(** What one guarded stage does: at most its call, and the blending
    variables take the stage's values. *)
Definition stage (call : GLCall) (f : Blend -> Blend) (s s' : State) : Prop :=
  (calls s' = calls s \/ calls s' = calls s ++ [call]) /\
  blend s' = f (blend s).

End WebGLState.

(** ** WebGLAttributes.js: the attribute (buffer) cache *)
Module WebGLAttributes.

Inductive ArrayKind :=
| Float32Array | Uint16Array | Int16Array | Uint32Array | Int32Array
| Int8Array | Uint8Array | Uint8ClampedArray
| OtherArray.

(** A typed array: its class, its size and its elements (by name). *)
Record TypedArray := {
  kind : ArrayKind;
  byteLength : Z;
  BYTES_PER_ELEMENT : Z;
  elements : Z
}.

Record UpdateRange := { offset : Z; count : Z }.
Record Range := { start : Z; range_count : Z }.

(** The properties that the cache reads of a [BufferAttribute], an
    [InterleavedBufferAttribute] (whose [data] refers to the
    [InterleavedBuffer] that stands in for it) or a [GLBufferAttribute]
    (which brings its own [buffer], [type] and [elementSize]). *)
Record Attribute := {
  isGLBufferAttribute : bool;
  isInterleavedBufferAttribute : bool;
  data : nat;
  array : TypedArray;
  usage : Z;
  version : Z;
  isFloat16BufferAttribute : bool;
  _updateRange : UpdateRange;
  updateRanges : list Range;
  buffer : Z;
  type : Z;
  elementSize : Z
}.

(** The record that the WeakMap [buffers] keeps per attribute; the
    records of [GLBufferAttribute]s have no [size]. *)
Record Cached := {
  cached_buffer : Z;
  cached_type : Z;
  bytesPerElement : Z;
  cached_version : Z;
  size : option Z
}.

Inductive Call :=
| gl_createBuffer (handle : Z)
| gl_bindBuffer (target handle : Z)
| gl_bufferData (target : Z) (src : TypedArray) (usage : Z)
| gl_bufferSubData (target dstByteOffset : Z) (src : TypedArray)
                   (srcRange : option (Z * Z))
| gl_deleteBuffer (handle : Z)
| onUploadCallback (attribute : nat).

(** Attribute objects live in [objects]; a reference is a key of that
    map, and [buffers] is keyed by references, as the WeakMap is keyed by
    object identity. *)
Record State := {
  objects : gmap nat Attribute;
  buffers : gmap nat Cached;
  calls : list Call;
  created : Z
}.

Inductive Result :=
| Ok (s : State)
| Throw (message : string) (s : State).

Definition resize_message : string :=
  "THREE.WebGLAttributes: The size of the buffer attribute's array buffer does not match the original size. Resizing buffer attributes is not supported.".

(** The constant part of the message; the code appends the array. *)
Definition format_message : string :=
  "THREE.WebGLAttributes: Unsupported buffer data format: ".

Definition issue (cs : list Call) (s : State) : State :=
  {| objects := objects s; buffers := buffers s;
     calls := calls s ++ cs; created := created s |}.

Definition set_buffers (m : gmap nat Cached) (s : State) : State :=
  {| objects := objects s; buffers := m; calls := calls s; created := created s |}.

Definition set_objects (m : gmap nat Attribute) (s : State) : State :=
  {| objects := m; buffers := buffers s; calls := calls s; created := created s |}.

(** The chain of [instanceof] tests of [createBuffer]. *)
Definition gl_type (a : Attribute) : option Z :=
  match kind (array a) with
  | Float32Array => Some gl.FLOAT
  | Uint16Array =>
      if isFloat16BufferAttribute a then Some gl.HALF_FLOAT
      else Some gl.UNSIGNED_SHORT
  | Int16Array => Some gl.SHORT
  | Uint32Array => Some gl.UNSIGNED_INT
  | Int32Array => Some gl.INT
  | Int8Array => Some gl.BYTE
  | Uint8Array => Some gl.UNSIGNED_BYTE
  | Uint8ClampedArray => Some gl.UNSIGNED_BYTE
  | OtherArray => None
  end.

(** [createBuffer( attribute, bufferType )]: the buffer is created and
    filled before the array class is looked at, so the calls stay issued
    when the function throws.  [gl.createBuffer()] returns a handle never
    returned before. *)
Definition createBuffer (r : nat) (a : Attribute) (bufferType : Z) (s : State)
  : (Cached + string) * State :=
  let h := created s in
  let s1 := {| objects := objects s; buffers := buffers s;
               calls := calls s ++ [gl_createBuffer h; gl_bindBuffer bufferType h;
                                    gl_bufferData bufferType (array a) (usage a);
                                    onUploadCallback r];
               created := created s + 1 |} in
  match gl_type a with
  | Some t =>
      (inl {| cached_buffer := h; cached_type := t;
              bytesPerElement := BYTES_PER_ELEMENT (array a);
              cached_version := version a;
              size := Some (byteLength (array a)) |}, s1)
  | None => (inr format_message, s1)
  end.

(** [updateBuffer( buffer, attribute, bufferType )]; it empties the
    update ranges of the attribute. *)
Definition updateBuffer (buf : Z) (r : nat) (a : Attribute) (bufferType : Z)
           (s : State) : State :=
  let whole :=
    if (count (_updateRange a) =? -1) && (length (updateRanges a) =? 0)%nat
    then [gl_bufferSubData bufferType 0 (array a) None] else [] in
  let ranges :=
    (fun rg => gl_bufferSubData bufferType
                 (start rg * BYTES_PER_ELEMENT (array a)) (array a)
                 (Some (start rg, range_count rg))) <$> updateRanges a in
  let single :=
    if negb (count (_updateRange a) =? -1)
    then [gl_bufferSubData bufferType
            (offset (_updateRange a) * BYTES_PER_ELEMENT (array a)) (array a)
            (Some (offset (_updateRange a), count (_updateRange a)))]
    else [] in
  let a' :=
    {| isGLBufferAttribute := isGLBufferAttribute a;
       isInterleavedBufferAttribute := isInterleavedBufferAttribute a;
       data := data a; array := array a; usage := usage a;
       version := version a;
       isFloat16BufferAttribute := isFloat16BufferAttribute a;
       _updateRange := {| offset := offset (_updateRange a); count := -1 |};
       updateRanges := [];
       buffer := buffer a; type := type a; elementSize := elementSize a |} in
  set_objects (<[r := a']> (objects s))
    (issue ([gl_bindBuffer bufferType buf] ++ whole ++ ranges ++ single
            ++ [onUploadCallback r]) s).

(** The object that stands for the attribute in the cache:
    [if ( attribute.isInterleavedBufferAttribute ) attribute = attribute.data]. *)
Definition resolve (r : nat) (a : Attribute) (s : State) : option (nat * Attribute) :=
  if isInterleavedBufferAttribute a then
    match objects s !! data a with
    | Some d => Some (data a, d)
    | None => None
    end
  else Some (r, a).

Definition get (r : nat) (s : State) : option Cached :=
  match objects s !! r with
  | Some a =>
      match resolve r a s with
      | Some (k, _) => buffers s !! k
      | None => None
      end
  | None => None
  end.

Definition remove (r : nat) (s : State) : State :=
  match objects s !! r with
  | Some a =>
      match resolve r a s with
      | Some (k, _) =>
          match buffers s !! k with
          | Some d => set_buffers (delete k (buffers s))
                                  (issue [gl_deleteBuffer (cached_buffer d)] s)
          | None => s
          end
      | None => s
      end
  | None => s
  end.

Definition with_version (v : Z) (c : Cached) : Cached :=
  {| cached_buffer := cached_buffer c; cached_type := cached_type c;
     bytesPerElement := bytesPerElement c; cached_version := v; size := size c |}.

(** [update( attribute, bufferType )].  A reference that points to no
    object cannot be passed; an interleaved attribute without its buffer
    makes the property access throw. *)
Definition update (r : nat) (bufferType : Z) (s : State) : Result :=
  match objects s !! r with
  | None => Ok s
  | Some attribute =>
      if isGLBufferAttribute attribute then
        match buffers s !! r with
        | Some cached =>
            if cached_version cached <? version attribute then
              Ok (set_buffers
                    (<[r := {| cached_buffer := buffer attribute;
                               cached_type := type attribute;
                               bytesPerElement := elementSize attribute;
                               cached_version := version attribute;
                               size := None |}]> (buffers s)) s)
            else Ok s
        | None =>
            Ok (set_buffers
                  (<[r := {| cached_buffer := buffer attribute;
                             cached_type := type attribute;
                             bytesPerElement := elementSize attribute;
                             cached_version := version attribute;
                             size := None |}]> (buffers s)) s)
        end
      else
        match resolve r attribute s with
        | None => Throw "TypeError" s
        | Some (k, a) =>
            match buffers s !! k with
            | None =>
                match createBuffer k a bufferType s with
                | (inl rec, s1) => Ok (set_buffers (<[k := rec]> (buffers s1)) s1)
                | (inr msg, s1) => Throw msg s1
                end
            | Some d =>
                if cached_version d <? version a then
                  if negb (bool_decide (size d = Some (byteLength (array a)))) then
                    Throw resize_message s
                  else
                    let s1 := updateBuffer (cached_buffer d) k a bufferType s in
                    Ok (set_buffers
                          (<[k := with_version (version a) d]> (buffers s1)) s1)
                else Ok s
            end
        end
  end.

(** Observations. *)
Definition is_upload (c : Call) : bool :=
  match c with
  | gl_bufferData _ _ _ | gl_bufferSubData _ _ _ _ => true
  | _ => false
  end.

Definition uploads (s : State) : nat := length (List.filter is_upload (calls s)).



(** [n] calls of [update] in a row; a throw ends the run. *)
Fixpoint update_times (n : nat) (r : nat) (bufferType : Z) (s : State) : Result :=
  match n with
  | O => Ok s
  | S n' =>
      match update r bufferType s with
      | Ok s1 => update_times n' r bufferType s1
      | Throw msg s1 => Throw msg s1
      end
  end.

(** The state that a call leaves, whether it returns or throws. *)
Definition state_of (res : Result) : State :=
  match res with
  | Ok s => s
  | Throw _ s => s
  end.

(** [n] calls of [update] in a row, each in a [try] block of the
    caller's, so that a throw does not end the run. *)
Fixpoint update_caught (n : nat) (r : nat) (bufferType : Z) (s : State) : State :=
  match n with
  | O => s
  | S n' => update_caught n' r bufferType (state_of (update r bufferType s))
  end.

(** Example data: a plain attribute over a [Float32Array] of [bytes]
    bytes, alone in the store, with nothing cached. *)
Definition sample_attribute (bytes ver : Z) : Attribute :=
  {| isGLBufferAttribute := false; isInterleavedBufferAttribute := false;
     data := 0%nat;
     array := {| kind := Float32Array; byteLength := bytes;
                 BYTES_PER_ELEMENT := 4; elements := 0 |};
     usage := 35044; version := ver; isFloat16BufferAttribute := false;
     _updateRange := {| offset := 0; count := -1 |}; updateRanges := [];
     buffer := 0; type := 0; elementSize := 0 |}.

(** The same attribute over an array of a class that [createBuffer]
    has no type for, such as a [Float64Array]; the constructor of
    [BufferAttribute] takes it. *)
Definition sample_unsupported (bytes ver : Z) : Attribute :=
  {| isGLBufferAttribute := false; isInterleavedBufferAttribute := false;
     data := 0%nat;
     array := {| kind := OtherArray; byteLength := bytes;
                 BYTES_PER_ELEMENT := 8; elements := 0 |};
     usage := 35044; version := ver; isFloat16BufferAttribute := false;
     _updateRange := {| offset := 0; count := -1 |}; updateRanges := [];
     buffer := 0; type := 0; elementSize := 0 |}.

Definition sample_state (a : Attribute) : State :=
  {| objects := {[ 0%nat := a ]}; buffers := ∅; calls := []; created := 0 |}.

Definition sample_record (bytes ver : Z) : Cached :=
  {| cached_buffer := 0; cached_type := gl.FLOAT; bytesPerElement := 4;
     cached_version := ver; size := Some bytes |}.

(** The state after the first [update] of the sample attribute, with the
    attribute then replaced by [a]. *)
Definition sample_cached (a : Attribute) : State :=
  {| objects := {[ 0%nat := a ]};
     buffers := {[ 0%nat := sample_record 12 0 ]};
     calls := [gl_createBuffer 0; gl_bindBuffer 34962 0;
               gl_bufferData 34962 (array (sample_attribute 12 0)) 35044;
               onUploadCallback 0%nat];
     created := 1 |}.

End WebGLAttributes.
(** ** WebGLTextures.js: the texture cache *)
Module WebGLTextures.

(** *** Cache keys *)

(** The values that [getTextureCacheKey] pushes, and their conversion to
    a string by [Array.prototype.join]: [null] and [undefined] give the
    empty string, numbers their decimal notation. *)
Inductive JSValue :=
| JNumber (n : Z)
| JBoolean (b : bool)
| JString (s : string)
| JNull.

Definition number_to_string (n : Z) : string :=
  NilEmpty.string_of_int (Z.to_int n).

Definition join_element (v : JSValue) : string :=
  match v with
  | JNumber n => number_to_string n
  | JBoolean true => "true"
  | JBoolean false => "false"
  | JString s => s
  | JNull => ""
  end.

(** [array.join()], with the default separator. *)
Fixpoint join (l : list string) : string :=
  match l with
  | [] => ""
  | [x] => x
  | x :: l' => x ++ "," ++ join l'
  end.

(** The properties of a texture that the cache reads: its [source] (a
    reference) and the fields of the cache key.  [wrapR] is [undefined]
    on textures that are not three-dimensional and [internalFormat] is
    [null] unless set. *)
Record Texture := {
  source : nat;
  wrapS : Z;
  wrapT : Z;
  wrapR : option Z;
  magFilter : Z;
  minFilter : Z;
  anisotropy : Z;
  internalFormat : option string;
  format : Z;
  type : Z;
  generateMipmaps : bool;
  premultiplyAlpha : bool;
  flipY : bool;
  unpackAlignment : Z;
  colorSpace : string
}.

Definition key_fields (texture : Texture) : list JSValue :=
  [ JNumber (wrapS texture);
    JNumber (wrapT texture);
    JNumber (default 0 (wrapR texture));
    JNumber (magFilter texture);
    JNumber (minFilter texture);
    JNumber (anisotropy texture);
    match internalFormat texture with Some s => JString s | None => JNull end;
    JNumber (format texture);
    JNumber (type texture);
    JBoolean (generateMipmaps texture);
    JBoolean (premultiplyAlpha texture);
    JBoolean (flipY texture);
    JNumber (unpackAlignment texture);
    JString (colorSpace texture) ].

Definition getTextureCacheKey (texture : Texture) : string :=
  join (join_element <$> key_fields texture).

(** *** The cache *)

(** An entry of the per-source table of GPU textures. *)
Record Entry := {
  texture : Z;
  usedTimes : Z
}.

(** The bag that the properties store keeps for a texture; a property
    that was never written is [undefined] ([false] for the flag). *)
Record Properties := {
  __webglInit : bool;
  __cacheKey : option string;
  __webglTexture : option Z
}.

Definition no_properties : Properties :=
  {| __webglInit := false; __cacheKey := None; __webglTexture := None |}.

Inductive Call :=
| gl_createTexture (handle : Z)
| gl_deleteTexture (handle : option Z).

(** Texture objects live in [textures]; [properties] and [_sources] are
    the two WeakMaps, keyed by texture and by source. *)
Record State := {
  textures : gmap nat Texture;
  properties : gmap nat Properties;
  _sources : gmap nat (gmap string Entry);
  calls : list Call;
  created : Z;
  info_memory_textures : Z
}.

Definition initial : State :=
  {| textures := ∅; properties := ∅; _sources := ∅; calls := [];
     created := 0; info_memory_textures := 0 |}.

(** [properties.get( texture )]: a missing bag reads as an empty one. *)
Definition properties_get (t : nat) (s : State) : Properties :=
  default no_properties (properties s !! t).

(** The table of a source, empty when the source has none. *)
Definition webglTextures_of (src : nat) (s : State) : gmap string Entry :=
  default ∅ (_sources s !! src).

Definition lookup_entry (src : nat) (key : string) (s : State) : option Entry :=
  webglTextures_of src s !! key.

Definition add_usedTimes (d : Z) (e : Entry) : Entry :=
  {| texture := texture e; usedTimes := usedTimes e + d |}.

(** [initTexture( textureProperties, texture )], where
    [textureProperties] is [properties.get( texture )].  The result is
    [forceUpload].  The body of [deleteTexture] is inlined at its call.
    A cache key that is [undefined] names no entry (no cache key is the
    string [undefined]). *)
Definition initTexture (t : nat) (s : State) : bool * State :=
  match textures s !! t with
  | None => (false, s)
  | Some tex =>
      let props := properties_get t s in
      let src := source tex in
      let m0 := webglTextures_of src s in
      let textureCacheKey := getTextureCacheKey tex in
      if bool_decide (Some textureCacheKey <> __cacheKey props) then
        (* a new entry when the key has none *)
        let '(forceUpload, m1, calls1, created1, memory1) :=
          match m0 !! textureCacheKey with
          | None =>
              (true,
               <[textureCacheKey := {| texture := created s; usedTimes := 0 |}]> m0,
               calls s ++ [gl_createTexture (created s)],
               created s + 1,
               info_memory_textures s + 1)
          | Some _ => (false, m0, calls s, created s, info_memory_textures s)
          end in
        let m2 := alter (add_usedTimes 1) textureCacheKey m1 in
        (* release the entry of the previous key *)
        let '(m3, calls3, memory3) :=
          match __cacheKey props with
          | Some oldKey =>
              match m2 !! oldKey with
              | Some webglTexture =>
                  let m := alter (add_usedTimes (-1)) oldKey m2 in
                  if usedTimes webglTexture - 1 =? 0 then
                    (delete oldKey m,
                     calls1 ++ [gl_deleteTexture (__webglTexture props)],
                     memory1 - 1)
                  else (m, calls1, memory1)
              | None => (m2, calls1, memory1)
              end
          | None => (m2, calls1, memory1)
          end in
        (forceUpload,
         {| textures := textures s;
            properties :=
              <[t := {| __webglInit := true;
                        __cacheKey := Some textureCacheKey;
                        __webglTexture := texture <$> m3 !! textureCacheKey |}]>
                (properties s);
            _sources := <[src := m3]> (_sources s);
            calls := calls3;
            created := created1;
            info_memory_textures := memory3 |})
      else
        (false,
         {| textures := textures s;
            properties :=
              <[t := {| __webglInit := true;
                        __cacheKey := __cacheKey props;
                        __webglTexture := __webglTexture props |}]> (properties s);
            _sources := <[src := m0]> (_sources s);
            calls := calls s;
            created := created s;
            info_memory_textures := info_memory_textures s |})
  end.

(** [deallocateTexture( texture )], run when the texture is disposed;
    [None] is the TypeError of reading [usedTimes] of [undefined]. *)
Definition deallocateTexture (t : nat) (s : State) : option State :=
  match textures s !! t with
  | None => Some s
  | Some tex =>
      let props := properties_get t s in
      if negb (__webglInit props) then
        Some {| textures := textures s;
                properties := <[t := props]> (properties s);
                _sources := _sources s; calls := calls s;
                created := created s;
                info_memory_textures := info_memory_textures s |}
      else
        let src := source tex in
        match _sources s !! src with
        | Some m0 =>
            match __cacheKey props with
            | None => None
            | Some oldKey =>
                match m0 !! oldKey with
                | None => None
                | Some webglTexture =>
                    let m := alter (add_usedTimes (-1)) oldKey m0 in
                    let '(m1, calls1, memory1) :=
                      if usedTimes webglTexture - 1 =? 0 then
                        (delete oldKey m,
                         calls s ++ [gl_deleteTexture (__webglTexture props)],
                         info_memory_textures s - 1)
                      else (m, calls s, info_memory_textures s) in
                    Some {| textures := textures s;
                            properties := delete t (properties s);
                            _sources :=
                              if bool_decide (m1 = ∅) then delete src (_sources s)
                              else <[src := m1]> (_sources s);
                            calls := calls1;
                            created := created s;
                            info_memory_textures := memory1 |}
                end
            end
        | None =>
            Some {| textures := textures s;
                    properties := delete t (properties s);
                    _sources := _sources s; calls := calls s;
                    created := created s;
                    info_memory_textures := info_memory_textures s |}
        end
  end.

(** *** Runs of the cache *)

(** What the application does with a texture object while it keeps its
    source: create it, change its parameters, have it uploaded, dispose
    it.  [Texture_copy] below is the method that gives a texture
    another source. *)
Inductive Op :=
| NewTexture (t : nat) (tex : Texture)
| SetParameters (t : nat) (tex : Texture)
| Upload (t : nat)
| Dispose (t : nat).

Definition set_textures (m : gmap nat Texture) (s : State) : State :=
  {| textures := m; properties := properties s; _sources := _sources s;
     calls := calls s; created := created s;
     info_memory_textures := info_memory_textures s |}.

Definition with_source (src : nat) (tex : Texture) : Texture :=
  {| source := src;
     wrapS := wrapS tex; wrapT := wrapT tex; wrapR := wrapR tex;
     magFilter := magFilter tex; minFilter := minFilter tex;
     anisotropy := anisotropy tex; internalFormat := internalFormat tex;
     format := format tex; type := type tex;
     generateMipmaps := generateMipmaps tex;
     premultiplyAlpha := premultiplyAlpha tex; flipY := flipY tex;
     unpackAlignment := unpackAlignment tex; colorSpace := colorSpace tex |}.

Definition step (s : State) (op : Op) : State :=
  match op with
  | NewTexture t tex =>
      match textures s !! t with
      | None => set_textures (<[t := tex]> (textures s)) s
      | Some _ => s
      end
  | SetParameters t tex =>
      match textures s !! t with
      | Some old => set_textures (<[t := with_source (source old) tex]> (textures s)) s
      | None => s
      end
  | Upload t => snd (initTexture t s)
  | Dispose t => default s (deallocateTexture t s)
  end.

Definition run (ops : list Op) : State := fold_left step ops initial.

(** [texture.copy( source )] (Texture.js), on the texture [t] with the
    texture [from] as [source]: [this.source = source.source], and the
    fields of the cache key are copied, all but [wrapR], which [copy]
    does not touch. *)
Definition Texture_copy (t from : nat) (s : State) : State :=
  match textures s !! t, textures s !! from with
  | Some this, Some other =>
      set_textures
        (<[t := {| source := source other;
                   wrapS := wrapS other; wrapT := wrapT other;
                   wrapR := wrapR this;
                   magFilter := magFilter other; minFilter := minFilter other;
                   anisotropy := anisotropy other;
                   internalFormat := internalFormat other;
                   format := format other; type := type other;
                   generateMipmaps := generateMipmaps other;
                   premultiplyAlpha := premultiplyAlpha other;
                   flipY := flipY other;
                   unpackAlignment := unpackAlignment other;
                   colorSpace := colorSpace other |}]> (textures s)) s
  | _, _ => s
  end.

(** The textures that refer to the entry of [src] under [key]: those
    whose bag holds that cache key and whose source is [src]. *)
Definition refers (s : State) (src : nat) (key : string)
           (tp : nat * Properties) : Prop :=
  __cacheKey tp.2 = Some key /\ source <$> textures s !! tp.1 = Some src.

#[global] Instance refers_dec s src key tp : Decision (refers s src key tp).
Proof. unfold refers. apply _. Defined.

Definition referrers (s : State) (src : nat) (key : string) : gmap nat Properties :=
  filter (refers s src key) (properties s).

(** What [initTexture] does to an entry: the entry that is acquired,
    and what is left of an entry that is released. *)
Definition acquired (h : Z) (e : option Entry) : Entry :=
  match e with
  | Some e => add_usedTimes 1 e
  | None => {| texture := h; usedTimes := 1 |}
  end.

Definition released (e : Entry) : option Entry :=
  if usedTimes e - 1 =? 0 then None else Some (add_usedTimes (-1) e).

(** The release of an entry deletes it. *)
Definition dropped (e : option Entry) : bool :=
  match e with
  | Some e => usedTimes e - 1 =? 0
  | None => false
  end.

(** One for a proposition that holds, zero otherwise. *)
Definition count (P : Prop) `{Decision P} : nat := if decide P then 1%nat else 0%nat.

(** Acquiring the entry of [new] in the table [m0] creates it. *)
Definition provisions (new : option string) (m0 : gmap string Entry) : bool :=
  match new with
  | Some key => if m0 !! key is Some _ then false else true
  | None => false
  end.

(** The bag of [t] after it has acquired the entry of [key]. *)
Definition bag_of (key : string) (s : State) (m0 : gmap string Entry) : Properties :=
  {| __webglInit := true; __cacheKey := Some key;
     __webglTexture := Some (from_option texture (created s) (m0 !! key)) |}.

(** The texture [t] of source [src] moves from the entry of its cache key
    to the entry of [new], from [s] to [s']: an upload with a changed key
    ([new] is the new key) or a disposal ([new] is [None]). *)
Record Moves (t src : nat) (new : option string) (s s' : State) : Prop := {
  mv_textures : textures s' = textures s;
  mv_properties :
    properties s' =
    match new with
    | Some key => <[t := bag_of key s (webglTextures_of src s)]> (properties s)
    | None => delete t (properties s)
    end;
  mv_created :
    created s' = if provisions new (webglTextures_of src s)
                 then created s + 1 else created s;
  mv_calls :
    calls s' =
    calls s
    ++ (if provisions new (webglTextures_of src s)
        then [gl_createTexture (created s)] else [])
    ++ (if dropped (__cacheKey (properties_get t s) ≫= fun k => lookup_entry src k s)
        then [gl_deleteTexture (__webglTexture (properties_get t s))] else []);
  mv_entries : forall src' k',
    lookup_entry src' k' s' =
    if decide (src' = src) then
      if decide (Some k' = new)
      then Some (acquired (created s) (lookup_entry src k' s))
      else if decide (Some k' = __cacheKey (properties_get t s))
           then lookup_entry src k' s ≫= released
           else lookup_entry src k' s
    else lookup_entry src' k' s
}.

(** The invariant of the cache.  An entry counts the textures that refer
    to it, and at least one does; the bag of an uploaded texture names an
    entry of its source and holds that entry's handle; the handles of the
    entries are pairwise different, were created and are not deleted; no
    call was issued twice. *)
Record Inv (s : State) : Prop := {
  inv_count : forall src key e,
      lookup_entry src key s = Some e ->
      usedTimes e = Z.of_nat (size (referrers s src key));
  inv_positive : forall src key e,
      lookup_entry src key s = Some e -> 1 <= usedTimes e;
  inv_props : forall t p,
      properties s !! t = Some p ->
      exists tex, textures s !! t = Some tex /\
        (p = no_properties \/
         (__webglInit p = true /\
          exists key e, __cacheKey p = Some key /\
                        lookup_entry (source tex) key s = Some e /\
                        __webglTexture p = Some (texture e)));
  inv_handles : forall src key e,
      lookup_entry src key s = Some e ->
      texture e < created s /\ gl_deleteTexture (Some (texture e)) ∉ calls s;
  inv_handles_inj : forall src key e src' key' e',
      lookup_entry src key s = Some e ->
      lookup_entry src' key' s = Some e' ->
      texture e = texture e' -> src = src' /\ key = key';
  inv_calls : NoDup (calls s);
  inv_created : forall c, c ∈ calls s ->
      match c with
      | gl_createTexture h => h < created s
      | gl_deleteTexture (Some h) => h < created s
      | gl_deleteTexture None => False
      end
}.

(** From [s] to [s'] the texture objects stay, with their sources. *)
Definition extends (s s' : State) : Prop :=
  forall t tex, textures s !! t = Some tex ->
                exists tex', textures s' !! t = Some tex' /\ source tex' = source tex.

(** What is asked of the upload of the texture [t], whose bag holds the
    key [oldk] and whose parameters now give another key: the entry of
    the new key is acquired, the entry [eo] of [oldk] is released, and
    [eo] stays for the other textures that refer to it. *)
Definition key_change_effect (t : nat) (tex : Texture) (oldk : string)
           (s : State) : Prop :=
  let key := getTextureCacheKey tex in
  let src := source tex in
  let forceUpload := fst (initTexture t s) in
  let s' := snd (initTexture t s) in
  let creation :=
    match lookup_entry src key s with
    | Some _ => []
    | None => [gl_createTexture (created s)]
    end in
  exists eo,
    lookup_entry src oldk s = Some eo /\
    __webglTexture (properties_get t s) = Some (texture eo) /\
    match lookup_entry src key s with
    | Some e =>
        forceUpload = false /\
        lookup_entry src key s' =
          Some {| texture := texture e; usedTimes := usedTimes e + 1 |} /\
        __webglTexture (properties_get t s') = Some (texture e)
    | None =>
        forceUpload = true /\
        (gl_createTexture (created s) ∉ calls s) /\
        lookup_entry src key s' =
          Some {| texture := created s; usedTimes := 1 |} /\
        __webglTexture (properties_get t s') = Some (created s)
    end /\
    __cacheKey (properties_get t s') = Some key /\
    (if usedTimes eo =? 1 then
       lookup_entry src oldk s' = None /\
       calls s' = calls s ++ creation ++ [gl_deleteTexture (Some (texture eo))] /\
       forall t' p', t' <> t -> properties s !! t' = Some p' ->
                     ~ refers s src oldk (t', p')
     else
       lookup_entry src oldk s' =
         Some {| texture := texture eo; usedTimes := usedTimes eo - 1 |} /\
       calls s' = calls s ++ creation) /\
    forall t' p',
      t' <> t -> properties s !! t' = Some p' -> refers s src oldk (t', p') ->
      (gl_deleteTexture (Some (texture eo)) ∉ calls s') /\
      properties s' !! t' = Some p' /\
      exists e', lookup_entry src oldk s' = Some e' /\
                 __webglTexture p' = Some (texture e').

(** No comma in a string: the elements of a cache key are told apart by
    the separators. *)
Fixpoint comma_free (s : string) : Prop :=
  match s with
  | EmptyString => True
  | String c s' => c <> ","%char /\ comma_free s'
  end.

(** The strings among the key fields are usable: no comma, and an
    [internalFormat] that is set is not empty ([null] prints as the empty
    string). *)
Definition key_strings_ok (tex : Texture) : Prop :=
  comma_free (colorSpace tex) /\
  match internalFormat tex with
  | Some f => comma_free f /\ f <> ""%string
  | None => True
  end.

(** Example data. *)
Definition sample_texture (src : nat) (filter : Z) : Texture :=
  {| source := src; wrapS := 1001; wrapT := 1001; wrapR := None;
     magFilter := filter; minFilter := 1008; anisotropy := 1;
     internalFormat := None; format := 1023; type := 1009;
     generateMipmaps := true; premultiplyAlpha := false; flipY := true;
     unpackAlignment := 4; colorSpace := "srgb" |}.

(** Two textures of one source are uploaded, then the first one gets
    another [magFilter]. *)
Definition sample_ops : list Op :=
  [ NewTexture 0 (sample_texture 7 1006);
    NewTexture 1 (sample_texture 7 1006);
    Upload 0; Upload 1;
    SetParameters 0 (sample_texture 7 1003) ].

(** Textures 0 and 1 of source 7 and texture 2 of source 8 are uploaded
    with the same parameters; texture 3 has source 8 and another
    [magFilter].  Then texture 0 is made a copy of texture 3. *)
Definition copy_ops : list Op :=
  [ NewTexture 0 (sample_texture 7 1006);
    NewTexture 1 (sample_texture 7 1006);
    NewTexture 2 (sample_texture 8 1006);
    NewTexture 3 (sample_texture 8 1003);
    Upload 0; Upload 1; Upload 2 ].

Definition copied : State := Texture_copy 0 3 (run copy_ops).

End WebGLTextures.
(** ** WebGLRenderer.js: viewport, scissor and render target *)
Module WebGLRenderer.

Import WebGLState.

(** [Math.floor] and [Math.round]; the latter rounds halves up. *)
Definition Math_floor (q : Q) : Q := inject_Z (Qfloor q).

Definition Math_round (q : Q) : Q := inject_Z (Qfloor (q + (1 # 2))).

Definition Vector4_multiplyScalar (scalar : Q) (v : Vector4) : Vector4 :=
  {| x := x v * scalar; y := y v * scalar; z := z v * scalar; w := w v * scalar |}.

Definition Vector4_floor (v : Vector4) : Vector4 :=
  {| x := Math_floor (x v); y := Math_floor (y v);
     z := Math_floor (z v); w := Math_floor (w v) |}.

Definition Vector4_round (v : Vector4) : Vector4 :=
  {| x := Math_round (x v); y := Math_round (y v);
     z := Math_round (z v); w := Math_round (w v) |}.

(** The value of [__webglFramebuffer] once the render target is set up:
    a framebuffer or an array of framebuffers, one per mipmap level; for
    a cube render target an array of those, one per face. *)
Inductive Framebuffers :=
| Framebuffer (fb : Z)
| PerLevel (levels : list Z).

Inductive WebGLFramebuffer :=
| Plain (f : Framebuffers)
| PerFace (faces : list Framebuffers).

(** What [setRenderTarget] reads of a render target.  [rt_id] is its
    identity, the key of its properties; [is3D] is
    [texture.isData3DTexture || texture.isDataArrayTexture ||
    texture.isCompressedArrayTexture]. *)
Record RenderTarget := {
  rt_id : nat;
  rt_viewport : Vector4;
  rt_scissor : Vector4;
  rt_scissorTest : bool;
  textures_length : nat;
  isWebGLCubeRenderTarget : bool;
  samples : Z;
  is3D : bool
}.

(** [properties.get( renderTarget )], with [__webglTexture] of
    [properties.get( renderTarget.texture )]. *)
Record RenderTargetProperties := {
  __useDefaultFramebuffer : option bool;
  __webglFramebuffer : option WebGLFramebuffer;
  __hasExternalTextures : bool;
  __webglMultisampledFramebuffer : option Z;
  __webglTexture : option Z
}.

Definition no_properties : RenderTargetProperties :=
  {| __useDefaultFramebuffer := None; __webglFramebuffer := None;
     __hasExternalTextures := false; __webglMultisampledFramebuffer := None;
     __webglTexture := None |}.

(** The closure variables of the renderer that the functions below read
    or write, with the state tracker and the properties store. *)
Record Renderer := {
  state : WebGLState.State;
  properties : gmap nat RenderTargetProperties;
  xr_isPresenting : bool;
  canvas_width : Q;
  canvas_height : Q;
  _currentActiveCubeFace : nat;
  _currentActiveMipmapLevel : nat;
  _currentRenderTarget : option RenderTarget;
  _currentMaterialId : Z;
  _currentViewport : Vector4;
  _currentScissor : Vector4;
  _currentScissorTest : option bool;
  _width : Q;
  _height : Q;
  _pixelRatio : Q;
  _viewport : Vector4;
  _scissor : Vector4;
  _scissorTest : bool
}.

(** The renderer after its construction on a canvas of the given size;
    a new context has the canvas as its viewport and scissor box. *)
Definition initial (width height : Q) : Renderer :=
  let box := {| x := 0; y := 0; z := width; w := height |} in
  {| state := WebGLState.initial box box;
     properties := ∅;
     xr_isPresenting := false;
     canvas_width := width;
     canvas_height := height;
     _currentActiveCubeFace := 0;
     _currentActiveMipmapLevel := 0;
     _currentRenderTarget := None;
     _currentMaterialId := -1;
     _currentViewport := {| x := 0; y := 0; z := 0; w := 1 |};
     _currentScissor := {| x := 0; y := 0; z := 0; w := 1 |};
     _currentScissorTest := None;
     _width := width;
     _height := height;
     _pixelRatio := 1;
     _viewport := box;
     _scissor := box;
     _scissorTest := false |}.

(** [setViewport( x, y, width, height )]; with a [Vector4] as its first
    argument the function takes the four numbers from it. *)
Definition setViewport (x y width height : Q) (r : Renderer) : Renderer :=
  let v := {| WebGLState.x := x; WebGLState.y := y;
              WebGLState.z := width; WebGLState.w := height |} in
  let current := Vector4_round (Vector4_multiplyScalar (_pixelRatio r) v) in
  {| state := WebGLState.viewport current (state r);
     properties := properties r;
     xr_isPresenting := xr_isPresenting r;
     canvas_width := canvas_width r;
     canvas_height := canvas_height r;
     _currentActiveCubeFace := _currentActiveCubeFace r;
     _currentActiveMipmapLevel := _currentActiveMipmapLevel r;
     _currentRenderTarget := _currentRenderTarget r;
     _currentMaterialId := _currentMaterialId r;
     _currentViewport := current;
     _currentScissor := _currentScissor r;
     _currentScissorTest := _currentScissorTest r;
     _width := _width r;
     _height := _height r;
     _pixelRatio := _pixelRatio r;
     _viewport := v;
     _scissor := _scissor r;
     _scissorTest := _scissorTest r |}.

Definition setScissor (x y width height : Q) (r : Renderer) : Renderer :=
  let v := {| WebGLState.x := x; WebGLState.y := y;
              WebGLState.z := width; WebGLState.w := height |} in
  let current := Vector4_round (Vector4_multiplyScalar (_pixelRatio r) v) in
  {| state := WebGLState.scissor current (state r);
     properties := properties r;
     xr_isPresenting := xr_isPresenting r;
     canvas_width := canvas_width r;
     canvas_height := canvas_height r;
     _currentActiveCubeFace := _currentActiveCubeFace r;
     _currentActiveMipmapLevel := _currentActiveMipmapLevel r;
     _currentRenderTarget := _currentRenderTarget r;
     _currentMaterialId := _currentMaterialId r;
     _currentViewport := _currentViewport r;
     _currentScissor := current;
     _currentScissorTest := _currentScissorTest r;
     _width := _width r;
     _height := _height r;
     _pixelRatio := _pixelRatio r;
     _viewport := _viewport r;
     _scissor := v;
     _scissorTest := _scissorTest r |}.

Definition setScissorTest (boolean : bool) (r : Renderer) : Renderer :=
  {| state := WebGLState.setScissorTest boolean (state r);
     properties := properties r;
     xr_isPresenting := xr_isPresenting r;
     canvas_width := canvas_width r;
     canvas_height := canvas_height r;
     _currentActiveCubeFace := _currentActiveCubeFace r;
     _currentActiveMipmapLevel := _currentActiveMipmapLevel r;
     _currentRenderTarget := _currentRenderTarget r;
     _currentMaterialId := _currentMaterialId r;
     _currentViewport := _currentViewport r;
     _currentScissor := _currentScissor r;
     _currentScissorTest := _currentScissorTest r;
     _width := _width r;
     _height := _height r;
     _pixelRatio := _pixelRatio r;
     _viewport := _viewport r;
     _scissor := _scissor r;
     _scissorTest := boolean |}.

(** [setSize( width, height, updateStyle )]; the style of the canvas and
    the warning on the console are not part of the state. *)
Definition setSize (width height : Q) (r : Renderer) : Renderer :=
  if xr_isPresenting r then r
  else
    setViewport 0 0 width height
      {| state := state r;
         properties := properties r;
         xr_isPresenting := xr_isPresenting r;
         canvas_width := Math_floor (width * _pixelRatio r);
         canvas_height := Math_floor (height * _pixelRatio r);
         _currentActiveCubeFace := _currentActiveCubeFace r;
         _currentActiveMipmapLevel := _currentActiveMipmapLevel r;
         _currentRenderTarget := _currentRenderTarget r;
         _currentMaterialId := _currentMaterialId r;
         _currentViewport := _currentViewport r;
         _currentScissor := _currentScissor r;
         _currentScissorTest := _currentScissorTest r;
         _width := width;
         _height := height;
         _pixelRatio := _pixelRatio r;
         _viewport := _viewport r;
         _scissor := _scissor r;
         _scissorTest := _scissorTest r |}.

(** [setPixelRatio( value )] with a value that is not [undefined]. *)
Definition setPixelRatio (value : Q) (r : Renderer) : Renderer :=
  setSize (_width r) (_height r)
    {| state := state r;
       properties := properties r;
       xr_isPresenting := xr_isPresenting r;
       canvas_width := canvas_width r;
       canvas_height := canvas_height r;
       _currentActiveCubeFace := _currentActiveCubeFace r;
       _currentActiveMipmapLevel := _currentActiveMipmapLevel r;
       _currentRenderTarget := _currentRenderTarget r;
       _currentMaterialId := _currentMaterialId r;
       _currentViewport := _currentViewport r;
       _currentScissor := _currentScissor r;
       _currentScissorTest := _currentScissorTest r;
       _width := _width r;
       _height := _height r;
       _pixelRatio := value;
       _viewport := _viewport r;
       _scissor := _scissor r;
       _scissorTest := _scissorTest r |}.

(** The framebuffer of a mipmap level; [None] is [undefined]. *)
Definition level_of (f : Framebuffers) (activeMipmapLevel : nat) : option Z :=
  match f with
  | Framebuffer fb => Some fb
  | PerLevel levels => levels !! activeMipmapLevel
  end.

(** The framebuffer that [setRenderTarget] binds for a render target.
    [None]: the code reads [undefined], or the read throws; the face or
    the level is not one that the render target was set up with. *)
Definition select_framebuffer (renderTarget : RenderTarget)
           (p : RenderTargetProperties) (multisampledRTT : bool)
           (activeCubeFace activeMipmapLevel : nat) : option Z :=
  if isWebGLCubeRenderTarget renderTarget then
    match __webglFramebuffer p with
    | Some (PerFace faces) =>
        faces !! activeCubeFace ≫= fun f => level_of f activeMipmapLevel
    | _ => None
    end
  else if (0 <? samples renderTarget) && negb multisampledRTT then
    __webglMultisampledFramebuffer p
  else
    match __webglFramebuffer p with
    | Some (Plain f) => level_of f activeMipmapLevel
    | _ => None
    end.

(** The second half of [setRenderTarget]: bind the framebuffer, set the
    draw buffers, the viewport, the scissor box and the scissor test,
    and attach the face or layer. *)
Definition bind_and_apply (renderTarget : option RenderTarget)
           (framebuffer : option Z) (useDefaultFramebuffer isCube isRenderTarget3D : bool)
           (texture : option Z) (activeCubeFace activeMipmapLevel : nat)
           (currentViewport currentScissor : Vector4) (currentScissorTest : bool)
           (st : WebGLState.State) : WebGLState.State :=
  let '(framebufferBound, st) := bindFramebuffer gl.FRAMEBUFFER framebuffer st in
  let st := if framebufferBound && useDefaultFramebuffer
            then drawBuffers (textures_length <$> renderTarget) framebuffer st
            else st in
  let st := WebGLState.viewport currentViewport st in
  let st := WebGLState.scissor currentScissor st in
  let st := WebGLState.setScissorTest currentScissorTest st in
  if isCube then
    issue (gl_framebufferTexture2D
             gl.FRAMEBUFFER gl.COLOR_ATTACHMENT0
             (gl.TEXTURE_CUBE_MAP_POSITIVE_X + Z.of_nat activeCubeFace)
             texture (Z.of_nat activeMipmapLevel)) st
  else if isRenderTarget3D then
    issue (gl_framebufferTextureLayer
             gl.FRAMEBUFFER gl.COLOR_ATTACHMENT0 texture
             (Z.of_nat activeMipmapLevel) (Z.of_nat activeCubeFace)) st
  else st.

Section Textures.

(** [textures.setupRenderTarget], [textures.rebindTextures] and
    [textures.useMultisampledRTT] of WebGLTextures.js, taken as what
    they do to the properties store and to the state tracker. *)
Variable setupRenderTarget :
  RenderTarget -> gmap nat RenderTargetProperties * WebGLState.State ->
  gmap nat RenderTargetProperties * WebGLState.State.
Variable rebindTextures : RenderTarget -> WebGLState.State -> WebGLState.State.
Variable useMultisampledRTT : RenderTarget -> bool.

(** The first half of [setRenderTarget] for a render target: rebind,
    set up or refresh it.  The result is [useDefaultFramebuffer] with
    the properties store and the state tracker. *)
Definition prepare (renderTarget : RenderTarget) (r : Renderer)
  : bool * gmap nat RenderTargetProperties * WebGLState.State :=
  let renderTargetProperties :=
    default no_properties (properties r !! rt_id renderTarget) in
  if __useDefaultFramebuffer renderTargetProperties is Some _ then
    (false, properties r, snd (bindFramebuffer gl.FRAMEBUFFER None (state r)))
  else if __webglFramebuffer renderTargetProperties is Some _ then
    if __hasExternalTextures renderTargetProperties
    then (true, properties r, rebindTextures renderTarget (state r))
    else (true, properties r, state r)
  else
    let '(props, st) := setupRenderTarget renderTarget (properties r, state r) in
    (true, props, st).

(** [setRenderTarget( renderTarget, activeCubeFace, activeMipmapLevel )];
    [None] as the first argument is [null]. *)
Definition setRenderTarget (renderTarget : option RenderTarget)
           (activeCubeFace activeMipmapLevel : nat) (r : Renderer)
  : option Renderer :=
  match renderTarget with
  | Some rt =>
      let '(useDefaultFramebuffer, props, st) := prepare rt r in
      let p := default no_properties (props !! rt_id rt) in
      match select_framebuffer rt p (useMultisampledRTT rt)
                               activeCubeFace activeMipmapLevel with
      | None => None
      | Some framebuffer =>
          Some {| state :=
                    bind_and_apply renderTarget (Some framebuffer)
                      useDefaultFramebuffer
                      (isWebGLCubeRenderTarget rt) (is3D rt)
                      (__webglTexture p) activeCubeFace activeMipmapLevel
                      (rt_viewport rt) (rt_scissor rt) (rt_scissorTest rt) st;
                  properties := props;
                  xr_isPresenting := xr_isPresenting r;
                  canvas_width := canvas_width r;
                  canvas_height := canvas_height r;
                  _currentActiveCubeFace := activeCubeFace;
                  _currentActiveMipmapLevel := activeMipmapLevel;
                  _currentRenderTarget := renderTarget;
                  _currentMaterialId := -1;
                  _currentViewport := rt_viewport rt;
                  _currentScissor := rt_scissor rt;
                  _currentScissorTest := Some (rt_scissorTest rt);
                  _width := _width r;
                  _height := _height r;
                  _pixelRatio := _pixelRatio r;
                  _viewport := _viewport r;
                  _scissor := _scissor r;
                  _scissorTest := _scissorTest r |}
      end
  | None =>
      let currentViewport :=
        Vector4_floor (Vector4_multiplyScalar (_pixelRatio r) (_viewport r)) in
      let currentScissor :=
        Vector4_floor (Vector4_multiplyScalar (_pixelRatio r) (_scissor r)) in
      Some {| state :=
                bind_and_apply None None true false false None
                  activeCubeFace activeMipmapLevel
                  currentViewport currentScissor (_scissorTest r) (state r);
              properties := properties r;
              xr_isPresenting := xr_isPresenting r;
              canvas_width := canvas_width r;
              canvas_height := canvas_height r;
              _currentActiveCubeFace := activeCubeFace;
              _currentActiveMipmapLevel := activeMipmapLevel;
              _currentRenderTarget := None;
              _currentMaterialId := -1;
              _currentViewport := currentViewport;
              _currentScissor := currentScissor;
              _currentScissorTest := Some (_scissorTest r);
              _width := _width r;
              _height := _height r;
              _pixelRatio := _pixelRatio r;
              _viewport := _viewport r;
              _scissor := _scissor r;
              _scissorTest := _scissorTest r |}
  end.

(** Bind a render target, then go back to the default framebuffer. *)
Definition round_trip (renderTarget : RenderTarget) (r : Renderer)
  : option Renderer :=
  setRenderTarget (Some renderTarget) 0 0 r ≫= setRenderTarget None 0 0.

End Textures.

(** The viewport, the scissor box and the scissor test that are active:
    what the state tracker has last given to the graphics API. *)
Definition active_viewport (r : Renderer) : Vector4 := currentViewport (state r).

Definition active_scissor (r : Renderer) : Vector4 := currentScissor (state r).

Definition active_scissorTest (r : Renderer) : option bool :=
  enabledCapabilities (state r) !! gl.SCISSOR_TEST.

(** A number without a fractional part, and a vector of such numbers. *)
Definition integral (q : Q) : Prop := q == inject_Z (Qfloor q).

Definition Vector4_integral (v : Vector4) : Prop :=
  integral (x v) /\ integral (y v) /\ integral (z v) /\ integral (w v).

(** Example data: a render target of 256 by 256 that has been set up
    with the framebuffer 1, and a renderer of pixel ratio 1.5 with a
    viewport of 301 by 150. *)
Definition sample_target : RenderTarget :=
  {| rt_id := 0;
     rt_viewport := {| x := 0; y := 0; z := 256; w := 256 |};
     rt_scissor := {| x := 0; y := 0; z := 256; w := 256 |};
     rt_scissorTest := false;
     textures_length := 1;
     isWebGLCubeRenderTarget := false;
     samples := 0;
     is3D := false |}.

Definition sample_properties : RenderTargetProperties :=
  {| __useDefaultFramebuffer := None;
     __webglFramebuffer := Some (Plain (Framebuffer 1));
     __hasExternalTextures := false;
     __webglMultisampledFramebuffer := None;
     __webglTexture := Some 1 |}.

Definition with_properties (m : gmap nat RenderTargetProperties) (r : Renderer)
  : Renderer :=
  {| state := state r;
     properties := m;
     xr_isPresenting := xr_isPresenting r;
     canvas_width := canvas_width r;
     canvas_height := canvas_height r;
     _currentActiveCubeFace := _currentActiveCubeFace r;
     _currentActiveMipmapLevel := _currentActiveMipmapLevel r;
     _currentRenderTarget := _currentRenderTarget r;
     _currentMaterialId := _currentMaterialId r;
     _currentViewport := _currentViewport r;
     _currentScissor := _currentScissor r;
     _currentScissorTest := _currentScissorTest r;
     _width := _width r;
     _height := _height r;
     _pixelRatio := _pixelRatio r;
     _viewport := _viewport r;
     _scissor := _scissor r;
     _scissorTest := _scissorTest r |}.

Definition sample_renderer : Renderer :=
  setScissorTest true
    (setScissor 0 0 301 150
       (setViewport 0 0 301 150
          (setPixelRatio (3 # 2)
             (with_properties {[ 0%nat := sample_properties ]}
                              (initial 300 150))))).

End WebGLRenderer.
(** ** WebGLRenderer.js: projectObject *)
Module Projection.

(** [Layers.test]: [( this.mask & layers.mask ) !== 0], on the 32 bits
    that the operator reads. *)
Definition layers_test (mask other : Z) : bool :=
  negb (Z.land (mask mod 2 ^ 32) (other mod 2 ^ 32) =? 0).

Record Group := {
  group_ref : Z;
  materialIndex : nat
}.

Record Geometry := {
  geometry_ref : Z;
  groups : list Group
}.

(** [object.material]: a material, or an array of materials, an entry
    of which may be missing. *)
Inductive Materials :=
| Single (m : RenderList.Material)
| Multi (ms : list (option RenderList.Material)).

(** What [projectObject] reads of a scene object, children apart.  The
    flag [visible] is mutable and lives in the state. *)
Record Object := {
  ref : Z;
  id : Z;
  layers : Z;
  renderOrder : Q;
  isGroup : bool;
  isLOD : bool;
  isLight : bool;
  isSprite : bool;
  isMesh : bool;
  isLine : bool;
  isPoints : bool;
  autoUpdate : bool;
  castShadow : bool;
  frustumCulled : bool;
  material : Materials
}.

#[local] Unset Elimination Schemes.
Inductive Object3D :=
| Node (object : Object) (children : list Object3D).
#[local] Set Elimination Schemes.

Record Camera := {
  camera_layers : Z
}.

(** The render list and the render state that are current, the
    [visible] flag of the objects (by reference; an object that was
    never hidden is visible), the component [z] of the scratch vector
    [_vector4], and the objects given to [objects.update]. *)
Record State := {
  currentRenderList : RenderList.State;
  lightsArray : list Z;
  shadowsArray : list Z;
  visible : gmap Z bool;
  _vector4_z : Q;
  updated : list Z
}.

Definition initial : State :=
  {| currentRenderList := RenderList.empty; lightsArray := [];
     shadowsArray := []; visible := ∅; _vector4_z := 0; updated := [] |}.

Definition pushLight (light : Object) (s : State) : State :=
  {| currentRenderList := currentRenderList s;
     lightsArray := lightsArray s ++ [ref light];
     shadowsArray := shadowsArray s;
     visible := visible s; _vector4_z := _vector4_z s; updated := updated s |}.

Definition pushShadow (shadowLight : Object) (s : State) : State :=
  {| currentRenderList := currentRenderList s;
     lightsArray := lightsArray s;
     shadowsArray := shadowsArray s ++ [ref shadowLight];
     visible := visible s; _vector4_z := _vector4_z s; updated := updated s |}.

Definition set_visible (m : gmap Z bool) (s : State) : State :=
  {| currentRenderList := currentRenderList s;
     lightsArray := lightsArray s; shadowsArray := shadowsArray s;
     visible := m; _vector4_z := _vector4_z s; updated := updated s |}.

Definition set_z (z : Q) (s : State) : State :=
  {| currentRenderList := currentRenderList s;
     lightsArray := lightsArray s; shadowsArray := shadowsArray s;
     visible := visible s; _vector4_z := z; updated := updated s |}.

Definition log_update (object : Object) (s : State) : State :=
  {| currentRenderList := currentRenderList s;
     lightsArray := lightsArray s; shadowsArray := shadowsArray s;
     visible := visible s; _vector4_z := _vector4_z s;
     updated := updated s ++ [ref object] |}.

(** [currentRenderList.push( object, geometry, material, groupOrder,
    _vector4.z, group )]. *)
Definition push (object : Object) (geometry : Geometry)
           (m : RenderList.Material) (groupOrder : Q) (group : option Z)
           (s : State) : State :=
  {| currentRenderList :=
       RenderList.push
         {| RenderList.object_ref := ref object;
            RenderList.object_id := id object;
            RenderList.object_renderOrder := renderOrder object |}
         (geometry_ref geometry) m groupOrder (_vector4_z s) group
         (currentRenderList s);
     lightsArray := lightsArray s; shadowsArray := shadowsArray s;
     visible := visible s; _vector4_z := _vector4_z s; updated := updated s |}.

(** [object.visible === false]. *)
Definition hidden (object : Object) (s : State) : bool :=
  bool_decide (visible s !! ref object = Some false).

(** The loop over [geometry.groups] of an object with an array of
    materials. *)
Definition push_groups (object : Object) (geometry : Geometry)
           (ms : list (option RenderList.Material)) (groupOrder : Q)
           (s : State) : State :=
  fold_left
    (fun s group =>
       match ms !! materialIndex group with
       | Some (Some groupMaterial) =>
           if RenderList.material_visible groupMaterial
           then push object geometry groupMaterial groupOrder
                     (Some (group_ref group)) s
           else s
       | _ => s
       end)
    (groups geometry) s.

Section Scene.

Variable camera : Camera.
Variable sortObjects : bool.

(** The frustum tests, which read the frustum of the camera and the
    bounds of the object. *)
Variable intersectsSprite : Object -> bool.
Variable intersectsObject : Object -> bool.

(** The depth of a sprite and of the centre of a bounding sphere, in
    the space of the screen. *)
Variable sprite_z : Object -> Q.
Variable center_z : Object -> Geometry -> Q.

(** [objects.update( object )], which gives the geometry of the
    object. *)
Variable objects_update : Object -> Geometry.

(** [object.update( camera )] of a level-of-detail object, which shows
    and hides its levels: what it does to the [visible] flags. *)
Variable LOD_update : Object -> gmap Z bool -> gmap Z bool.

(** The body of [projectObject] for an object that passes the layer
    test: the group order for the children, and the state. *)
Definition project_self (object : Object) (groupOrder : Q) (s : State)
  : Q * State :=
  if isGroup object then (renderOrder object, s)
  else if isLOD object then
    (groupOrder,
     if autoUpdate object
     then set_visible (LOD_update object (visible s)) s else s)
  else if isLight object then
    (groupOrder,
     let s := pushLight object s in
     if castShadow object then pushShadow object s else s)
  else if isSprite object then
    (groupOrder,
     if negb (frustumCulled object) || intersectsSprite object then
       let s := if sortObjects then set_z (sprite_z object) s else s in
       let geometry := objects_update object in
       let s := log_update object s in
       match material object with
       | Single m =>
           if RenderList.material_visible m
           then push object geometry m groupOrder None s else s
       | Multi _ => s
       end
     else s)
  else if isMesh object || isLine object || isPoints object then
    (groupOrder,
     if negb (frustumCulled object) || intersectsObject object then
       let geometry := objects_update object in
       let s := log_update object s in
       let s := if sortObjects then set_z (center_z object geometry) s else s in
       match material object with
       | Multi ms => push_groups object geometry ms groupOrder s
       | Single m =>
           if RenderList.material_visible m
           then push object geometry m groupOrder None s else s
       end
     else s)
  else (groupOrder, s).

(** [projectObject( object, camera, groupOrder, sortObjects )]. *)
Fixpoint projectObject (object : Object3D) (groupOrder : Q) (s : State)
  : State :=
  match object with
  | Node o children =>
      if hidden o s then s
      else
        let '(groupOrder, s) :=
          if layers_test (layers o) (camera_layers camera)
          then project_self o groupOrder s
          else (groupOrder, s) in
        fold_left (fun s child => projectObject child groupOrder s) children s
  end.

(** The loop over the children. *)
Definition projectChildren (children : list Object3D) (groupOrder : Q)
           (s : State) : State :=
  fold_left (fun s child => projectObject child groupOrder s) children s.

End Scene.

(** Example data: a camera on layer 0, a mesh on layer 1 with a mesh on
    layer 0 as its child, and the state in which the object [r] was
    hidden. *)
Definition sample_camera : Camera := {| camera_layers := 1 |}.

Definition sample_material : RenderList.Material :=
  {| RenderList.material_id := 5; RenderList.transmission := None;
     RenderList.transparent := false; RenderList.material_visible := true |}.

Definition sample_mesh (r layer : Z) : Object :=
  {| ref := r; id := r; layers := 2 ^ layer; renderOrder := 0;
     isGroup := false; isLOD := false; isLight := false; isSprite := false;
     isMesh := true; isLine := false; isPoints := false;
     autoUpdate := false; castShadow := false; frustumCulled := false;
     material := Single sample_material |}.

Definition sample_scene : Object3D :=
  Node (sample_mesh 1 1) [Node (sample_mesh 2 0) []].

Definition hide (r : Z) (s : State) : State :=
  set_visible (<[r := false]> (visible s)) s.

End Projection.

(** ** Layers.js: the layer mask of an object *)
Module Layers.

(** The conversions that the bitwise operators apply to their operands
    and results: [ToInt32] and, for [>>>], [ToUint32]. *)
Definition to_int32 (z : Z) : Z := (z + 2 ^ 31) mod 2 ^ 32 - 2 ^ 31.

Definition to_uint32 (z : Z) : Z := z mod 2 ^ 32.

(** [1 << channel | 0]: the shift count is the channel modulo 32. *)
Definition channel_bit (channel : Z) : Z :=
  Z.lor (to_int32 (Z.shiftl 1 (channel mod 32))) 0.

(** The mask of a new [Layers] object: [1 | 0]. *)
Definition new_Layers : Z := Z.lor 1 0.

Definition set (channel : Z) : Z := to_uint32 (channel_bit channel).

Definition enable (channel : Z) (mask : Z) : Z :=
  Z.lor (to_int32 mask) (channel_bit channel).

Definition enableAll : Z := Z.lor (to_int32 4294967295) 0.

Definition toggle (channel : Z) (mask : Z) : Z :=
  Z.lxor (to_int32 mask) (channel_bit channel).

Definition disable (channel : Z) (mask : Z) : Z :=
  Z.land (to_int32 mask) (Z.lnot (channel_bit channel)).

Definition disableAll : Z := 0.

Definition test (mask other : Z) : bool :=
  negb (Z.land (to_int32 mask) (to_int32 other) =? 0).

Definition isEnabled (mask : Z) (channel : Z) : bool :=
  negb (Z.land (to_int32 mask) (channel_bit channel) =? 0).

End Layers.

(** ** EventDispatcher.js *)
Module EventDispatcher.

(** [this._listeners]: [undefined], or an object from event types to
    arrays of listeners.  A listener is a function, known by its
    reference. *)
Definition Listeners := option (gmap string (list nat)).

(** The object is made by [{}], so it inherits the properties of
    [Object.prototype].  Under one of these names [listeners[ type ]]
    is the inherited property, which is neither [undefined] nor an
    array: no array is stored under the name, and the methods throw a
    TypeError where they call [indexOf] or [slice] on what they read.
    The methods below are the methods for the other types, for which a
    type without listeners reads as [undefined]. *)
Definition Object_prototype : list string :=
  ["constructor"; "hasOwnProperty"; "isPrototypeOf"; "propertyIsEnumerable";
   "toLocaleString"; "toString"; "valueOf"; "__proto__";
   "__defineGetter__"; "__defineSetter__";
   "__lookupGetter__"; "__lookupSetter__"].

Definition own (type : string) : Prop := type ∉ Object_prototype.

Definition addEventListener (type : string) (listener : nat) (ls : Listeners)
  : Listeners :=
  let listeners := default ∅ ls in
  let array := default [] (listeners !! type) in
  Some (<[type := match Programs.indexOf listener array with
                  | None => array ++ [listener]
                  | Some _ => array
                  end]> listeners).

Definition hasEventListener (type : string) (listener : nat) (ls : Listeners)
  : bool :=
  match ls with
  | None => false
  | Some listeners =>
      match listeners !! type with
      | Some array =>
          match Programs.indexOf listener array with
          | Some _ => true
          | None => false
          end
      | None => false
      end
  end.

(** [listenerArray.splice( index, 1 )] takes the element at [index] out
    of the array. *)
Definition removeEventListener (type : string) (listener : nat) (ls : Listeners)
  : Listeners :=
  match ls with
  | None => None
  | Some listeners =>
      match listeners !! type with
      | Some listenerArray =>
          match Programs.indexOf listener listenerArray with
          | Some index => Some (<[type := delete index listenerArray]> listeners)
          | None => ls
          end
      | None => ls
      end
  end.

Section Dispatch.

(** What the listeners do when they are called: to the listeners of
    the dispatcher and to the rest of the program. *)
Context {World : Type}.
Variable listener_call : nat -> string -> Listeners * World -> Listeners * World.

(** [dispatchEvent( event )], for an event of the given type: the
    listeners are called from a copy of the array. *)
Definition dispatchEvent (type : string) (lw : Listeners * World)
  : Listeners * World :=
  match fst lw with
  | None => lw
  | Some listeners =>
      match listeners !! type with
      | Some listenerArray =>
          fold_left (fun lw listener => listener_call listener type lw)
                    listenerArray lw
      | None => lw
      end
  end.

End Dispatch.

(** A listener that unregisters itself when it is called, as the
    [dispose] listeners of the renderer do, and then does [action]. *)
Definition once {World : Type} (action : nat -> World -> World)
           (listener : nat) (type : string) (lw : Listeners * World)
  : Listeners * World :=
  (removeEventListener type listener (fst lw), action listener (snd lw)).

(** Calls that register and unregister listeners, and a run of them on
    a new dispatcher. *)
Inductive Call :=
| Add (type : string) (listener : nat)
| Remove (type : string) (listener : nat).

Definition step (ls : Listeners) (c : Call) : Listeners :=
  match c with
  | Add type listener => addEventListener type listener ls
  | Remove type listener => removeEventListener type listener ls
  end.

Definition run (cs : list Call) : Listeners := fold_left step cs None.

Definition call_type (c : Call) : string :=
  match c with
  | Add type _ => type
  | Remove type _ => type
  end.

(** The listeners of a type, in the order of their registration. *)
Definition listeners_of (type : string) (ls : Listeners) : list nat :=
  default [] (default ∅ ls !! type).

End EventDispatcher.

(** ** BufferAttribute.js and GLBufferAttribute.js: the methods that the
    attribute cache depends on *)
Module BufferAttribute.

Import WebGLAttributes.

(** [attribute.needsUpdate = value]. *)
Definition set_needsUpdate (value : bool) (a : Attribute) : Attribute :=
  if value then
    {| isGLBufferAttribute := isGLBufferAttribute a;
       isInterleavedBufferAttribute := isInterleavedBufferAttribute a;
       data := data a; array := array a; usage := usage a;
       version := version a + 1;
       isFloat16BufferAttribute := isFloat16BufferAttribute a;
       _updateRange := _updateRange a; updateRanges := updateRanges a;
       buffer := buffer a; type := type a; elementSize := elementSize a |}
  else a.

Definition with_updateRanges (rs : list Range) (a : Attribute) : Attribute :=
  {| isGLBufferAttribute := isGLBufferAttribute a;
     isInterleavedBufferAttribute := isInterleavedBufferAttribute a;
     data := data a; array := array a; usage := usage a;
     version := version a;
     isFloat16BufferAttribute := isFloat16BufferAttribute a;
     _updateRange := _updateRange a; updateRanges := rs;
     buffer := buffer a; type := type a; elementSize := elementSize a |}.

Definition addUpdateRange (start count : Z) (a : Attribute) : Attribute :=
  with_updateRanges (updateRanges a ++ [{| start := start; range_count := count |}]) a.

Definition clearUpdateRanges (a : Attribute) : Attribute :=
  with_updateRanges [] a.

(** [setUsage( value )]. *)
Definition setUsage (value : Z) (a : Attribute) : Attribute :=
  {| isGLBufferAttribute := isGLBufferAttribute a;
     isInterleavedBufferAttribute := isInterleavedBufferAttribute a;
     data := data a; array := array a; usage := value;
     version := version a;
     isFloat16BufferAttribute := isFloat16BufferAttribute a;
     _updateRange := _updateRange a; updateRanges := updateRanges a;
     buffer := buffer a; type := type a; elementSize := elementSize a |}.

(** [GLBufferAttribute.setBuffer( buffer )]. *)
Definition setBuffer (b : Z) (a : Attribute) : Attribute :=
  {| isGLBufferAttribute := isGLBufferAttribute a;
     isInterleavedBufferAttribute := isInterleavedBufferAttribute a;
     data := data a; array := array a; usage := usage a;
     version := version a;
     isFloat16BufferAttribute := isFloat16BufferAttribute a;
     _updateRange := _updateRange a; updateRanges := updateRanges a;
     buffer := b; type := type a; elementSize := elementSize a |}.

(** A method called on the object behind a reference. *)
Definition on_object (f : Attribute -> Attribute) (r : nat) (s : State) : State :=
  match objects s !! r with
  | Some a => set_objects (<[r := f a]> (objects s)) s
  | None => s
  end.

(** The [bufferSubData] call of an update range. *)
Definition range_call (bufferType : Z) (a : Attribute) (rg : Range) : Call :=
  gl_bufferSubData bufferType (start rg * BYTES_PER_ELEMENT (array a)) (array a)
                   (Some (start rg, range_count rg)).

(** Example data: an attribute that brings its own buffer. *)
Definition sample_gl_attribute (b ver : Z) : Attribute :=
  {| isGLBufferAttribute := true; isInterleavedBufferAttribute := false;
     data := 0%nat;
     array := {| kind := OtherArray; byteLength := 0;
                 BYTES_PER_ELEMENT := 0; elements := 0 |};
     usage := 0; version := ver; isFloat16BufferAttribute := false;
     _updateRange := {| offset := 0; count := -1 |}; updateRanges := [];
     buffer := b; type := gl.FLOAT; elementSize := 4 |}.

(** Example data: an interleaved buffer (object 0) with two interleaved
    attributes over it (objects 1 and 2), nothing cached. *)
Definition sample_interleaved_attribute : Attribute :=
  {| isGLBufferAttribute := false; isInterleavedBufferAttribute := true;
     data := 0%nat;
     array := {| kind := OtherArray; byteLength := 0;
                 BYTES_PER_ELEMENT := 0; elements := 0 |};
     usage := 0; version := 0; isFloat16BufferAttribute := false;
     _updateRange := {| offset := 0; count := -1 |}; updateRanges := [];
     buffer := 0; type := 0; elementSize := 0 |}.

Definition sample_interleaved : State :=
  {| objects := {[ 0%nat := sample_attribute 24 0;
                   1%nat := sample_interleaved_attribute;
                   2%nat := sample_interleaved_attribute ]};
     buffers := ∅; calls := []; created := 0 |}.

End BufferAttribute.

(** ** WebGLRenderLists.js: a frame of the render list, and the lists of
    the scenes *)
Module RenderListFrame.

Import RenderList.

(** [unshift( object, geometry, material, groupOrder, z, group )]. *)
Definition unshift (o : Object3D) (geo : Z) (m : Material)
           (go zz : Q) (grp : option Z) (s : State) : State :=
  let '(renderItem, s1) := getNextRenderItem o geo m go zz grp s in
  if gt_zero (transmission m) then
    {| renderItems := renderItems s1; renderItemsIndex := renderItemsIndex s1;
       opaque := opaque s1;
       transmissive := renderItem :: transmissive s1;
       transparent_list := transparent_list s1 |}
  else if transparent m then
    {| renderItems := renderItems s1; renderItemsIndex := renderItemsIndex s1;
       opaque := opaque s1;
       transmissive := transmissive s1;
       transparent_list := renderItem :: transparent_list s1 |}
  else
    {| renderItems := renderItems s1; renderItemsIndex := renderItemsIndex s1;
       opaque := renderItem :: opaque s1;
       transmissive := transmissive s1;
       transparent_list := transparent_list s1 |}.

(** One call of [push] or [unshift], with its arguments. *)
Record Entry := {
  at_front : bool;
  entry_object : Object3D;
  entry_geometry : Z;
  entry_material : Material;
  entry_groupOrder : Q;
  entry_z : Q;
  entry_group : option Z
}.

Definition item_of (e : Entry) : RenderItem :=
  mkItem (entry_object e) (entry_geometry e) (entry_material e)
         (entry_groupOrder e) (entry_z e) (entry_group e).

Definition insert (s : State) (e : Entry) : State :=
  if at_front e
  then unshift (entry_object e) (entry_geometry e) (entry_material e)
               (entry_groupOrder e) (entry_z e) (entry_group e) s
  else push (entry_object e) (entry_geometry e) (entry_material e)
            (entry_groupOrder e) (entry_z e) (entry_group e) s.

(** The list is filled for a frame: [init], then the calls. *)
Definition fill (es : list Entry) (s : State) : State :=
  fold_left insert es (init s).

(** The list with the flag of each pooled item that says whether
    [finish] has set its references ([id], [object], [geometry],
    [material], [group]) to [null]; such an item keeps its [groupOrder],
    [renderOrder] and [z]. *)
Record Pooled := {
  list_state : State;
  is_null : list bool
}.

Definition empty_pool : Pooled := {| list_state := empty; is_null := [] |}.

(** [getNextRenderItem] writes the references of the item it returns. *)
Definition pooled_insert (p : Pooled) (e : Entry) : Pooled :=
  let i := renderItemsIndex (list_state p) in
  {| list_state := insert (list_state p) e;
     is_null := match is_null p !! i with
                | Some _ => <[i := false]> (is_null p)
                | None => is_null p ++ [false]
                end |}.

Definition pooled_init (p : Pooled) : Pooled :=
  {| list_state := init (list_state p); is_null := is_null p |}.

(** The loop of [finish], from its first index on: it stops at the
    first item whose [id] is [null]. *)
Fixpoint finish_loop (flags : list bool) : list bool :=
  match flags with
  | [] => []
  | true :: _ => flags
  | false :: flags' => true :: finish_loop flags'
  end.

Definition finish (p : Pooled) : Pooled :=
  let i := renderItemsIndex (list_state p) in
  {| list_state := list_state p;
     is_null := take i (is_null p) ++ finish_loop (drop i (is_null p)) |}.

(** A frame, as [render] runs it: [init], the calls of [push] and
    [unshift] that [projectObject] makes, [finish], and [sort] when the
    renderer sorts its objects. *)
Definition frame (p : Pooled) (f : bool * list Entry) : Pooled :=
  let '(sortObjects, es) := f in
  let p := finish (fold_left pooled_insert es (pooled_init p)) in
  if sortObjects
  then {| list_state := sort None None (list_state p); is_null := is_null p |}
  else p.

Definition frames (fs : list (bool * list Entry)) : Pooled :=
  fold_left frame fs empty_pool.

(** The flags between [init] and [finish]: the items below some bound
    that the index has not passed hold references, the items from it on
    are cleared. *)
Definition filling (p : Pooled) : Prop :=
  exists a : nat,
    (renderItemsIndex (list_state p) <= a)%nat /\
    (a <= length (renderItems (list_state p)))%nat /\
    is_null p
    = replicate a false
      ++ replicate (length (renderItems (list_state p)) - a) true.

(** The longest frame. *)
Definition longest (fs : list (bool * list Entry)) : nat :=
  foldr (fun f n => Nat.max (length (snd f)) n) 0%nat fs.

End RenderListFrame.

(** ** WebGLRenderLists.js, WebGLRenderStates.js: the lists of the scenes *)
Module WebGLRenderLists.

(** The closure state of [WebGLRenderLists]: the [WeakMap] from scenes
    to arrays of render lists.  A scene and a [WebGLRenderList] are
    objects, known by their references; the lists are numbered in the
    order in which [new WebGLRenderList()] makes them.
    [WebGLRenderStates] is the same code over [WebGLRenderState]. *)
Record Lists := {
  lists : gmap nat (list nat);
  created : nat
}.

Definition initial : Lists := {| lists := ∅; created := 0%nat |}.

(** [get( scene, renderCallDepth )]: [listArray[ renderCallDepth ]] is
    there exactly when [renderCallDepth >= listArray.length] is false;
    the new list is pushed at the end of the array, whatever the depth
    is. *)
Definition get (scene renderCallDepth : nat) (s : Lists) : nat * Lists :=
  match lists s !! scene with
  | None =>
      (created s,
       {| lists := <[scene := [created s]]> (lists s);
          created := S (created s) |})
  | Some listArray =>
      match listArray !! renderCallDepth with
      | None =>
          (created s,
           {| lists := <[scene := listArray ++ [created s]]> (lists s);
              created := S (created s) |})
      | Some list => (list, s)
      end
  end.

Definition dispose (s : Lists) : Lists :=
  {| lists := ∅; created := created s |}.

Inductive Call :=
| Get (scene renderCallDepth : nat)
| Dispose.

Definition step (s : Lists) (c : Call) : Lists :=
  match c with
  | Get scene renderCallDepth => snd (get scene renderCallDepth s)
  | Dispose => dispose s
  end.

Definition run (cs : list Call) : Lists := fold_left step cs initial.

(** The array of a scene, empty when the scene has none. *)
Definition listArray_of (scene : nat) (s : Lists) : list nat :=
  default [] (lists s !! scene).

(** No list is in two places, and the lists of the arrays have been
    made. *)
Record Inv (s : Lists) : Prop := {
  inv_made : forall scene i l,
    listArray_of scene s !! i = Some l -> (l < created s)%nat;
  inv_unshared : forall scene scene' i j l,
    listArray_of scene s !! i = Some l ->
    listArray_of scene' s !! j = Some l -> scene = scene' /\ i = j
}.

End WebGLRenderLists.

(** ** WebGLBindingStates.js *)
Module WebGLBindingStates.

(** A JavaScript array of numbers.  A hole and an index past the end
    read as [undefined]; writing past the end extends the array with
    holes. *)
Abbreviation JSArray := (list (option Z)).

Definition array_get (l : JSArray) (i : nat) : option Z := mjoin (l !! i).

Definition array_set (i : nat) (v : Z) (l : JSArray) : JSArray :=
  if decide (i < length l)%nat then <[i := Some v]> l
  else l ++ replicate (i - length l) None ++ [Some v].

(** A buffer attribute as this file reads it: the object, and its
    [data], which is the interleaved buffer of an interleaved attribute
    and [undefined] otherwise. *)
Record Attribute := {
  attribute_ref : nat;
  attribute_data : option nat
}.

(** An entry of the cache of [saveCache]: [{ attribute, data }]. *)
Record CachedAttribute := {
  cached_attribute : option nat;
  cached_data : option nat
}.

(** A binding state, as [createBindingState] makes it; [attributesNum]
    is [undefined] until [saveCache] sets it.  [object] is the vertex
    array object, [null] for the default state. *)
Record BindingState := {
  geometry : option nat;
  program : option nat;
  wireframe : bool;
  newAttributes : JSArray;
  enabledAttributes : JSArray;
  attributeDivisors : JSArray;
  object : option nat;
  attributes : gmap string CachedAttribute;
  attributesNum : option nat;
  index : option nat
}.

Definition createBindingState (maxVertexAttributes : nat) (vao : option nat)
  : BindingState :=
  {| geometry := None; program := None; wireframe := false;
     newAttributes := replicate maxVertexAttributes (Some 0);
     enabledAttributes := replicate maxVertexAttributes (Some 0);
     attributeDivisors := replicate maxVertexAttributes (Some 0);
     object := vao;
     attributes := ∅;
     attributesNum := None;
     index := None |}.

(** *** needsUpdate and saveCache *)

(** What these two functions read of their arguments:
    [geometry.attributes], [object.instanceMatrix] and
    [object.instanceColor] ([null] or [undefined] is [None]), and the
    attributes of the program with their locations, in the order of the
    [for ... in] loop.  Attribute names are identifiers of the shading
    language and name no property of [Object.prototype]. *)
Record Object3D := {
  instanceMatrix : option Attribute;
  instanceColor : option Attribute
}.

Abbreviation ProgramAttributes := (list (string * Z)).

(** [let geometryAttribute = geometryAttributes[ name ]], with the two
    fallbacks to the attributes of an instanced mesh. *)
Definition geometryAttribute_of (name : string) (object : Object3D)
           (geometryAttributes : gmap string Attribute) : option Attribute :=
  match geometryAttributes !! name with
  | Some geometryAttribute => Some geometryAttribute
  | None =>
      let geometryAttribute :=
        if String.eqb name "instanceMatrix"
        then instanceMatrix object else None in
      if String.eqb name "instanceColor"
      then match instanceColor object with
           | Some c => Some c
           | None => geometryAttribute
           end
      else geometryAttribute
  end.

(** The loop of [needsUpdate]: [None] when it returns [true], else the
    number of attributes counted. *)
Fixpoint needsUpdate_loop (cachedAttributes : gmap string CachedAttribute)
         (object : Object3D) (geometryAttributes : gmap string Attribute)
         (programAttributes : ProgramAttributes) (attributesNum : nat)
  : option nat :=
  match programAttributes with
  | [] => Some attributesNum
  | (name, location) :: rest =>
      if (0 <=? location)%Z then
        match cachedAttributes !! name with
        | None => None
        | Some cachedAttribute =>
            let geometryAttribute :=
              geometryAttribute_of name object geometryAttributes in
            if negb (bool_decide (cached_attribute cachedAttribute
                                  = attribute_ref <$> geometryAttribute))
            then None
            else if match geometryAttribute with
                    | Some a => negb (bool_decide (cached_data cachedAttribute
                                                   = attribute_data a))
                    | None => false
                    end
            then None
            else needsUpdate_loop cachedAttributes object geometryAttributes
                                  rest (S attributesNum)
        end
      else needsUpdate_loop cachedAttributes object geometryAttributes
                            rest attributesNum
  end.

Definition needsUpdate (object : Object3D)
           (geometryAttributes : gmap string Attribute)
           (programAttributes : ProgramAttributes) (index' : option nat)
           (currentState : BindingState) : bool :=
  match needsUpdate_loop (attributes currentState) object geometryAttributes
                         programAttributes 0 with
  | None => true
  | Some attributesNum' =>
      if negb (bool_decide (attributesNum currentState = Some attributesNum'))
      then true
      else negb (bool_decide (index currentState = index'))
  end.

Definition saveCache_loop (object : Object3D)
           (geometryAttributes : gmap string Attribute)
           (programAttributes : ProgramAttributes)
  : gmap string CachedAttribute * nat :=
  fold_left
    (fun '(cache, attributesNum) '(name, location) =>
       if (0 <=? location)%Z then
         let attribute := geometryAttribute_of name object geometryAttributes in
         (<[name := {| cached_attribute := attribute_ref <$> attribute;
                       cached_data := attribute ≫= attribute_data |}]> cache,
          S attributesNum)
       else (cache, attributesNum))
    programAttributes (∅, 0%nat).

Definition saveCache (object' : Object3D)
           (geometryAttributes : gmap string Attribute)
           (programAttributes : ProgramAttributes) (index' : option nat)
           (currentState : BindingState) : BindingState :=
  let '(cache, attributesNum') :=
    saveCache_loop object' geometryAttributes programAttributes in
  {| geometry := geometry currentState; program := program currentState;
     wireframe := wireframe currentState;
     newAttributes := newAttributes currentState;
     enabledAttributes := enabledAttributes currentState;
     attributeDivisors := attributeDivisors currentState;
     object := object currentState;
     attributes := cache;
     attributesNum := Some attributesNum';
     index := index' |}.

(** *** The vertex attribute arrays *)

Inductive GLCall :=
| enableVertexAttribArray (i : nat)
| disableVertexAttribArray (i : nat)
| vertexAttribDivisor (i : nat) (divisor : Z)
| bindVertexArray (vao : option nat).

Definition with_arrays (new enabled divisors : JSArray) (st : BindingState)
  : BindingState :=
  {| geometry := geometry st; program := program st;
     wireframe := wireframe st;
     newAttributes := new; enabledAttributes := enabled;
     attributeDivisors := divisors;
     object := object st; attributes := attributes st;
     attributesNum := attributesNum st; index := index st |}.

(** The functions below work on the state that [currentState] refers
    to, and call the graphics API: they take and return the state and
    the log of the calls. *)
Definition initAttributes (c : BindingState * list GLCall)
  : BindingState * list GLCall :=
  let '(st, log) := c in
  (with_arrays ((fun _ => Some 0) <$> newAttributes st)
               (enabledAttributes st) (attributeDivisors st) st, log).

Definition enableAttributeAndDivisor (attribute : nat) (meshPerAttribute : Z)
           (c : BindingState * list GLCall) : BindingState * list GLCall :=
  let '(st, log) := c in
  let new := array_set attribute 1 (newAttributes st) in
  let '(enabled, log) :=
    if bool_decide (array_get (enabledAttributes st) attribute = Some 0)
    then (array_set attribute 1 (enabledAttributes st),
          log ++ [enableVertexAttribArray attribute])
    else (enabledAttributes st, log) in
  let '(divisors, log) :=
    if negb (bool_decide (array_get (attributeDivisors st) attribute
                          = Some meshPerAttribute))
    then (array_set attribute meshPerAttribute (attributeDivisors st),
          log ++ [vertexAttribDivisor attribute meshPerAttribute])
    else (attributeDivisors st, log) in
  (with_arrays new enabled divisors st, log).

Definition enableAttribute (attribute : nat) (c : BindingState * list GLCall)
  : BindingState * list GLCall :=
  enableAttributeAndDivisor attribute 0 c.

(** One round of the loop of [disableUnusedAttributes]. *)
Definition disable_unused (c : BindingState * list GLCall) (i : nat)
  : BindingState * list GLCall :=
  let '(st, log) := c in
  if negb (bool_decide (array_get (enabledAttributes st) i
                        = array_get (newAttributes st) i))
  then (with_arrays (newAttributes st)
                    (array_set i 0 (enabledAttributes st))
                    (attributeDivisors st) st,
        log ++ [disableVertexAttribArray i])
  else (st, log).

Definition disableUnusedAttributes (c : BindingState * list GLCall)
  : BindingState * list GLCall :=
  fold_left disable_unused (seq 0 (length (enabledAttributes (fst c)))) c.

(** The attributes of a draw call are set as [setupVertexAttributes]
    does: [initAttributes], one [enableAttributeAndDivisor] for each
    location in use, [disableUnusedAttributes]. *)
Definition pass (used : list (nat * Z)) (c : BindingState * list GLCall)
  : BindingState * list GLCall :=
  disableUnusedAttributes
    (fold_left (fun c '(attribute, meshPerAttribute) =>
                  enableAttributeAndDivisor attribute meshPerAttribute c)
               used (initAttributes c)).

(** The vertex array object that the calls act on: the enabled arrays
    and the divisors (0 when it was never set). *)
Record VertexArray := {
  enabled : gset nat;
  divisors : gmap nat Z
}.

Definition divisor_of (vao : VertexArray) (i : nat) : Z :=
  default 0 (divisors vao !! i).

Definition gl_call (vao : VertexArray) (c : GLCall) : VertexArray :=
  match c with
  | enableVertexAttribArray i =>
      {| enabled := {[i]} ∪ enabled vao; divisors := divisors vao |}
  | disableVertexAttribArray i =>
      {| enabled := enabled vao ∖ {[i]}; divisors := divisors vao |}
  | vertexAttribDivisor i d =>
      {| enabled := enabled vao; divisors := <[i := d]> (divisors vao) |}
  | bindVertexArray _ => vao
  end.

Definition gl_run (log : list GLCall) (vao : VertexArray) : VertexArray :=
  fold_left gl_call log vao.

(** A call that changes nothing in the vertex array object. *)
Definition redundant (vao : VertexArray) (c : GLCall) : bool :=
  match c with
  | enableVertexAttribArray i => bool_decide (i ∈ enabled vao)
  | disableVertexAttribArray i => bool_decide (i ∉ enabled vao)
  | vertexAttribDivisor i d => bool_decide (divisor_of vao i = d)
  | bindVertexArray _ => false
  end.

Fixpoint redundant_calls (vao : VertexArray) (log : list GLCall) : nat :=
  match log with
  | [] => 0
  | c :: log =>
      ((if redundant vao c then 1 else 0) + redundant_calls (gl_call vao c) log)%nat
  end.

(** The divisor that the calls of [enableAttributeAndDivisor] of a
    draw call leave at a location: the one of the last call for it. *)
Definition requested_divisor (used : list (nat * Z)) (i : nat) (d0 : Z) : Z :=
  fold_left (fun d '(attribute, meshPerAttribute) =>
               if decide (attribute = i) then meshPerAttribute else d)
            used d0.

(** The state mirrors the vertex array object: over the locations below
    [n], the three arrays have length [n], [enabledAttributes] holds 1
    for the enabled arrays and 0 for the others, and
    [attributeDivisors] holds the divisors. *)
Record Mirror (n : nat) (st : BindingState) (vao : VertexArray) : Prop := {
  mirror_new : length (newAttributes st) = n;
  mirror_enabled_length : length (enabledAttributes st) = n;
  mirror_divisors_length : length (attributeDivisors st) = n;
  mirror_enabled : forall i, (i < n)%nat ->
    array_get (enabledAttributes st) i
    = Some (if bool_decide (i ∈ enabled vao) then 1 else 0);
  mirror_divisors : forall i, (i < n)%nat ->
    array_get (attributeDivisors st) i = Some (divisor_of vao i);
  mirror_range : forall i, i ∈ enabled vao -> (i < n)%nat
}.

(** *** The binding states of the geometries *)

(** The closure state.  The binding states are objects: [states] holds
    them, a binding state is known by its index there, and the default
    state is the first.  [bindingStates] maps [geometry.id], then
    [program.id], then [wireframe] to a binding state.  Of the context
    the state holds the vertex array objects that are not deleted,
    numbered in the order in which [gl.createVertexArray()] makes them,
    and the log of the calls of [gl.bindVertexArray]. *)
Record State := {
  states : list BindingState;
  bindingStates : gmap Z (gmap Z (gmap bool nat));
  currentState : nat;
  forceUpdate : bool;
  vertexArrays : gset nat;
  createdArrays : nat;
  calls : list GLCall
}.

Definition defaultState : nat := 0%nat.

Definition initial (maxVertexAttributes : nat) : State :=
  {| states := [createBindingState maxVertexAttributes None];
     bindingStates := ∅;
     currentState := defaultState;
     forceUpdate := false;
     vertexArrays := ∅;
     createdArrays := 0%nat;
     calls := [] |}.

(** [getBindingState( geometry, program, material )], with
    [geometry.id], [program.id] and [material.wireframe === true] for
    its arguments.  The maps it makes on the way are stored at once;
    here they are stored with the new state. *)
Definition getBindingState (maxVertexAttributes : nat)
           (geometry_id program_id : Z) (wireframe' : bool) (s : State)
  : nat * State :=
  let programMap := default ∅ (bindingStates s !! geometry_id) in
  let stateMap := default ∅ (programMap !! program_id) in
  match stateMap !! wireframe' with
  | Some state => (state, s)
  | None =>
      let vao := createdArrays s in
      let state := length (states s) in
      (state,
       {| states :=
            states s ++ [createBindingState maxVertexAttributes (Some vao)];
          bindingStates :=
            <[geometry_id :=
                <[program_id := <[wireframe' := state]> stateMap]> programMap]>
              (bindingStates s);
          currentState := currentState s;
          forceUpdate := forceUpdate s;
          vertexArrays := {[vao]} ∪ vertexArrays s;
          createdArrays := S vao;
          calls := calls s |})
  end.

(** [state.object] of the binding state at a reference. *)
Definition state_object (s : State) (state : nat) : option nat :=
  states s !! state ≫= object.

Definition with_vertexArrays (X : gset nat) (s : State) : State :=
  {| states := states s; bindingStates := bindingStates s;
     currentState := currentState s; forceUpdate := forceUpdate s;
     vertexArrays := X; createdArrays := createdArrays s;
     calls := calls s |}.

(** [gl.deleteVertexArray( vao )]; [null] is ignored. *)
Definition deleteVertexArrayObject (vao : option nat) (s : State) : State :=
  match vao with
  | Some v => with_vertexArrays (vertexArrays s ∖ {[v]}) s
  | None => s
  end.

Definition with_bindingStates (m : gmap Z (gmap Z (gmap bool nat))) (s : State)
  : State :=
  {| states := states s; bindingStates := m;
     currentState := currentState s; forceUpdate := forceUpdate s;
     vertexArrays := vertexArrays s; createdArrays := createdArrays s;
     calls := calls s |}.

(** [for ( const wireframe in stateMap )]: the vertex array object of
    each state of the map is deleted.  The order of the loop does not
    show in the set of the vertex array objects. *)
Definition release_stateMap (stateMap : gmap bool nat) (s : State) : State :=
  fold_left (fun s state => deleteVertexArrayObject (state_object s state) s)
            (map_to_list stateMap).*2 s.

(** [for ( const programId in programMap )]. *)
Definition release_programMap (programMap : gmap Z (gmap bool nat)) (s : State)
  : State :=
  fold_left (fun s '(_, stateMap) => release_stateMap stateMap s)
            (map_to_list programMap) s.

Definition releaseStatesOfGeometry (geometry_id : Z) (s : State) : State :=
  match bindingStates s !! geometry_id with
  | None => s
  | Some programMap =>
      with_bindingStates (delete geometry_id (bindingStates s))
                         (release_programMap programMap s)
  end.

(** [for ( const geometryId in bindingStates )]: a [programMap]
    without [program.id] is passed over, the others lose the entry. *)
Definition releaseStatesOfProgram (program_id : Z) (s : State) : State :=
  with_bindingStates
    ((fun programMap => delete program_id programMap) <$> bindingStates s)
    (fold_left (fun s '(_, programMap) =>
                  match programMap !! program_id with
                  | None => s
                  | Some stateMap => release_stateMap stateMap s
                  end)
               (map_to_list (bindingStates s)) s).

Definition resetDefaultState (s : State) : State :=
  {| states :=
       alter (fun st =>
                {| geometry := None; program := None; wireframe := false;
                   newAttributes := newAttributes st;
                   enabledAttributes := enabledAttributes st;
                   attributeDivisors := attributeDivisors st;
                   object := object st; attributes := attributes st;
                   attributesNum := attributesNum st; index := index st |})
             defaultState (states s);
     bindingStates := bindingStates s;
     currentState := currentState s; forceUpdate := forceUpdate s;
     vertexArrays := vertexArrays s; createdArrays := createdArrays s;
     calls := calls s |}.

Definition reset (s : State) : State :=
  let s := resetDefaultState s in
  if decide (currentState s = defaultState) then
    {| states := states s; bindingStates := bindingStates s;
       currentState := currentState s; forceUpdate := true;
       vertexArrays := vertexArrays s; createdArrays := createdArrays s;
       calls := calls s |}
  else
    {| states := states s; bindingStates := bindingStates s;
       currentState := defaultState; forceUpdate := true;
       vertexArrays := vertexArrays s; createdArrays := createdArrays s;
       calls := calls s ++ [bindVertexArray (state_object s defaultState)] |}.

Definition dispose (s : State) : State :=
  let s := reset s in
  with_bindingStates
    ∅
    (fold_left (fun s '(_, programMap) => release_programMap programMap s)
               (map_to_list (bindingStates s)) s).

Inductive Call :=
| GetBindingState (geometry_id program_id : Z) (wireframe' : bool)
| ReleaseStatesOfGeometry (geometry_id : Z)
| ReleaseStatesOfProgram (program_id : Z)
| Reset
| Dispose.

Definition step (maxVertexAttributes : nat) (s : State) (c : Call) : State :=
  match c with
  | GetBindingState g p w => snd (getBindingState maxVertexAttributes g p w s)
  | ReleaseStatesOfGeometry g => releaseStatesOfGeometry g s
  | ReleaseStatesOfProgram p => releaseStatesOfProgram p s
  | Reset => reset s
  | Dispose => dispose s
  end.

Definition run (maxVertexAttributes : nat) (cs : list Call) : State :=
  fold_left (step maxVertexAttributes) cs (initial maxVertexAttributes).

(** The binding state stored for a geometry, a program and a wireframe
    flag. *)
Definition stored (s : State) (geometry_id program_id : Z) (wireframe' : bool)
  : option nat :=
  bindingStates s !! geometry_id ≫= (fun programMap =>
  programMap !! program_id ≫= (fun stateMap => stateMap !! wireframe')).

(** What [saveCache] stores for a name. *)
Definition entry_of (name : string) (object : Object3D)
           (geometryAttributes : gmap string Attribute) : CachedAttribute :=
  let attribute := geometryAttribute_of name object geometryAttributes in
  {| cached_attribute := attribute_ref <$> attribute;
     cached_data := attribute ≫= attribute_data |}.

Definition active (programAttributes : list (string * Z)) : list string :=
  fst <$> filter (fun p => (0 <= snd p)%Z) programAttributes.

(** An attribute of the geometry that [needsUpdate] accepts against an
    entry of the cache. *)
Definition same_attribute (cachedAttribute : CachedAttribute)
           (geometryAttribute : option Attribute) : Prop :=
  cached_attribute cachedAttribute = attribute_ref <$> geometryAttribute /\
  forall a, geometryAttribute = Some a ->
            cached_data cachedAttribute = attribute_data a.

(** The calls of one [enableAttributeAndDivisor] against a mirrored
    vertex array object. *)
Definition enable_calls (vao : VertexArray) (a : nat) (d : Z) : list GLCall :=
  (if bool_decide (a ∈ enabled vao) then [] else [enableVertexAttribArray a])
  ++ (if bool_decide (divisor_of vao a = d) then []
      else [vertexAttribDivisor a d]).

Definition release_refs (refs : list nat) (s : State) : State :=
  fold_left (fun s state => deleteVertexArrayObject (state_object s state) s)
            refs s.

Definition refs_of_stateMap (stateMap : gmap bool nat) : list nat :=
  (map_to_list stateMap).*2.

Definition refs_of_programMap (programMap : gmap Z (gmap bool nat)) : list nat :=
  map_to_list programMap ≫= (fun x => refs_of_stateMap (snd x)).

(** A release of the binding states whose keys satisfy [K]. *)
Definition Released (K : Z -> Z -> bool -> Prop) (s s' : State) : Prop :=
  states s' = states s /\
  createdArrays s' = createdArrays s /\
  (forall g p w r, stored s' g p w = Some r
                   <-> ~ K g p w /\ stored s g p w = Some r) /\
  (forall v, v ∈ vertexArrays s'
             <-> v ∈ vertexArrays s /\
                 ~ exists g p w r, K g p w /\ stored s g p w = Some r /\
                                   state_object s r = Some v).

(** The vertex array objects that are not deleted are those of the
    binding states stored, one for each key. *)
Record Inv (s : State) : Prop := {
  inv_object : forall g p w r,
    stored s g p w = Some r ->
    exists v, state_object s r = Some v /\ v ∈ vertexArrays s;
  inv_refs : forall g p w g' p' w' r,
    stored s g p w = Some r -> stored s g' p' w' = Some r ->
    g = g' /\ p = p' /\ w = w';
  inv_heap : forall r r' v,
    state_object s r = Some v -> state_object s r' = Some v -> r = r';
  inv_no_leak : forall v,
    v ∈ vertexArrays s ->
    exists g p w r, stored s g p w = Some r /\ state_object s r = Some v;
  inv_created : forall r v,
    state_object s r = Some v -> (v < createdArrays s)%nat
}.

End WebGLBindingStates.

(** ** WebGLState.js: the texture units *)
Module TextureUnits.

Definition TEXTURE0 : Z := 33984.

(** The [webglTexture] argument: [undefined], [null] or a texture
    object. *)
Inductive Texture :=
| Undefined
| Null
| Object (texture : nat).

#[global] Instance Texture_eq_dec : EqDecision Texture.
Proof. solve_decision. Defined.

(** An entry of [currentBoundTextures]: [{ type, texture }], with
    [undefined] for a [type] that is not set. *)
Record BoundTexture := {
  type : option Z;
  texture : Texture
}.

Inductive GLCall :=
| gl_activeTexture (slot : Z)
| gl_bindTexture (target : Z) (texture : option nat).

(** The variables of the closure that the three functions use, and the
    log of their calls. *)
Record State := {
  currentTextureSlot : option Z;
  currentBoundTextures : gmap Z BoundTexture;
  calls : list GLCall
}.

Definition initial : State :=
  {| currentTextureSlot := None; currentBoundTextures := ∅; calls := [] |}.

(** The texture units of the context: the active unit, and the texture
    bound to each target of each unit ([None] for no texture). *)
Record Context := {
  active : Z;
  units : gmap (Z * Z) (option nat)
}.

Definition gl_call (gl : Context) (c : GLCall) : Context :=
  match c with
  | gl_activeTexture slot => {| active := slot; units := units gl |}
  | gl_bindTexture target t =>
      {| active := active gl; units := <[(active gl, target) := t]> (units gl) |}
  end.

Definition gl_run (log : list GLCall) (gl : Context) : Context :=
  fold_left gl_call log gl.

Section Units.

(** [gl.getParameter( gl.MAX_COMBINED_TEXTURE_IMAGE_UNITS )] and the
    textures that [createTexture] has made for [emptyTextures]. *)
Variable maxTextures : Z.
Variable emptyTextures : gmap Z nat.

(** [activeTexture( webglSlot )]; [None] is an argument left out. *)
Definition activeTexture (webglSlot : option Z) (s : State) : State :=
  let webglSlot := default (TEXTURE0 + maxTextures - 1) webglSlot in
  if bool_decide (currentTextureSlot s <> Some webglSlot) then
    {| currentTextureSlot := Some webglSlot;
       currentBoundTextures := currentBoundTextures s;
       calls := calls s ++ [gl_activeTexture webglSlot] |}
  else s.

(** [webglTexture || emptyTextures[ webglType ]]. *)
Definition or_empty (webglType : Z) (webglTexture : Texture) : option nat :=
  match webglTexture with
  | Object t => Some t
  | _ => emptyTextures !! webglType
  end.

Definition bindTexture (webglType : Z) (webglTexture : Texture)
           (webglSlot : option Z) (s : State) : State :=
  let webglSlot :=
    match webglSlot with
    | Some slot => slot
    | None =>
        match currentTextureSlot s with
        | None => TEXTURE0 + maxTextures - 1
        | Some slot => slot
        end
    end in
  let '(boundTexture, bound) :=
    match currentBoundTextures s !! webglSlot with
    | Some boundTexture => (boundTexture, currentBoundTextures s)
    | None =>
        ({| type := None; texture := Undefined |},
         <[webglSlot := {| type := None; texture := Undefined |}]>
           (currentBoundTextures s))
    end in
  if bool_decide (type boundTexture <> Some webglType)
     || bool_decide (texture boundTexture <> webglTexture) then
    let '(slot, log) :=
      if bool_decide (currentTextureSlot s <> Some webglSlot)
      then (Some webglSlot, calls s ++ [gl_activeTexture webglSlot])
      else (currentTextureSlot s, calls s) in
    {| currentTextureSlot := slot;
       currentBoundTextures :=
         <[webglSlot := {| type := Some webglType; texture := webglTexture |}]>
           bound;
       calls := log ++ [gl_bindTexture webglType
                                       (or_empty webglType webglTexture)] |}
  else
    {| currentTextureSlot := currentTextureSlot s;
       currentBoundTextures := bound;
       calls := calls s |}.

(** [unbindTexture()]: [currentBoundTextures[ null ]] is
    [undefined]. *)
Definition unbindTexture (s : State) : State :=
  match currentTextureSlot s with
  | None => s
  | Some slot =>
      match currentBoundTextures s !! slot with
      | Some {| type := Some t |} =>
          {| currentTextureSlot := currentTextureSlot s;
             currentBoundTextures :=
               <[slot := {| type := None; texture := Undefined |}]>
                 (currentBoundTextures s);
             calls := calls s ++ [gl_bindTexture t None] |}
      | _ => s
      end
  end.

Inductive Call :=
| ActiveTexture (webglSlot : option Z)
| BindTexture (webglType : Z) (webglTexture : Texture) (webglSlot : option Z)
| UnbindTexture.

Definition step (s : State) (c : Call) : State :=
  match c with
  | ActiveTexture webglSlot => activeTexture webglSlot s
  | BindTexture webglType webglTexture webglSlot =>
      bindTexture webglType webglTexture webglSlot s
  | UnbindTexture => unbindTexture s
  end.

Definition run (cs : list Call) : State := fold_left step cs initial.

(** The snapshot against the context: the slot the snapshot holds is
    the active unit, and a texture the snapshot holds for a slot is
    bound to its target in that unit. *)
Definition Coherent (s : State) (gl : Context) : Prop :=
  (forall slot, currentTextureSlot s = Some slot -> active gl = slot) /\
  (forall slot boundTexture t,
      currentBoundTextures s !! slot = Some boundTexture ->
      type boundTexture = Some t ->
      units gl !! (slot, t)
      = Some (or_empty t (texture boundTexture))).

(** The slot that [bindTexture] works on. *)
Definition slot_of (webglSlot : option Z) (s : State) : Z :=
  match webglSlot with
  | Some slot => slot
  | None =>
      match currentTextureSlot s with
      | None => TEXTURE0 + maxTextures - 1
      | Some slot => slot
      end
  end.

End Units.

End TextureUnits.

(** ** WebGLShaderCache.js *)
Module WebGLShaderCache.

(** A [WebGLShaderStage].  Its [id] comes from the counter [_id] of the
    module, so a stage object is known by its [id]: the stages are kept
    by it. *)
Record WebGLShaderStage := {
  code : string;
  usedTimes : Z
}.

(** What the cache reads of a material. *)
Record Material := {
  material_ref : nat;
  vertexShader : string;
  fragmentShader : string
}.

(** The counter of the module, the stage objects, and the two maps of a
    cache: [shaderCache] from shader code to stage, [materialCache]
    from material to its [Set] of stages, in the order of insertion. *)
Record Cache := {
  _id : nat;
  stages : gmap nat WebGLShaderStage;
  shaderCache : gmap string nat;
  materialCache : gmap nat (list nat)
}.

Definition initial : Cache :=
  {| _id := 0%nat; stages := ∅; shaderCache := ∅; materialCache := ∅ |}.

Definition _getShaderStage (code' : string) (s : Cache) : nat * Cache :=
  match shaderCache s !! code' with
  | Some stage => (stage, s)
  | None =>
      let stage := _id s in
      (stage,
       {| _id := S (_id s);
          stages := <[stage := {| code := code'; usedTimes := 0 |}]> (stages s);
          shaderCache := <[code' := stage]> (shaderCache s);
          materialCache := materialCache s |})
  end.

(** The set is returned by reference: it is read and written below at
    the material in [materialCache]. *)
Definition _getShaderCacheForMaterial (material : Material) (s : Cache) : Cache :=
  match materialCache s !! material_ref material with
  | Some _ => s
  | None =>
      {| _id := _id s; stages := stages s; shaderCache := shaderCache s;
         materialCache := <[material_ref material := []]> (materialCache s) |}
  end.

(** [if ( materialShaders.has( stage ) === false ) {
      materialShaders.add( stage ); stage.usedTimes ++ }]. *)
Definition add_stage (material : Material) (stage : nat) (s : Cache) : Cache :=
  let materialShaders := default [] (materialCache s !! material_ref material) in
  if bool_decide (stage ∈ materialShaders) then s
  else
    {| _id := _id s;
       stages :=
         alter (fun st => {| code := code st; usedTimes := usedTimes st + 1 |})
               stage (stages s);
       shaderCache := shaderCache s;
       materialCache :=
         <[material_ref material := materialShaders ++ [stage]]>
           (materialCache s) |}.

Definition update (material : Material) (s : Cache) : Cache :=
  let '(vertexShaderStage, s) := _getShaderStage (vertexShader material) s in
  let '(fragmentShaderStage, s) := _getShaderStage (fragmentShader material) s in
  let s := _getShaderCacheForMaterial material s in
  let s := add_stage material vertexShaderStage s in
  add_stage material fragmentShaderStage s.

(** One round of the loop of [remove]. *)
Definition release_stage (s : Cache) (shaderStage : nat) : Cache :=
  match stages s !! shaderStage with
  | Some st =>
      let st' := {| code := code st; usedTimes := usedTimes st - 1 |} in
      {| _id := _id s;
         stages := <[shaderStage := st']> (stages s);
         shaderCache :=
           if usedTimes st' =? 0 then delete (code st') (shaderCache s)
           else shaderCache s;
         materialCache := materialCache s |}
  | None => s
  end.

(** [remove( material )]; [None] is the [TypeError] of the loop over
    [undefined], for a material that has no set. *)
Definition remove (material : Material) (s : Cache) : option Cache :=
  match materialCache s !! material_ref material with
  | None => None
  | Some materialShaders =>
      let s := fold_left release_stage materialShaders s in
      Some {| _id := _id s; stages := stages s; shaderCache := shaderCache s;
              materialCache := delete (material_ref material) (materialCache s) |}
  end.

Definition getVertexShaderID (material : Material) (s : Cache) : nat * Cache :=
  _getShaderStage (vertexShader material) s.

Definition getFragmentShaderID (material : Material) (s : Cache) : nat * Cache :=
  _getShaderStage (fragmentShader material) s.

Definition dispose (s : Cache) : Cache :=
  {| _id := _id s; stages := stages s; shaderCache := ∅; materialCache := ∅ |}.

Inductive Call :=
| Update (material : Material)
| Remove (material : Material)
| GetVertexShaderID (material : Material)
| GetFragmentShaderID (material : Material)
| Dispose.

(** A call that throws leaves the cache as it was. *)
Definition step (s : Cache) (c : Call) : Cache :=
  match c with
  | Update material => update material s
  | Remove material => default s (remove material s)
  | GetVertexShaderID material => snd (getVertexShaderID material s)
  | GetFragmentShaderID material => snd (getFragmentShaderID material s)
  | Dispose => dispose s
  end.

Definition run (cs : list Call) : Cache := fold_left step cs initial.

(** The materials whose set holds a stage. *)
Definition uses (stage : nat) (p : nat * list nat) : Prop := stage ∈ snd p.

#[global] Instance uses_dec (stage : nat) (p : nat * list nat) :
  Decision (uses stage p).
Proof. unfold uses. apply _. Defined.

Definition users (stage : nat) (s : Cache) : gmap nat (list nat) :=
  filter (uses stage) (materialCache s).

(** The invariant of the cache. *)
Record Inv (s : Cache) : Prop := {
  inv_code : forall c stage,
    shaderCache s !! c = Some stage ->
    exists st, stages s !! stage = Some st /\ code st = c;
  inv_usedTimes : forall c stage st,
    shaderCache s !! c = Some stage -> stages s !! stage = Some st ->
    usedTimes st = Z.of_nat (size (users stage s));
  inv_cached : forall m materialShaders stage,
    materialCache s !! m = Some materialShaders -> stage ∈ materialShaders ->
    exists st, stages s !! stage = Some st /\
               shaderCache s !! code st = Some stage;
  inv_set : forall m materialShaders,
    materialCache s !! m = Some materialShaders -> NoDup materialShaders;
  inv_made : forall stage st,
    stages s !! stage = Some st -> (stage < _id s)%nat
}.

End WebGLShaderCache.

(** ** WebGLObjects.js *)
Module WebGLObjects.

Definition ARRAY_BUFFER : Z := 34962.

(** What [update] reads of an object.  The object, its geometry, its
    instance attributes and its skeleton are known by their
    references; [instanceColor] is [None] for [null]. *)
Record Object3D := {
  object_ref : nat;
  geometry : nat;
  isInstancedMesh : bool;
  instanceMatrix : nat;
  instanceColor : option nat;
  isSkinnedMesh : bool;
  skeleton : nat
}.

(** The keys of [updateMap] are buffer geometries, objects and
    skeletons: objects of three kinds, no two of them the same. *)
Definition buffergeometry_key (r : nat) : nat + nat + nat := inl (inl r).
Definition object_key (r : nat) : nat + nat + nat := inl (inr r).
Definition skeleton_key (r : nat) : nat + nat + nat := inr r.

(** The calls of the methods of [geometries] and [attributes], which
    are arguments of [WebGLObjects], and of [skeleton.update]. *)
Inductive Call :=
| geometries_get (object geometry : nat)
| geometries_update (buffergeometry : nat)
| attributes_update (attribute : nat) (bufferType : Z)
| attributes_remove (attribute : nat)
| skeleton_update (skeleton : nat).

(** The closure state [updateMap], the [_listeners] of the objects, and
    the log of the calls. *)
Record State := {
  updateMap : gmap (nat + nat + nat) Z;
  _listeners : gmap nat EventDispatcher.Listeners;
  calls : list Call
}.

Definition listeners_at (s : State) (object : Object3D)
  : EventDispatcher.Listeners :=
  default None (_listeners s !! object_ref object).

Definition call (c : Call) (s : State) : State :=
  {| updateMap := updateMap s; _listeners := _listeners s;
     calls := calls s ++ [c] |}.

Definition updateMap_set (key : nat + nat + nat) (frame : Z) (s : State) : State :=
  {| updateMap := <[key := frame]> (updateMap s); _listeners := _listeners s;
     calls := calls s |}.

Section Objects.

(** The buffer geometry that [geometries.get( object, geometry )]
    returns, and the listener [onInstancedMeshDispose]. *)
Variable buffergeometry_of : nat -> nat -> nat.
Variable onInstancedMeshDispose : nat.

(** The three blocks of [update], in their order: the geometry, the
    attributes of an instanced mesh, the skeleton of a skinned
    mesh. *)
Definition update_geometry (frame : Z) (buffergeometry : nat) (s : State)
  : State :=
  if bool_decide (updateMap s !! buffergeometry_key buffergeometry
                  <> Some frame)
  then updateMap_set (buffergeometry_key buffergeometry) frame
                     (call (geometries_update buffergeometry) s)
  else s.

Definition update_instances (frame : Z) (object : Object3D) (s : State)
  : State :=
  if isInstancedMesh object then
    let s :=
      if negb (EventDispatcher.hasEventListener
                 "dispose" onInstancedMeshDispose (listeners_at s object))
      then {| updateMap := updateMap s;
              _listeners :=
                <[object_ref object :=
                    EventDispatcher.addEventListener
                      "dispose" onInstancedMeshDispose
                      (listeners_at s object)]> (_listeners s);
              calls := calls s |}
      else s in
    if bool_decide (updateMap s !! object_key (object_ref object)
                    <> Some frame)
    then
      let s := call (attributes_update (instanceMatrix object)
                                       ARRAY_BUFFER) s in
      let s :=
        match instanceColor object with
        | Some color => call (attributes_update color ARRAY_BUFFER) s
        | None => s
        end in
      updateMap_set (object_key (object_ref object)) frame s
    else s
  else s.

Definition update_skeleton (frame : Z) (object : Object3D) (s : State)
  : State :=
  if isSkinnedMesh object then
    if bool_decide (updateMap s !! skeleton_key (skeleton object)
                    <> Some frame)
    then updateMap_set (skeleton_key (skeleton object)) frame
                       (call (skeleton_update (skeleton object)) s)
    else s
  else s.

(** [update( object )], with [info.render.frame] for [frame]. *)
Definition update (frame : Z) (object : Object3D) (s : State) : nat * State :=
  let s := call (geometries_get (object_ref object) (geometry object)) s in
  let buffergeometry :=
    buffergeometry_of (object_ref object) (geometry object) in
  (buffergeometry,
   update_skeleton frame object
     (update_instances frame object
        (update_geometry frame buffergeometry s))).

Definition dispose (s : State) : State :=
  {| updateMap := ∅; _listeners := _listeners s; calls := calls s |}.

(** [onInstancedMeshDispose( event )], with [event.target] for
    [instancedMesh]. *)
Definition onInstancedMeshDispose_call (instancedMesh : Object3D) (s : State)
  : State :=
  let s :=
    {| updateMap := updateMap s;
       _listeners :=
         <[object_ref instancedMesh :=
             EventDispatcher.removeEventListener
               "dispose" onInstancedMeshDispose
               (listeners_at s instancedMesh)]> (_listeners s);
       calls := calls s |} in
  let s := call (attributes_remove (instanceMatrix instancedMesh)) s in
  match instanceColor instancedMesh with
  | Some color => call (attributes_remove color) s
  | None => s
  end.

(** The updates of the objects of a frame. *)
Definition updates (frame : Z) (objects : list Object3D) (s : State) : State :=
  fold_left (fun s object => snd (update frame object s)) objects s.

(** An object that has been updated in a frame. *)
Definition updated (frame : Z) (object : Object3D) (s : State) : Prop :=
  updateMap s !! buffergeometry_key
                   (buffergeometry_of (object_ref object) (geometry object))
  = Some frame /\
  (isInstancedMesh object = true ->
   EventDispatcher.hasEventListener
     "dispose" onInstancedMeshDispose (listeners_at s object) = true /\
   updateMap s !! object_key (object_ref object) = Some frame) /\
  (isSkinnedMesh object = true ->
   updateMap s !! skeleton_key (skeleton object) = Some frame).

(** What an update in a frame may change: entries of [updateMap]
    become the frame, listeners are added, and calls are made. *)
Definition advances (frame : Z) (s s' : State) : Prop :=
  (forall key, updateMap s' !! key = Some frame \/
               updateMap s' !! key = updateMap s !! key) /\
  (forall object,
      EventDispatcher.hasEventListener
        "dispose" onInstancedMeshDispose (listeners_at s object) = true ->
      EventDispatcher.hasEventListener
        "dispose" onInstancedMeshDispose (listeners_at s' object) = true) /\
  exists log, calls s' = calls s ++ log.

End Objects.

End WebGLObjects.

(** ** WebGLPrograms.js: the flags of the program cache key *)
Module ProgramCacheKeyBooleans.

(** The parameters that [getProgramCacheKeyBooleans] reads, each taken
    as the truth value that its [if] tests. *)
Record Parameters := {
  supportsVertexTextures : bool;
  instancing : bool;
  instancingColor : bool;
  instancingMorph : bool;
  matcap : bool;
  envMap : bool;
  normalMapObjectSpace : bool;
  normalMapTangentSpace : bool;
  clearcoat : bool;
  iridescence : bool;
  alphaTest : bool;
  vertexColors : bool;
  vertexAlphas : bool;
  vertexUv1s : bool;
  vertexUv2s : bool;
  vertexUv3s : bool;
  vertexTangents : bool;
  anisotropy : bool;
  alphaHash : bool;
  batching : bool;
  dispersion : bool;
  batchingColor : bool;
  fog : bool;
  useFog : bool;
  flatShading : bool;
  logarithmicDepthBuffer : bool;
  skinning : bool;
  morphTargets : bool;
  morphNormals : bool;
  morphColors : bool;
  premultipliedAlpha : bool;
  shadowMapEnabled : bool;
  doubleSided : bool;
  flipSided : bool;
  useDepthPacking : bool;
  dithering : bool;
  transmission : bool;
  sheen : bool;
  opaque : bool;
  pointsUvs : bool;
  decodeVideoTexture : bool;
  alphaToCoverage : bool
}.

(** [if ( flag ) _programLayers.enable( channel )]. *)
Definition enable_if (flag : bool) (channel : Z) (mask : Z) : Z :=
  if flag then Layers.enable channel mask else mask.

(** The mask of [_programLayers] at the first [array.push]. *)
Definition first_mask (parameters : Parameters) : Z :=
  let mask := Layers.disableAll in
  let mask := enable_if (supportsVertexTextures parameters) 0 mask in
  let mask := enable_if (instancing parameters) 1 mask in
  let mask := enable_if (instancingColor parameters) 2 mask in
  let mask := enable_if (instancingMorph parameters) 3 mask in
  let mask := enable_if (matcap parameters) 4 mask in
  let mask := enable_if (envMap parameters) 5 mask in
  let mask := enable_if (normalMapObjectSpace parameters) 6 mask in
  let mask := enable_if (normalMapTangentSpace parameters) 7 mask in
  let mask := enable_if (clearcoat parameters) 8 mask in
  let mask := enable_if (iridescence parameters) 9 mask in
  let mask := enable_if (alphaTest parameters) 10 mask in
  let mask := enable_if (vertexColors parameters) 11 mask in
  let mask := enable_if (vertexAlphas parameters) 12 mask in
  let mask := enable_if (vertexUv1s parameters) 13 mask in
  let mask := enable_if (vertexUv2s parameters) 14 mask in
  let mask := enable_if (vertexUv3s parameters) 15 mask in
  let mask := enable_if (vertexTangents parameters) 16 mask in
  let mask := enable_if (anisotropy parameters) 17 mask in
  let mask := enable_if (alphaHash parameters) 18 mask in
  let mask := enable_if (batching parameters) 19 mask in
  let mask := enable_if (dispersion parameters) 20 mask in
  let mask := enable_if (batchingColor parameters) 21 mask in
  mask.

(** The mask at the second [array.push], after the second
    [disableAll]. *)
Definition second_mask (parameters : Parameters) : Z :=
  let mask := Layers.disableAll in
  let mask := enable_if (fog parameters) 0 mask in
  let mask := enable_if (useFog parameters) 1 mask in
  let mask := enable_if (flatShading parameters) 2 mask in
  let mask := enable_if (logarithmicDepthBuffer parameters) 3 mask in
  let mask := enable_if (skinning parameters) 4 mask in
  let mask := enable_if (morphTargets parameters) 5 mask in
  let mask := enable_if (morphNormals parameters) 6 mask in
  let mask := enable_if (morphColors parameters) 7 mask in
  let mask := enable_if (premultipliedAlpha parameters) 8 mask in
  let mask := enable_if (shadowMapEnabled parameters) 9 mask in
  let mask := enable_if (doubleSided parameters) 10 mask in
  let mask := enable_if (flipSided parameters) 11 mask in
  let mask := enable_if (useDepthPacking parameters) 12 mask in
  let mask := enable_if (dithering parameters) 13 mask in
  let mask := enable_if (transmission parameters) 14 mask in
  let mask := enable_if (sheen parameters) 15 mask in
  let mask := enable_if (opaque parameters) 16 mask in
  let mask := enable_if (pointsUvs parameters) 17 mask in
  let mask := enable_if (decodeVideoTexture parameters) 18 mask in
  let mask := enable_if (alphaToCoverage parameters) 19 mask in
  mask.

(** [getProgramCacheKeyBooleans( array, parameters )]: the array with
    the two masks pushed. *)
Definition getProgramCacheKeyBooleans (array : list Z) (parameters : Parameters)
  : list Z :=
  array ++ [first_mask parameters] ++ [second_mask parameters].

End ProgramCacheKeyBooleans.

(** ** WebGLRenderer.js: the size of the canvas and of the drawing buffer *)
Module RendererSize.

Import WebGLState WebGLRenderer.







End RendererSize.

(** ** Raycaster.js: the intersections of a ray with a scene graph *)
Module Raycaster.

(** An intersection, as the [raycast] methods push it.  Of its fields
    the raycaster reads [distance]; [object] is the object hit. *)
Record Intersection := { distance : Q; object : nat }.

(** The raycaster: the ray (origin and direction), [near], [far]
    ([Infinity] is [None]), the camera and the layer mask. *)
Record Raycaster := {
  ray : (Q * Q * Q) * (Q * Q * Q);
  near : Q;
  far : option Q;
  camera : option nat;
  layers : Z
}.

(** An object of the scene graph: its layer mask, its [raycast] method
    and its children.  [raycast( raycaster, intersects )] pushes its
    intersections onto [intersects]; it is given by the intersections
    it pushes and by whether it returns something other than [false]. *)
#[warnings="-register-all"] Inductive Object3D :=
  Object3D_new (object_layers : Z)
               (raycast : Raycaster -> list Intersection * bool)
               (children : list Object3D).

Definition object_layers (o : Object3D) : Z :=
  match o with Object3D_new l _ _ => l end.

Definition raycast (o : Object3D) : Raycaster -> list Intersection * bool :=
  match o with Object3D_new _ r _ => r end.

Definition children (o : Object3D) : list Object3D :=
  match o with Object3D_new _ _ c => c end.

Definition ascSort (a b : Intersection) : Q := distance a - distance b.

Fixpoint intersect (object : Object3D) (raycaster : Raycaster)
         (intersects : list Intersection) (recursive : bool)
  : list Intersection :=
  match object with
  | Object3D_new object_layers raycast children =>
      let '(intersects, propagate) :=
        if Layers.test object_layers (layers raycaster) then
          let '(pushed, result) := raycast raycaster in
          (intersects ++ pushed, result)
        else (intersects, true) in
      if propagate && recursive then
        fold_left (fun intersects child =>
                     intersect child raycaster intersects true)
                  children intersects
      else intersects
  end.

Definition intersectObject (raycaster : Raycaster) (object : Object3D)
           (recursive : bool) (intersects : list Intersection)
  : list Intersection :=
  array_sort ascSort (intersect object raycaster intersects recursive).

(** The array that [intersectObjects] has filled when it sorts. *)
Definition collected (raycaster : Raycaster) (objects : list Object3D)
           (recursive : bool) (intersects : list Intersection)
  : list Intersection :=
  fold_left (fun intersects object =>
               intersect object raycaster intersects recursive)
            objects intersects.

Definition intersectObjects (raycaster : Raycaster) (objects : list Object3D)
           (recursive : bool) (intersects : list Intersection)
  : list Intersection :=
  array_sort ascSort (collected raycaster objects recursive intersects).

(** The object passes the layer test of the raycaster. *)
Definition tested (raycaster : Raycaster) (o : Object3D) : bool :=
  Layers.test (object_layers o) (layers raycaster).

(** The search goes on below the object: its [raycast] was not called,
    or did not return [false]. *)
Definition propagates (raycaster : Raycaster) (o : Object3D) : bool :=
  if tested raycaster o then snd (raycast o raycaster) else true.

(** [reached raycaster recursive root o]: [o] is [root], or, in a
    recursive search, a descendant of [root] below objects that all
    let the search go on. *)
Inductive reached (raycaster : Raycaster) (recursive : bool)
  : Object3D -> Object3D -> Prop :=
| reached_here (o : Object3D) : reached raycaster recursive o o
| reached_below (root child o : Object3D) :
    recursive = true ->
    propagates raycaster root = true ->
    child ∈ children root ->
    reached raycaster recursive child o ->
    reached raycaster recursive root o.

(** The intersections at one distance. *)
Definition at_distance (d : Q) (l : list Intersection) : list Intersection :=
  filter (fun h => Qeq_bool (distance h) d = true) l.

(** What the intersections of an object reached and tested are. *)
Definition found (raycaster : Raycaster) (recursive : bool)
           (root : Object3D) (h : Intersection) : Prop :=
  exists o, reached raycaster recursive root o /\
            tested raycaster o = true /\
            h ∈ fst (raycast o raycaster).

(** The order of [ascSort]. *)
Definition nearer (a b : Intersection) : Prop :=
  (distance a <= distance b)%Q.

End Raycaster.

(** ** WebGLProperties.js: the property bags of the renderer *)
Module WebGLProperties.

Section Properties.

(** The values that the renderer keeps in the bags. *)
Variable Value : Type.

(** The bags are objects, known by their references into [bags];
    [properties] is the WeakMap from the objects to their bags.  The
    keys are strings that name no property of [Object.prototype]. *)
Record State := {
  bags : list (gmap string Value);
  properties : gmap nat nat
}.

Definition initial : State := {| bags := []; properties := ∅ |}.

Definition get (object : nat) (s : State) : nat * State :=
  match properties s !! object with
  | Some map => (map, s)
  | None =>
      let map := length (bags s) in
      (map, {| bags := bags s ++ [∅];
               properties := <[object := map]> (properties s) |})
  end.

Definition remove (object : nat) (s : State) : State :=
  {| bags := bags s; properties := delete object (properties s) |}.

(** [bag[ key ] = value], for a bag that the caller holds. *)
Definition assign (map : nat) (key : string) (value : Value) (s : State)
  : State :=
  {| bags := alter <[key := value]> map (bags s);
     properties := properties s |}.

(** [properties.get( object )[ key ] = value]: a TypeError ([None])
    when the object has no bag. *)
Definition update (object : nat) (key : string) (value : Value) (s : State)
  : option State :=
  match properties s !! object with
  | Some map => Some (assign map key value s)
  | None => None
  end.

Definition dispose (s : State) : State :=
  {| bags := bags s; properties := ∅ |}.

(** [bag[ key ]]. *)
Definition read (map : nat) (key : string) (s : State) : option Value :=
  bags s !! map ≫= fun bag => bag !! key.

(** The calls of the renderer: the four methods, and the assignments
    to the bags that [get] has returned. *)
Inductive Call :=
| Get (object : nat)
| Remove (object : nat)
| Update (object : nat) (key : string) (value : Value)
| Dispose
| Assign (map : nat) (key : string) (value : Value).

Definition step (s : State) (c : Call) : State :=
  match c with
  | Get object => snd (get object s)
  | Remove object => remove object s
  | Update object key value => default s (update object key value s)
  | Dispose => dispose s
  | Assign map key value => assign map key value s
  end.

Definition run (cs : list Call) : State := fold_left step cs initial.

(** The bags of the objects exist, and no two objects have the same
    bag. *)
Record Inv (s : State) : Prop := {
  inv_bag : forall o b, properties s !! o = Some b ->
                        (b < length (bags s))%nat;
  inv_own : forall o o' b, properties s !! o = Some b ->
                           properties s !! o' = Some b -> o = o'
}.

End Properties.

Arguments bags {Value}.
Arguments properties {Value}.
Arguments initial {Value}.
Arguments get {Value}.
Arguments remove {Value}.
Arguments assign {Value}.
Arguments update {Value}.
Arguments dispose {Value}.
Arguments read {Value}.
Arguments step {Value}.
Arguments run {Value}.
Arguments Inv {Value}.

End WebGLProperties.

(** ** RenderTarget.js, with the parts of Texture.js and Source.js it uses *)
Module RenderTarget.

(** An image of a render target is a plain object: its own properties
    ([width], [height], [depth]) and their values.  Sizes are integers. *)
Abbreviation Image := (gmap string Z).

Record Vector4 := { x : Z; y : Z; z : Z; w : Z }.

(** The objects that render targets share, by reference: the images,
    the [Source] objects (their [data]: an image, or [null]) and the
    [Texture] objects (their [source]).  The other fields of a texture
    are values that [copy] copies. *)
Record Memory := {
  Images : list Image;
  Sources : list (option nat);
  Textures : list nat
}.

Definition new_image (image : Image) (m : Memory) : nat * Memory :=
  (length (Images m),
   {| Images := Images m ++ [image];
      Sources := Sources m;
      Textures := Textures m |}).

(** [new Source( data )]. *)
Definition new_Source (data : option nat) (m : Memory) : nat * Memory :=
  (length (Sources m),
   {| Images := Images m;
      Sources := Sources m ++ [data];
      Textures := Textures m |}).

(** [new Texture( image )]: [this.source = new Source( image )]. *)
Definition new_Texture (image : option nat) (m : Memory) : nat * Memory :=
  let '(source, m) := new_Source image m in
  (length (Textures m),
   {| Images := Images m;
      Sources := Sources m;
      Textures := Textures m ++ [source] |}).

(** [Texture.copy( source )]: [this.source = source.source]. *)
Definition Texture_copy (this source : nat) (m : Memory) : option Memory :=
  s ← Textures m !! source;
  Some {| Images := Images m;
          Sources := Sources m;
          Textures := <[this := s]> (Textures m) |}.

(** [Texture.clone()]: [new this.constructor().copy( this )]. *)
Definition Texture_clone (texture : nat) (m : Memory) : option (nat * Memory) :=
  let '(this, m) := new_Texture None m in
  m ← Texture_copy this texture m;
  Some (this, m).

(** [texture.image]: [this.source.data]. *)
Definition Texture_image (texture : nat) (m : Memory) : option (option nat) :=
  source ← Textures m !! texture;
  Sources m !! source.

(** A render target.  [disposed] counts the [dispose] events that it
    has dispatched. *)
Record RenderTarget := {
  width : Z;
  height : Z;
  depth : Z;
  scissor : Vector4;
  scissorTest : bool;
  viewport : Vector4;
  textures : list nat;
  disposed : nat
}.

(** [{ width: width, height: height, depth: depth }]. *)
Definition image_with (width height depth : Z) : Image :=
  {[ "width" := width; "height" := height; "depth" := depth ]}.

(** The loop of the constructor: [this.textures[ i ] = texture.clone()]. *)
Fixpoint clone_times (count : nat) (texture : nat) (array : list nat)
         (m : Memory) : option (list nat * Memory) :=
  match count with
  | O => Some (array, m)
  | S count =>
      '(t, m) ← Texture_clone texture m;
      clone_times count texture (array ++ [t]) m
  end.

(** [new RenderTarget( width, height, { count } )], without a depth
    texture. *)
Definition constructor (width height : Z) (count : nat) (m : Memory)
  : option (RenderTarget * Memory) :=
  let '(image, m) :=
    new_image (image_with width height 1) m in
  let '(texture, m) := new_Texture (Some image) m in
  '(textures, m) ← clone_times count texture [] m;
  Some ({| width := width;
           height := height;
           depth := 1;
           scissor := {| x := 0; y := 0; z := width; w := height |};
           scissorTest := false;
           viewport := {| x := 0; y := 0; z := width; w := height |};
           textures := textures;
           disposed := 0 |}, m).

(** [get texture()]: [undefined] for a target without textures. *)
Definition texture (t : RenderTarget) : option nat := textures t !! 0%nat.

Definition resized (width height depth : Z) (image : Image) : Image :=
  <["depth" := depth]> (<["height" := height]> (<["width" := width]> image)).

(** The three assignments to [this.textures[ i ].image]; a TypeError
    ([None]) when the image is [null]. *)
Definition set_image_size (width height depth : Z) (texture : nat)
           (m : Memory) : option Memory :=
  data ← Texture_image texture m;
  image ← data;
  Some {| Images := alter (resized width height depth) image (Images m);
          Sources := Sources m;
          Textures := Textures m |}.

Fixpoint set_image_sizes (width height depth : Z) (textures : list nat)
         (m : Memory) : option Memory :=
  match textures with
  | [] => Some m
  | texture :: textures =>
      m ← set_image_size width height depth texture m;
      set_image_sizes width height depth textures m
  end.

(** [dispose()]: the event is dispatched. *)
Definition dispose (t : RenderTarget) : RenderTarget :=
  {| width := width t; height := height t; depth := depth t;
     scissor := scissor t; scissorTest := scissorTest t;
     viewport := viewport t; textures := textures t;
     disposed := S (disposed t) |}.

Definition setSize (width' height' depth' : Z) (t : RenderTarget)
           (m : Memory) : option (RenderTarget * Memory) :=
  '(t, m) ←
    (if negb (width t =? width') || negb (height t =? height')
        || negb (depth t =? depth')
     then
       m ← set_image_sizes width' height' depth' (textures t) m;
       Some (dispose {| width := width'; height := height'; depth := depth';
                        scissor := scissor t; scissorTest := scissorTest t;
                        viewport := viewport t; textures := textures t;
                        disposed := disposed t |}, m)
     else Some (t, m));
  Some ({| width := width t; height := height t; depth := depth t;
           scissor := {| x := 0; y := 0; z := width'; w := height' |};
           scissorTest := scissorTest t;
           viewport := {| x := 0; y := 0; z := width'; w := height' |};
           textures := textures t;
           disposed := disposed t |}, m).

(** The loop of [copy]: [this.textures[ i ] = source.textures[ i ].clone()]. *)
Fixpoint clone_all (source_textures : list nat) (array : list nat)
         (m : Memory) : option (list nat * Memory) :=
  match source_textures with
  | [] => Some (array, m)
  | texture :: source_textures =>
      '(t, m) ← Texture_clone texture m;
      clone_all source_textures (array ++ [t]) m
  end.

(** [this.copy( source )], for a source without a depth texture that is
    another object than [this].  [source.texture] and [this.texture]
    are [undefined] when the source has no textures: a TypeError.
    [Object.assign( {}, image )] copies the properties of the image,
    none when it is [null]. *)
Definition copy (this source : RenderTarget) (m : Memory)
  : option (RenderTarget * Memory) :=
  '(array, m) ← clone_all (textures source) [] m;
  source_texture ← texture source;
  data ← Texture_image source_texture m;
  properties ← match data with
               | Some image => Images m !! image
               | None => Some ∅
               end;
  let '(image, m) := new_image properties m in
  let '(new_source, m) := new_Source (Some image) m in
  this_texture ← array !! 0%nat;
  Some ({| width := width source;
           height := height source;
           depth := depth source;
           scissor := scissor source;
           scissorTest := scissorTest source;
           viewport := viewport source;
           textures := array;
           disposed := disposed this |},
        {| Images := Images m;
           Sources := Sources m;
           Textures := <[this_texture := new_source]> (Textures m) |}).

(** [clone()]: [new this.constructor().copy( this )]. *)
Definition clone (t : RenderTarget) (m : Memory)
  : option (RenderTarget * Memory) :=
  '(this, m) ← constructor 1 1 1 m;
  copy this t m.

(** The size that the image of a texture has. *)
Definition image_size (texture : nat) (m : Memory)
  : option (option Z * option Z * option Z) :=
  data ← Texture_image texture m;
  image ← data;
  properties ← Images m !! image;
  Some (properties !! "width", properties !! "height", properties !! "depth").

(** The image object of a texture. *)
Definition image_of (texture : nat) (m : Memory) : option nat :=
  mjoin (Texture_image texture m).

(** The images after the loop of [setSize], from the image objects of
    the textures. *)
Definition resize_all (width height depth : Z) (refs : list nat)
           (images : list Image) : list Image :=
  foldl (fun images i => alter (resized width height depth) i images)
        images refs.

End RenderTarget.

(** ** Texture.js: the transformation of texture coordinates *)
Module Texture.

(** The values of [mapping] and of the wrap modes that [transformUv]
    tells apart; any other value is [Other...]. *)
Inductive Mapping :=
| UVMapping
| OtherMapping (value : Z).

Inductive Wrapping :=
| RepeatWrapping
| ClampToEdgeWrapping
| MirroredRepeatWrapping
| OtherWrapping (value : Z).

(** A number: a finite one, taken as the rational it stands for (the
    rounding of the arithmetic is left out), or one of the three that
    are not finite. *)
Inductive Number :=
| Finite (q : Q)
| Infinity
| NegInfinity
| NaN.

(** [a < b]; a comparison with [NaN] is false. *)
Definition lt (a b : Number) : bool :=
  match a, b with
  | NaN, _ | _, NaN => false
  | Finite x, Finite y => negb (Qle_bool y x)
  | Infinity, _ => false
  | _, NegInfinity => false
  | NegInfinity, _ => true
  | Finite _, Infinity => true
  end.

(** [a - b]; the difference of an infinite number and itself is [NaN]. *)
Definition sub (a b : Number) : Number :=
  match a, b with
  | NaN, _ | _, NaN => NaN
  | Finite x, Finite y => Finite (x - y)
  | Infinity, Infinity => NaN
  | NegInfinity, NegInfinity => NaN
  | Infinity, _ => Infinity
  | NegInfinity, _ => NegInfinity
  | Finite _, Infinity => NegInfinity
  | Finite _, NegInfinity => Infinity
  end.

(** [Math.floor] and [Math.ceil] give back what is not finite. *)
Definition floor (a : Number) : Number :=
  match a with
  | Finite q => Finite (inject_Z (Qfloor q))
  | _ => a
  end.

Definition ceil (a : Number) : Number :=
  match a with
  | Finite q => Finite (inject_Z (Qceiling q))
  | _ => a
  end.

(** [Math.floor( a ) % 2]: the remainder of an integer, with the sign of
    the integer; the remainder of an infinite number and of [NaN] is
    [NaN]. *)
Definition floor_rem2 (a : Number) : Number :=
  match a with
  | Finite q => Finite (inject_Z (Z.rem (Qfloor q) 2))
  | _ => NaN
  end.

Definition abs (a : Number) : Number :=
  match a with
  | Finite q => Finite (Qabs q)
  | NegInfinity => Infinity
  | _ => a
  end.

(** [a === 1]. *)
Definition is_one (a : Number) : bool :=
  match a with
  | Finite q => Qeq_bool q 1
  | _ => false
  end.

(** One coordinate under a wrap mode; the [switch] has no default. *)
Definition wrap (mode : Wrapping) (u : Number) : Number :=
  if lt u (Finite 0) || lt (Finite 1) u then
    match mode with
    | RepeatWrapping => sub u (floor u)
    | ClampToEdgeWrapping => if lt u (Finite 0) then Finite 0 else Finite 1
    | MirroredRepeatWrapping =>
        if is_one (abs (floor_rem2 u)) then sub (ceil u) u else sub u (floor u)
    | OtherWrapping _ => u
    end
  else u.

Section TransformUv.

(** The 3x3 matrix of the texture, and [uv.applyMatrix3( matrix )]. *)
Context {Matrix3 : Type}.
Variable applyMatrix3 : Number * Number -> Matrix3 -> Number * Number.

Record Texture := {
  mapping : Mapping;
  matrix : Matrix3;
  wrapS : Wrapping;
  wrapT : Wrapping;
  flipY : bool
}.

Definition transformUv (this : Texture) (uv : Number * Number)
  : Number * Number :=
  match mapping this with
  | OtherMapping _ => uv
  | UVMapping =>
      let uv := applyMatrix3 uv (matrix this) in
      let u := wrap (wrapS this) (fst uv) in
      let v := wrap (wrapT this) (snd uv) in
      (u, if flipY this then sub (Finite 1) v else v)
  end.

End TransformUv.

(** The wrap modes of the switch. *)
Definition wraps (mode : Wrapping) : Prop :=
  match mode with
  | OtherWrapping _ => False
  | _ => True
  end.

Definition finite (a : Number) : Prop :=
  match a with
  | Finite _ => True
  | _ => False
  end.

Definition in_unit (a : Number) : Prop :=
  match a with
  | Finite q => (0 <= q)%Q /\ (q <= 1)%Q
  | _ => False
  end.

(** What becomes of an infinite coordinate: the end of the unit
    interval on its side when the mode clamps, [NaN] otherwise. *)
Definition clamped (mode : Wrapping) (edge : Q) : Number :=
  match mode with
  | ClampToEdgeWrapping => Finite edge
  | _ => NaN
  end.

(** Example data: a matrix that scales both coordinates. *)
Definition scale (uv : Number * Number) (k : Q) : Number * Number :=
  let times := fun a => match a with
                        | Finite q => Finite (k * q)
                        | _ => a
                        end in
  (times (fst uv), times (snd uv)).

End Texture.
(** ** WebGLRenderer.js: the programs of the materials *)
Module MaterialPrograms.

Import Programs.

(** [materialProperties.programs]: a Map from program cache keys to
    programs, in the order of insertion. *)
Abbreviation ProgramMap := (list (string * nat)).

Fixpoint Map_get (key : string) (programs : ProgramMap) : option nat :=
  match programs with
  | [] => None
  | (k, program) :: programs =>
      if String.eqb k key then Some program else Map_get key programs
  end.

(** The program cache, the property [programs] of the materials that
    have it, and the materials on which [onMaterialDispose] listens for
    [dispose].  The materials are materials with a shader of the
    library: for them [getParameters] only reads, and
    [releaseMaterialProgramReferences] does not call the shader cache. *)
Record State := {
  programCache : Programs.State;
  material_programs : gmap nat ProgramMap;
  listening : gset nat
}.

Definition initial : State :=
  {| programCache := Programs.initial;
     material_programs := ∅;
     listening := ∅ |}.

(** [getProgram( material, scene, object )], where the parameters of
    the three have the cache key [programCacheKey]: what it does to the
    programs.  Its other assignments are to properties of the material
    and to uniforms, which the functions here do not read. *)
Definition getProgram (material : nat) (programCacheKey : string)
           (s : State) : nat * State :=
  let '(programs, listening) :=
    match material_programs s !! material with
    | None => ([], {[material]} ∪ listening s)
    | Some programs => (programs, listening s)
    end in
  match Map_get programCacheKey programs with
  | Some program =>
      (program,
       {| programCache := programCache s;
          material_programs := <[material := programs]> (material_programs s);
          listening := listening |})
  | None =>
      let '(program, cache) := acquireProgram programCacheKey (programCache s) in
      (program,
       {| programCache := cache;
          material_programs :=
            <[material := programs ++ [(programCacheKey, program)]]>
              (material_programs s);
          listening := listening |})
  end.

(** [programs.forEach( program => programCache.releaseProgram( program ) )]. *)
Definition release_all (programs : ProgramMap) (cache : Programs.State)
  : Programs.State :=
  fold_left (fun cache entry => releaseProgram (snd entry) cache)
            programs cache.

Definition releaseMaterialProgramReferences (material : nat) (s : State)
  : State :=
  match material_programs s !! material with
  | Some programs =>
      {| programCache := release_all programs (programCache s);
         material_programs := material_programs s;
         listening := listening s |}
  | None => s
  end.

(** [releaseMaterialProgramReferences( material )], then
    [properties.remove( material )]. *)
Definition deallocateMaterial (material : nat) (s : State) : State :=
  let s := releaseMaterialProgramReferences material s in
  {| programCache := programCache s;
     material_programs := delete material (material_programs s);
     listening := listening s |}.

Definition onMaterialDispose (material : nat) (s : State) : State :=
  deallocateMaterial material
    {| programCache := programCache s;
       material_programs := material_programs s;
       listening := listening s ∖ {[material]} |}.

(** [material.dispose()]: the event reaches the listener when it is
    registered. *)
Definition dispose (material : nat) (s : State) : State :=
  if decide (material ∈ listening s) then onMaterialDispose material s
  else s.

Inductive Call :=
| GetProgram (material : nat) (programCacheKey : string)
| Dispose (material : nat).

Definition step (s : State) (c : Call) : State :=
  match c with
  | GetProgram material key => snd (getProgram material key s)
  | Dispose material => dispose material s
  end.

Definition run (cs : list Call) : State := fold_left step cs initial.

(** The material holds the program. *)
Definition holds (program : nat) (entry : nat * ProgramMap) : Prop :=
  program ∈ (snd entry).*2.

#[global] Instance holds_dec (program : nat) (entry : nat * ProgramMap) :
  Decision (holds program entry).
Proof. unfold holds. apply _. Defined.

(** The materials that hold a program. *)
Definition holders (program : nat) (s : State) : gmap nat ProgramMap :=
  filter (holds program) (material_programs s).

(** The invariant: the cache is in order; what a material holds under
    a key is a cached program with this key, once; the count of a cached
    program is the number of its holders; the listener is on the
    materials that have programs. *)
Record Inv (s : State) : Prop := {
  inv_cache : Programs.Inv (programCache s);
  inv_entry : forall m l key r,
      material_programs s !! m = Some l -> (key, r) ∈ l ->
      r ∈ programs (programCache s) /\
      exists p, heap (programCache s) !! r = Some p /\ cacheKey p = key;
  inv_once : forall m l, material_programs s !! m = Some l -> NoDup l.*1;
  inv_count : forall r p,
      r ∈ programs (programCache s) ->
      heap (programCache s) !! r = Some p ->
      usedTimes p = Z.of_nat (size (holders r s));
  inv_listening : forall m,
      m ∈ listening s <-> is_Some (material_programs s !! m)
}.

End MaterialPrograms.

(** ** Clock.js *)
Module Clock.

(** The clock, and the number of times it has read the time. *)
Record Clock := {
  autoStart : bool;
  startTime : Q;
  oldTime : Q;
  elapsedTime : Q;
  running : bool;
  reads : nat
}.

Definition constructor (autoStart : bool) : Clock :=
  {| autoStart := autoStart; startTime := 0; oldTime := 0;
     elapsedTime := 0; running := false; reads := 0 |}.

Section Time.

(** [now()]: the time in milliseconds at each reading, in the order
    of the readings. *)
Variable now : nat -> Q.

Definition start (this : Clock) : Clock :=
  let startTime := now (reads this) in
  {| autoStart := autoStart this;
     startTime := startTime;
     oldTime := startTime;
     elapsedTime := 0;
     running := true;
     reads := S (reads this) |}.

Definition getDelta (this : Clock) : Q * Clock :=
  if autoStart this && negb (running this) then (0%Q, start this)
  else if running this then
    let newTime := now (reads this) in
    let diff := ((newTime - oldTime this) / 1000)%Q in
    (diff,
     {| autoStart := autoStart this;
        startTime := startTime this;
        oldTime := newTime;
        elapsedTime := (elapsedTime this + diff)%Q;
        running := running this;
        reads := S (reads this) |})
  else (0%Q, this).

Definition getElapsedTime (this : Clock) : Q * Clock :=
  let this := snd (getDelta this) in
  (elapsedTime this, this).

Definition stop (this : Clock) : Clock :=
  let this := snd (getElapsedTime this) in
  {| autoStart := false;
     startTime := startTime this;
     oldTime := oldTime this;
     elapsedTime := elapsedTime this;
     running := false;
     reads := reads this |}.

Inductive Call :=
| Start
| Stop
| GetElapsedTime
| GetDelta.

Definition step (this : Clock) (c : Call) : Clock :=
  match c with
  | Start => start this
  | Stop => stop this
  | GetElapsedTime => snd (getElapsedTime this)
  | GetDelta => snd (getDelta this)
  end.

Definition run (autoStart : bool) (cs : list Call) : Clock :=
  fold_left step cs (constructor autoStart).

(** A running clock has read the time, and [oldTime] is the last
    reading; the elapsed time is not negative. *)
Record Inv (this : Clock) : Prop := {
  inv_old : running this = true ->
            exists k, reads this = S k /\ oldTime this = now k;
  inv_elapsed : (0 <= elapsedTime this)%Q
}.

End Time.

End Clock.

(** * Properties *)

(** ** Array sort *)
Section ArraySortFacts.
Context {A : Type}.
Variable compareFn : A -> A -> Q.
Variable before : A -> A -> Prop.
Hypothesis before_spec :
  forall a b, Qle_bool (compareFn a b) 0 = true <-> before a b.
Hypothesis before_total : forall a b, before a b \/ before b a.
Hypothesis before_trans : forall a b c, before a b -> before b c -> before a c.

Lemma sorted_insert_perm (x : A) (l : list A) :
  Permutation (x :: l) (sorted_insert compareFn x l).
Proof using Type.
  induction l as [|y l IH]; simpl; [reflexivity|].
  destruct (Qle_bool (compareFn x y) 0); [reflexivity|].
  etransitivity; [apply perm_swap|]. now constructor.
Qed.

Lemma array_sort_perm (l : list A) : Permutation l (array_sort compareFn l).
Proof using Type.
  induction l as [|x l IH]; simpl; [constructor|].
  etransitivity; [|apply sorted_insert_perm]. now constructor.
Qed.

Lemma sorted_insert_hd (x y : A) (l : list A) :
  before y x -> HdRel before y l -> HdRel before y (sorted_insert compareFn x l).
Proof using Type.
  intros Hyx Hl. destruct l as [|w l]; simpl; [now constructor|].
  destruct (Qle_bool (compareFn x w) 0); constructor; auto.
  now inversion Hl.
Qed.

Lemma sorted_insert_sorted (x : A) (l : list A) :
  Sorted before l -> Sorted before (sorted_insert compareFn x l).
Proof using before_spec before_total.
  induction 1 as [|y l Hs IH Hhd]; simpl.
  - repeat constructor.
  - destruct (Qle_bool (compareFn x y) 0) eqn:E.
    + constructor; [now constructor|]. constructor. now apply before_spec.
    + constructor; [exact IH|]. apply sorted_insert_hd; [|exact Hhd].
      destruct (before_total x y) as [Hxy|Hyx]; [|exact Hyx].
      apply before_spec in Hxy. congruence.
Qed.

Lemma array_sort_sorted (l : list A) : Sorted before (array_sort compareFn l).
Proof using before_spec before_total.
  induction l as [|x l IH]; simpl; [constructor|].
  now apply sorted_insert_sorted.
Qed.

Lemma array_sort_strongly_sorted (l : list A) :
  StronglySorted before (array_sort compareFn l).
Proof using before_spec before_total before_trans.
  apply Sorted_StronglySorted; [|apply array_sort_sorted].
  intros a b c. apply before_trans.
Qed.

(** Sorting a list that is already in order leaves it as it is. *)
Lemma array_sort_fixed (l : list A) :
  Sorted before l -> array_sort compareFn l = l.
Proof using before_spec.
  induction 1 as [|x l Hs IH Hhd]; simpl; [reflexivity|].
  rewrite IH. destruct Hhd as [|y l Hxy]; simpl; [reflexivity|].
  apply before_spec in Hxy. now rewrite Hxy.
Qed.

Lemma array_sort_idem (l : list A) :
  array_sort compareFn (array_sort compareFn l) = array_sort compareFn l.
Proof using before_spec before_total.
  apply array_sort_fixed, array_sort_sorted.
Qed.
End ArraySortFacts.

(** ** Render list *)
Module RenderListFacts.
Import RenderList.

Lemma num_neq_false (a b : Q) : num_neq a b = false <-> (a == b)%Q.
Proof.
  unfold num_neq. rewrite negb_false_iff. apply Qeq_bool_iff.
Qed.

Lemma num_neq_true (a b : Q) : num_neq a b = true <-> ~ (a == b)%Q.
Proof.
  unfold num_neq. rewrite negb_true_iff, <- Qeq_bool_iff.
  destruct (Qeq_bool a b); split; congruence.
Qed.

Lemma inject_Z_le0 (n : Z) : (inject_Z n <= 0)%Q <-> n <= 0.
Proof. change 0%Q with (inject_Z 0). now rewrite <- Zle_Qle. Qed.

Ltac split_keys :=
  repeat match goal with
  | |- context [num_neq ?a ?b] =>
      let E := fresh "E" in
      destruct (num_neq a b) eqn:E;
      [apply num_neq_true in E | apply num_neq_false in E]
  | |- context [Z.eqb ?a ?b] =>
      let E := fresh "E" in
      destruct (Z.eqb_spec a b) as [E|E]; simpl negb; cbv iota
  end.

Lemma painterSortStable_spec (a b : RenderItem) :
  Qle_bool (painterSortStable a b) 0 = true <-> opaque_before a b.
Proof.
  rewrite Qle_bool_iff. unfold painterSortStable, opaque_before.
  split_keys; rewrite ?inject_Z_le0; split; intros H;
    try lra; try lia;
    repeat match goal with
    | H : _ \/ _ |- _ => destruct H
    | H : _ /\ _ |- _ => destruct H
    end; try lra; try lia; try tauto.
  all: try (left; lra).
  all: try (right; split; [lra|]; try (left; lra)).
  all: try (right; split; [lra|]; try (left; lia)).
  all: try (right; split; [lia|]; try (left; lra)).
  all: try (right; split; [lra|]; lia).
Qed.

Lemma reversePainterSortStable_spec (a b : RenderItem) :
  Qle_bool (reversePainterSortStable a b) 0 = true <-> transparent_before a b.
Proof.
  rewrite Qle_bool_iff. unfold reversePainterSortStable, transparent_before.
  split_keys; rewrite ?inject_Z_le0; split; intros H;
    try lra; try lia;
    repeat match goal with
    | H : _ \/ _ |- _ => destruct H
    | H : _ /\ _ |- _ => destruct H
    end; try lra; try lia; try tauto.
  all: try (left; lra).
  all: try (right; split; [lra|]; try (left; lra)).
  all: try (right; split; [lra|]; right; split; [lra|lia]).
Qed.

(** Case analysis on a lexicographic order over rationals and integers. *)
Ltac lex_cases :=
  repeat match goal with
  | H : _ \/ _ |- _ => destruct H
  | H : _ /\ _ |- _ => destruct H
  end.

Ltac lex_close :=
  first
    [ lra | lia
    | left; lex_close
    | right; split; [first [lra | lia] | lex_close] ].

Lemma opaque_before_trans (a b c : RenderItem) :
  opaque_before a b -> opaque_before b c -> opaque_before a c.
Proof.
  unfold opaque_before. intros Hab Hbc. lex_cases; lex_close.
Qed.

Lemma transparent_before_trans (a b c : RenderItem) :
  transparent_before a b -> transparent_before b c -> transparent_before a c.
Proof.
  unfold transparent_before. intros Hab Hbc. lex_cases; lex_close.
Qed.

Lemma opaque_before_total (a b : RenderItem) :
  opaque_before a b \/ opaque_before b a.
Proof.
  unfold opaque_before.
  destruct (Q_dec (groupOrder a) (groupOrder b)) as [[?|?]|?];
    [left; lex_close | right; lex_close |].
  destruct (Q_dec (renderOrder a) (renderOrder b)) as [[?|?]|?];
    [left; lex_close | right; lex_close |].
  destruct (Z.lt_trichotomy (material_id (material a)) (material_id (material b)))
    as [?|[?|?]]; [left; lex_close | | right; lex_close].
  destruct (Q_dec (z a) (z b)) as [[?|?]|?];
    [left; lex_close | right; lex_close |].
  destruct (Z.le_ge_cases (id a) (id b)); [left | right]; lex_close.
Qed.

Lemma transparent_before_total (a b : RenderItem) :
  transparent_before a b \/ transparent_before b a.
Proof.
  unfold transparent_before.
  destruct (Q_dec (groupOrder a) (groupOrder b)) as [[?|?]|?];
    [left; lex_close | right; lex_close |].
  destruct (Q_dec (renderOrder a) (renderOrder b)) as [[?|?]|?];
    [left; lex_close | right; lex_close |].
  destruct (Q_dec (z a) (z b)) as [[?|?]|?];
    [right; lex_close | left; lex_close |].
  destruct (Z.le_ge_cases (id a) (id b)); [left | right]; lex_close.
Qed.

Lemma sort_bucket_opaque (l : list RenderItem) :
  Permutation l (sort_bucket None painterSortStable l) /\
  StronglySorted opaque_before (sort_bucket None painterSortStable l) /\
  sort_bucket None painterSortStable (sort_bucket None painterSortStable l)
    = sort_bucket None painterSortStable l.
Proof.
  unfold sort_bucket. simpl from_option.
  destruct (1 <? length l)%nat eqn:E.
  - split; [apply array_sort_perm|]. split.
    + exact (array_sort_strongly_sorted _ _ painterSortStable_spec opaque_before_total opaque_before_trans l).
    + destruct (1 <? length (array_sort painterSortStable l))%nat; [|reflexivity].
      exact (array_sort_idem _ _ painterSortStable_spec opaque_before_total l).
  - split; [reflexivity|]. split.
    + destruct l as [|a [|b l]]; [constructor | repeat constructor |].
      simpl in E. discriminate.
    + now rewrite E.
Qed.

Lemma sort_bucket_transparent (l : list RenderItem) :
  Permutation l (sort_bucket None reversePainterSortStable l) /\
  StronglySorted transparent_before (sort_bucket None reversePainterSortStable l) /\
  sort_bucket None reversePainterSortStable
              (sort_bucket None reversePainterSortStable l)
    = sort_bucket None reversePainterSortStable l.
Proof.
  unfold sort_bucket. simpl from_option.
  destruct (1 <? length l)%nat eqn:E.
  - split; [apply array_sort_perm|]. split.
    + exact (array_sort_strongly_sorted _ _ reversePainterSortStable_spec transparent_before_total transparent_before_trans l).
    + destruct (1 <? length (array_sort reversePainterSortStable l))%nat;
        [|reflexivity].
      exact (array_sort_idem _ _ reversePainterSortStable_spec transparent_before_total l).
  - split; [reflexivity|]. split.
    + destruct l as [|a [|b l]]; [constructor | repeat constructor |].
      simpl in E. discriminate.
    + now rewrite E.
Qed.

(** C3.  The default sort ([sort()] without custom comparators) leaves
    every bucket a permutation of itself; the opaque bucket comes out
    ordered by groupOrder, renderOrder, material id and depth ascending,
    then item id; the transmissive and transparent buckets by groupOrder
    and renderOrder ascending, depth descending, then item id.  Sorting
    again changes nothing.  Three opaque items with groupOrder 0, 0, 1 and
    renderOrder 2, 1, 0 come out as second, first, third. *)
Theorem default_sort_order (s : State) :
  let s' := sort None None s in
  (Permutation (opaque s) (opaque s') /\
   StronglySorted opaque_before (opaque s')) /\
  (Permutation (transmissive s) (transmissive s') /\
   StronglySorted transparent_before (transmissive s')) /\
  (Permutation (transparent_list s) (transparent_list s') /\
   StronglySorted transparent_before (transparent_list s')) /\
  sort None None s' = s' /\
  (forall a b c : RenderItem,
      opaque (sort None None
                (with_opaque [with_orders 0 2 a; with_orders 0 1 b;
                              with_orders 1 0 c] s))
      = [with_orders 0 1 b; with_orders 0 2 a; with_orders 1 0 c]).
Proof.
  destruct (sort_bucket_opaque (opaque s)) as (Po & So & Io).
  destruct (sort_bucket_transparent (transmissive s)) as (Pm & Sm & Im).
  destruct (sort_bucket_transparent (transparent_list s)) as (Pt & St & It).
  cbn zeta. unfold sort; cbn [opaque transmissive transparent_list
                               renderItems renderItemsIndex].
  repeat split; auto.
  now rewrite Io, Im, It.
Qed.

Lemma gt_zero_spec (t : option Q) :
  gt_zero t = true <-> exists q, t = Some q /\ (0 < q)%Q.
Proof.
  destruct t as [q|]; simpl.
  - rewrite negb_true_iff. split.
    + intros H. exists q. split; [reflexivity|].
      destruct (Qlt_le_dec 0 q) as [?|Hle]; [assumption|].
      apply Qle_bool_iff in Hle. congruence.
    + intros (q' & [= <-] & Hq). destruct (Qle_bool q 0) eqn:E; [|reflexivity].
      apply Qle_bool_iff in E. lra.
  - split; [discriminate|]. now intros (q & ? & _).
Qed.

Lemma bucket_of_code (m : Material) :
  bucket_of m = if gt_zero (transmission m) then Transmissive
                else if transparent m then Transparent else Opaque.
Proof.
  unfold bucket_of. destruct (transmission m) as [q|] eqn:E; simpl; [|reflexivity].
  destruct (Qlt_le_dec 0 q) as [Hlt|Hle].
  - destruct (Qle_bool q 0) eqn:E'; [|reflexivity].
    apply Qle_bool_iff in E'. lra.
  - apply Qle_bool_iff in Hle. now rewrite Hle.
Qed.

(** C9.  [push] appends the new item to the bucket chosen from the
    material alone (transmissive when [transmission > 0], whatever
    [transparent] says; else transparent when [transparent] is true; else
    opaque) and leaves the other two buckets as they were, so exactly one
    bucket grows, by one item. *)
Theorem push_classifies_by_material
        (o : Object3D) (geo : Z) (m : Material) (go zz : Q)
        (grp : option Z) (s : State) :
  let s' := push o geo m go zz grp s in
  let it := mkItem o geo m go zz grp in
  (forall b : Bucket,
      bucket_items b s' =
      bucket_items b s ++ (if Bucket_eqb b (bucket_of m) then [it] else [])) /\
  (bucket_of m = Transmissive <->
     exists q, transmission m = Some q /\ (0 < q)%Q) /\
  (bucket_of m = Transparent <->
     gt_zero (transmission m) = false /\ transparent m = true) /\
  (bucket_of m = Opaque <->
     gt_zero (transmission m) = false /\ transparent m = false) /\
  (length (opaque s') + length (transmissive s') + length (transparent_list s')
   = S (length (opaque s) + length (transmissive s)
        + length (transparent_list s)))%nat.
Proof.
  cbn zeta. rewrite <- gt_zero_spec, bucket_of_code.
  unfold push, getNextRenderItem.
  destruct (gt_zero (transmission m)); [|destruct (transparent m)];
    cbn [opaque transmissive transparent_list renderItems renderItemsIndex];
    (split; [intros []; simpl; now rewrite ?app_nil_r|]);
    rewrite ?length_app; simpl;
    repeat split; try congruence; try lia; intros []; congruence.
Qed.

End RenderListFacts.
(** ** Program cache *)
Module ProgramsFacts.
Import Programs.

Lemma find_program_Some hp key ps r :
  find_program hp key ps = Some r ->
  r ∈ ps /\ exists p, hp !! r = Some p /\ cacheKey p = key.
Proof.
  induction ps as [|x ps IH]; simpl; [discriminate|].
  destruct (hp !! x) as [p|] eqn:Hx.
  - destruct (String.eqb_spec (cacheKey p) key) as [Hk|Hk].
    + intros [= <-]. split; [left|]. eauto.
    + intros H. destruct (IH H) as [? ?]. split; [now right|assumption].
  - intros H. destruct (IH H) as [? ?]. split; [now right|assumption].
Qed.

Lemma find_program_None hp key ps :
  find_program hp key ps = None ->
  forall r p, r ∈ ps -> hp !! r = Some p -> cacheKey p <> key.
Proof.
  induction ps as [|x ps IH]; simpl; intros H r p Hr Hp.
  - inversion Hr.
  - destruct (hp !! x) as [q|] eqn:Hx.
    + destruct (String.eqb_spec (cacheKey q) key) as [Hk|Hk]; [discriminate|].
      apply elem_of_cons in Hr as [->|Hr]; [congruence|eauto].
    + apply elem_of_cons in Hr as [->|Hr]; [congruence|eauto].
Qed.

Lemma find_program_is_Some hp key ps r p :
  r ∈ ps -> hp !! r = Some p -> cacheKey p = key ->
  is_Some (find_program hp key ps).
Proof.
  intros Hr Hp Hk. destruct (find_program hp key ps) eqn:E; [eauto|].
  exfalso. eapply find_program_None; eauto.
Qed.


Lemma omap_ext_elem {A B : Type} (f g : A -> option B) (l : list A) :
  (forall x, x ∈ l -> f x = g x) -> omap f l = omap g l.
Proof.
  intros H. apply list_omap_ext, Forall_Forall2_diag, Forall_forall.
  intros x Hx. apply H. assumption.
Qed.

Lemma cached_keys_ext (s s' : State) :
  programs s' = programs s ->
  (forall r, r ∈ programs s -> cacheKey <$> heap s' !! r = cacheKey <$> heap s !! r) ->
  cached_keys s' = cached_keys s.
Proof.
  unfold cached_keys. intros -> H. now apply omap_ext_elem.
Qed.

Lemma elem_of_cached_keys (s : State) (key : string) :
  key ∈ cached_keys s <->
  exists r p, r ∈ programs s /\ heap s !! r = Some p /\ cacheKey p = key.
Proof.
  unfold cached_keys. rewrite list_elem_of_omap. split.
  - intros (r & Hr & Hk). destruct (heap s !! r) as [p|] eqn:E; [|discriminate].
    injection Hk as <-. eauto.
  - intros (r & p & Hr & Hp & <-). exists r. now rewrite Hp.
Qed.

Lemma lookup_alter_key (f : WebGLProgram -> WebGLProgram)
      (hp : list WebGLProgram) (r x : nat) :
  (forall p, cacheKey (f p) = cacheKey p) ->
  cacheKey <$> alter f r hp !! x = cacheKey <$> hp !! x.
Proof.
  intros Hf. destruct (decide (r = x)) as [->|Hne].
  - rewrite list_lookup_alter_eq. destruct (hp !! x); simpl; [|reflexivity].
    now rewrite Hf.
  - now rewrite list_lookup_alter_ne.
Qed.

Lemma lookup_insert_key (hp : list WebGLProgram) (r x : nat)
      (p q : WebGLProgram) :
  hp !! r = Some p -> cacheKey q = cacheKey p ->
  cacheKey <$> <[r := q]> hp !! x = cacheKey <$> hp !! x.
Proof.
  intros Hp Hq. destruct (decide (r = x)) as [->|Hne].
  - rewrite list_lookup_insert_eq by (eapply lookup_lt_Some; eauto).
    rewrite Hp. simpl. now rewrite Hq.
  - now rewrite list_lookup_insert_ne.
Qed.

Lemma indexOf_elem (r : nat) (ps : list nat) :
  r ∈ ps -> exists i, indexOf r ps = Some i /\ ps !! i = Some r.
Proof.
  induction ps as [|x ps IH]; intros Hr; [inversion Hr|]. simpl.
  destruct (Nat.eqb_spec x r) as [->|Hne]; [now exists 0%nat|].
  apply elem_of_cons in Hr as [->|Hr]; [congruence|].
  destruct (IH Hr) as (i & -> & Hi). now exists (S i).
Qed.

(** Swap-with-last removal takes out exactly the element at the index. *)
Lemma swap_remove_perm (i r : nat) (ps : list nat) :
  ps !! i = Some r -> Permutation ps (r :: swap_remove (Some i) ps).
Proof.
  intros Hi. unfold swap_remove.
  destruct ps as [|y ps'] using rev_ind; [discriminate|]. clear IHps'.
  rewrite last_snoc.
  destruct (decide (i < length ps')%nat) as [Hlt|Hge].
  - rewrite insert_app_l by assumption. rewrite removelast_last.
    rewrite lookup_app_l in Hi by assumption.
    rewrite insert_take_drop by assumption.
    rewrite <- (take_drop_middle ps' i r Hi) at 1.
    rewrite <- app_assoc. simpl.
    etransitivity; [symmetry; apply Permutation_middle|]. constructor.
    apply Permutation_app_head. symmetry. apply Permutation_cons_append.
  - assert (i = length ps') as ->.
    { apply lookup_lt_Some in Hi. rewrite length_app in Hi. simpl in Hi. lia. }
    rewrite list_lookup_middle in Hi by reflexivity. injection Hi as ->.
    rewrite insert_app_r_alt, Nat.sub_diag by lia. simpl.
    rewrite removelast_last. now rewrite <- Permutation_cons_append.
Qed.

Lemma Inv_initial : Inv initial.
Proof.
  split; simpl; intros; try constructor; try set_solver; reflexivity.
Qed.

Lemma deletions_app (r : nat) (s : State) (es : list Event) (s' : State) :
  events s' = events s ++ es ->
  deletions r s' = (deletions r s + length (List.filter (is_delete (Z.of_nat r)) es))%nat.
Proof.
  unfold deletions. intros ->. now rewrite List.filter_app, length_app.
Qed.

Lemma programs_in_heap (s : State) (r : nat) :
  Inv s -> r ∈ programs s -> (r < length (heap s))%nat.
Proof.
  intros HI Hr. destruct (inv_live s HI r Hr) as (p & Hp & _).
  eapply lookup_lt_Some; eauto.
Qed.

Lemma Inv_acquire_hit (key : string) (s : State) (r : nat) :
  Inv s -> find_program (heap s) key (programs s) = Some r ->
  Inv {| heap := alter (fun p => set_usedTimes (usedTimes p + 1) p) r (heap s);
         programs := programs s;
         programIdCount := programIdCount s;
         events := events s |}.
Proof.
  intros HI Hf. apply find_program_Some in Hf as (Hr & p & Hp & Hk).
  assert (Hlook : forall x q,
             alter (fun p => set_usedTimes (usedTimes p + 1) p) r (heap s) !! x = Some q ->
             exists p0, heap s !! x = Some p0 /\ handle q = handle p0 /\
                        (x <> r -> q = p0) /\ usedTimes p0 <= usedTimes q).
  { intros x q. destruct (decide (r = x)) as [<-|Hne].
    - rewrite list_lookup_alter_eq, Hp. simpl. intros [= <-].
      exists p. simpl. repeat split; [congruence|lia].
    - rewrite list_lookup_alter_ne by assumption. intros Hq. exists q.
      repeat split; [assumption|lia]. }
  split; simpl.
  - intros x Hx. destruct (inv_live s HI x Hx) as (q & Hq & Hu).
    destruct (decide (r = x)) as [<-|Hne].
    + rewrite list_lookup_alter_eq, Hq. simpl. eexists. split; [reflexivity|].
      simpl. lia.
    + rewrite list_lookup_alter_ne by assumption. eauto.
  - apply (inv_nodup s HI).
  - erewrite cached_keys_ext; [apply (inv_keys s HI)|reflexivity|].
    simpl. intros x _. now apply lookup_alter_key.
  - intros x q Hq. destruct (Hlook x q Hq) as (p0 & Hp0 & Hh & _).
    rewrite Hh. now apply (inv_handle s HI).
  - intros x q Hq Hx. destruct (Hlook x q Hq) as (p0 & Hp0 & _ & Hsame & _).
    rewrite Hsame by (intros ->; contradiction).
    now apply (inv_dead s HI x).
  - intros x q Hq. destruct (Hlook x q Hq) as (p0 & Hp0 & _).
    apply (inv_deleted s HI x p0 Hp0).
  - intros x Hx. apply (inv_fresh s HI).
    apply lookup_ge_None. apply lookup_ge_None in Hx.
    now rewrite length_alter in Hx.
Qed.

Lemma cached_keys_snoc (s : State) (key : string) (p : WebGLProgram)
      (es : list Event) (n : Z) :
  Inv s -> cacheKey p = key ->
  cached_keys {| heap := heap s ++ [p];
                 programs := programs s ++ [length (heap s)];
                 programIdCount := n; events := es |}
  = cached_keys s ++ [key].
Proof.
  intros HI Hk. unfold cached_keys. simpl. rewrite omap_app. simpl.
  rewrite list_lookup_middle by reflexivity. simpl. rewrite Hk. f_equal.
  apply omap_ext_elem. intros x Hx.
  now rewrite lookup_app_l by (now apply programs_in_heap).
Qed.

Lemma Inv_acquire_miss (key : string) (s : State) :
  Inv s -> find_program (heap s) key (programs s) = None ->
  Inv {| heap := heap s ++ [{| id := programIdCount s; cacheKey := key;
                               usedTimes := 1;
                               handle := Z.of_nat (length (heap s));
                               program := Some (Z.of_nat (length (heap s))) |}];
         programs := programs s ++ [length (heap s)];
         programIdCount := programIdCount s + 1;
         events := events s ++ [GlCreateProgram (Z.of_nat (length (heap s)))] |}.
Proof.
  intros HI Hf.
  assert (Hnew : length (heap s) ∉ programs s).
  { intros Hin. apply programs_in_heap in Hin; [lia|assumption]. }
  set (p := {| id := programIdCount s; cacheKey := key; usedTimes := 1;
               handle := Z.of_nat (length (heap s));
               program := Some (Z.of_nat (length (heap s))) |}).
  assert (Hlook : forall x q, (heap s ++ [p]) !! x = Some q ->
             heap s !! x = Some q \/ (x = length (heap s) /\ q = p)).
  { intros x q Hq. apply lookup_app_Some in Hq as [Hq|[Hge Hq]]; [now left|].
    right. destruct (x - length (heap s))%nat as [|k] eqn:Ek; simpl in Hq;
      [|now destruct k].
    injection Hq as <-. split; [lia|reflexivity]. }
  assert (Hdel : forall x, deletions x
             {| heap := heap s ++ [p]; programs := programs s ++ [length (heap s)];
                programIdCount := programIdCount s + 1;
                events := events s ++ [GlCreateProgram (Z.of_nat (length (heap s)))] |}
             = deletions x s).
  { intros x. erewrite deletions_app by reflexivity. simpl. lia. }
  split; simpl.
  - intros x Hx. apply elem_of_app in Hx as [Hx|Hx].
    + destruct (inv_live s HI x Hx) as (q & Hq & Hu). exists q.
      split; [|assumption]. rewrite lookup_app_l; [assumption|].
      eapply lookup_lt_Some; eauto.
    + apply list_elem_of_singleton in Hx as ->. exists p.
      split; [now apply list_lookup_middle|simpl; lia].
  - apply NoDup_app. split; [apply (inv_nodup s HI)|]. split.
    + intros x Hx Hx'. apply list_elem_of_singleton in Hx' as ->. contradiction.
    + apply NoDup_singleton.
  - fold p. rewrite (cached_keys_snoc s key p) by (assumption || reflexivity).
    apply NoDup_app. split; [apply (inv_keys s HI)|]. split.
    + intros k Hk Hk'. apply list_elem_of_singleton in Hk' as ->.
      apply elem_of_cached_keys in Hk as (r & q & Hr & Hq & Hkq).
      eapply find_program_None; eauto.
    + apply NoDup_singleton.
  - intros x q Hq. destruct (Hlook x q Hq) as [Hq'|[-> ->]];
      [now apply (inv_handle s HI)|reflexivity].
  - intros x q Hq Hx. destruct (Hlook x q Hq) as [Hq'|[-> ->]].
    + apply (inv_dead s HI x q Hq'). intros Hin. apply Hx.
      apply elem_of_app. now left.
    + exfalso. apply Hx. apply elem_of_app. right. now left.
  - intros x q Hq. rewrite Hdel. destruct (Hlook x q Hq) as [Hq'|[-> ->]].
    + rewrite (inv_deleted s HI x q Hq').
      destruct (decide (x ∈ programs s)) as [Hin|Hout].
      * rewrite decide_True; [reflexivity|]. apply elem_of_app. now left.
      * rewrite decide_False; [reflexivity|]. intros Hin.
        apply elem_of_app in Hin as [Hin|Hin]; [contradiction|].
        apply list_elem_of_singleton in Hin as ->.
        apply lookup_lt_Some in Hq'. lia.
    + rewrite decide_True by (apply elem_of_app; right; now left).
      apply (inv_fresh s HI). now apply lookup_ge_None.
  - intros x Hx. rewrite Hdel. apply (inv_fresh s HI).
    apply lookup_ge_None. apply lookup_ge_None in Hx.
    rewrite length_app in Hx. simpl in Hx. lia.
Qed.

Lemma Inv_acquire (key : string) (s : State) :
  Inv s -> Inv (snd (acquireProgram key s)).
Proof.
  intros HI. unfold acquireProgram.
  destruct (find_program (heap s) key (programs s)) as [r|] eqn:Hf; simpl.
  - now apply (Inv_acquire_hit key).
  - now apply Inv_acquire_miss.
Qed.

Lemma Inv_release_keep (r : nat) (p : WebGLProgram) (s : State) :
  Inv s -> heap s !! r = Some p -> usedTimes p - 1 <> 0 ->
  Inv {| heap := <[r := set_usedTimes (usedTimes p - 1) p]> (heap s);
         programs := programs s;
         programIdCount := programIdCount s;
         events := events s |}.
Proof.
  intros HI Hp Hn.
  assert (Hlt : (r < length (heap s))%nat) by (eapply lookup_lt_Some; eauto).
  split; simpl.
  - intros x Hx. destruct (inv_live s HI x Hx) as (q & Hq & Hu).
    destruct (decide (r = x)) as [<-|Hne].
    + rewrite list_lookup_insert_eq by assumption. eexists. split; [reflexivity|].
      simpl. assert (q = p) as -> by congruence. lia.
    + rewrite list_lookup_insert_ne by assumption. eauto.
  - apply (inv_nodup s HI).
  - erewrite cached_keys_ext; [apply (inv_keys s HI)|reflexivity|].
    simpl. intros x _. now apply (lookup_insert_key _ _ _ p).
  - intros x q Hq. apply list_lookup_insert_Some in Hq as [(<- & <- & _)|[Hne Hq]].
    + simpl. now apply (inv_handle s HI).
    + now apply (inv_handle s HI).
  - intros x q Hq Hx.
    apply list_lookup_insert_Some in Hq as [(<- & <- & _)|[Hne Hq]].
    + simpl. pose proof (inv_dead s HI r p Hp Hx). lia.
    + now apply (inv_dead s HI x).
  - intros x q Hq.
    apply list_lookup_insert_Some in Hq as [(<- & <- & _)|[Hne Hq]].
    + apply (inv_deleted s HI r p Hp).
    + apply (inv_deleted s HI x q Hq).
  - intros x Hx. apply (inv_fresh s HI).
    apply lookup_ge_None. apply lookup_ge_None in Hx.
    now rewrite length_insert in Hx.
Qed.

Lemma Inv_release_last (r : nat) (p : WebGLProgram) (s : State) :
  Inv s -> heap s !! r = Some p -> usedTimes p - 1 = 0 ->
  r ∈ programs s /\
  Permutation (programs s)
              (r :: swap_remove (indexOf r (programs s)) (programs s)) /\
  Inv {| heap := <[r := {| id := id p; cacheKey := cacheKey p;
                           usedTimes := usedTimes p - 1; handle := handle p;
                           program := None |}]>
                   (<[r := set_usedTimes (usedTimes p - 1) p]> (heap s));
         programs := swap_remove (indexOf r (programs s)) (programs s);
         programIdCount := programIdCount s;
         events := events s ++
                   [ReleaseStatesOfProgram r; GlDeleteProgram (handle p)] |}.
Proof.
  intros HI Hp Hn.
  assert (Hlt : (r < length (heap s))%nat) by (eapply lookup_lt_Some; eauto).
  assert (Hr : r ∈ programs s).
  { destruct (decide (r ∈ programs s)) as [?|Hout]; [assumption|].
    pose proof (inv_dead s HI r p Hp Hout). lia. }
  destruct (indexOf_elem r (programs s) Hr) as (i & Hi & Hlook).
  rewrite Hi. pose proof (swap_remove_perm i r (programs s) Hlook) as Hperm.
  set (ps' := swap_remove (Some i) (programs s)) in *.
  assert (Hnd : NoDup (r :: ps')).
  { rewrite <- Hperm. apply (inv_nodup s HI). }
  apply NoDup_cons in Hnd as [Hr' Hnd'].
  assert (Hmem : forall x, x <> r -> (x ∈ ps' <-> x ∈ programs s)).
  { intros x Hx. rewrite (elem_of_Permutation_proper x _ _ Hperm).
    rewrite elem_of_cons. tauto. }
  assert (Hsub : forall x, x ∈ ps' -> x ∈ programs s /\ x <> r).
  { intros x Hx. split; [|intros ->; now apply Hr'].
    rewrite (elem_of_Permutation_proper x _ _ Hperm). now right. }
  set (dead := {| id := id p; cacheKey := cacheKey p;
                  usedTimes := usedTimes p - 1; handle := handle p;
                  program := None |}).
  assert (Hlook' : forall x q,
             <[r := dead]> (<[r := set_usedTimes (usedTimes p - 1) p]> (heap s)) !! x
             = Some q ->
             (x = r /\ q = dead) \/ (x <> r /\ heap s !! x = Some q)).
  { intros x q Hq. apply list_lookup_insert_Some in Hq as [(<- & <- & _)|[Hne Hq]].
    - now left.
    - right. rewrite list_lookup_insert_ne in Hq by assumption. split; congruence. }
  assert (Hh : handle p = Z.of_nat r) by now apply (inv_handle s HI).
  assert (Hdel : forall x (s' : State),
             events s' = events s ++
               [ReleaseStatesOfProgram r; GlDeleteProgram (handle p)] ->
             deletions x s' = (deletions x s + if decide (x = r) then 1 else 0)%nat).
  { intros x s' Hs'. erewrite deletions_app by exact Hs'. simpl. rewrite Hh.
    destruct (decide (x = r)) as [->|Hne].
    - now rewrite Z.eqb_refl.
    - destruct (Z.eqb_spec (Z.of_nat x) (Z.of_nat r)) as [E|E]; [lia|reflexivity]. }
  split; [assumption|]. split; [assumption|].
  split; simpl.
  - intros x Hx. destruct (Hsub x Hx) as [Hx' Hne].
    destruct (inv_live s HI x Hx') as (q & Hq & Hu). exists q.
    split; [|assumption].
    now rewrite !list_lookup_insert_ne by congruence.
  - assumption.
  - pose proof (inv_keys s HI) as Hk. unfold cached_keys in *. simpl.
    rewrite (omap_ext_elem _ (fun r0 => cacheKey <$> heap s !! r0)).
    + rewrite Hperm in Hk. simpl in Hk. rewrite Hp in Hk. simpl in Hk.
      now apply NoDup_cons in Hk as [_ Hk].
    + intros x Hx. destruct (Hsub x Hx) as [_ Hne].
      now rewrite !list_lookup_insert_ne by congruence.
  - intros x q Hq. destruct (Hlook' x q Hq) as [[-> ->]|[Hne Hq']].
    + exact Hh.
    + now apply (inv_handle s HI).
  - intros x q Hq Hx. destruct (Hlook' x q Hq) as [[-> ->]|[Hne Hq']].
    + simpl. lia.
    + apply (inv_dead s HI x q Hq'). now rewrite <- Hmem.
  - intros x q Hq. erewrite Hdel by reflexivity.
    destruct (Hlook' x q Hq) as [[-> ->]|[Hne Hq']].
    + rewrite (inv_deleted s HI r p Hp).
      rewrite decide_True by assumption. rewrite decide_True by reflexivity.
      rewrite decide_False; [reflexivity|]. intros Hin. now apply Hr'.
    + rewrite (inv_deleted s HI x q Hq'). rewrite (decide_False (P := x = r)) by assumption.
      destruct (decide (x ∈ programs s)) as [Hin|Hout].
      * rewrite decide_True; [lia|]. now apply Hmem.
      * rewrite decide_False; [lia|]. now rewrite Hmem.
  - intros x Hx. erewrite Hdel by reflexivity.
    apply lookup_ge_None in Hx. rewrite !length_insert in Hx.
    rewrite (inv_fresh s HI x) by (now apply lookup_ge_None).
    rewrite decide_False; [reflexivity|lia].
Qed.

Lemma releaseProgram_unfold (r : nat) (p : WebGLProgram) (s : State) :
  heap s !! r = Some p ->
  releaseProgram r s =
  if usedTimes p - 1 =? 0 then
    {| heap := <[r := {| id := id p; cacheKey := cacheKey p;
                         usedTimes := usedTimes p - 1; handle := handle p;
                         program := None |}]>
                 (<[r := set_usedTimes (usedTimes p - 1) p]> (heap s));
       programs := swap_remove (indexOf r (programs s)) (programs s);
       programIdCount := programIdCount s;
       events := events s ++
                 [ReleaseStatesOfProgram r; GlDeleteProgram (handle p)] |}
  else
    {| heap := <[r := set_usedTimes (usedTimes p - 1) p]> (heap s);
       programs := programs s;
       programIdCount := programIdCount s;
       events := events s |}.
Proof.
  intros Hp. unfold releaseProgram. rewrite Hp. cbn zeta.
  destruct (usedTimes p - 1 =? 0); [|reflexivity].
  unfold destroy. simpl.
  rewrite list_lookup_insert_eq by (eapply lookup_lt_Some; eauto).
  reflexivity.
Qed.

Lemma Inv_release (r : nat) (s : State) : Inv s -> Inv (releaseProgram r s).
Proof.
  intros HI. destruct (heap s !! r) as [p|] eqn:Hp.
  - rewrite (releaseProgram_unfold r p s Hp).
    destruct (Z.eqb_spec (usedTimes p - 1) 0) as [E|E].
    + now apply Inv_release_last.
    + now apply Inv_release_keep.
  - unfold releaseProgram. now rewrite Hp.
Qed.











End ProgramsFacts.
(** ** State tracker *)
Module WebGLStateFacts.
Import WebGLState.

Lemma neq_false {A : Type} `{EqDecision A} (a b : A) :
  neq a b = false <-> a = b.
Proof.
  unfold neq. rewrite bool_decide_eq_false. split; [|auto].
  intros Hn. destruct (decide (a = b)); [assumption|contradiction].
Qed.

Lemma neq_true {A : Type} `{EqDecision A} (a b : A) :
  neq a b = true <-> a <> b.
Proof. unfold neq. apply bool_decide_eq_true. Qed.

Lemma neq_refl {A : Type} `{EqDecision A} (a : A) : neq a a = false.
Proof. now apply neq_false. Qed.



Lemma Qeq_bool_refl (q : Q) : Qeq_bool q q = true.
Proof. apply Qeq_bool_iff. reflexivity. Qed.

Lemma num_neq_refl (q : Q) : num_neq q q = false.
Proof. unfold num_neq. now rewrite Qeq_bool_refl. Qed.


























Ltac chain_calls :=
  repeat match goal with
         | H : calls ?s' = _ |- context [calls ?s'] => rewrite H; clear H
         end.



(** The tests of the guards, as tests of the snapshot. *)
Lemma neq_held {A : Type} `{EqDecision A} (a b : A) :
  neq a b = negb (bool_decide (b = a)).
Proof.
  unfold neq. destruct (decide (a = b)) as [->|Hne].
  - rewrite bool_decide_false by (intros H; now apply H).
    now rewrite bool_decide_true by reflexivity.
  - rewrite bool_decide_true by exact Hne.
    now rewrite bool_decide_false by congruence.
Qed.

Lemma neq_held' {A : Type} `{EqDecision A} (a b : A) :
  neq a b = negb (bool_decide (a = b)).
Proof.
  rewrite neq_held. f_equal. apply bool_decide_ext. split; congruence.
Qed.

Lemma enable_calls (id : Z) (s : State) :
  calls (enable id s)
  = calls s ++ unless (bool_decide (enabledCapabilities s !! id = Some true))
                      (gl_enable id).
Proof.
  unfold enable, unless. rewrite neq_held'.
  destruct (bool_decide _); cbn [negb]; [now rewrite app_nil_r | reflexivity].
Qed.













Lemma bindFramebuffer_lookup (target : Z) (framebuffer : option Z) (s : State)
      (t : Z) :
  currentBoundFramebuffers s !! target <> Some framebuffer ->
  currentBoundFramebuffers (snd (bindFramebuffer target framebuffer s)) !! t
  = if bool_decide (t = target
                    \/ (target = gl.DRAW_FRAMEBUFFER /\ t = gl.FRAMEBUFFER)
                    \/ (target = gl.FRAMEBUFFER /\ t = gl.DRAW_FRAMEBUFFER))
    then Some framebuffer
    else currentBoundFramebuffers s !! t.
Proof.
  intros Hne. unfold bindFramebuffer.
  rewrite (proj2 (neq_true _ _) Hne). cbn [snd].
  unfold set_currentBoundFramebuffers, issue.
  cbn [currentBoundFramebuffers].
  destruct (Z.eqb_spec target gl.DRAW_FRAMEBUFFER) as [Hd|Hd];
    destruct (Z.eqb_spec target gl.FRAMEBUFFER) as [Hf|Hf];
    try (rewrite Hd in Hf; discriminate Hf);
    rewrite ?lookup_insert; repeat case_decide; case_bool_decide;
    try reflexivity; exfalso; subst;
    repeat match goal with
           | H : ~ (_ \/ _) |- _ => apply Decidable.not_or in H; destruct H
           | H : _ \/ _ |- _ => destruct H
           | H : _ /\ _ |- _ => destruct H
           end; try congruence; try tauto.
Qed.

(** C7, as amended.  [bindFramebuffer] returns true exactly when it
    issues a bind call, which happens exactly when the snapshot entry of
    the target differs from the framebuffer; a suppressed bind changes
    nothing.  An issued bind under the draw or the generic target writes
    the snapshot entries of both; the read target is not aliased: a bind
    under it writes its own entry only, and a bind under any other target
    leaves the read entry alone.  So, once the draw and generic entries
    agree (as they do initially and after any bind), binding a
    framebuffer under one of the two and then the same framebuffer under
    the other issues no second call, and the entries still agree. *)
Theorem bindFramebuffer_aliases_draw_and_generic
        (target : Z) (framebuffer : option Z) (s : State) :
  let '(bound, s') := bindFramebuffer target framebuffer s in
  bound = negb (requested (BindFramebuffer target framebuffer) s) /\
  (bound = false -> s' = s) /\
  (bound = true ->
   calls s' = calls s ++ [gl_bindFramebuffer target framebuffer] /\
   currentBoundFramebuffers s' !! target = Some framebuffer /\
   (target = gl.DRAW_FRAMEBUFFER \/ target = gl.FRAMEBUFFER ->
    currentBoundFramebuffers s' !! gl.DRAW_FRAMEBUFFER = Some framebuffer /\
    currentBoundFramebuffers s' !! gl.FRAMEBUFFER = Some framebuffer) /\
   (target <> gl.READ_FRAMEBUFFER ->
    currentBoundFramebuffers s' !! gl.READ_FRAMEBUFFER
    = currentBoundFramebuffers s !! gl.READ_FRAMEBUFFER) /\
   (target = gl.READ_FRAMEBUFFER ->
    currentBoundFramebuffers s'
    = <[gl.READ_FRAMEBUFFER := framebuffer]> (currentBoundFramebuffers s))) /\
  (currentBoundFramebuffers s !! gl.DRAW_FRAMEBUFFER
   = currentBoundFramebuffers s !! gl.FRAMEBUFFER ->
   currentBoundFramebuffers s' !! gl.DRAW_FRAMEBUFFER
   = currentBoundFramebuffers s' !! gl.FRAMEBUFFER /\
   (target = gl.DRAW_FRAMEBUFFER \/ target = gl.FRAMEBUFFER ->
    fst (bindFramebuffer gl.DRAW_FRAMEBUFFER framebuffer s') = false /\
    fst (bindFramebuffer gl.FRAMEBUFFER framebuffer s') = false)).
Proof.
  destruct (bindFramebuffer target framebuffer s) as [bound s'] eqn:E.
  assert (Hs' : s' = snd (bindFramebuffer target framebuffer s)) by now rewrite E.
  assert (Hsup : forall t fb st,
             currentBoundFramebuffers st !! t = Some fb ->
             fst (bindFramebuffer t fb st) = false).
  { intros t fb st H. unfold bindFramebuffer. now rewrite H, neq_refl. }
  unfold bindFramebuffer in E. simpl requested.
  destruct (decide (currentBoundFramebuffers s !! target = Some framebuffer))
    as [Heq|Hne].
  - rewrite Heq, neq_refl in E. injection E as <- <-.
    rewrite bool_decide_true by assumption.
    split; [reflexivity|]. split; [reflexivity|]. split; [discriminate|].
    intros Hinv. split; [assumption|]. intros [->| ->]; split; apply Hsup;
      congruence.
  - pose proof (fun t => bindFramebuffer_lookup target framebuffer s t Hne) as Hl.
    rewrite <- Hs' in Hl.
    rewrite (proj2 (neq_true _ _) Hne) in E. injection E as <- E.
    rewrite bool_decide_false by assumption.
    split; [reflexivity|]. split; [discriminate|].
    assert (Hboth : target = gl.DRAW_FRAMEBUFFER \/ target = gl.FRAMEBUFFER ->
              currentBoundFramebuffers s' !! gl.DRAW_FRAMEBUFFER = Some framebuffer /\
              currentBoundFramebuffers s' !! gl.FRAMEBUFFER = Some framebuffer).
    { intros Ht. rewrite !Hl.
      split; (rewrite bool_decide_true; [reflexivity|]);
        destruct Ht as [->| ->]; auto. }
    split.
    + intros _. split; [now rewrite <- E|]. split.
      { rewrite Hl. now rewrite bool_decide_true by (now left). }
      split; [exact Hboth|]. split.
      * intros Hr. rewrite Hl. rewrite bool_decide_false; [reflexivity|].
        intros [H|[[_ H]|[_ H]]]; [congruence|discriminate H|discriminate H].
      * intros ->. rewrite <- E. reflexivity.
    + intros Hinv. split.
      * destruct (decide (target = gl.DRAW_FRAMEBUFFER \/ target = gl.FRAMEBUFFER))
          as [Ht|Ht].
        -- destruct (Hboth Ht) as [-> ->]. reflexivity.
        -- rewrite !Hl, !bool_decide_false; [exact Hinv| |];
             intros [H|[[H _]|[H _]]]; apply Ht; auto.
      * intros Ht. destruct (Hboth Ht). split; now apply Hsup.
Qed.

Lemma bindFramebuffer_aliases_draw_and_generic_witness :
  let s := snd (bindFramebuffer gl.DRAW_FRAMEBUFFER (Some 7)
                                (blank canvas_box canvas_box)) in
  (calls s = [gl_bindFramebuffer gl.DRAW_FRAMEBUFFER (Some 7)] /\
   currentBoundFramebuffers s !! gl.FRAMEBUFFER = Some (Some 7)) /\
  fst (bindFramebuffer gl.FRAMEBUFFER (Some 7) s) = false.
Proof.
  cbn zeta.
  pose proof (bindFramebuffer_aliases_draw_and_generic
                gl.DRAW_FRAMEBUFFER (Some 7) (blank canvas_box canvas_box)) as H.
  destruct (bindFramebuffer gl.DRAW_FRAMEBUFFER (Some 7)
                            (blank canvas_box canvas_box)) as [bound s'] eqn:E.
  destruct H as (Hb & _ & Hissue & Hinv).
  assert (Hbound : bound = true) by (rewrite Hb; reflexivity).
  destruct (Hissue Hbound) as (Hc & _ & Hboth & _).
  cbn [snd]. split.
  - split; [exact Hc|]. apply Hboth. now left.
  - apply (Hinv eq_refl). now left.
Defined.

(** C7 as stated fails for the read target: after a bind under the
    generic target the same framebuffer bound under the read target is
    not suppressed, and the read entry of the snapshot was not written. *)
Lemma bindFramebuffer_read_counterexample :
  let s := snd (bindFramebuffer gl.FRAMEBUFFER (Some 7)
                                (blank canvas_box canvas_box)) in
  currentBoundFramebuffers s !! gl.READ_FRAMEBUFFER = None /\
  fst (bindFramebuffer gl.READ_FRAMEBUFFER (Some 7) s) = true /\
  calls (snd (bindFramebuffer gl.READ_FRAMEBUFFER (Some 7) s))
  = [gl_bindFramebuffer gl.FRAMEBUFFER (Some 7);
     gl_bindFramebuffer gl.READ_FRAMEBUFFER (Some 7)].
Proof. vm_compute. repeat split; reflexivity. Qed.

End WebGLStateFacts.
(** ** Attribute cache *)
Module WebGLAttributesFacts.
Import WebGLAttributes.


(** When the stored version is not behind the attribute's, [update]
    does nothing at all. *)
Lemma update_same_version (r k : nat) (bufferType : Z) (s : State)
      (attribute a : Attribute) (d : Cached) :
  objects s !! r = Some attribute ->
  isGLBufferAttribute attribute = false ->
  resolve r attribute s = Some (k, a) ->
  buffers s !! k = Some d ->
  version a <= cached_version d ->
  update r bufferType s = Ok s.
Proof.
  intros Hr Hgl Hres Hk Hv. unfold update. rewrite Hr, Hgl, Hres, Hk.
  destruct (Z.ltb_spec (cached_version d) (version a)); [lia|reflexivity].
Qed.



Lemma update_times_fixed (n r : nat) (bufferType : Z) (s : State) :
  update r bufferType s = Ok s -> update_times n r bufferType s = Ok s.
Proof.
  intros H. induction n as [|n IH]; simpl; [reflexivity|]. now rewrite H.
Qed.

(** An array of a class that [createBuffer] has no type for is uploaded
    and then refused, and nothing is cached: the next [update] does the
    same again. *)
Lemma update_unsupported (r k : nat) (bufferType : Z) (s : State)
      (attribute a : Attribute) :
  objects s !! r = Some attribute ->
  isGLBufferAttribute attribute = false ->
  resolve r attribute s = Some (k, a) ->
  buffers s !! k = None ->
  gl_type a = None ->
  exists s1, update r bufferType s = Throw format_message s1 /\
             calls s1 = calls s ++ [gl_createBuffer (created s);
                                    gl_bindBuffer bufferType (created s);
                                    gl_bufferData bufferType (array a) (usage a);
                                    onUploadCallback k] /\
             buffers s1 = buffers s /\ objects s1 = objects s.
Proof.
  intros Hr Hgl Hres Hk Ht. unfold update.
  rewrite Hr, Hgl, Hres, Hk. unfold createBuffer. rewrite Ht.
  eexists. split; [reflexivity|]. repeat split.
Qed.

Lemma update_caught_unsupported (n r k : nat) (bufferType : Z) (s : State)
      (attribute a : Attribute) :
  objects s !! r = Some attribute ->
  isGLBufferAttribute attribute = false ->
  resolve r attribute s = Some (k, a) ->
  buffers s !! k = None ->
  gl_type a = None ->
  uploads (update_caught n r bufferType s) = (uploads s + n)%nat /\
  buffers (update_caught n r bufferType s) = buffers s.
Proof.
  revert s. induction n as [|n IH]; intros s Hr Hgl Hres Hk Ht.
  - cbn [update_caught]. split; [lia|reflexivity].
  - cbn [update_caught].
    destruct (update_unsupported r k bufferType s attribute a Hr Hgl Hres Hk Ht)
      as (s1 & Hu & Hc & Hb & Ho).
    rewrite Hu. cbn [state_of].
    assert (Hres1 : resolve r attribute s1 = Some (k, a))
      by (unfold resolve in *; now rewrite Ho).
    destruct (IH s1) as [IHu IHb];
      [now rewrite Ho|exact Hgl|exact Hres1|now rewrite Hb|exact Ht|].
    rewrite IHu, IHb. split; [|exact Hb].
    unfold uploads. rewrite Hc, List.filter_app, length_app. simpl. lia.
Qed.

(** C5, as amended.  For an attribute that is not cached (and no
    [GLBufferAttribute]) over an array of a class that [createBuffer]
    has a type for, the first [update] returns, uploads the data exactly
    once and stores the attribute's version; from then on, in any state
    in which the attribute has that version and the cache holds that
    record, [update] changes nothing, so it uploads nothing and leaves
    the record alone; in particular any number of further updates in a
    row leaves the state as the first one left it.  Over an array of
    another class the first [update] uploads the data and then throws
    without caching a record, so [update] uploads again at every call:
    [n] calls, each caught, make [n] uploads and cache nothing. *)
Theorem update_idempotent_without_version_bump
        (r k : nat) (bufferType : Z) (s : State) (attribute a : Attribute) :
  objects s !! r = Some attribute ->
  isGLBufferAttribute attribute = false ->
  resolve r attribute s = Some (k, a) ->
  buffers s !! k = None ->
  (forall t, gl_type a = Some t ->
     exists s1,
       update r bufferType s = Ok s1 /\
       uploads s1 = S (uploads s) /\
       (exists rec, buffers s1 !! k = Some rec /\ cached_version rec = version a) /\
       (forall (s2 : State) (bufferType2 : Z) (attribute2 a2 : Attribute),
           objects s2 !! r = Some attribute2 ->
           isGLBufferAttribute attribute2 = false ->
           resolve r attribute2 s2 = Some (k, a2) ->
           version a2 = version a ->
           buffers s2 !! k = buffers s1 !! k ->
           update r bufferType2 s2 = Ok s2) /\
       (forall n bufferType2, update_times n r bufferType2 s1 = Ok s1)) /\
  (gl_type a = None ->
     (exists s1,
        update r bufferType s = Throw format_message s1 /\
        uploads s1 = S (uploads s) /\
        buffers s1 = buffers s /\ objects s1 = objects s) /\
     (forall n,
        uploads (update_caught n r bufferType s) = (uploads s + n)%nat /\
        buffers (update_caught n r bufferType s) !! k = None)).
Proof.
  intros Hr Hgl Hres Hk. split.
  - intros t Ht.
    set (rec := {| cached_buffer := created s; cached_type := t;
                   bytesPerElement := BYTES_PER_ELEMENT (array a);
                   cached_version := version a;
                   size := Some (byteLength (array a)) |}).
    assert (Hu : exists s0, update r bufferType s
                            = Ok (set_buffers (<[k := rec]> (buffers s0)) s0) /\
                            calls s0 = calls s ++ [gl_createBuffer (created s);
                                                   gl_bindBuffer bufferType (created s);
                                                   gl_bufferData bufferType (array a)
                                                                 (usage a);
                                                   onUploadCallback k] /\
                            objects s0 = objects s).
    { unfold update. rewrite Hr, Hgl, Hres, Hk. unfold createBuffer. rewrite Ht.
      eexists. split; [reflexivity|]. split; reflexivity. }
    destruct Hu as (s0 & Hu & Hc & Ho).
    assert (Hrec : forall (s2 : State) (bufferType2 : Z) (attribute2 a2 : Attribute),
               objects s2 !! r = Some attribute2 ->
               isGLBufferAttribute attribute2 = false ->
               resolve r attribute2 s2 = Some (k, a2) ->
               version a2 = version a ->
               buffers s2 !! k = Some rec ->
               update r bufferType2 s2 = Ok s2).
    { intros s2 bt2 at2 a2 H1 H2 H3 H4 H5.
      apply (update_same_version r k bt2 s2 at2 a2 _ H1 H2 H3 H5). simpl. lia. }
    exists (set_buffers (<[k := rec]> (buffers s0)) s0).
    split; [exact Hu|]. split; [|split; [|split]].
    + unfold uploads, set_buffers. cbn [calls].
      rewrite Hc, List.filter_app, length_app. simpl. lia.
    + exists rec. unfold set_buffers. cbn [buffers].
      rewrite lookup_insert_eq. split; reflexivity.
    + intros s2 bt2 at2 a2 H1 H2 H3 H4 H5.
      unfold set_buffers in H5. cbn [buffers] in H5.
      rewrite lookup_insert_eq in H5. now apply (Hrec s2 bt2 at2 a2).
    + intros n bt2. apply update_times_fixed.
      apply (Hrec _ bt2 attribute a).
      * unfold set_buffers. cbn [objects]. now rewrite Ho.
      * exact Hgl.
      * unfold resolve in *. unfold set_buffers. cbn [objects]. now rewrite Ho.
      * reflexivity.
      * unfold set_buffers. cbn [buffers]. apply lookup_insert_eq.
  - intros Ht. split.
    + destruct (update_unsupported r k bufferType s attribute a Hr Hgl Hres Hk Ht)
        as (s1 & Hu & Hc & Hb & Ho).
      exists s1. split; [exact Hu|]. split; [|split; assumption].
      unfold uploads. rewrite Hc, List.filter_app, length_app. simpl. lia.
    + intros n.
      destruct (update_caught_unsupported n r k bufferType s attribute a
                  Hr Hgl Hres Hk Ht) as [Hn Hb].
      split; [exact Hn|now rewrite Hb].
Qed.

Lemma update_idempotent_without_version_bump_witness :
  uploads (sample_cached (sample_attribute 12 0)) = 1%nat /\
  update_times 5 0%nat 34962 (sample_cached (sample_attribute 12 0))
  = Ok (sample_cached (sample_attribute 12 0)).
Proof.
  destruct (update_idempotent_without_version_bump
              0%nat 0%nat 34962 (sample_state (sample_attribute 12 0))
              (sample_attribute 12 0) (sample_attribute 12 0)
              eq_refl eq_refl eq_refl eq_refl) as [Hok _].
  destruct (Hok gl.FLOAT eq_refl) as (s1 & Hu & Hup & _ & _ & Hn).
  assert (Hs : s1 = sample_cached (sample_attribute 12 0)).
  { assert (E : update 0%nat 34962 (sample_state (sample_attribute 12 0))
                = Ok (sample_cached (sample_attribute 12 0))) by reflexivity.
    rewrite E in Hu. now injection Hu as <-. }
  rewrite <- Hs. split; [exact Hup|apply Hn].
Defined.

(** C5 as stated fails.  A [BufferAttribute] over a [Float64Array]: the
    first [update] creates a buffer and uploads the data before it
    throws, nothing is cached, and the second [update], with the version
    as it was, uploads the data again. *)
Lemma update_unsupported_array_counterexample :
  let s := sample_state (sample_unsupported 16 0) in
  let s1 := state_of (update 0%nat 34962 s) in
  let s2 := state_of (update 0%nat 34962 s1) in
  update 0%nat 34962 s = Throw format_message s1 /\
  uploads s1 = 1%nat /\ buffers s1 !! 0%nat = None /\
  objects s1 !! 0%nat = Some (sample_unsupported 16 0) /\
  update 0%nat 34962 s1 = Throw format_message s2 /\
  uploads s2 = 2%nat.
Proof. cbn zeta. repeat split; reflexivity. Qed.

End WebGLAttributesFacts.
(** ** Texture cache *)
Module WebGLTexturesFacts.
Import WebGLTextures.

(** *** Cache keys tell parameter sets apart *)

Lemma append_nil (s : string) : ("" ++ s)%string = s.
Proof. reflexivity. Qed.

Lemma append_cons (c : ascii) (a s : string) :
  (String c a ++ s)%string = String c (a ++ s).
Proof. reflexivity. Qed.

Lemma comma_free_app (a b : string) :
  comma_free a -> comma_free b -> comma_free (a ++ b).
Proof.
  induction a as [|c a IH]; [now rewrite append_nil|].
  rewrite append_cons. simpl. intros [? ?] ?. auto.
Qed.

Lemma comma_free_uint (d : Decimal.uint) : comma_free (NilEmpty.string_of_uint d).
Proof. induction d; simpl; auto; split; auto; discriminate. Qed.

Lemma comma_free_number (n : Z) : comma_free (number_to_string n).
Proof.
  unfold number_to_string, NilEmpty.string_of_int.
  destruct (Z.to_int n); simpl; [|split; [discriminate|]]; apply comma_free_uint.
Qed.

Lemma number_to_string_inj (n m : Z) :
  number_to_string n = number_to_string m -> n = m.
Proof.
  unfold number_to_string. intros H. apply DecimalZ.to_int_inj.
  pose proof (NilEmpty.isi (Z.to_int n)) as Hn.
  pose proof (NilEmpty.isi (Z.to_int m)) as Hm.
  rewrite H in Hn. congruence.
Qed.

(** Two comma-free prefixes followed by a comma split a string the same
    way. *)
Lemma comma_split (a a' b b' : string) :
  comma_free a -> comma_free a' ->
  (a ++ "," ++ b = a' ++ "," ++ b')%string -> a = a' /\ b = b'.
Proof.
  revert a'. induction a as [|c a IH]; intros [|c' a'] Ha Ha' H;
    repeat (rewrite append_nil in H || rewrite append_cons in H);
    simpl in Ha, Ha'.
  - injection H as ->. auto.
  - injection H as <- _. destruct Ha' as [Hc _]. contradiction.
  - injection H as -> _. destruct Ha as [Hc _]. contradiction.
  - injection H as -> H. destruct Ha, Ha'.
    destruct (IH a') as [-> ->]; auto.
Qed.

Lemma join_cons (x y : string) (l : list string) :
  join (x :: y :: l) = (x ++ "," ++ join (y :: l))%string.
Proof. reflexivity. Qed.

Lemma join_inj (l l' : list string) :
  length l = length l' ->
  Forall comma_free l -> Forall comma_free l' ->
  join l = join l' -> l = l'.
Proof.
  revert l'. induction l as [|x l IH]; intros [|x' l'] Hlen Hl Hl' H;
    try discriminate; [reflexivity|].
  destruct l as [|y l], l' as [|y' l']; try discriminate.
  - simpl in H. now subst.
  - rewrite !join_cons in H.
    apply Forall_cons in Hl as [Hx Hl]. apply Forall_cons in Hl' as [Hx' Hl'].
    destruct (comma_split _ _ _ _ Hx Hx' H) as [-> Hj].
    f_equal. apply IH; auto.
Qed.

Lemma comma_free_boolean (b : bool) : comma_free (join_element (JBoolean b)).
Proof. destruct b; simpl; repeat split; discriminate. Qed.

Lemma boolean_to_string_inj (b b' : bool) :
  join_element (JBoolean b) = join_element (JBoolean b') -> b = b'.
Proof. destruct b, b'; simpl; intros H; try reflexivity; discriminate H. Qed.

(** Texture parameter sets with the same cache key agree on every field
    of the key. *)
Lemma getTextureCacheKey_inj (t1 t2 : Texture) :
  key_strings_ok t1 -> key_strings_ok t2 ->
  getTextureCacheKey t1 = getTextureCacheKey t2 ->
  key_fields t1 = key_fields t2.
Proof.
  intros [Hc1 Hf1] [Hc2 Hf2] H. unfold getTextureCacheKey in H.
  apply join_inj in H.
  - unfold key_fields in *. cbn [fmap list_fmap] in H.
    injection H as H1 H2 H3 H4 H5 H6 H7 H8 H9 H10 H11 H12 H13 H14.
    apply number_to_string_inj in H1, H2, H3, H4, H5, H6, H8, H9, H13.
    apply boolean_to_string_inj in H10, H11, H12.
    simpl in H14.
    assert (H7' : match internalFormat t1 with Some s => JString s | None => JNull end
                  = match internalFormat t2 with Some s => JString s | None => JNull end).
    { destruct (internalFormat t1) as [f1|], (internalFormat t2) as [f2|];
        simpl in H7; try reflexivity.
      - now subst.
      - destruct Hf1 as [_ Hne]. contradiction.
      - destruct Hf2 as [_ Hne]. symmetry in H7. contradiction. }
    congruence.
  - reflexivity.
  - unfold key_fields. cbn [fmap list_fmap].
    repeat (apply Forall_cons; split);
      try apply comma_free_number; try apply comma_free_boolean;
      try assumption; try apply Forall_nil; try exact I.
    destruct (internalFormat t1); simpl; [apply Hf1|exact I].
  - unfold key_fields. cbn [fmap list_fmap].
    repeat (apply Forall_cons; split);
      try apply comma_free_number; try apply comma_free_boolean;
      try assumption; try apply Forall_nil; try exact I.
    destruct (internalFormat t2); simpl; [apply Hf2|exact I].
Qed.

(** *** What an upload does *)

Lemma lookup_entry_insert (src src' : nat) (k : string)
      (m : gmap string Entry) (s s' : State) :
  _sources s' = <[src := m]> (_sources s) ->
  lookup_entry src' k s' = if decide (src' = src) then m !! k
                           else lookup_entry src' k s.
Proof.
  intros H. unfold lookup_entry, webglTextures_of. rewrite H.
  destruct (decide (src' = src)) as [->|Hne].
  - now rewrite lookup_insert_eq.
  - now rewrite lookup_insert_ne.
Qed.

(** An upload with a changed cache key: the entry of the new key is
    acquired (and created when missing), the entry of the previous key is
    released (and deleted, with its GPU texture, when its count drops to
    zero), every other entry stays, and the bag of the texture takes the
    new key and handle. *)
Lemma initTexture_changed (t : nat) (tex : Texture) (s : State) :
  textures s !! t = Some tex ->
  let p := properties_get t s in
  let key := getTextureCacheKey tex in
  let m0 := webglTextures_of (source tex) s in
  let old := __cacheKey p ≫= (fun k => m0 !! k) in
  let h := from_option texture (created s) (m0 !! key) in
  Some key <> __cacheKey p ->
  exists s',
    initTexture t s = (bool_decide (m0 !! key = None), s') /\
    textures s' = textures s /\
    properties s' = <[t := {| __webglInit := true; __cacheKey := Some key;
                              __webglTexture := Some h |}]> (properties s) /\
    created s' = (if m0 !! key is Some _ then created s else created s + 1) /\
    calls s' = calls s
               ++ (if m0 !! key is Some _ then [] else [gl_createTexture (created s)])
               ++ (if dropped old then [gl_deleteTexture (__webglTexture p)] else []) /\
    (forall src' k',
        lookup_entry src' k' s' =
        if decide (src' = source tex) then
          if decide (k' = key) then Some (acquired (created s) (m0 !! key))
          else if decide (Some k' = __cacheKey p) then m0 !! k' ≫= released
          else m0 !! k'
        else lookup_entry src' k' s).
Proof.
  intros Htex p key m0 old h Hne. unfold initTexture. rewrite Htex.
  fold p. cbn zeta. fold key. fold m0.
  rewrite bool_decide_true by assumption.
  assert (Hold : forall k, __cacheKey p = Some k -> k <> key) by congruence.
  subst old h.
  destruct (m0 !! key) as [e|] eqn:Ekey;
    destruct (__cacheKey p) as [oldk|] eqn:Eold; cbn [mbind option_bind] in *.
  all: try (pose proof (Hold oldk eq_refl) as Hk;
            rewrite lookup_alter_ne by congruence;
            rewrite ?lookup_insert_ne by congruence;
            destruct (m0 !! oldk) as [eo|] eqn:Eo; cbn [dropped];
            [destruct (usedTimes eo - 1 =? 0) eqn:Ez|]).
  all: eexists; split;
    [rewrite ?bool_decide_true by reflexivity;
     rewrite ?bool_decide_false by discriminate; reflexivity|].
  all: cbn [textures properties created calls _sources].
  all: split; [reflexivity|].
  all: split;
    [f_equal; f_equal;
     rewrite ?lookup_delete_ne by congruence;
     rewrite ?lookup_alter_ne by congruence;
     rewrite ?lookup_alter_eq, ?lookup_insert_eq, ?Ekey; reflexivity|].
  all: split; [reflexivity|].
  all: split; [cbn [dropped app]; rewrite ?Ez, ?app_nil_r, <- ?app_assoc;
               reflexivity|].
  all: intros src' k';
    erewrite lookup_entry_insert by reflexivity;
    destruct (decide (src' = source tex)) as [->|Hs]; [|reflexivity];
    destruct (decide (k' = key)) as [->|Hk'].
  all: try (rewrite ?lookup_delete_ne by congruence;
            rewrite ?lookup_alter_ne by congruence;
            rewrite ?lookup_alter_eq, ?lookup_insert_eq, ?Ekey; reflexivity).
  all: try (destruct (decide (Some k' = Some oldk)) as [[= ->]|Hko]).
  all: try (destruct (decide (Some k' = None)) as [?|_]; [discriminate|]).
  all: unfold released;
    rewrite ?lookup_delete_eq, ?Eo; cbn [mbind option_bind]; rewrite ?Ez;
    rewrite ?lookup_delete_ne by congruence;
    rewrite ?lookup_alter_eq;
    rewrite ?lookup_alter_ne by congruence;
    rewrite ?lookup_insert_ne by congruence;
    rewrite ?Eo; try reflexivity.
Qed.

(** *** Counting the referrers of an entry *)

Section Counting.
Context {A : Type} (P : nat * A -> Prop) `{!forall x, Decision (P x)}.

Lemma size_filter_delete (m : gmap nat A) (t : nat) :
  size (filter P m) =
  (size (filter P (delete t m))
   + match m !! t with Some x => count (P (t, x)) | None => 0 end)%nat.
Proof.
  rewrite map_filter_delete, map_size_delete.
  destruct (m !! t) as [x|] eqn:E; unfold count.
  - destruct (decide (P (t, x))) as [HP|HP].
    + assert (Hl : filter P m !! t = Some x)
        by (apply map_lookup_filter_Some; auto).
      rewrite Hl. pose proof (map_size_ne_0_lookup_2 _ _ (ex_intro _ x Hl)). cbn. lia.
    + assert (Hl : filter P m !! t = None).
      { apply map_lookup_filter_None. right. intros y Hy.
        rewrite E in Hy. injection Hy as <-. exact HP. }
      rewrite Hl. cbn. lia.
  - assert (Hl : filter P m !! t = None)
      by (apply map_lookup_filter_None; auto).
    rewrite Hl. cbn. lia.
Qed.

Lemma size_filter_insert (m : gmap nat A) (t : nat) (x : A) :
  size (filter P (<[t := x]> m)) =
  (size (filter P (delete t m)) + count (P (t, x)))%nat.
Proof.
  rewrite (size_filter_delete (<[t := x]> m) t).
  rewrite lookup_insert_eq, delete_insert_eq. reflexivity.
Qed.
End Counting.

Lemma count_iff (P Q : Prop) `{Decision P, Decision Q} :
  (P <-> Q) -> count P = count Q.
Proof. intros HPQ. unfold count. destruct (decide P), (decide Q); tauto. Qed.

Lemma count_true (P : Prop) `{Decision P} : P -> count P = 1%nat.
Proof. intros HP. unfold count. destruct (decide P); tauto. Qed.

Lemma count_false (P : Prop) `{Decision P} : ~ P -> count P = 0%nat.
Proof. intros HP. unfold count. destruct (decide P); tauto. Qed.

Lemma refers_iff (s : State) (src : nat) (k : string) (t : nat)
      (p : Properties) (tex : Texture) :
  textures s !! t = Some tex ->
  refers s src k (t, p) <-> __cacheKey p = Some k /\ source tex = src.
Proof.
  intros H. unfold refers. cbn. rewrite H. cbn.
  split; intros [? ?]; split; congruence.
Qed.

Lemma referrers_lookup (s : State) (src : nat) (k : string) (t : nat)
      (p : Properties) :
  referrers s src k !! t = Some p <->
  properties s !! t = Some p /\ refers s src k (t, p).
Proof. apply map_lookup_filter_Some. Qed.

Lemma referrers_ext (s s' : State) (src : nat) (k : string) :
  Inv s -> extends s s' -> properties s' = properties s ->
  referrers s' src k = referrers s src k.
Proof.
  intros HI He Hp. unfold referrers. rewrite Hp. apply map_filter_ext.
  intros t p Htp. destruct (inv_props _ HI _ _ Htp) as (tex & Htex & _).
  destruct (He _ _ Htex) as (tex' & Htex' & Hs).
  rewrite (refers_iff s' _ _ _ _ _ Htex'), (refers_iff s _ _ _ _ _ Htex).
  rewrite Hs. reflexivity.
Qed.

Lemma old_count (s : State) (src : nat) (k : string) (t : nat) (tex : Texture) :
  textures s !! t = Some tex ->
  match properties s !! t with
  | Some p => count (refers s src k (t, p))
  | None => 0%nat
  end = count (__cacheKey (properties_get t s) = Some k /\ source tex = src).
Proof.
  intros Htex. unfold properties_get. destruct (properties s !! t) as [p|]; cbn.
  - apply count_iff, refers_iff, Htex.
  - symmetry. apply count_false. intros [? _]. discriminate.
Qed.

(** An entry that no bag names has no referrer. *)
Lemma cache_Inv_no_entry (s : State) (src : nat) (k : string) :
  Inv s -> lookup_entry src k s = None -> size (referrers s src k) = 0%nat.
Proof.
  intros HI Hn. apply map_size_empty_iff, map_eq. intros t.
  rewrite lookup_empty. destruct (referrers s src k !! t) as [p|] eqn:E; [|reflexivity].
  apply referrers_lookup in E as [Hp Hr].
  destruct (inv_props _ HI _ _ Hp) as (tex & Htex & [->|(_ & key & e & Hk & He & _)]).
  - destruct (proj1 (refers_iff _ _ _ _ _ _ Htex) Hr) as [Hr1 _]. discriminate.
  - destruct (proj1 (refers_iff _ _ _ _ _ _ Htex) Hr) as [Hr1 Hs].
    rewrite Hs in He. congruence.
Qed.

(** Two textures that refer to an entry. *)
Lemma two_referrers (s : State) (src : nat) (k : string) (t t' : nat)
      (p p' : Properties) :
  t <> t' ->
  properties s !! t = Some p -> refers s src k (t, p) ->
  properties s !! t' = Some p' -> refers s src k (t', p') ->
  (2 <= size (referrers s src k))%nat.
Proof.
  intros Hne Hp Hr Hp' Hr'. unfold referrers.
  rewrite (size_filter_delete _ (properties s) t), Hp, (count_true _ Hr).
  assert (Hl : filter (refers s src k) (delete t (properties s)) !! t' = Some p').
  { apply map_lookup_filter_Some. split; [|exact Hr'].
    rewrite lookup_delete_ne by exact Hne. exact Hp'. }
  pose proof (map_size_ne_0_lookup_2 _ _ (ex_intro _ p' Hl)). lia.
Qed.

Lemma bag_cases (s : State) (t : nat) (tex : Texture) :
  Inv s -> textures s !! t = Some tex ->
  let p := properties_get t s in
  p = no_properties \/
  exists oldk eo,
    properties s !! t = Some p /\ __webglInit p = true /\
    __cacheKey p = Some oldk /\
    lookup_entry (source tex) oldk s = Some eo /\
    __webglTexture p = Some (texture eo).
Proof.
  intros HI Htex. unfold properties_get.
  destruct (properties s !! t) as [p|] eqn:E; cbn; [|left; reflexivity].
  destruct (inv_props _ HI _ _ E) as (tex' & Htex' & [->|(Hi & key & e & Hk & He & Hw)]).
  - left. reflexivity.
  - right. exists key, e. replace tex with tex' by congruence. auto.
Qed.

(** *** A texture moves from one entry to another *)

Section MovesFacts.
Variables (t : nat) (tex : Texture) (new : option string) (s s' : State).
Hypothesis HI : Inv s.
Hypothesis Htex : textures s !! t = Some tex.
Hypothesis Hm : Moves t (source tex) new s s'.
Hypothesis Hne : new <> __cacheKey (properties_get t s).

(** The referrers of an entry lose [t] when it was the entry of the
    bag of [t], and gain [t] when it is the entry of [new]. *)
Lemma moves_size (src' : nat) (k : string) :
  (size (referrers s' src' k)
   + count (__cacheKey (properties_get t s) = Some k /\ source tex = src')
   = size (referrers s src' k) + count (new = Some k /\ source tex = src'))%nat.
Proof.
  unfold referrers.
  rewrite (proj1 (map_filter_ext (refers s' src' k) (refers s src' k)
                                 (properties s'))).
  2:{ intros i x _. unfold refers. rewrite (mv_textures _ _ _ _ _ Hm).
      reflexivity. }
  rewrite (size_filter_delete _ (properties s) t), (old_count _ _ _ _ _ Htex).
  rewrite (mv_properties _ _ _ _ _ Hm). destruct new as [key|].
  - rewrite size_filter_insert.
    rewrite (count_iff _ _ (refers_iff _ _ _ _ _ _ Htex)).
    cbn [__cacheKey bag_of]. lia.
  - rewrite (count_false (None = Some k /\ _)) by (intros [? _]; discriminate).
    lia.
Qed.

(** Where an entry of [s'] comes from: it is an entry of [s] with its
    handle, recounted; or it is new, with a fresh handle. *)
Lemma moves_origin (src' : nat) (k : string) (e' : Entry) :
  lookup_entry src' k s' = Some e' ->
  1 <= usedTimes e' /\
  ((exists e, lookup_entry src' k s = Some e /\ texture e' = texture e /\
              usedTimes e'
              + Z.of_nat (count (__cacheKey (properties_get t s) = Some k
                                 /\ source tex = src'))
              = usedTimes e
                + Z.of_nat (count (new = Some k /\ source tex = src'))) \/
   (lookup_entry src' k s = None /\ new = Some k /\ source tex = src' /\
    provisions new (webglTextures_of (source tex) s) = true /\
    texture e' = created s /\ usedTimes e' = 1)).
Proof.
  rewrite (mv_entries _ _ _ _ _ Hm).
  destruct (decide (src' = source tex)) as [->|Hs].
  - destruct (decide (Some k = new)) as [<-|Hk].
    + intros [= <-].
      rewrite (count_false (__cacheKey _ = Some k /\ _)) by (intros [? _]; congruence).
      rewrite (count_true (Some k = Some k /\ _)) by auto.
      destruct (lookup_entry (source tex) k s) as [e|] eqn:E; cbn.
      * pose proof (inv_positive _ HI _ _ _ E). split; [lia|].
        left. exists e. split; [reflexivity|]. split; [reflexivity|lia].
      * split; [lia|]. right. unfold lookup_entry in E. rewrite E.
        repeat split; reflexivity.
    + rewrite (count_false (new = Some k /\ _)) by (intros [? _]; congruence).
      destruct (decide (Some k = __cacheKey (properties_get t s))) as [Ho|Ho].
      * rewrite (count_true (__cacheKey _ = Some k /\ _)) by auto.
        destruct (lookup_entry (source tex) k s) as [e|] eqn:E; cbn; [|discriminate].
        unfold released. destruct (usedTimes e - 1 =? 0) eqn:Ez; [discriminate|].
        intros [= <-]. cbn. pose proof (inv_positive _ HI _ _ _ E).
        apply Z.eqb_neq in Ez. split; [lia|].
        left. exists e. split; [reflexivity|]. split; [reflexivity|lia].
      * rewrite (count_false (__cacheKey _ = Some k /\ _)) by (intros [? _]; congruence).
        intros E. pose proof (inv_positive _ HI _ _ _ E). split; [lia|].
        left. exists e'. split; [assumption|]. split; [reflexivity|lia].
  - rewrite (count_false (new = Some k /\ _)) by (intros [_ ?]; congruence).
    rewrite (count_false (__cacheKey _ = Some k /\ _)) by (intros [_ ?]; congruence).
    intros E. pose proof (inv_positive _ HI _ _ _ E). split; [lia|].
    left. exists e'. split; [assumption|]. split; [reflexivity|lia].
Qed.

(** The entry of another texture stays, with its handle. *)
Lemma moves_survival (t' : nat) (p' : Properties) (tex' : Texture)
      (key : string) (e : Entry) :
  t' <> t ->
  properties s !! t' = Some p' -> textures s !! t' = Some tex' ->
  __cacheKey p' = Some key ->
  lookup_entry (source tex') key s = Some e ->
  exists e', lookup_entry (source tex') key s' = Some e' /\
             texture e' = texture e.
Proof.
  intros Ht Hp' Htex' Hk He. rewrite (mv_entries _ _ _ _ _ Hm).
  destruct (decide (source tex' = source tex)) as [Hs|Hs]; [|eauto].
  rewrite Hs in He.
  destruct (decide (Some key = new)) as [_|_].
  { rewrite He. cbn. eauto. }
  destruct (decide (Some key = __cacheKey (properties_get t s))) as [Ho|_];
    [|eauto].
  rewrite He. cbn. unfold released.
  destruct (usedTimes e - 1 =? 0) eqn:Ez; [|cbn; eauto].
  exfalso. apply Z.eqb_eq in Ez.
  destruct (bag_cases _ _ _ HI Htex) as [Hn|(oldk & eo & Hp & _ & Hko & _)];
    [rewrite Hn in Ho; discriminate|].
  assert (2 <= size (referrers s (source tex) key))%nat.
  { apply (two_referrers _ _ _ t t' (properties_get t s) p' (not_eq_sym Ht) Hp);
      [|exact Hp'|].
    - apply (refers_iff _ _ _ _ _ _ Htex). auto.
    - apply (refers_iff _ _ _ _ _ _ Htex'). auto. }
  pose proof (inv_count _ HI _ _ _ He). lia.
Qed.

(** A deletion is that of the entry of the bag of [t], which [t] alone
    referred to; the entry is gone afterwards. *)
Lemma moves_delete :
  dropped (__cacheKey (properties_get t s)
           ≫= fun k => lookup_entry (source tex) k s) = true ->
  exists oldk eo,
    __cacheKey (properties_get t s) = Some oldk /\
    lookup_entry (source tex) oldk s = Some eo /\
    usedTimes eo = 1 /\
    __webglTexture (properties_get t s) = Some (texture eo) /\
    lookup_entry (source tex) oldk s' = None.
Proof.
  destruct (bag_cases _ _ _ HI Htex) as [Hn|(oldk & eo & _ & _ & Hko & Heo & Hw)].
  { rewrite Hn. cbn. discriminate. }
  intros Ez. rewrite Hko in Ez. cbn [mbind option_bind] in Ez.
  rewrite Heo in Ez. cbn [dropped] in Ez.
  exists oldk, eo. split; [exact Hko|]. split; [exact Heo|].
  split; [apply Z.eqb_eq in Ez; lia|]. split; [exact Hw|].
  rewrite (mv_entries _ _ _ _ _ Hm).
  rewrite decide_True by reflexivity.
  rewrite decide_False by congruence.
  rewrite decide_True by congruence.
  rewrite Heo. cbn. unfold released. rewrite Ez. reflexivity.
Qed.

Lemma moves_props_other (t' : nat) (p' : Properties) :
  t' <> t -> properties s !! t' = Some p' ->
  exists tex', textures s !! t' = Some tex' /\
    (p' = no_properties \/
     (__webglInit p' = true /\
      exists key e, __cacheKey p' = Some key /\
                    lookup_entry (source tex') key s' = Some e /\
                    __webglTexture p' = Some (texture e))).
Proof.
  intros Ht Hp'.
  destruct (inv_props _ HI _ _ Hp')
    as (tex' & Htex' & [->|(Hi & key & e & Hk & He & Hw)]);
    exists tex'; (split; [exact Htex'|]); [left; reflexivity|].
  right. split; [exact Hi|].
  destruct (moves_survival t' p' tex' key e Ht Hp' Htex' Hk He) as (e' & He' & Hte).
  exists key, e'. rewrite Hte. auto.
Qed.

Theorem cache_Inv_moves : Inv s'.
Proof.
  split.
  - intros src' k e' He'. pose proof (moves_size src' k) as Hsz.
    destruct (moves_origin _ _ _ He')
      as [_ [(e & He & _ & Hu)|(Hn & Hnew & Hs & _ & _ & Hu)]].
    + pose proof (inv_count _ HI _ _ _ He). lia.
    + pose proof (cache_Inv_no_entry _ _ _ HI Hn).
      rewrite (count_true (new = Some k /\ _)) in Hsz by auto.
      rewrite (count_false (__cacheKey _ = Some k /\ _)) in Hsz
        by (intros [? _]; congruence).
      lia.
  - intros src' k e' He'. apply (moves_origin _ _ _ He').
  - intros t' p' Hp'. rewrite (mv_textures _ _ _ _ _ Hm).
    destruct (decide (t' = t)) as [->|Ht'].
    + revert Hp'. rewrite (mv_properties _ _ _ _ _ Hm).
      destruct new as [key|]; [|rewrite lookup_delete_eq; discriminate].
      rewrite lookup_insert_eq. intros [= <-]. exists tex. split; [exact Htex|].
      right. split; [reflexivity|].
      exists key, (acquired (created s) (lookup_entry (source tex) key s)).
      split; [reflexivity|]. split.
      * rewrite (mv_entries _ _ _ _ _ Hm).
        rewrite !decide_True by reflexivity. reflexivity.
      * cbn. unfold lookup_entry.
        destruct (webglTextures_of (source tex) s !! key); reflexivity.
    + apply moves_props_other; [exact Ht'|].
      rewrite <- Hp', (mv_properties _ _ _ _ _ Hm).
      destruct new as [key|].
      * rewrite lookup_insert_ne by congruence. reflexivity.
      * rewrite lookup_delete_ne by congruence. reflexivity.
  - intros src' k e' He'.
    rewrite (mv_created _ _ _ _ _ Hm), (mv_calls _ _ _ _ _ Hm).
    rewrite !not_elem_of_app.
    destruct (moves_origin _ _ _ He')
      as [_ [(e & He & Ht & _)|(Hn & Hnew & Hs & Hprov & Ht & _)]].
    + destruct (inv_handles _ HI _ _ _ He) as [Hlt Hnd]. rewrite Ht.
      split; [destruct (provisions _ _); lia|].
      split; [exact Hnd|]. split.
      * destruct (provisions _ _); [|apply not_elem_of_nil].
        rewrite list_elem_of_singleton. discriminate.
      * destruct (dropped _) eqn:Ed; [|apply not_elem_of_nil].
        destruct (moves_delete Ed) as (oldk & eo & _ & Heo & _ & Hw & Hgone).
        rewrite Hw, list_elem_of_singleton. intros [= Hh].
        destruct (inv_handles_inj _ HI _ _ _ _ _ _ He Heo Hh) as [-> ->].
        rewrite Hgone in He'. discriminate.
    + rewrite Hprov, Ht. split; [lia|]. split; [|split].
      * intros Hin. apply (inv_created _ HI) in Hin. cbn in Hin. lia.
      * rewrite list_elem_of_singleton. discriminate.
      * destruct (dropped _) eqn:Ed; [|apply not_elem_of_nil].
        destruct (moves_delete Ed) as (oldk & eo & _ & Heo & _ & Hw & _).
        destruct (inv_handles _ HI _ _ _ Heo) as [Hlt _].
        rewrite Hw, list_elem_of_singleton. intros [= Hh]. lia.
  - intros src1 k1 e1 src2 k2 e2 He1 He2 Hh.
    destruct (moves_origin _ _ _ He1)
      as [_ [(e1' & He1' & Ht1 & _)|(_ & Hnew1 & Hs1 & _ & Ht1 & _)]];
      destruct (moves_origin _ _ _ He2)
      as [_ [(e2' & He2' & Ht2 & _)|(_ & Hnew2 & Hs2 & _ & Ht2 & _)]].
    + apply (inv_handles_inj _ HI _ _ _ _ _ _ He1' He2'). congruence.
    + destruct (inv_handles _ HI _ _ _ He1') as [Hlt _]. lia.
    + destruct (inv_handles _ HI _ _ _ He2') as [Hlt _]. lia.
    + split; congruence.
  - rewrite (mv_calls _ _ _ _ _ Hm). apply NoDup_app.
    split; [apply (inv_calls _ HI)|]. split.
    + intros c Hc Hin. apply elem_of_app in Hin as [Hin|Hin].
      * destruct (provisions _ _); [|apply elem_of_nil in Hin; exact Hin].
        apply list_elem_of_singleton in Hin as ->.
        apply (inv_created _ HI) in Hc. cbn in Hc. lia.
      * destruct (dropped _) eqn:Ed; [|apply elem_of_nil in Hin; exact Hin].
        destruct (moves_delete Ed) as (oldk & eo & _ & Heo & _ & Hw & _).
        apply list_elem_of_singleton in Hin as ->. rewrite Hw in Hc.
        apply (inv_handles _ HI _ _ _ Heo). exact Hc.
    + destruct (provisions _ _), (dropped _); cbn;
        repeat (apply NoDup_cons; split);
        try apply NoDup_nil; try exact I;
        try apply not_elem_of_nil.
      rewrite list_elem_of_singleton. discriminate.
  - intros c Hc. rewrite (mv_calls _ _ _ _ _ Hm) in Hc.
    rewrite (mv_created _ _ _ _ _ Hm).
    apply elem_of_app in Hc as [Hc|Hc]; [|apply elem_of_app in Hc as [Hc|Hc]].
    + apply (inv_created _ HI) in Hc.
      destruct c as [h|[h|]]; cbn in Hc |- *;
        try (destruct (provisions _ _); lia); exact Hc.
    + destruct (provisions _ _); [|apply elem_of_nil in Hc; destruct Hc].
      apply list_elem_of_singleton in Hc as ->. lia.
    + destruct (dropped _) eqn:Ed; [|apply elem_of_nil in Hc; destruct Hc].
      destruct (moves_delete Ed) as (oldk & eo & _ & Heo & _ & Hw & _).
      destruct (inv_handles _ HI _ _ _ Heo) as [Hlt _].
      apply list_elem_of_singleton in Hc as ->. rewrite Hw.
      destruct (provisions _ _); lia.
Qed.

End MovesFacts.

(** *** The invariant holds after every run *)

(** The invariant reads the state through the sources of the textures,
    the bags, the entries, the calls and the handle counter. *)
Lemma cache_Inv_ext (s s' : State) :
  Inv s -> extends s s' ->
  (forall i, properties s' !! i = properties s !! i \/
             (properties s !! i = None /\
              properties s' !! i = Some no_properties /\
              is_Some (textures s' !! i))) ->
  (forall src k, lookup_entry src k s' = lookup_entry src k s) ->
  calls s' = calls s -> created s' = created s ->
  Inv s'.
Proof.
  intros HI He Hp Hl Hc Hcr.
  assert (Hr : forall src k, referrers s' src k = referrers s src k).
  { intros src k. unfold referrers. apply map_filter_strong_ext. intros i x.
    split.
    - intros [Hr Hx]. destruct (Hp i) as [E|(_ & E & _)].
      + rewrite E in Hx. split; [|exact Hx].
        destruct (inv_props _ HI _ _ Hx) as (tex & Htex & _).
        destruct (He _ _ Htex) as (tex' & Htex' & Hs).
        apply (refers_iff _ _ _ _ _ _ Htex).
        apply (refers_iff _ _ _ _ _ _ Htex') in Hr. rewrite <- Hs. exact Hr.
      + rewrite E in Hx. injection Hx as <-. destruct Hr as [Hr _]. discriminate.
    - intros [Hr Hx]. destruct (Hp i) as [E|(E & _)]; [|congruence].
      rewrite E. split; [|exact Hx].
      destruct (inv_props _ HI _ _ Hx) as (tex & Htex & _).
      destruct (He _ _ Htex) as (tex' & Htex' & Hs).
      apply (refers_iff _ _ _ _ _ _ Htex').
      apply (refers_iff _ _ _ _ _ _ Htex) in Hr. rewrite Hs. exact Hr. }
  split.
  - intros src k e. rewrite Hl, Hr. apply (inv_count _ HI).
  - intros src k e. rewrite Hl. apply (inv_positive _ HI).
  - intros t p Hx. destruct (Hp t) as [E|(_ & E & tex' & Htex')].
    + rewrite E in Hx.
      destruct (inv_props _ HI _ _ Hx) as (tex & Htex & Hcase).
      destruct (He _ _ Htex) as (tex' & Htex' & Hs).
      exists tex'. split; [exact Htex'|].
      destruct Hcase as [->|(Hi & key & e & Hk & Hen & Hw)]; [left; reflexivity|].
      right. split; [exact Hi|]. exists key, e. rewrite Hl, Hs. auto.
    + exists tex'. split; [exact Htex'|]. left. congruence.
  - intros src k e. rewrite Hl, Hc, Hcr. apply (inv_handles _ HI).
  - intros src k e src' k' e'. rewrite !Hl. apply (inv_handles_inj _ HI).
  - rewrite Hc. apply (inv_calls _ HI).
  - intros c. rewrite Hc, Hcr. apply (inv_created _ HI).
Qed.

Lemma extends_refl (s s' : State) : textures s' = textures s -> extends s s'.
Proof. intros H t tex Ht. exists tex. rewrite H. auto. Qed.

(** An upload with a changed key is a move to the entry of the new key. *)
Lemma initTexture_moves (t : nat) (tex : Texture) (s : State) :
  textures s !! t = Some tex ->
  Some (getTextureCacheKey tex) <> __cacheKey (properties_get t s) ->
  exists s',
    initTexture t s =
    (provisions (Some (getTextureCacheKey tex)) (webglTextures_of (source tex) s), s') /\
    Moves t (source tex) (Some (getTextureCacheKey tex)) s s'.
Proof.
  intros Htex Hne.
  destruct (initTexture_changed t tex s Htex Hne)
    as (s' & Hi & Ht & Hp & Hcr & Hc & He).
  exists s'. split.
  - rewrite Hi. f_equal. cbn [provisions].
    destruct (webglTextures_of (source tex) s !! getTextureCacheKey tex);
      [apply bool_decide_false; discriminate|apply bool_decide_true; reflexivity].
  - split.
    + exact Ht.
    + exact Hp.
    + rewrite Hcr. cbn [provisions].
      destruct (webglTextures_of (source tex) s !! getTextureCacheKey tex);
        reflexivity.
    + rewrite Hc. cbn [provisions]. unfold lookup_entry.
      destruct (webglTextures_of (source tex) s !! getTextureCacheKey tex);
        reflexivity.
    + intros src' k'. rewrite He. unfold lookup_entry.
      destruct (decide (src' = source tex)) as [_|_]; [|reflexivity].
      destruct (decide (k' = getTextureCacheKey tex)) as [->|Hk].
      * rewrite (decide_True (P := Some _ = Some _)) by reflexivity. reflexivity.
      * rewrite (decide_False (P := Some _ = Some _)) by congruence. reflexivity.
Qed.

(** An upload with the key of the bag changes nothing that the invariant
    reads. *)
Lemma initTexture_same (t : nat) (tex : Texture) (s : State) :
  Inv s -> textures s !! t = Some tex ->
  Some (getTextureCacheKey tex) = __cacheKey (properties_get t s) ->
  exists s',
    initTexture t s = (false, s') /\
    textures s' = textures s /\ properties s' = properties s /\
    (forall src k, lookup_entry src k s' = lookup_entry src k s) /\
    calls s' = calls s /\ created s' = created s.
Proof.
  intros HI Htex Hk. unfold initTexture. rewrite Htex. cbn zeta.
  rewrite bool_decide_false by (intros Hn; apply Hn, Hk).
  eexists. split; [reflexivity|]. cbn [textures properties calls created].
  split; [reflexivity|]. split; [|split; [|split; reflexivity]].
  - destruct (bag_cases _ _ _ HI Htex) as [Hn|(oldk & eo & Hp & Hi & _)];
      [rewrite Hn in Hk; discriminate|].
    apply insert_id. rewrite Hp. f_equal.
    destruct (properties_get t s) as [i k w]. cbn in Hi. rewrite Hi. reflexivity.
  - intros src k. erewrite lookup_entry_insert by reflexivity.
    destruct (decide (src = source tex)) as [->|_]; reflexivity.
Qed.

Lemma lookup_entry_set (src src' : nat) (k : string)
      (m : gmap string Entry) (s s' : State) :
  _sources s' = (if bool_decide (m = ∅) then delete src (_sources s)
                 else <[src := m]> (_sources s)) ->
  lookup_entry src' k s' = if decide (src' = src) then m !! k
                           else lookup_entry src' k s.
Proof.
  intros H. unfold lookup_entry, webglTextures_of. rewrite H.
  destruct (decide (src' = src)) as [->|Hne]; case_bool_decide as Hm.
  - rewrite lookup_delete_eq, Hm. reflexivity.
  - rewrite lookup_insert_eq. reflexivity.
  - rewrite lookup_delete_ne by congruence. reflexivity.
  - rewrite lookup_insert_ne by congruence. reflexivity.
Qed.

(** The disposal of an uploaded texture is a move to no entry; it does
    not throw. *)
Lemma deallocateTexture_moves (t : nat) (tex : Texture) (s : State) :
  Inv s -> textures s !! t = Some tex ->
  __webglInit (properties_get t s) = true ->
  exists s', deallocateTexture t s = Some s' /\
             Moves t (source tex) None s s'.
Proof.
  intros HI Htex Hi.
  destruct (bag_cases _ _ _ HI Htex) as [Hn|(oldk & eo & Hp & _ & Hko & Heo & Hw)].
  { rewrite Hn in Hi. discriminate. }
  assert (Hsrc : _sources s !! source tex = Some (webglTextures_of (source tex) s)).
  { unfold lookup_entry, webglTextures_of in Heo |- *.
    destruct (_sources s !! source tex); [reflexivity|].
    cbn in Heo. rewrite lookup_empty in Heo. discriminate. }
  unfold deallocateTexture. rewrite Htex. cbn zeta. rewrite Hi. cbn [negb].
  rewrite Hsrc, Hko. unfold lookup_entry in Heo. rewrite Heo.
  destruct (usedTimes eo - 1 =? 0) eqn:Ez.
  all: eexists; split; [reflexivity|].
  all: split; cbn [textures properties calls created provisions];
    try reflexivity.
  all: try (rewrite Hko; cbn [mbind option_bind]; unfold lookup_entry;
            rewrite Heo; cbn [dropped]; rewrite Ez, ?app_nil_r; reflexivity).
  all: intros src' k'; erewrite lookup_entry_set by reflexivity;
    unfold lookup_entry;
    destruct (decide (src' = source tex)) as [_|_]; [|reflexivity];
    rewrite (decide_False (P := Some k' = None)) by discriminate;
    rewrite Hko;
    destruct (decide (Some k' = Some oldk)) as [[= ->]|Hk].
  all: rewrite ?lookup_delete_eq, ?lookup_alter_eq, ?Heo;
    rewrite ?lookup_delete_ne by congruence;
    rewrite ?lookup_alter_ne by congruence;
    cbn [mbind option_bind fmap option_fmap option_map]; unfold released;
    rewrite ?Ez; reflexivity.
Qed.

(** The disposal of a texture that was never uploaded reads its bag. *)
Lemma deallocateTexture_uninit (t : nat) (tex : Texture) (s : State) :
  textures s !! t = Some tex ->
  __webglInit (properties_get t s) = false ->
  exists s', deallocateTexture t s = Some s' /\
             textures s' = textures s /\
             properties s' = <[t := properties_get t s]> (properties s) /\
             _sources s' = _sources s /\
             calls s' = calls s /\ created s' = created s.
Proof.
  intros Htex Hi. unfold deallocateTexture. rewrite Htex. cbn zeta.
  rewrite Hi. cbn [negb]. eexists. split; [reflexivity|].
  repeat split; reflexivity.
Qed.

Lemma cache_Inv_initial : Inv initial.
Proof.
  split; unfold lookup_entry, webglTextures_of; cbn.
  - intros src k e. rewrite lookup_empty. cbn. rewrite lookup_empty. discriminate.
  - intros src k e. rewrite lookup_empty. cbn. rewrite lookup_empty. discriminate.
  - intros t p. rewrite lookup_empty. discriminate.
  - intros src k e. rewrite lookup_empty. cbn. rewrite lookup_empty. discriminate.
  - intros src k e src' k' e'. rewrite lookup_empty. cbn.
    rewrite lookup_empty. discriminate.
  - apply NoDup_nil. exact I.
  - intros c Hc. apply elem_of_nil in Hc. destruct Hc.
Qed.

Lemma cache_Inv_step (s : State) (op : Op) : Inv s -> Inv (step s op).
Proof.
  intros HI. destruct op as [t tex|t tex|t|t]; cbn [step].
  - destruct (textures s !! t) as [old|] eqn:Ht; [exact HI|].
    apply (cache_Inv_ext s); auto.
    intros t' tex' Ht'. exists tex'. cbn.
    rewrite lookup_insert_ne by congruence. auto.
  - destruct (textures s !! t) as [old|] eqn:Ht; [|exact HI].
    apply (cache_Inv_ext s); auto.
    intros t' tex' Ht'. cbn. destruct (decide (t' = t)) as [->|Hne].
    + rewrite lookup_insert_eq. eexists. split; [reflexivity|]. cbn. congruence.
    + rewrite lookup_insert_ne by congruence. eauto.
  - destruct (textures s !! t) as [tex|] eqn:Htex.
    + destruct (decide (Some (getTextureCacheKey tex)
                        = __cacheKey (properties_get t s))) as [Hk|Hk].
      * destruct (initTexture_same _ _ _ HI Htex Hk)
          as (s' & -> & Ht & Hp & Hl & Hc & Hcr).
        cbn [snd]. apply (cache_Inv_ext s); auto using extends_refl.
        intros i. left. rewrite Hp. reflexivity.
      * destruct (initTexture_moves _ _ _ Htex Hk) as (s' & -> & Hm).
        cbn [snd]. apply (cache_Inv_moves _ _ _ _ _ HI Htex Hm Hk).
    + unfold initTexture. rewrite Htex. exact HI.
  - destruct (textures s !! t) as [tex|] eqn:Htex.
    + destruct (__webglInit (properties_get t s)) eqn:Hi.
      * destruct (deallocateTexture_moves _ _ _ HI Htex Hi) as (s' & -> & Hm).
        change (Inv s'). apply (cache_Inv_moves _ _ _ _ _ HI Htex Hm).
        destruct (bag_cases _ _ _ HI Htex) as [Hn|(oldk & eo & _ & _ & Hko & _)];
          [rewrite Hn in Hi; discriminate|congruence].
      * destruct (deallocateTexture_uninit _ _ _ Htex Hi)
          as (s' & -> & Ht & Hp & Hs & Hc & Hcr).
        change (Inv s'). apply (cache_Inv_ext s); auto using extends_refl.
        -- intros i. rewrite Hp. destruct (decide (i = t)) as [->|Hne].
           ++ rewrite lookup_insert_eq.
              destruct (bag_cases _ _ _ HI Htex) as [Hn|(oldk & eo & _ & Hi' & _)];
                [|congruence].
              rewrite Hn. unfold properties_get in Hn.
              destruct (properties s !! t) as [x|]; cbn in Hn.
              ** left. congruence.
              ** right. rewrite Ht, Htex. eauto.
           ++ left. rewrite lookup_insert_ne by congruence. reflexivity.
        -- intros src k. unfold lookup_entry, webglTextures_of.
           rewrite Hs. reflexivity.
    + unfold deallocateTexture. rewrite Htex. exact HI.
Qed.

Theorem cache_Inv_run (ops : list Op) : Inv (run ops).
Proof.
  unfold run. generalize cache_Inv_initial. generalize initial as s.
  induction ops as [|op ops IH]; intros s HI; cbn [fold_left]; [exact HI|].
  apply IH, cache_Inv_step, HI.
Qed.

(** *** The claim about the cache *)

(** A step of the cache issues no call, or moves a texture. *)
Lemma step_cases (s : State) (op : Op) :
  Inv s ->
  calls (step s op) = calls s \/
  exists t tex new,
    textures s !! t = Some tex /\
    new <> __cacheKey (properties_get t s) /\
    Moves t (source tex) new s (step s op).
Proof.
  intros HI. destruct op as [t tex|t tex|t|t]; cbn [step].
  - left. destruct (textures s !! t); reflexivity.
  - left. destruct (textures s !! t); reflexivity.
  - destruct (textures s !! t) as [tex|] eqn:Htex.
    + destruct (decide (Some (getTextureCacheKey tex)
                        = __cacheKey (properties_get t s))) as [Hk|Hk].
      * destruct (initTexture_same _ _ _ HI Htex Hk) as (s' & -> & _ & _ & _ & Hc & _).
        left. exact Hc.
      * destruct (initTexture_moves _ _ _ Htex Hk) as (s' & -> & Hm).
        right. exists t, tex, (Some (getTextureCacheKey tex)). auto.
    + left. unfold initTexture. rewrite Htex. reflexivity.
  - destruct (textures s !! t) as [tex|] eqn:Htex.
    + destruct (__webglInit (properties_get t s)) eqn:Hi.
      * destruct (deallocateTexture_moves _ _ _ HI Htex Hi) as (s' & -> & Hm).
        right. exists t, tex, None. split; [exact Htex|]. split; [|exact Hm].
        destruct (bag_cases _ _ _ HI Htex) as [Hn|(oldk & eo & _ & _ & Hko & _)];
          [rewrite Hn in Hi; discriminate|congruence].
      * destruct (deallocateTexture_uninit _ _ _ Htex Hi)
          as (s' & -> & _ & _ & _ & Hc & _).
        left. exact Hc.
    + left. unfold deallocateTexture. rewrite Htex. reflexivity.
Qed.

(** A GPU texture is deleted by a step only with the entry that held it,
    when the count of the entry reaches zero. *)
Lemma delete_at_zero (s : State) (op : Op) (h : option Z) :
  Inv s ->
  gl_deleteTexture h ∈ calls (step s op) -> gl_deleteTexture h ∉ calls s ->
  exists src key e,
    h = Some (texture e) /\ lookup_entry src key s = Some e /\
    usedTimes e = 1 /\ lookup_entry src key (step s op) = None /\
    referrers (step s op) src key = ∅.
Proof.
  intros HI Hin Hnot.
  destruct (step_cases s op HI) as [Hc|(t & tex & new & Htex & Hne & Hm)];
    [rewrite Hc in Hin; contradiction|].
  rewrite (mv_calls _ _ _ _ _ Hm) in Hin.
  apply elem_of_app in Hin as [Hin|Hin]; [contradiction|].
  apply elem_of_app in Hin as [Hin|Hin].
  { destruct (provisions _ _); [|apply elem_of_nil in Hin; destruct Hin].
    apply list_elem_of_singleton in Hin. discriminate. }
  destruct (dropped _) eqn:Ed; [|apply elem_of_nil in Hin; destruct Hin].
  destruct (moves_delete _ _ _ _ _ HI Htex Hm Hne Ed)
    as (oldk & eo & _ & Heo & Hu & Hw & Hgone).
  apply list_elem_of_singleton in Hin. injection Hin as ->.
  exists (source tex), oldk, eo. repeat (split; [assumption|]).
  apply map_size_empty_iff, cache_Inv_no_entry; [|exact Hgone].
  apply (cache_Inv_moves _ _ _ _ _ HI Htex Hm Hne).
Qed.

Lemma upload_with_changed_key (t : nat) (tex : Texture) (oldk : string)
      (s : State) :
  Inv s -> textures s !! t = Some tex ->
  __cacheKey (properties_get t s) = Some oldk ->
  oldk <> getTextureCacheKey tex ->
  key_change_effect t tex oldk s.
Proof.
  intros HI Htex Hko Hk. unfold key_change_effect. cbn zeta.
  assert (Hne : Some (getTextureCacheKey tex) <> __cacheKey (properties_get t s))
    by congruence.
  destruct (initTexture_moves _ _ _ Htex Hne) as (s' & -> & Hm).
  cbn [fst snd].
  pose proof (cache_Inv_moves _ _ _ _ _ HI Htex Hm Hne) as HI'.
  destruct (bag_cases _ _ _ HI Htex) as [Hn|(oldk' & eo & Hp & _ & Hko' & Heo & Hw)];
    [rewrite Hn in Hko; discriminate|].
  replace oldk' with oldk in * by congruence. clear Hko'.
  assert (Hbag : properties_get t s'
                 = bag_of (getTextureCacheKey tex) s (webglTextures_of (source tex) s)).
  { unfold properties_get. rewrite (mv_properties _ _ _ _ _ Hm).
    rewrite lookup_insert_eq. reflexivity. }
  assert (Hnew : lookup_entry (source tex) (getTextureCacheKey tex) s'
                 = Some (acquired (created s)
                           (lookup_entry (source tex) (getTextureCacheKey tex) s))).
  { rewrite (mv_entries _ _ _ _ _ Hm). rewrite !decide_True by reflexivity.
    reflexivity. }
  assert (Hold : lookup_entry (source tex) oldk s' = released eo).
  { rewrite (mv_entries _ _ _ _ _ Hm). rewrite decide_True by reflexivity.
    rewrite (decide_False (P := Some oldk = Some _)) by congruence.
    rewrite decide_True by congruence. rewrite Heo. reflexivity. }
  assert (Hcalls : calls s'
                   = calls s
                     ++ match lookup_entry (source tex) (getTextureCacheKey tex) s with
                        | Some _ => []
                        | None => [gl_createTexture (created s)]
                        end
                     ++ (if usedTimes eo =? 1
                         then [gl_deleteTexture (Some (texture eo))] else [])).
  { rewrite (mv_calls _ _ _ _ _ Hm). rewrite Hko. cbn [mbind option_bind].
    rewrite Heo, Hw. cbn [dropped provisions]. unfold lookup_entry.
    replace (usedTimes eo - 1 =? 0) with (usedTimes eo =? 1)
      by (destruct (Z.eqb_spec (usedTimes eo) 1), (Z.eqb_spec (usedTimes eo - 1) 0);
          reflexivity || lia).
    destruct (webglTextures_of (source tex) s !! getTextureCacheKey tex);
      reflexivity. }
  exists eo. split; [exact Heo|]. split; [exact Hw|]. split; [|split; [|split]].
  - rewrite Hnew, Hbag. cbn [provisions bag_of __webglTexture]. unfold lookup_entry.
    destruct (webglTextures_of (source tex) s !! getTextureCacheKey tex) as [e|] eqn:E;
      cbn.
    + auto.
    + split; [reflexivity|]. split; [|auto].
      intros Hin. apply (inv_created _ HI) in Hin. cbn in Hin. lia.
  - rewrite Hbag. reflexivity.
  - rewrite Hold, Hcalls. unfold released.
    replace (usedTimes eo - 1 =? 0) with (usedTimes eo =? 1)
      by (destruct (Z.eqb_spec (usedTimes eo) 1), (Z.eqb_spec (usedTimes eo - 1) 0);
          reflexivity || lia).
    destruct (Z.eqb_spec (usedTimes eo) 1) as [Hu|Hu].
    + split; [reflexivity|]. split; [reflexivity|].
      intros t' p' Ht' Hp' Hr.
      assert (2 <= size (referrers s (source tex) oldk))%nat.
      { apply (two_referrers _ _ _ t t' (properties_get t s) p'); auto.
        apply (refers_iff _ _ _ _ _ _ Htex). auto. }
      pose proof (inv_count _ HI _ _ _ Heo). lia.
    + split; [reflexivity|]. rewrite app_nil_r. reflexivity.
  - intros t' p' Ht' Hp' Hr.
    assert (Hp'' : properties s' !! t' = Some p').
    { rewrite (mv_properties _ _ _ _ _ Hm).
      rewrite lookup_insert_ne by congruence. exact Hp'. }
    destruct (inv_props _ HI _ _ Hp') as (tex' & Htex' & Hcase).
    destruct (proj1 (refers_iff _ _ _ _ _ _ Htex') Hr) as [Hk' Hs'].
    destruct Hcase as [->|(_ & key' & e & Hkey' & He & Hw')]; [discriminate|].
    replace key' with oldk in * by congruence. rewrite Hs' in He.
    replace e with eo in * by congruence.
    destruct (moves_survival _ _ _ _ _ HI Htex Hm t' p' tex' oldk eo)
      as (e' & He' & Hte); auto; [rewrite Hs'; exact Heo|].
    rewrite Hs' in He'.
    split; [|split; [exact Hp''|]].
    + rewrite <- Hte. apply (inv_handles _ HI' _ _ _ He').
    + exists e'. split; [exact He'|]. congruence.
Qed.

(** The reference counting of the cache while the textures keep their
    sources.  In every state [s] that a run of the texture cache reaches:
    - every entry counts in [usedTimes] the textures whose bag names it,
      at least one texture does, and the GPU texture of the entry has not
      been deleted;
    - a step of the cache (an upload or a disposal among them) deletes a
      GPU texture only together with an entry of [s] whose count was one,
      hence reaches zero; no bag names that entry afterwards;
    - textures whose key fields differ have different cache keys, as long
      as the strings among the fields hold no comma and a set
      [internalFormat] is not empty;
    - the upload of a texture whose cache key is not the one in its bag
      acquires the entry of the new key (a new entry with a handle never
      created before and count one, which forces the upload, or the
      existing entry, with its handle and one more use), leaves the handle
      of the previous entry and takes one use from it, and removes that
      entry and deletes its GPU texture exactly when its count was one,
      which no other texture of the source then refers to; while another
      texture refers to the previous entry, the entry and its GPU texture
      stay. *)
Theorem texture_cache_reference_counting (ops : list Op) :
  let s := run ops in
  (forall src key e,
      lookup_entry src key s = Some e ->
      usedTimes e = Z.of_nat (size (referrers s src key)) /\
      1 <= usedTimes e /\
      gl_deleteTexture (Some (texture e)) ∉ calls s) /\
  (forall op h,
      gl_deleteTexture h ∈ calls (step s op) -> gl_deleteTexture h ∉ calls s ->
      exists src key e,
        h = Some (texture e) /\ lookup_entry src key s = Some e /\
        usedTimes e = 1 /\ lookup_entry src key (step s op) = None /\
        referrers (step s op) src key = ∅) /\
  (forall tex tex',
      key_strings_ok tex -> key_strings_ok tex' ->
      key_fields tex <> key_fields tex' ->
      getTextureCacheKey tex <> getTextureCacheKey tex') /\
  (forall t tex oldk,
      textures s !! t = Some tex ->
      __cacheKey (properties_get t s) = Some oldk ->
      oldk <> getTextureCacheKey tex ->
      key_change_effect t tex oldk s).
Proof.
  intros s. pose proof (cache_Inv_run ops) as HI. fold s in HI.
  split; [|split; [|split]].
  - intros src key e He. split; [apply (inv_count _ HI _ _ _ He)|].
    split; [apply (inv_positive _ HI _ _ _ He)|].
    apply (inv_handles _ HI _ _ _ He).
  - intros op h. apply delete_at_zero, HI.
  - intros tex tex' Hok Hok' Hf Hk. apply Hf.
    apply getTextureCacheKey_inj; assumption.
  - intros t tex oldk. apply upload_with_changed_key, HI.
Qed.

Lemma texture_cache_reference_counting_witness :
  key_change_effect 0 (sample_texture 7 1003)
                    (getTextureCacheKey (sample_texture 7 1006))
                    (run sample_ops) /\
  getTextureCacheKey (sample_texture 7 1006)
  <> getTextureCacheKey (sample_texture 7 1003) /\
  exists src key e,
    Some 0 = Some (texture e) /\
    lookup_entry src key (run (sample_ops ++ [Upload 0])) = Some e /\
    usedTimes e = 1 /\
    lookup_entry src key (step (run (sample_ops ++ [Upload 0])) (Dispose 1))
    = None /\
    referrers (step (run (sample_ops ++ [Upload 0])) (Dispose 1)) src key = ∅.
Proof.
  split; [|split].
  - pose proof (texture_cache_reference_counting sample_ops) as H.
    cbv zeta in H. destruct H as (_ & _ & _ & H).
    apply H; [vm_compute; reflexivity|vm_compute; reflexivity|].
    vm_compute. discriminate.
  - pose proof (texture_cache_reference_counting []) as H.
    cbv zeta in H. destruct H as (_ & _ & H & _).
    apply H.
    + split; [cbn; repeat split; discriminate|exact I].
    + split; [cbn; repeat split; discriminate|exact I].
    + vm_compute. discriminate.
  - pose proof (texture_cache_reference_counting (sample_ops ++ [Upload 0])) as H.
    cbv zeta in H. destruct H as (_ & H & _).
    apply (H (Dispose 1) (Some 0)).
    + vm_compute. do 2 apply list_elem_of_further. apply list_elem_of_here.
    + vm_compute. intros Hin.
      repeat (apply elem_of_cons in Hin as [Hin|Hin]; [discriminate|]).
      apply elem_of_nil in Hin. exact Hin.
Defined.

(** C6.  The cache fails the reference counting when a texture gets
    another source.  Textures 0 and 1 of source 7 and texture 2 of
    source 8 are uploaded with the same parameters, so that the entry of
    source 7 (GPU texture 0) counts two uses and the entry of source 8
    (GPU texture 1) one.  Texture 0 is then made a copy of a texture of
    source 8 with another [magFilter], and is uploaded.  [initTexture]
    looks the previous cache key of texture 0 up in the table of the new
    source: it takes the use from the entry of texture 2, removes that
    entry, and deletes the GPU texture in the bag of texture 0, which is
    GPU texture 0.  So a GPU texture is deleted whose entry still counts
    two uses and which texture 1, of the same source, still refers to;
    the entry that texture 2 refers to is gone while its GPU texture is
    never deleted, and the disposal of texture 2 throws. *)
Theorem source_change_deletes_a_handle_in_use :
  let key := getTextureCacheKey (sample_texture 7 1006) in
  let key' := getTextureCacheKey (sample_texture 8 1003) in
  let bag := fun k h => {| __webglInit := true; __cacheKey := Some k;
                           __webglTexture := Some h |} in
  let s := copied in
  let s' := snd (initTexture 0 s) in
  (lookup_entry 7 key s = Some {| texture := 0; usedTimes := 2 |} /\
   lookup_entry 8 key s = Some {| texture := 1; usedTimes := 1 |} /\
   textures s !! 0%nat = Some (sample_texture 8 1003) /\
   properties_get 0 s = bag key 0 /\
   properties_get 1 s = bag key 0 /\
   properties_get 2 s = bag key 1) /\
  (calls s' = calls s ++ [gl_createTexture 2; gl_deleteTexture (Some 0)] /\
   properties_get 0 s' = bag key' 2 /\
   lookup_entry 8 key' s' = Some {| texture := 2; usedTimes := 1 |}) /\
  (lookup_entry 7 key s' = Some {| texture := 0; usedTimes := 2 |} /\
   refers s' 7 key (1%nat, properties_get 1 s') /\
   properties_get 1 s' = bag key 0) /\
  (lookup_entry 8 key s' = None /\
   refers s' 8 key (2%nat, properties_get 2 s') /\
   properties_get 2 s' = bag key 1 /\
   (gl_deleteTexture (Some 1) ∉ calls s') /\
   deallocateTexture 2 s' = None).
Proof.
  vm_compute. repeat split; try reflexivity.
  intros H. repeat (apply elem_of_cons in H as [H|H]; [discriminate|]).
  apply elem_of_nil in H. exact H.
Qed.
End WebGLTexturesFacts.
(** ** The renderer: render targets and the viewport *)
Module WebGLRendererFacts.

Import WebGLState WebGLRenderer.

Lemma Vector4_equals_self (v : Vector4) : Vector4_equals v v = true.
Proof.
  unfold Vector4_equals.
  rewrite !(proj2 (Qeq_bool_iff _ _) (Qeq_refl _)). reflexivity.
Qed.

(** What the calls of the second half of [setRenderTarget] leave of the
    state tracker. *)
Lemma viewport_current (v : Vector4) (s : State) :
  Vector4_equals (currentViewport (viewport v s)) v = true /\
  currentScissor (viewport v s) = currentScissor s /\
  enabledCapabilities (viewport v s) = enabledCapabilities s /\
  currentBoundFramebuffers (viewport v s) = currentBoundFramebuffers s.
Proof.
  unfold viewport. destruct (Vector4_equals (currentViewport s) v) eqn:E; cbn [negb].
  - auto.
  - split; [apply Vector4_equals_self|]. auto.
Qed.

Lemma scissor_current (v : Vector4) (s : State) :
  Vector4_equals (currentScissor (scissor v s)) v = true /\
  currentViewport (scissor v s) = currentViewport s /\
  enabledCapabilities (scissor v s) = enabledCapabilities s /\
  currentBoundFramebuffers (scissor v s) = currentBoundFramebuffers s.
Proof.
  unfold scissor. destruct (Vector4_equals (currentScissor s) v) eqn:E; cbn [negb].
  - auto.
  - split; [apply Vector4_equals_self|]. auto.
Qed.

Lemma setScissorTest_current (b : bool) (s : State) :
  enabledCapabilities (WebGLState.setScissorTest b s) !! gl.SCISSOR_TEST = Some b /\
  currentViewport (WebGLState.setScissorTest b s) = currentViewport s /\
  currentScissor (WebGLState.setScissorTest b s) = currentScissor s /\
  currentBoundFramebuffers (WebGLState.setScissorTest b s)
  = currentBoundFramebuffers s.
Proof.
  unfold WebGLState.setScissorTest, enable, disable, neq.
  destruct b; case_bool_decide as H; cbn;
    rewrite ?lookup_insert_eq; repeat split; try reflexivity.
  - destruct (decide (enabledCapabilities s !! gl.SCISSOR_TEST = Some true));
      [assumption|contradiction].
  - destruct (decide (enabledCapabilities s !! gl.SCISSOR_TEST = Some false));
      [assumption|contradiction].
Qed.

Lemma drawBuffers_frame (renderTarget : option nat) (framebuffer : option Z)
      (s : State) :
  currentBoundFramebuffers (drawBuffers renderTarget framebuffer s)
  = currentBoundFramebuffers s.
Proof.
  unfold drawBuffers.
  destruct renderTarget as [n|]; [destruct framebuffer as [fb|]|];
    try reflexivity;
    match goal with |- context [if ?c then _ else _] => destruct c end;
    reflexivity.
Qed.

Lemma bindFramebuffer_bound (framebuffer : option Z) (s : State) :
  currentBoundFramebuffers (snd (bindFramebuffer gl.FRAMEBUFFER framebuffer s))
    !! gl.FRAMEBUFFER = Some framebuffer.
Proof.
  unfold bindFramebuffer, neq. case_bool_decide as H; cbn.
  - rewrite lookup_insert_ne by discriminate. apply lookup_insert_eq.
  - destruct (decide (currentBoundFramebuffers s !! gl.FRAMEBUFFER
                      = Some framebuffer)); [assumption|contradiction].
Qed.

Lemma bind_and_apply_current (renderTarget : option RenderTarget)
      (framebuffer : option Z) (useDefaultFramebuffer isCube isRenderTarget3D : bool)
      (texture : option Z) (face level : nat) (v sc : Vector4) (b : bool)
      (st : State) :
  let st' := bind_and_apply renderTarget framebuffer useDefaultFramebuffer
                            isCube isRenderTarget3D texture face level v sc b st in
  Vector4_equals (currentViewport st') v = true /\
  Vector4_equals (currentScissor st') sc = true /\
  enabledCapabilities st' !! gl.SCISSOR_TEST = Some b /\
  currentBoundFramebuffers st' !! gl.FRAMEBUFFER = Some framebuffer.
Proof.
  unfold bind_and_apply.
  pose proof (bindFramebuffer_bound framebuffer st) as Hb.
  destruct (bindFramebuffer gl.FRAMEBUFFER framebuffer st) as [bound st1].
  cbn [snd] in Hb.
  set (st2 := if bound && useDefaultFramebuffer
              then drawBuffers (textures_length <$> renderTarget) framebuffer st1
              else st1).
  assert (H2 : currentBoundFramebuffers st2 = currentBoundFramebuffers st1).
  { unfold st2. destruct (bound && useDefaultFramebuffer);
      [apply drawBuffers_frame|reflexivity]. }
  destruct (viewport_current v st2) as (Hv & _ & _ & Hvf).
  destruct (scissor_current sc (viewport v st2)) as (Hs & Hsv & _ & Hsf).
  destruct (setScissorTest_current b (scissor sc (viewport v st2)))
    as (Ht & Htv & Hts & Htf).
  assert (H : forall st3,
             st3 = WebGLState.setScissorTest b (scissor sc (viewport v st2)) ->
             Vector4_equals (currentViewport st3) v = true /\
             Vector4_equals (currentScissor st3) sc = true /\
             enabledCapabilities st3 !! gl.SCISSOR_TEST = Some b /\
             currentBoundFramebuffers st3 !! gl.FRAMEBUFFER = Some framebuffer).
  { intros st3 ->. rewrite Htv, Hsv, Hts, Htf, Hsf, Hvf, H2. auto. }
  cbv zeta. destruct isCube; [|destruct isRenderTarget3D].
  - destruct (H _ eq_refl) as (? & ? & ? & ?). auto.
  - destruct (H _ eq_refl) as (? & ? & ? & ?). auto.
  - apply H. reflexivity.
Qed.

(** [setRenderTarget( null )] makes the default framebuffer current: no
    render target, the framebuffer [null], no current material.  The
    viewport and the scissor box that it makes active are those of the
    renderer, scaled by the pixel ratio and rounded down; the scissor
    test is that of the renderer. *)
Theorem setRenderTarget_null_effect
        (setupRenderTarget :
           RenderTarget -> gmap nat RenderTargetProperties * State ->
           gmap nat RenderTargetProperties * State)
        (rebindTextures : RenderTarget -> State -> State)
        (useMultisampledRTT : RenderTarget -> bool)
        (face level : nat) (r : Renderer) :
  exists r',
    setRenderTarget setupRenderTarget rebindTextures useMultisampledRTT
                    None face level r = Some r' /\
    _currentRenderTarget r' = None /\
    _currentActiveCubeFace r' = face /\
    _currentActiveMipmapLevel r' = level /\
    _currentMaterialId r' = -1 /\
    currentBoundFramebuffers (state r') !! gl.FRAMEBUFFER = Some None /\
    Vector4_equals (active_viewport r')
      (Vector4_floor (Vector4_multiplyScalar (_pixelRatio r) (_viewport r))) = true /\
    Vector4_equals (active_scissor r')
      (Vector4_floor (Vector4_multiplyScalar (_pixelRatio r) (_scissor r))) = true /\
    active_scissorTest r' = Some (_scissorTest r).
Proof.
  eexists. split; [reflexivity|].
  unfold active_viewport, active_scissor, active_scissorTest.
  cbn [_currentRenderTarget _currentActiveCubeFace _currentActiveMipmapLevel
       _currentMaterialId state].
  repeat (split; [reflexivity|]).
  match goal with
  | |- context [bind_and_apply ?a ?b ?c ?d ?e ?f ?g ?h ?v ?sc ?t ?st] =>
      destruct (bind_and_apply_current a b c d e f g h v sc t st)
        as (Hv & Hs & Ht & Hf)
  end.
  auto.
Qed.

(** Binding a render target leaves the viewport, the scissor box, the
    scissor test and the pixel ratio of the renderer. *)
Lemma setRenderTarget_keeps
        (setupRenderTarget :
           RenderTarget -> gmap nat RenderTargetProperties * State ->
           gmap nat RenderTargetProperties * State)
        (rebindTextures : RenderTarget -> State -> State)
        (useMultisampledRTT : RenderTarget -> bool)
        (renderTarget : option RenderTarget) (face level : nat) (r r' : Renderer) :
  setRenderTarget setupRenderTarget rebindTextures useMultisampledRTT
                  renderTarget face level r = Some r' ->
  _viewport r' = _viewport r /\ _scissor r' = _scissor r /\
  _scissorTest r' = _scissorTest r /\ _pixelRatio r' = _pixelRatio r.
Proof.
  unfold setRenderTarget. destruct renderTarget as [rt|].
  - destruct (prepare _ _ rt r) as [[u props] st].
    destruct (select_framebuffer _ _ _ _ _) as [fb|]; [|discriminate].
    intros [= <-]. cbn. auto.
  - intros [= <-]. cbn. auto.
Qed.

(** After a render target was bound and unbound, whatever it was, the
    active viewport and scissor box are the rounded-down ones. *)
Theorem round_trip_floors
        (setupRenderTarget :
           RenderTarget -> gmap nat RenderTargetProperties * State ->
           gmap nat RenderTargetProperties * State)
        (rebindTextures : RenderTarget -> State -> State)
        (useMultisampledRTT : RenderTarget -> bool)
        (renderTarget : RenderTarget) (r r' : Renderer) :
  round_trip setupRenderTarget rebindTextures useMultisampledRTT renderTarget r
  = Some r' ->
  Vector4_equals (active_viewport r')
    (Vector4_floor (Vector4_multiplyScalar (_pixelRatio r) (_viewport r))) = true /\
  Vector4_equals (active_scissor r')
    (Vector4_floor (Vector4_multiplyScalar (_pixelRatio r) (_scissor r))) = true /\
  active_scissorTest r' = Some (_scissorTest r) /\
  _currentRenderTarget r' = None.
Proof.
  unfold round_trip.
  destruct (setRenderTarget _ _ _ (Some renderTarget) 0 0 r) as [r1|] eqn:E1;
    [|discriminate].
  cbn [mbind option_bind].
  destruct (setRenderTarget_keeps _ _ _ _ _ _ _ _ E1) as (Hv & Hs & Ht & Hp).
  destruct (setRenderTarget_null_effect setupRenderTarget rebindTextures
              useMultisampledRTT 0 0 r1)
    as (r2 & -> & Hrt & _ & _ & _ & _ & Hav & Has & Hat).
  intros [= <-]. rewrite <- Hv, <- Hs, <- Ht, <- Hp. auto.
Qed.

(** C8, on the renderer of pixel ratio 1.5 whose viewport and scissor box
    were set to 301 by 150 with [setViewport] and [setScissor], and whose
    scissor test was enabled with [setScissorTest]: the active viewport
    and scissor box are 452 wide; after a render target was bound and
    unbound they are 451 wide.  The scissor test is enabled as before,
    and no render target is current. *)
Theorem round_trip_loses_half_pixel
        (setupRenderTarget :
           RenderTarget -> gmap nat RenderTargetProperties * State ->
           gmap nat RenderTargetProperties * State)
        (rebindTextures : RenderTarget -> State -> State)
        (useMultisampledRTT : RenderTarget -> bool) :
  active_viewport sample_renderer = {| x := 0; y := 0; z := 452; w := 225 |} /\
  active_scissor sample_renderer = {| x := 0; y := 0; z := 452; w := 225 |} /\
  active_scissorTest sample_renderer = Some true /\
  exists r',
    round_trip setupRenderTarget rebindTextures useMultisampledRTT
               sample_target sample_renderer = Some r' /\
    active_viewport r' = {| x := 0; y := 0; z := 451; w := 225 |} /\
    active_scissor r' = {| x := 0; y := 0; z := 451; w := 225 |} /\
    active_scissorTest r' = Some true /\
    _currentRenderTarget r' = None.
Proof.
  split; [vm_compute; reflexivity|].
  split; [vm_compute; reflexivity|].
  split; [vm_compute; reflexivity|].
  eexists. split; [vm_compute; reflexivity|].
  repeat split; vm_compute; reflexivity.
Qed.

(** *** When the restore is exact *)

Lemma Qfloor_unique (q : Q) (n : Z) :
  (inject_Z n <= q)%Q -> (q < inject_Z (n + 1))%Q -> Qfloor q = n.
Proof.
  intros Hl Hu.
  pose proof (Qfloor_resp_le _ _ Hl) as H1. rewrite Qfloor_Z in H1.
  pose proof (Qle_lt_trans _ _ _ (Qfloor_le q) Hu) as H2.
  rewrite <- Zlt_Qlt in H2. lia.
Qed.

Lemma Math_round_integral (q : Q) : integral q -> Math_round q = Math_floor q.
Proof.
  unfold integral, Math_round, Math_floor. intros Hq. f_equal.
  apply Qfloor_unique.
  - rewrite Hq at 2. rewrite <- Qplus_0_r at 1.
    apply Qplus_le_r. discriminate.
  - rewrite Hq at 1. rewrite inject_Z_plus.
    apply Qplus_lt_r. reflexivity.
Qed.

Lemma Vector4_round_integral (v : Vector4) :
  Vector4_integral v -> Vector4_round v = Vector4_floor v.
Proof.
  intros (Hx & Hy & Hz & Hw). unfold Vector4_round, Vector4_floor.
  rewrite (Math_round_integral _ Hx), (Math_round_integral _ Hy),
    (Math_round_integral _ Hz), (Math_round_integral _ Hw).
  reflexivity.
Qed.

Lemma Vector4_equals_iff (u v : Vector4) :
  Vector4_equals u v = true <->
  x v == x u /\ y v == y u /\ z v == z u /\ w v == w u.
Proof.
  unfold Vector4_equals. rewrite !andb_true_iff, !Qeq_bool_iff. tauto.
Qed.

(** When the viewport that [setViewport] is given, scaled by the pixel
    ratio, has no fractional parts, binding and unbinding a render target
    gives back the viewport that [setViewport] made active. *)
Theorem round_trip_restores_integral
        (setupRenderTarget :
           RenderTarget -> gmap nat RenderTargetProperties * State ->
           gmap nat RenderTargetProperties * State)
        (rebindTextures : RenderTarget -> State -> State)
        (useMultisampledRTT : RenderTarget -> bool)
        (renderTarget : RenderTarget) (x y width height : Q) (r r' : Renderer) :
  Vector4_integral
    (Vector4_multiplyScalar (_pixelRatio r)
       {| WebGLState.x := x; WebGLState.y := y;
          WebGLState.z := width; WebGLState.w := height |}) ->
  round_trip setupRenderTarget rebindTextures useMultisampledRTT renderTarget
             (setViewport x y width height r) = Some r' ->
  Vector4_equals (active_viewport r')
                 (active_viewport (setViewport x y width height r)) = true.
Proof.
  intros Hint Hrt.
  destruct (round_trip_floors _ _ _ _ _ _ Hrt) as (Hv & _).
  cbn [_pixelRatio _viewport setViewport] in Hv.
  rewrite <- (Vector4_round_integral _ Hint) in Hv.
  unfold active_viewport at 2. cbn [state setViewport].
  destruct (viewport_current
              (Vector4_round
                 (Vector4_multiplyScalar (_pixelRatio r)
                    {| WebGLState.x := x; WebGLState.y := y;
                       WebGLState.z := width; WebGLState.w := height |}))
              (state r)) as (Hc & _).
  apply Vector4_equals_iff in Hv. apply Vector4_equals_iff in Hc.
  apply Vector4_equals_iff.
  destruct Hv as (H1 & H2 & H3 & H4), Hc as (G1 & G2 & G3 & G4).
  repeat split.
  - rewrite <- G1. exact H1.
  - rewrite <- G2. exact H2.
  - rewrite <- G3. exact H3.
  - rewrite <- G4. exact H4.
Qed.

Lemma round_trip_restores_integral_witness :
  exists r',
    round_trip (fun _ p => p) (fun _ st => st) (fun _ => false) sample_target
               (setViewport 0 0 300 150 sample_renderer) = Some r' /\
    Vector4_equals (active_viewport r')
                   (active_viewport (setViewport 0 0 300 150 sample_renderer)) = true.
Proof.
  eexists. split; [vm_compute; reflexivity|].
  apply (round_trip_restores_integral
           (fun _ p => p) (fun _ st => st) (fun _ => false) sample_target
           0 0 300 150 sample_renderer).
  - vm_compute. repeat split; reflexivity.
  - vm_compute. reflexivity.
Defined.

End WebGLRendererFacts.
(** ** The renderer: what projectObject visits *)
Module ProjectionFacts.

Import Projection.

(** C10.  [projectObject] on an object whose [visible] flag is [false]
    changes nothing: the object and all of its subtree are skipped.  On
    an object that is visible and fails the layer test of the camera it
    does what the loop over the children does, with the group order that
    it was given: the object adds no render item and no light, its
    level-of-detail is not updated, and its children are visited.  Those
    children may add render items: the child of the sample scene does,
    below its parent that fails the layer test, and does not when the
    parent is hidden. *)
Theorem visibility_prunes_and_layers_filter
        (camera : Camera) (sortObjects : bool)
        (intersectsSprite intersectsObject : Object -> bool)
        (sprite_z : Object -> Q) (center_z : Object -> Geometry -> Q)
        (objects_update : Object -> Geometry)
        (LOD_update : Object -> gmap Z bool -> gmap Z bool) :
  let project :=
    projectObject camera sortObjects intersectsSprite intersectsObject
                  sprite_z center_z objects_update LOD_update in
  let children_of :=
    projectChildren camera sortObjects intersectsSprite intersectsObject
                    sprite_z center_z objects_update LOD_update in
  (forall object children groupOrder s,
      hidden object s = true ->
      project (Node object children) groupOrder s = s) /\
  (forall object children groupOrder s,
      hidden object s = false ->
      layers_test (layers object) (camera_layers camera) = false ->
      project (Node object children) groupOrder s
      = children_of children groupOrder s) /\
  (let project :=
     projectObject sample_camera sortObjects intersectsSprite intersectsObject
                   sprite_z center_z objects_update LOD_update in
   layers_test (layers (sample_mesh 1 1)) (camera_layers sample_camera) = false /\
   RenderList.object
     <$> RenderList.opaque (currentRenderList (project sample_scene 0%Q initial))
   = [2] /\
   project sample_scene 0%Q (hide 1 initial) = hide 1 initial).
Proof.
  cbv zeta. split; [|split; [|split; [|split]]].
  - intros object children groupOrder s Hh. cbn [projectObject].
    rewrite Hh. reflexivity.
  - intros object children groupOrder s Hh Hl. cbn [projectObject].
    rewrite Hh, Hl. reflexivity.
  - reflexivity.
  - destruct sortObjects; reflexivity.
  - reflexivity.
Qed.

Lemma visibility_prunes_and_layers_filter_witness :
  let project :=
    projectObject sample_camera true (fun _ => true) (fun _ => true)
                  (fun _ => 0%Q) (fun _ _ => 0%Q)
                  (fun o => {| geometry_ref := ref o; groups := [] |})
                  (fun _ m => m) in
  project sample_scene 0%Q (hide 1 initial) = hide 1 initial /\
  project sample_scene 0%Q initial
  = project (Node (sample_mesh 2 0) []) 0%Q initial.
Proof.
  pose proof (visibility_prunes_and_layers_filter
                sample_camera true (fun _ => true) (fun _ => true)
                (fun _ => 0%Q) (fun _ _ => 0%Q)
                (fun o => {| geometry_ref := ref o; groups := [] |})
                (fun _ m => m)) as H.
  cbv zeta in H. destruct H as (Ha & Hb & _). cbv zeta. split.
  - apply Ha. reflexivity.
  - unfold sample_scene. rewrite Hb; reflexivity.
Defined.

End ProjectionFacts.

(** ** Layers *)
Module LayersFacts.

Import Layers.

(** The bits of an operand: a 32-bit integer repeats its bit 31 above. *)
Lemma to_int32_mod (z : Z) : to_int32 z mod 2 ^ 32 = z mod 2 ^ 32.
Proof.
  unfold to_int32.
  rewrite Zminus_mod, Zmod_mod, <- Zminus_mod.
  f_equal. lia.
Qed.

Lemma to_int32_range (z : Z) : - 2 ^ 31 <= to_int32 z < 2 ^ 31.
Proof.
  unfold to_int32. pose proof (Z.mod_pos_bound (z + 2 ^ 31) (2 ^ 32)). lia.
Qed.

Lemma int32_high_bits (x i : Z) :
  - 2 ^ 31 <= x < 2 ^ 31 -> 31 <= i -> Z.testbit x i = Z.testbit x 31.
Proof.
  intros Hx Hi. destruct (Z.neg_nonneg_cases x) as [Hn|Hp].
  - assert (Hl : forall j, 31 <= j -> Z.testbit (Z.lnot x) j = false).
    { intros j Hj. apply Z.bits_above_log2.
      - unfold Z.lnot. lia.
      - destruct (Z.eq_dec (Z.lnot x) 0) as [->|Hne]; [cbn; lia|].
        apply Z.lt_le_trans with 31; [|exact Hj].
        apply Z.log2_lt_pow2; unfold Z.lnot in *; lia. }
    assert (E : forall j, 0 <= j -> Z.testbit x j = negb (Z.testbit (Z.lnot x) j)).
    { intros j Hj. rewrite Z.lnot_spec by lia. now rewrite negb_involutive. }
    rewrite (E i), (E 31) by lia. rewrite !Hl by lia. reflexivity.
  - assert (Hl : forall j, 31 <= j -> Z.testbit x j = false).
    { intros j Hj. destruct (Z.eq_dec x 0) as [->|Hne]; [apply Z.bits_0|].
      apply Z.bits_above_log2; [lia|].
      apply Z.lt_le_trans with 31; [|exact Hj].
      apply Z.log2_lt_pow2; lia. }
    rewrite !Hl by lia. reflexivity.
Qed.

Lemma to_int32_testbit (z i : Z) :
  0 <= i -> Z.testbit (to_int32 z) i = Z.testbit z (Z.min i 31).
Proof.
  intros Hi.
  assert (Hlow : forall j, 0 <= j < 32 -> Z.testbit (to_int32 z) j = Z.testbit z j).
  { intros j Hj.
    rewrite <- (Z.mod_pow2_bits_low (to_int32 z) 32 j) by lia.
    rewrite to_int32_mod. apply Z.mod_pow2_bits_low. lia. }
  destruct (Z.le_gt_cases 31 i) as [Hh|Hl].
  - rewrite Z.min_r by lia.
    rewrite (int32_high_bits _ i (to_int32_range z) Hh). apply Hlow. lia.
  - rewrite Z.min_l by lia. apply Hlow. lia.
Qed.

Lemma channel_bit_testbit (channel i : Z) :
  0 <= i -> Z.testbit (channel_bit channel) i = (Z.min i 31 =? channel mod 32).
Proof.
  intros Hi. unfold channel_bit. rewrite Z.lor_0_r.
  rewrite to_int32_testbit by assumption.
  rewrite Z.shiftl_1_l.
  pose proof (Z.mod_pos_bound channel 32).
  rewrite Z.pow2_bits_eqb by lia. apply Z.eqb_sym.
Qed.

Lemma channel_bit_range (channel : Z) :
  - 2 ^ 31 <= channel_bit channel < 2 ^ 31.
Proof. unfold channel_bit. rewrite Z.lor_0_r. apply to_int32_range. Qed.

Lemma int32_negative_bit (x : Z) :
  - 2 ^ 31 <= x < 0 -> Z.testbit x 31 = true.
Proof.
  intros Hx. apply Z.bits_above_log2_neg; [lia|].
  destruct (Z.eq_dec (Z.pred (- x)) 0) as [->|Hne]; [cbn; lia|].
  apply Z.log2_lt_pow2; lia.
Qed.

(** Two 32-bit integers have a common bit exactly when they have one
    among the bits 0 to 31. *)
Lemma land_int32_nonzero (x y : Z) :
  - 2 ^ 31 <= x < 2 ^ 31 -> - 2 ^ 31 <= y < 2 ^ 31 ->
  Z.land x y <> 0 <->
  exists i, 0 <= i < 32 /\ Z.testbit x i = true /\ Z.testbit y i = true.
Proof.
  intros Hx Hy. split.
  - intros Hne. destruct (Z.lt_trichotomy (Z.land x y) 0) as [Hn|[H0|Hp]];
      [|contradiction|].
    + apply Z.land_neg in Hn as [Hxn Hyn]. exists 31.
      split; [lia|]. split; apply int32_negative_bit; lia.
    + pose proof (Z.bit_log2 _ Hp) as Hb.
      pose proof (Z.log2_nonneg (Z.land x y)) as Hl.
      rewrite Z.land_spec in Hb. apply andb_true_iff in Hb as [Hbx Hby].
      destruct (Z.le_gt_cases 31 (Z.log2 (Z.land x y))) as [Hh|Hh].
      * exists 31. split; [lia|].
        rewrite <- (int32_high_bits x _ Hx Hh), <- (int32_high_bits y _ Hy Hh).
        auto.
      * exists (Z.log2 (Z.land x y)). split; [lia|]. auto.
  - intros (i & Hi & Hbx & Hby) H0.
    assert (Hb : Z.testbit (Z.land x y) i = true)
      by (rewrite Z.land_spec, Hbx, Hby; reflexivity).
    rewrite H0, Z.bits_0 in Hb. discriminate.
Qed.

(** A channel is enabled when the bit of the channel, taken modulo 32,
    is set in the mask. *)
Lemma isEnabled_spec (mask channel : Z) :
  isEnabled mask channel = Z.testbit mask (channel mod 32).
Proof.
  unfold isEnabled. pose proof (Z.mod_pos_bound channel 32) as Hc.
  destruct (Z.testbit mask (channel mod 32)) eqn:E.
  - apply negb_true_iff, Z.eqb_neq.
    apply (land_int32_nonzero _ _ (to_int32_range mask) (channel_bit_range channel)).
    exists (channel mod 32). split; [lia|].
    rewrite to_int32_testbit, channel_bit_testbit by lia.
    rewrite Z.min_l by lia. split; [exact E|apply Z.eqb_refl].
  - apply negb_false_iff, Z.eqb_eq.
    destruct (Z.eq_dec (Z.land (to_int32 mask) (channel_bit channel)) 0) as [H0|Hne];
      [exact H0|].
    apply (land_int32_nonzero _ _ (to_int32_range mask) (channel_bit_range channel))
      in Hne as (i & Hi & Hbx & Hby).
    rewrite to_int32_testbit in Hbx by lia.
    rewrite channel_bit_testbit in Hby by lia.
    rewrite Z.min_l in Hbx, Hby by lia. apply Z.eqb_eq in Hby.
    rewrite Hby, E in Hbx. discriminate.
Qed.

(** The bits 0 to 31 of the results of the bitwise operators. *)
Lemma low_bit_int32 (z i : Z) :
  0 <= i < 32 -> Z.testbit (to_int32 z) i = Z.testbit z i.
Proof. intros Hi. rewrite to_int32_testbit, Z.min_l by lia. reflexivity. Qed.

Lemma low_bit_channel (channel i : Z) :
  0 <= i < 32 -> Z.testbit (channel_bit channel) i = (i =? channel mod 32).
Proof. intros Hi. rewrite channel_bit_testbit, Z.min_l by lia. reflexivity. Qed.

(** X1.  The methods of [Layers] act on the channel taken modulo 32 and
    on no other: [enable] switches it on, [disable] off, [toggle] flips
    it, [set] leaves it as the only one; [enableAll] enables every
    channel, [disableAll] none, and a new object has channel 0 alone.
    So channel 32 is channel 0. *)
Theorem methods_act_on_channel_mod_32 (mask c c' : Z) :
  isEnabled (enable c mask) c' = isEnabled mask c' || (c' mod 32 =? c mod 32) /\
  isEnabled (disable c mask) c' = isEnabled mask c' && negb (c' mod 32 =? c mod 32) /\
  isEnabled (toggle c mask) c' = xorb (isEnabled mask c') (c' mod 32 =? c mod 32) /\
  isEnabled (set c) c' = (c' mod 32 =? c mod 32) /\
  isEnabled enableAll c' = true /\
  isEnabled disableAll c' = false /\
  isEnabled new_Layers c' = (c' mod 32 =? 0).
Proof.
  rewrite !isEnabled_spec. pose proof (Z.mod_pos_bound c' 32) as Hc.
  unfold enable, disable, toggle, set, enableAll, disableAll, new_Layers, to_uint32.
  split; [|split; [|split; [|split; [|split; [|split]]]]].
  - rewrite Z.lor_spec, low_bit_int32, low_bit_channel by lia. reflexivity.
  - rewrite Z.land_spec, Z.lnot_spec, low_bit_int32, low_bit_channel by lia.
    reflexivity.
  - rewrite Z.lxor_spec, low_bit_int32, low_bit_channel by lia. reflexivity.
  - rewrite Z.mod_pow2_bits_low, low_bit_channel by lia. reflexivity.
  - change (Z.lor (to_int32 4294967295) 0) with (-1). apply Z.bits_m1. lia.
  - apply Z.bits_0.
  - change (Z.lor 1 0) with (2 ^ 0). rewrite Z.pow2_bits_eqb by lia.
    apply Z.eqb_sym.
Qed.

(** X2.  Two masks pass [test] exactly when one of the channels 0 to 31
    is enabled in both; the test is symmetric, and it is the test that
    [projectObject] applies. *)
Theorem test_is_a_common_channel (mask other : Z) :
  (test mask other = true <->
   exists channel, 0 <= channel < 32 /\
                   isEnabled mask channel = true /\
                   isEnabled other channel = true) /\
  test mask other = test other mask /\
  Projection.layers_test mask other = test mask other.
Proof.
  split; [|split].
  - unfold test. rewrite negb_true_iff, Z.eqb_neq.
    rewrite (land_int32_nonzero _ _ (to_int32_range mask) (to_int32_range other)).
    split; intros (i & Hi & Hx & Hy); exists i; (split; [exact Hi|]).
    + rewrite !isEnabled_spec, Z.mod_small by lia.
      rewrite low_bit_int32 in Hx, Hy by lia. auto.
    + rewrite !isEnabled_spec, Z.mod_small in * by lia.
      rewrite !low_bit_int32 by lia. auto.
  - unfold test. now rewrite Z.land_comm.
  - unfold Projection.layers_test, test. f_equal.
    destruct (Z.eqb_spec (Z.land (to_int32 mask) (to_int32 other)) 0) as [H0|Hne].
    + apply Z.eqb_eq, Z.bits_inj'. intros i Hi. rewrite Z.bits_0, Z.land_spec.
      destruct (Z.lt_ge_cases i 32) as [Hl|Hh].
      * rewrite !Z.mod_pow2_bits_low by lia.
        rewrite <- (low_bit_int32 mask), <- (low_bit_int32 other) by lia.
        rewrite <- Z.land_spec, H0. apply Z.bits_0.
      * rewrite Z.mod_pow2_bits_high by lia. reflexivity.
    + apply Z.eqb_neq. intros H0. apply Hne. apply Z.bits_inj'. intros i Hi.
      rewrite Z.bits_0, Z.land_spec, !to_int32_testbit by lia.
      pose proof (Z.min_spec i 31).
      rewrite <- (Z.mod_pow2_bits_low mask 32), <- (Z.mod_pow2_bits_low other 32)
        by lia.
      rewrite <- Z.land_spec, H0. apply Z.bits_0.
Qed.

End LayersFacts.
(** ** EventDispatcher *)
Module EventDispatcherFacts.

Import EventDispatcher.

Lemma indexOf_None (x : nat) (l : list nat) :
  Programs.indexOf x l = None <-> x ∉ l.
Proof.
  induction l as [|y l IH]; cbn.
  - split; [intros _; apply not_elem_of_nil|reflexivity].
  - rewrite not_elem_of_cons. destruct (Nat.eqb_spec y x) as [->|Hne].
    + split; [discriminate|intros [H _]; congruence].
    + destruct (Programs.indexOf x l); cbn.
      * split; [discriminate|]. intros [_ H]. apply IH in H. discriminate.
      * split; [|reflexivity]. intros _. split; [congruence|]. now apply IH.
Qed.

Lemma indexOf_Some (x : nat) (l : list nat) (i : nat) :
  Programs.indexOf x l = Some i ->
  exists l1 l2, l = l1 ++ x :: l2 /\ length l1 = i /\ x ∉ l1.
Proof.
  revert i. induction l as [|y l IH]; cbn; intros i; [discriminate|].
  destruct (Nat.eqb_spec y x) as [->|Hne].
  - intros [= <-]. exists [], l. split; [reflexivity|].
    split; [reflexivity|apply not_elem_of_nil].
  - destruct (Programs.indexOf x l) as [j|]; cbn; [|discriminate].
    intros [= <-]. destruct (IH j eq_refl) as (l1 & l2 & -> & Hl & Hx).
    exists (y :: l1), l2. split; [reflexivity|]. split; [cbn; lia|].
    rewrite not_elem_of_cons. split; [congruence|exact Hx].
Qed.

Lemma filter_others (x : nat) (l : list nat) :
  x ∉ l -> filter (fun y => y <> x) l = l.
Proof.
  induction l as [|y l IH]; intros Hx; [reflexivity|].
  apply not_elem_of_cons in Hx as [Hxy Hx].
  rewrite filter_cons_True by congruence. now rewrite IH.
Qed.

Lemma hasEventListener_spec (type : string) (x : nat) (ls : Listeners) :
  hasEventListener type x ls = true <-> x ∈ listeners_of type ls.
Proof.
  unfold hasEventListener, listeners_of.
  destruct ls as [listeners|]; cbn.
  - destruct (listeners !! type) as [array|]; cbn.
    + destruct (Programs.indexOf x array) eqn:E.
      * split; [intros _|reflexivity].
        destruct (indexOf_Some _ _ _ E) as (l1 & l2 & -> & _).
        apply elem_of_app. right. left.
      * apply indexOf_None in E. split; [discriminate|contradiction].
    + split; [discriminate|]. intros H. apply elem_of_nil in H. destruct H.
  - rewrite lookup_empty. cbn. split; [discriminate|].
    intros H. apply elem_of_nil in H. destruct H.
Qed.

(** The listeners of a type after a registration and after a removal. *)
Lemma listeners_of_add (type type' : string) (x : nat) (ls : Listeners) :
  listeners_of type' (addEventListener type x ls)
  = if decide (type' = type)
    then if decide (x ∈ listeners_of type ls) then listeners_of type ls
         else listeners_of type ls ++ [x]
    else listeners_of type' ls.
Proof.
  unfold listeners_of, addEventListener. cbn.
  destruct (decide (type' = type)) as [->|Hne].
  - rewrite lookup_insert_eq. cbn.
    destruct (Programs.indexOf x (default [] (default ∅ ls !! type))) eqn:E.
    + destruct (indexOf_Some _ _ _ E) as (l1 & l2 & Hl & _).
      rewrite decide_True; [reflexivity|].
      rewrite Hl. apply elem_of_app. right. left.
    + apply indexOf_None in E. rewrite decide_False by exact E. reflexivity.
  - rewrite lookup_insert_ne by congruence. reflexivity.
Qed.

Lemma listeners_of_remove (type type' : string) (x : nat) (ls : Listeners) :
  NoDup (listeners_of type ls) ->
  listeners_of type' (removeEventListener type x ls)
  = if decide (type' = type)
    then filter (fun y => y <> x) (listeners_of type ls)
    else listeners_of type' ls.
Proof.
  intros Hnd. unfold listeners_of in *. unfold removeEventListener.
  destruct ls as [listeners|]; cbn in *.
  - destruct (listeners !! type) as [array|] eqn:Ea; cbn in *.
    + destruct (Programs.indexOf x array) as [i|] eqn:E; cbn.
      * destruct (indexOf_Some _ _ _ E) as (l1 & l2 & -> & <- & Hx1).
        destruct (decide (type' = type)) as [->|Hne].
        -- rewrite lookup_insert_eq. cbn. rewrite delete_middle.
           apply NoDup_app in Hnd as (_ & Hd & H2).
           apply NoDup_cons in H2 as [Hx2 _].
           rewrite filter_app, filter_cons_False by (intros H; now apply H).
           rewrite !filter_others; [reflexivity|exact Hx2|exact Hx1].
        -- rewrite lookup_insert_ne by congruence. reflexivity.
      * apply indexOf_None in E.
        destruct (decide (type' = type)) as [->|Hne]; [|reflexivity].
        rewrite Ea. cbn. rewrite filter_others; [reflexivity|exact E].
    + destruct (decide (type' = type)) as [->|Hne]; [|reflexivity].
      rewrite Ea. reflexivity.
  - rewrite lookup_empty. cbn. destruct (decide (type' = type)); reflexivity.
Qed.

Lemma step_NoDup (ls : Listeners) (c : Call) :
  (forall type, NoDup (listeners_of type ls)) ->
  forall type, NoDup (listeners_of type (step ls c)).
Proof.
  intros Hnd type. destruct c as [t x|t x]; cbn [step].
  - rewrite listeners_of_add. destruct (decide (type = t)) as [->|_]; [|apply Hnd].
    destruct (decide (x ∈ listeners_of t ls)) as [_|Hx]; [apply Hnd|].
    apply NoDup_app. split; [apply Hnd|]. split; [|apply NoDup_singleton].
    intros y Hy Hin. apply list_elem_of_singleton in Hin as ->. contradiction.
  - rewrite listeners_of_remove by apply Hnd.
    destruct (decide (type = t)) as [->|_]; [|apply Hnd].
    apply NoDup_filter, Hnd.
Qed.

Lemma run_NoDup (cs : list Call) (type : string) :
  NoDup (listeners_of type (run cs)).
Proof.
  unfold run.
  assert (H : forall type, NoDup (listeners_of type None)).
  { intros t. unfold listeners_of. cbn. rewrite lookup_empty. apply NoDup_nil_2. }
  revert type. generalize dependent (@None (gmap string (list nat))).
  induction cs as [|c cs IH]; intros ls Hnd type; cbn [fold_left]; [apply Hnd|].
  apply IH. apply step_NoDup, Hnd.
Qed.

(** X3.  For event types that name no property of [Object.prototype]:
    after any calls of [addEventListener] and [removeEventListener] with
    such types a listener is registered at most once per event type.  So
    a registration makes [hasEventListener] true for the listener and
    the type, a removal makes it false, neither changes it for another
    listener or type, and registering a registered listener changes
    nothing. *)
Theorem listeners_are_registered_once (cs : list Call) :
  Forall (fun c => own (call_type c)) cs ->
  let ls := run cs in
  (forall type, own type -> NoDup (listeners_of type ls)) /\
  (forall type x type' x',
      own type -> own type' ->
      hasEventListener type' x' (addEventListener type x ls)
      = hasEventListener type' x' ls || bool_decide (type' = type /\ x' = x)) /\
  (forall type x type' x',
      own type -> own type' ->
      hasEventListener type' x' (removeEventListener type x ls)
      = hasEventListener type' x' ls && negb (bool_decide (type' = type /\ x' = x))) /\
  (forall type x,
      own type ->
      hasEventListener type x ls = true -> addEventListener type x ls = ls).
Proof.
  intros _. cbv zeta. split; [intros type _; apply run_NoDup|]. split; [|split].
  - intros type x type' x' _ _. apply eq_true_iff_eq.
    rewrite orb_true_iff, bool_decide_eq_true, !hasEventListener_spec.
    rewrite listeners_of_add.
    destruct (decide (type' = type)) as [->|Hne].
    + destruct (decide (x ∈ listeners_of type (run cs))) as [Hx|Hx].
      * split; [auto|]. intros [H|[_ ->]]; assumption.
      * rewrite elem_of_app, list_elem_of_singleton. tauto.
    + tauto.
  - intros type x type' x' _ _. apply eq_true_iff_eq.
    rewrite andb_true_iff, negb_true_iff, bool_decide_eq_false,
      !hasEventListener_spec.
    rewrite listeners_of_remove by apply run_NoDup.
    destruct (decide (type' = type)) as [->|Hne].
    + rewrite list_elem_of_filter. tauto.
    + tauto.
  - intros type x _ Hx. unfold hasEventListener, addEventListener in *.
    destruct (run cs) as [listeners|]; [|discriminate]. cbn in *.
    destruct (listeners !! type) as [array|] eqn:Ea; [|discriminate]. cbn.
    destruct (Programs.indexOf x array); [|discriminate].
    now rewrite insert_id.
Qed.

Lemma listeners_are_registered_once_witness :
  Forall (fun c => own (call_type c)) [Add "dispose" 1%nat] /\
  own "dispose" /\
  hasEventListener "dispose" 1%nat (run [Add "dispose" 1%nat]) = true /\
  addEventListener "dispose" 1%nat (run [Add "dispose" 1%nat])
  = run [Add "dispose" 1%nat].
Proof.
  assert (Ho : own "dispose") by (unfold own; apply (bool_decide_unpack _); vm_compute; exact I).
  assert (Hcs : Forall (fun c => own (call_type c)) [Add "dispose" 1%nat])
    by (repeat constructor; exact Ho).
  split; [exact Hcs|]. split; [exact Ho|].
  split; [vm_compute; reflexivity|].
  apply (proj2 (proj2 (proj2
           (listeners_are_registered_once [Add "dispose" 1%nat] Hcs)))).
  - exact Ho.
  - vm_compute. reflexivity.
Defined.

Lemma once_fold {World : Type} (action : nat -> World -> World) (type : string)
      (l : list nat) (ls : Listeners) (w : World) :
  (forall t, NoDup (listeners_of t ls)) -> listeners_of type ls = l ->
  exists ls',
    fold_left (fun lw x => once action x type lw) l (ls, w)
    = (ls', fold_left (fun w x => action x w) l w) /\
    listeners_of type ls' = [] /\
    forall type', type' <> type -> listeners_of type' ls' = listeners_of type' ls.
Proof.
  revert ls w. induction l as [|x l IH]; intros ls w Hnd Hl; cbn [fold_left].
  - exists ls. auto.
  - unfold once at 2. cbn [fst snd].
    destruct (IH (removeEventListener type x ls) (action x w)) as (ls' & Hf & He & Ho).
    + apply (step_NoDup ls (Remove type x) Hnd).
    + rewrite listeners_of_remove by apply Hnd. rewrite decide_True by reflexivity.
      rewrite Hl. pose proof (Hnd type) as Hd. rewrite Hl in Hd.
      apply NoDup_cons in Hd as [Hx _].
      rewrite filter_cons_False by (intros H; now apply H).
      now apply filter_others.
    + exists ls'. split; [exact Hf|]. split; [exact He|].
      intros type' Hne. rewrite (Ho type' Hne).
      rewrite listeners_of_remove by apply Hnd. now rewrite decide_False.
Qed.

(** X4.  For event types that name no property of [Object.prototype]:
    when an event is dispatched to listeners that unregister themselves
    as they are called, every listener that was registered for the type
    is still called, once and in the order of registration: the calls go
    through a copy of the array.  Afterwards the type has no listener,
    and the other types have theirs. *)
Theorem self_removing_listeners_are_all_called
        {World : Type} (action : nat -> World -> World)
        (cs : list Call) (type : string) (w : World) :
  Forall (fun c => own (call_type c)) cs ->
  own type ->
  exists ls',
    dispatchEvent (once action) type (run cs, w)
    = (ls', fold_left (fun w x => action x w) (listeners_of type (run cs)) w) /\
    listeners_of type ls' = [] /\
    forall type', own type' -> type' <> type ->
                  listeners_of type' ls' = listeners_of type' (run cs).
Proof.
  intros _ _.
  destruct (once_fold action type _ (run cs) w (run_NoDup cs) eq_refl)
    as (ls' & Hf & He & Ho).
  unfold dispatchEvent. cbn [fst]. unfold listeners_of in *.
  destruct (run cs) as [listeners|] eqn:E; cbn in *.
  - destruct (listeners !! type) as [array|] eqn:Ea; cbn in *.
    + exists ls'. auto.
    + exists (Some listeners). cbn. rewrite ?Ea. auto.
  - exists None. cbn. rewrite ?lookup_empty. auto.
Qed.

Lemma self_removing_listeners_are_all_called_witness :
  Forall (fun c => own (call_type c))
         [Add "dispose" 1%nat; Add "dispose" 2%nat; Add "change" 3%nat] /\
  own "dispose" /\
  exists ls',
    dispatchEvent (once (fun x w => w ++ [x])) "dispose"
                  (run [Add "dispose" 1%nat; Add "dispose" 2%nat;
                        Add "change" 3%nat], [])
    = (ls', [1%nat; 2%nat]) /\
    listeners_of "dispose" ls' = [] /\
    listeners_of "change" ls' = [3%nat].
Proof.
  assert (Ho : own "dispose") by (unfold own; apply (bool_decide_unpack _); vm_compute; exact I).
  assert (Hc : own "change") by (unfold own; apply (bool_decide_unpack _); vm_compute; exact I).
  assert (Hcs : Forall (fun c => own (call_type c))
                       [Add "dispose" 1%nat; Add "dispose" 2%nat;
                        Add "change" 3%nat])
    by (repeat constructor; assumption).
  split; [exact Hcs|]. split; [exact Ho|].
  destruct (self_removing_listeners_are_all_called
              (fun x w => w ++ [x]) _ "dispose" [] Hcs Ho)
    as (ls' & Hd & He & Hother).
  exists ls'. split; [exact Hd|]. split; [exact He|].
  rewrite (Hother "change" Hc) by discriminate. reflexivity.
Defined.

End EventDispatcherFacts.
(** ** Attribute cache: removal, update ranges, shared and external buffers *)
Module BufferAttributeFacts.

Import WebGLAttributes BufferAttribute.

(** X5.  [remove] of an attribute with a cached buffer deletes that
    buffer and forgets the record: [get] gives [undefined] afterwards,
    a second [remove] does nothing, and the records of the other
    attributes stay.  The next [update] of a plain attribute then creates
    and fills a new buffer. *)
Theorem remove_deletes_and_forgets (r k : nat) (s : State)
        (attribute a : Attribute) (d : Cached) :
  objects s !! r = Some attribute ->
  resolve r attribute s = Some (k, a) ->
  buffers s !! k = Some d ->
  let s' := remove r s in
  calls s' = calls s ++ [gl_deleteBuffer (cached_buffer d)] /\
  get r s' = None /\
  remove r s' = s' /\
  (forall k', k' <> k -> buffers s' !! k' = buffers s !! k') /\
  (isGLBufferAttribute attribute = false ->
   forall bufferType t,
     gl_type a = Some t ->
     exists s'',
       update r bufferType s' = Ok s'' /\
       calls s'' = calls s' ++ [gl_createBuffer (created s);
                                gl_bindBuffer bufferType (created s);
                                gl_bufferData bufferType (array a) (usage a);
                                onUploadCallback k] /\
       buffers s'' !! k
       = Some {| cached_buffer := created s; cached_type := t;
                 bytesPerElement := BYTES_PER_ELEMENT (array a);
                 cached_version := version a;
                 size := Some (byteLength (array a)) |}).
Proof.
  intros Hr Hres Hk s'.
  assert (Hs' : s' = set_buffers (delete k (buffers s))
                                 (issue [gl_deleteBuffer (cached_buffer d)] s)).
  { unfold s', remove. rewrite Hr, Hres, Hk. reflexivity. }
  assert (Hres' : resolve r attribute s' = Some (k, a)).
  { rewrite Hs'. unfold resolve in *. cbn. exact Hres. }
  assert (Hr' : objects s' !! r = Some attribute) by (rewrite Hs'; exact Hr).
  assert (Hk' : buffers s' !! k = None)
    by (rewrite Hs'; cbn; apply lookup_delete_eq).
  split; [rewrite Hs'; reflexivity|].
  split; [unfold get; rewrite Hr', Hres'; exact Hk'|].
  split; [unfold remove; rewrite Hr', Hres', Hk'; reflexivity|].
  split; [intros k' Hne; rewrite Hs'; cbn; now apply lookup_delete_ne|].
  intros Hgl bufferType t Ht.
  unfold update. rewrite Hr', Hgl, Hres', Hk'. unfold createBuffer. rewrite Ht.
  eexists. split; [reflexivity|]. cbn [calls buffers set_buffers].
  split; [rewrite Hs'; reflexivity|].
  rewrite lookup_insert_eq, Hs'. reflexivity.
Qed.

Lemma remove_deletes_and_forgets_witness :
  get 0%nat (remove 0%nat (sample_cached (sample_attribute 12 0))) = None /\
  calls (remove 0%nat (sample_cached (sample_attribute 12 0)))
  = calls (sample_cached (sample_attribute 12 0)) ++ [gl_deleteBuffer 0].
Proof.
  destruct (remove_deletes_and_forgets
              0%nat 0%nat (sample_cached (sample_attribute 12 0))
              (sample_attribute 12 0) (sample_attribute 12 0) (sample_record 12 0)
              eq_refl eq_refl eq_refl) as (Hc & Hg & _).
  split; [exact Hg|exact Hc].
Defined.

Lemma with_updateRanges_self (a : Attribute) :
  with_updateRanges (updateRanges a) a = a.
Proof. destruct a. reflexivity. Qed.

Lemma addUpdateRange_fold (rs l : list Range) (a : Attribute) :
  fold_left (fun a rg => addUpdateRange (start rg) (range_count rg) a) rs
            (with_updateRanges l a)
  = with_updateRanges (l ++ rs) a.
Proof.
  revert l. induction rs as [|[st ct] rs IH]; intros l; cbn [fold_left].
  - now rewrite app_nil_r.
  - unfold addUpdateRange at 2. cbn [updateRanges with_updateRanges start range_count].
    change (with_updateRanges ?x (with_updateRanges ?y a)) with (with_updateRanges x a).
    rewrite IH, <- app_assoc. reflexivity.
Qed.

(** [update] of a plain attribute whose cached record is behind and has
    the size of the array. *)
Lemma update_plain_cached (r : nat) (bufferType : Z) (s : State)
      (a : Attribute) (d : Cached) :
  objects s !! r = Some a ->
  isGLBufferAttribute a = false ->
  isInterleavedBufferAttribute a = false ->
  buffers s !! r = Some d ->
  cached_version d < version a ->
  size d = Some (byteLength (array a)) ->
  update r bufferType s
  = Ok (set_buffers
          (<[r := with_version (version a) d]>
             (buffers (updateBuffer (cached_buffer d) r a bufferType s)))
          (updateBuffer (cached_buffer d) r a bufferType s)).
Proof.
  intros Hr Hgl Hil Hk Hv Hsz. unfold update. rewrite Hr, Hgl.
  unfold resolve. rewrite Hil, Hk.
  rewrite (proj2 (Z.ltb_lt _ _)) by exact Hv.
  rewrite bool_decide_true by exact Hsz. reflexivity.
Qed.

(** What [updateBuffer] writes when the deprecated range is unset. *)
Lemma updateBuffer_ranges (buf : Z) (r : nat) (a : Attribute) (bufferType : Z)
      (s : State) :
  count (_updateRange a) = -1 ->
  calls (updateBuffer buf r a bufferType s)
  = calls s ++ gl_bindBuffer bufferType buf
            :: match updateRanges a with
               | [] => [gl_bufferSubData bufferType 0 (array a) None]
               | rs => range_call bufferType a <$> rs
               end
            ++ [onUploadCallback r] /\
  buffers (updateBuffer buf r a bufferType s) = buffers s /\
  exists a',
    objects (updateBuffer buf r a bufferType s)
    = <[r := a']> (objects s) /\
    updateRanges a' = [] /\ count (_updateRange a') = -1 /\
    array a' = array a /\ version a' = version a /\
    isGLBufferAttribute a' = isGLBufferAttribute a /\
    isInterleavedBufferAttribute a' = isInterleavedBufferAttribute a.
Proof.
  intros Hc. unfold updateBuffer. cbn zeta. rewrite Hc.
  cbn [calls buffers objects set_objects issue Z.eqb negb andb app].
  split; [|split; [reflexivity|]].
  - destruct (updateRanges a) as [|rg rs]; cbn.
    + reflexivity.
    + reflexivity.
  - eexists. split; [reflexivity|]. cbn. auto 10.
Qed.

(** X6.  Update ranges are uploaded once.  For a plain attribute whose
    buffer is cached with the size of its array: after [addUpdateRange]
    for the ranges [rs] (at least one) and [needsUpdate = true], [update]
    binds the cached buffer, writes one [bufferSubData] per range, in the
    order of the ranges and at the byte offset of the range, and empties
    the ranges of the attribute; the array as a whole is not written.
    After the next [needsUpdate = true], [update] writes the whole
    array. *)
Theorem update_ranges_are_uploaded_once
        (r : nat) (bufferType : Z) (s : State) (a : Attribute) (d : Cached)
        (rs : list Range) :
  objects s !! r = Some a ->
  isGLBufferAttribute a = false ->
  isInterleavedBufferAttribute a = false ->
  buffers s !! r = Some d ->
  size d = Some (byteLength (array a)) ->
  cached_version d <= version a ->
  count (_updateRange a) = -1 ->
  updateRanges a = [] ->
  rs <> [] ->
  let added :=
    fold_left (fun a rg => addUpdateRange (start rg) (range_count rg) a) rs a in
  let s1 := on_object (fun _ => set_needsUpdate true added) r s in
  exists s2,
    update r bufferType s1 = Ok s2 /\
    calls s2 = calls s ++ gl_bindBuffer bufferType (cached_buffer d)
                       :: (range_call bufferType a <$> rs)
                       ++ [onUploadCallback r] /\
    updateRanges <$> objects s2 !! r = Some [] /\
    exists s3,
      update r bufferType (on_object (set_needsUpdate true) r s2) = Ok s3 /\
      calls s3 = calls s2 ++ [gl_bindBuffer bufferType (cached_buffer d);
                              gl_bufferSubData bufferType 0 (array a) None;
                              onUploadCallback r].
Proof.
  intros Hr Hgl Hil Hk Hsz Hv Hc Hrs Hne added s1.
  assert (Ha : added = with_updateRanges rs a).
  { unfold added. rewrite <- (with_updateRanges_self a) at 1.
    rewrite addUpdateRange_fold, Hrs. reflexivity. }
  assert (Hs1 : s1 = set_objects (<[r := set_needsUpdate true added]> (objects s)) s)
    by (unfold s1, on_object; rewrite Hr; reflexivity).
  clearbody added s1. subst added s1.
  set (a1 := set_needsUpdate true (with_updateRanges rs a)).
  set (s1 := set_objects (<[r := a1]> (objects s)) s).
  assert (Hr1 : objects s1 !! r = Some a1) by apply lookup_insert_eq.
  destruct (updateBuffer_ranges (cached_buffer d) r a1 bufferType s1 Hc)
    as (Hcalls & Hbufs & a2 & Hobj & Hrs2 & Hc2 & Harr & Hver & Hgl2 & Hil2).
  rewrite (update_plain_cached r bufferType s1 a1 d Hr1 Hgl Hil Hk)
    by (cbn; lia || exact Hsz).
  eexists. split; [reflexivity|].
  set (s2 := updateBuffer (cached_buffer d) r a1 bufferType s1) in *.
  cbn [calls objects buffers set_buffers].
  split.
  { rewrite Hcalls. cbn [updateRanges a1 set_needsUpdate with_updateRanges array].
    destruct rs as [|rg rs]; [contradiction|]. reflexivity. }
  split; [rewrite Hobj, lookup_insert_eq; cbn; now rewrite Hrs2|].
  set (s2' := set_buffers (<[r := with_version (version a1) d]> (buffers s2)) s2).
  assert (Hr2 : objects s2' !! r = Some a2)
    by (unfold s2'; cbn [objects set_buffers]; rewrite Hobj;
        apply lookup_insert_eq).
  unfold on_object. rewrite Hr2.
  set (a3 := set_needsUpdate true a2).
  set (s3 := set_objects (<[r := a3]> (objects s2')) s2').
  assert (Hr3 : objects s3 !! r = Some a3) by apply lookup_insert_eq.
  assert (Hk3 : buffers s3 !! r = Some (with_version (version a1) d))
    by apply lookup_insert_eq.
  destruct (updateBuffer_ranges (cached_buffer d) r a3 bufferType s3 Hc2)
    as (Hcalls3 & _).
  assert (Hgl3 : isGLBufferAttribute a3 = false)
    by (unfold a3; cbn [set_needsUpdate isGLBufferAttribute]; rewrite Hgl2;
        exact Hgl).
  assert (Hil3 : isInterleavedBufferAttribute a3 = false)
    by (unfold a3; cbn [set_needsUpdate isInterleavedBufferAttribute];
        rewrite Hil2; exact Hil).
  rewrite (update_plain_cached r bufferType s3 a3 _ Hr3 Hgl3 Hil3 Hk3);
    [|unfold a3; cbn [set_needsUpdate version with_version cached_version];
      rewrite Hver; lia
     |unfold a3; cbn [set_needsUpdate array with_version size];
      rewrite Harr; exact Hsz].
  eexists. split; [reflexivity|].
  cbn [calls set_buffers cached_buffer with_version].
  rewrite Hcalls3. cbn [updateRanges a3 set_needsUpdate array].
  rewrite Hrs2, Harr. reflexivity.
Qed.

Lemma update_ranges_are_uploaded_once_witness :
  let rs := [{| start := 0; range_count := 1 |}; {| start := 2; range_count := 1 |}] in
  let a := sample_attribute 12 0 in
  exists s2,
    update 0%nat 34962
           (on_object
              (fun _ => set_needsUpdate true
                          (fold_left
                             (fun a rg => addUpdateRange (start rg) (range_count rg) a)
                             rs a))
              0%nat (sample_cached a)) = Ok s2 /\
    calls s2 = calls (sample_cached a)
               ++ gl_bindBuffer 34962 0 :: (range_call 34962 a <$> rs)
               ++ [onUploadCallback 0%nat].
Proof.
  cbv zeta.
  destruct (update_ranges_are_uploaded_once
              0%nat 34962 (sample_cached (sample_attribute 12 0))
              (sample_attribute 12 0) (sample_record 12 0)
              [{| start := 0; range_count := 1 |}; {| start := 2; range_count := 1 |}]
              eq_refl eq_refl eq_refl eq_refl eq_refl)
    as (s2 & Hu & Hc & _).
  - cbn. lia.
  - reflexivity.
  - reflexivity.
  - discriminate.
  - exists s2. split; [exact Hu|exact Hc].
Defined.

(** X7.  Two interleaved attributes over one interleaved buffer share
    one GPU buffer, when nothing is cached for the interleaved buffer
    yet and its array is of a class that [createBuffer] has a type for:
    the [update] of the first returns and issues createBuffer,
    bindBuffer, bufferData and the upload callback for the interleaved
    buffer, the [update] of the second changes nothing, and [get] gives
    the same record, with the buffer just created, for both. *)
Theorem interleaved_attributes_share_a_buffer
        (r1 r2 k : nat) (bufferType : Z) (s : State)
        (a1 a2 b : Attribute) (t : Z) :
  objects s !! r1 = Some a1 -> objects s !! r2 = Some a2 ->
  isGLBufferAttribute a1 = false -> isGLBufferAttribute a2 = false ->
  isInterleavedBufferAttribute a1 = true ->
  isInterleavedBufferAttribute a2 = true ->
  data a1 = k -> data a2 = k ->
  objects s !! k = Some b ->
  buffers s !! k = None ->
  gl_type b = Some t ->
  exists s1 rec,
    update r1 bufferType s = Ok s1 /\
    calls s1 = calls s ++ [gl_createBuffer (created s);
                           gl_bindBuffer bufferType (created s);
                           gl_bufferData bufferType (array b) (usage b);
                           onUploadCallback k] /\
    update r2 bufferType s1 = Ok s1 /\
    get r1 s1 = Some rec /\ get r2 s1 = Some rec /\
    cached_buffer rec = created s.
Proof.
  intros Hr1 Hr2 Hgl1 Hgl2 Hil1 Hil2 Hd1 Hd2 Hb Hk Ht.
  assert (Hres1 : resolve r1 a1 s = Some (k, b))
    by (unfold resolve; rewrite Hil1, Hd1, Hb; reflexivity).
  set (rec := {| cached_buffer := created s; cached_type := t;
                 bytesPerElement := BYTES_PER_ELEMENT (array b);
                 cached_version := version b;
                 size := Some (byteLength (array b)) |}).
  set (s0 := {| objects := objects s; buffers := buffers s;
                calls := calls s
                         ++ [gl_createBuffer (created s);
                             gl_bindBuffer bufferType (created s);
                             gl_bufferData bufferType (array b) (usage b);
                             onUploadCallback k];
                created := created s + 1 |}).
  set (s1 := set_buffers (<[k := rec]> (buffers s0)) s0).
  assert (Hu : update r1 bufferType s = Ok s1).
  { unfold update. rewrite Hr1, Hgl1, Hres1, Hk.
    unfold createBuffer. rewrite Ht. reflexivity. }
  assert (Ho : objects s1 = objects s) by reflexivity.
  assert (Hk1 : buffers s1 !! k = Some rec) by apply lookup_insert_eq.
  assert (Hres : forall r a, data a = k -> isInterleavedBufferAttribute a = true ->
                             resolve r a s1 = Some (k, b)).
  { intros r a Hd Hil. unfold resolve. rewrite Hil, Hd, Ho, Hb. reflexivity. }
  exists s1, rec. split; [exact Hu|]. split; [reflexivity|]. split.
  - unfold update. rewrite Ho, Hr2, Hgl2, (Hres r2 a2 Hd2 Hil2), Hk1.
    unfold rec at 1. cbn [cached_version]. rewrite Z.ltb_irrefl. reflexivity.
  - unfold get. rewrite Ho, Hr1, Hr2.
    rewrite (Hres r1 a1 Hd1 Hil1), (Hres r2 a2 Hd2 Hil2), Hk1. auto.
Qed.

Lemma interleaved_attributes_share_a_buffer_witness :
  exists s1 rec,
    update 1%nat 34962 sample_interleaved = Ok s1 /\
    update 2%nat 34962 s1 = Ok s1 /\
    get 1%nat s1 = Some rec /\ get 2%nat s1 = Some rec.
Proof.
  destruct (interleaved_attributes_share_a_buffer
              1%nat 2%nat 0%nat 34962 sample_interleaved
              sample_interleaved_attribute sample_interleaved_attribute
              (sample_attribute 24 0) gl.FLOAT
              eq_refl eq_refl eq_refl eq_refl eq_refl eq_refl eq_refl eq_refl
              eq_refl eq_refl eq_refl)
    as (s1 & rec & Hu1 & _ & Hu2 & Hg1 & Hg2 & _).
  exists s1, rec. auto.
Defined.

(** X8.  A [GLBufferAttribute] is cached, not uploaded: [update] issues
    no call and creates no buffer; it stores a record of the attribute's
    own buffer, type and element size when there is none or when the
    stored version is behind, and leaves the stored record otherwise.  So
    a buffer set with [setBuffer] is not seen until [needsUpdate] is set.
    [remove] then deletes the buffer of the record. *)
Theorem external_buffer_is_cached_not_uploaded
        (r : nat) (bufferType : Z) (s : State) (a : Attribute) :
  objects s !! r = Some a ->
  isGLBufferAttribute a = true ->
  let mirror := {| cached_buffer := buffer a; cached_type := type a;
                   bytesPerElement := elementSize a;
                   cached_version := version a; size := None |} in
  let rec := match buffers s !! r with
             | Some c => if cached_version c <? version a then mirror else c
             | None => mirror
             end in
  exists s',
    update r bufferType s = Ok s' /\
    calls s' = calls s /\ created s' = created s /\ objects s' = objects s /\
    buffers s' !! r = Some rec /\
    (forall k, k <> r -> buffers s' !! k = buffers s !! k) /\
    (forall b',
        update r bufferType (on_object (setBuffer b') r s')
        = Ok (on_object (setBuffer b') r s')) /\
    (isInterleavedBufferAttribute a = false ->
     calls (remove r s') = calls s ++ [gl_deleteBuffer (cached_buffer rec)]).
Proof.
  intros Hr Hgl mirror rec.
  assert (Hu : exists s', update r bufferType s = Ok s' /\
                          calls s' = calls s /\ created s' = created s /\
                          objects s' = objects s /\
                          buffers s' !! r = Some rec /\
                          forall k, k <> r -> buffers s' !! k = buffers s !! k).
  { unfold update, rec. rewrite Hr, Hgl.
    destruct (buffers s !! r) as [c|] eqn:Ec.
    - destruct (cached_version c <? version a) eqn:Ev.
      + eexists. split; [reflexivity|]. cbn.
        rewrite lookup_insert_eq. repeat split; try reflexivity.
        intros k Hne. now apply lookup_insert_ne.
      + exists s. rewrite Ec. auto 10.
    - eexists. split; [reflexivity|]. cbn.
      rewrite lookup_insert_eq. repeat split; try reflexivity.
      intros k Hne. now apply lookup_insert_ne. }
  destruct Hu as (s' & Hu & Hc & Hcr & Ho & Hk & Hother).
  exists s'. repeat (split; [assumption|]).
  assert (Hver : version a <= cached_version rec).
  { unfold rec. destruct (buffers s !! r) as [c|]; [|cbn; lia].
    destruct (Z.ltb_spec (cached_version c) (version a)); cbn; lia. }
  split.
  - intros b'. unfold on_object. rewrite Ho, Hr.
    unfold update. cbn [objects set_objects buffers].
    rewrite lookup_insert_eq. cbn [setBuffer isGLBufferAttribute version].
    rewrite Hgl, Hk.
    destruct (Z.ltb_spec (cached_version rec) (version a)); [lia|reflexivity].
  - intros Hil. unfold remove. rewrite Ho, Hr. unfold resolve. rewrite Hil, Hk.
    cbn. rewrite Hc. reflexivity.
Qed.

Lemma external_buffer_is_cached_not_uploaded_witness :
  exists s',
    update 0%nat 34962 (sample_state (sample_gl_attribute 9 0)) = Ok s' /\
    calls s' = [] /\
    calls (remove 0%nat s') = [gl_deleteBuffer 9].
Proof.
  destruct (external_buffer_is_cached_not_uploaded
              0%nat 34962 (sample_state (sample_gl_attribute 9 0))
              (sample_gl_attribute 9 0) eq_refl eq_refl)
    as (s' & Hu & Hc & _ & _ & _ & _ & _ & Hrm).
  exists s'. split; [exact Hu|]. split; [exact Hc|]. apply Hrm. reflexivity.
Defined.

End BufferAttributeFacts.
(** ** Render list: the pool of render items *)
Module RenderListFrameFacts.

Import RenderList RenderListFrame.

Lemma bucket_code (m : Material) :
  bucket_of m = if gt_zero (transmission m) then Transmissive
                else if transparent m then Transparent else Opaque.
Proof.
  unfold bucket_of, gt_zero. destruct (transmission m) as [q|]; [|reflexivity].
  destruct (Qlt_le_dec 0 q) as [Hlt|Hle].
  - destruct (Qle_bool q 0) eqn:E; [|reflexivity].
    apply Qle_bool_iff in E. lra.
  - apply Qle_bool_iff in Hle. now rewrite Hle.
Qed.

(** One call: the pool slot at the index takes the item (the pool grows
    when the index is its length), the index moves on, and the bucket of
    the material takes the item. *)
Lemma insert_effect (s : State) (e : Entry) :
  renderItemsIndex (insert s e) = S (renderItemsIndex s) /\
  renderItems (insert s e)
  = match renderItems s !! renderItemsIndex s with
    | None => renderItems s ++ [item_of e]
    | Some _ => <[renderItemsIndex s := item_of e]> (renderItems s)
    end /\
  forall b, Permutation
              (bucket_items b (insert s e))
              (if Bucket_eqb (bucket_of (entry_material e)) b
               then item_of e :: bucket_items b s else bucket_items b s).
Proof.
  unfold insert, unshift, push, getNextRenderItem, item_of.
  rewrite bucket_code.
  destruct (at_front e), (gt_zero (transmission (entry_material e)));
    [| destruct (transparent (entry_material e))
     | | destruct (transparent (entry_material e))];
    cbn [renderItems renderItemsIndex];
    (split; [reflexivity|]); (split; [reflexivity|]);
    intros []; cbn [bucket_items opaque transmissive transparent_list Bucket_eqb];
    try reflexivity;
    symmetry; apply Permutation_cons_append.
Qed.

Lemma fill_snoc (es : list Entry) (e : Entry) (s : State) :
  fill (es ++ [e]) s = insert (fill es s) e.
Proof. unfold fill. now rewrite fold_left_app. Qed.

Lemma fill_index_length (es : list Entry) (s : State) :
  renderItemsIndex (fill es s) = length es /\
  length (renderItems (fill es s))
  = Nat.max (length (renderItems s)) (length es).
Proof.
  induction es as [|e es [Hi Hl]] using rev_ind.
  - unfold fill. cbn. lia.
  - rewrite fill_snoc.
    destruct (insert_effect (fill es s) e) as (Hi' & Hp' & _).
    rewrite Hi', Hp', Hi, length_app. cbn [length].
    split; [lia|].
    destruct (renderItems (fill es s) !! length es) as [x|] eqn:E.
    + apply lookup_lt_Some in E. rewrite length_insert. lia.
    + apply lookup_ge_None_1 in E. rewrite length_app. cbn [length]. lia.
Qed.

(** X9.  Filling the list for a frame reuses the pool of render items.
    After [init] and the calls of [push] and [unshift], the index is the
    number of calls, the first slots of the pool hold the items of the
    calls in their order, the slots behind them are those of the frames
    before, and the pool has grown only when the frame has more items
    than the pool had slots.  Each bucket holds, in some order, the items
    of the calls whose material belongs to it. *)
Theorem fill_reuses_the_pool (es : list Entry) (s : State) :
  let s' := fill es s in
  renderItemsIndex s' = length es /\
  take (length es) (renderItems s') = item_of <$> es /\
  drop (length es) (renderItems s') = drop (length es) (renderItems s) /\
  length (renderItems s') = Nat.max (length (renderItems s)) (length es) /\
  forall b,
    Permutation
      (bucket_items b s')
      (filter (fun it => Bucket_eqb (bucket_of (material it)) b = true)
              (item_of <$> es)).
Proof.
  cbv zeta. induction es as [|e es IH] using rev_ind.
  - unfold fill. cbn. repeat split; try lia.
    intros []; reflexivity.
  - destruct IH as (Hi & Ht & Hd & Hl & Hb).
    rewrite fill_snoc.
    destruct (insert_effect (fill es s) e) as (Hi' & Hp' & Hb').
    rewrite length_app, fmap_app. cbn [length fmap list_fmap].
    replace (length es + 1)%nat with (S (length es)) by lia.
    rewrite Hi', Hp', Hi.
    split; [reflexivity|].
    destruct (renderItems (fill es s) !! length es) as [x|] eqn:E.
    + pose proof (lookup_lt_Some _ _ _ E) as Hlt.
      split; [|split; [|split]].
      * rewrite (take_S_r _ _ (item_of e))
          by (apply list_lookup_insert_eq; exact Hlt).
        rewrite take_insert_ge by lia. now rewrite Ht.
      * rewrite drop_insert_lt by lia.
        replace (S (length es)) with (length es + 1)%nat by lia.
        rewrite <- !drop_drop, Hd. reflexivity.
      * rewrite length_insert. lia.
      * intros b. rewrite (Hb' b), filter_app.
        unfold filter at 2. cbn [list_filter].
        change (material (item_of e)) with (entry_material e).
        destruct (Bucket_eqb (bucket_of (entry_material e)) b) eqn:Eb.
        -- rewrite decide_True by reflexivity. rewrite (Hb b).
           apply Permutation_cons_append.
        -- rewrite decide_False by discriminate. rewrite app_nil_r. apply Hb.
    + apply lookup_ge_None_1 in E.
      assert (Hn : (length (renderItems s) <= length es)%nat) by lia.
      split; [|split; [|split]].
      * rewrite take_ge by (rewrite length_app; cbn; lia).
        rewrite <- Ht, (take_ge (renderItems (fill es s))) by lia. reflexivity.
      * rewrite !drop_ge; [reflexivity|lia|rewrite length_app; cbn; lia].
      * rewrite length_app. cbn. lia.
      * intros b. rewrite (Hb' b), filter_app.
        unfold filter at 2. cbn [list_filter].
        change (material (item_of e)) with (entry_material e).
        destruct (Bucket_eqb (bucket_of (entry_material e)) b) eqn:Eb.
        -- rewrite decide_True by reflexivity. rewrite (Hb b).
           apply Permutation_cons_append.
        -- rewrite decide_False by discriminate. rewrite app_nil_r. apply Hb.
Qed.

Lemma pooled_fill (es : list Entry) (q : Pooled) :
  list_state (fold_left pooled_insert es q)
  = fold_left insert es (list_state q).
Proof.
  revert q. induction es as [|e es IH]; intros q; [reflexivity|].
  cbn [fold_left]. now rewrite IH.
Qed.

Lemma filling_insert (p : Pooled) (e : Entry) :
  filling p -> filling (pooled_insert p e).
Proof.
  intros (a & Hi & Ha & Hf).
  destruct (insert_effect (list_state p) e) as (Hi' & Hp' & _).
  unfold filling, pooled_insert. cbn [list_state is_null].
  rewrite Hi', Hp'.
  set (i := renderItemsIndex (list_state p)) in *.
  set (pool := renderItems (list_state p)) in *.
  assert (Hlen : length (is_null p) = length pool).
  { rewrite Hf, length_app, !length_replicate. lia. }
  destruct (pool !! i) as [x|] eqn:E.
  - pose proof (lookup_lt_Some _ _ _ E) as Hlt.
    destruct (is_null p !! i) as [y|] eqn:F;
      [|apply lookup_ge_None_1 in F; lia].
    rewrite length_insert.
    destruct (decide (i < a)%nat) as [Hia|Hia].
    + exists a. split; [lia|]. split; [lia|].
      rewrite list_insert_id; [exact Hf|].
      rewrite Hf, lookup_app_l by (rewrite length_replicate; lia).
      apply lookup_replicate_2. lia.
    + assert (i = a) by lia. subst a.
      exists (S i). split; [lia|]. split; [lia|].
      rewrite Hf, insert_app_r_alt by (rewrite length_replicate; lia).
      rewrite length_replicate, Nat.sub_diag.
      destruct (length pool - i)%nat as [|m] eqn:Em; [lia|].
      replace (length pool - S i)%nat with m by lia.
      rewrite (replicate_S_end i false), <- app_assoc. reflexivity.
  - apply lookup_ge_None_1 in E.
    destruct (is_null p !! i) as [y|] eqn:F;
      [apply lookup_lt_Some in F; lia|].
    assert (i = a /\ a = length pool) as [-> Hn] by lia.
    exists (S a). rewrite length_app. cbn [length].
    split; [lia|]. split; [lia|].
    rewrite Hf, (replicate_S_end a false).
    replace (length pool - a)%nat with 0%nat by lia.
    replace (length pool + 1 - S a)%nat with 0%nat by lia.
    cbn. now rewrite !app_nil_r.
Qed.

Lemma filling_fold (es : list Entry) (p : Pooled) :
  filling p -> filling (fold_left pooled_insert es p).
Proof.
  revert p. induction es as [|e es IH]; intros p Hp; [exact Hp|].
  cbn [fold_left]. apply IH, filling_insert, Hp.
Qed.

Lemma finish_loop_replicate (k m : nat) :
  finish_loop (replicate k false ++ replicate m true)
  = replicate (k + m) true.
Proof.
  induction k as [|k IH]; cbn.
  - destruct m; reflexivity.
  - now rewrite IH.
Qed.

Lemma finish_filling (p : Pooled) :
  filling p ->
  is_null (finish p)
  = replicate (renderItemsIndex (list_state p)) false
    ++ replicate (length (renderItems (list_state p))
                  - renderItemsIndex (list_state p)) true.
Proof.
  intros (a & Hi & Ha & Hf). unfold finish. cbn [is_null].
  set (i := renderItemsIndex (list_state p)) in *.
  set (n := length (renderItems (list_state p))) in *.
  rewrite Hf.
  rewrite take_app_le, take_replicate by (rewrite length_replicate; lia).
  rewrite drop_app_le, drop_replicate by (rewrite length_replicate; lia).
  rewrite finish_loop_replicate.
  f_equal; f_equal; lia.
Qed.

Lemma longest_snoc (fs : list (bool * list Entry)) (f : bool * list Entry) :
  longest (fs ++ [f]) = Nat.max (longest fs) (length (snd f)).
Proof.
  induction fs as [|g fs IH]; cbn; [lia|].
  unfold longest in IH. rewrite IH. lia.
Qed.

Lemma frame_state (p : Pooled) (b : bool) (es : list Entry) :
  renderItems (list_state (frame p (b, es)))
  = renderItems (fill es (list_state p)) /\
  renderItemsIndex (list_state (frame p (b, es)))
  = renderItemsIndex (fill es (list_state p)) /\
  is_null (frame p (b, es))
  = is_null (finish (fold_left pooled_insert es (pooled_init p))).
Proof.
  unfold frame, fill, finish. destruct b; cbn [list_state is_null sort renderItems renderItemsIndex];
    rewrite pooled_fill; repeat split; reflexivity.
Qed.

Lemma used_le_longest (fs : list (bool * list Entry)) :
  (from_option (fun f => length (snd f)) 0 (last fs) <= longest fs)%nat.
Proof.
  induction fs as [|f fs _] using rev_ind; [cbn; lia|].
  rewrite last_snoc, longest_snoc. cbn. lia.
Qed.

(** X10.  After every frame the pool of a render list is as long as the
    longest frame so far, the index is the number of items of the last
    frame, and exactly the pooled items from the index on have their
    references cleared: although the loop of [finish] stops at the first
    cleared item, no item that the last frame did not use keeps a
    reference to an object, geometry or material. *)
Theorem finish_clears_every_unused_item (fs : list (bool * list Entry)) :
  let p := frames fs in
  let used := from_option (fun f => length (snd f)) 0%nat (last fs) in
  renderItemsIndex (list_state p) = used /\
  length (renderItems (list_state p)) = longest fs /\
  is_null p = replicate used false ++ replicate (longest fs - used) true.
Proof.
  cbv zeta. induction fs as [|[b es] fs IH] using rev_ind.
  - cbn. repeat split; reflexivity.
  - destruct IH as (Hi & Hl & Hf).
    unfold frames in *. rewrite fold_left_app. cbn [fold_left].
    set (p := fold_left frame fs empty_pool) in *.
    destruct (frame_state p b es) as (Er & Ei & En).
    destruct (fill_index_length es (list_state p)) as (Fi & Fl).
    rewrite last_snoc, longest_snoc. cbn [from_option snd].
    rewrite Er, Ei, En, Fi, Fl, Hl.
    split; [reflexivity|]. split; [reflexivity|].
    rewrite finish_filling.
    + rewrite pooled_fill. change (fold_left insert es (list_state (pooled_init p)))
        with (fill es (list_state p)).
      now rewrite Fi, Fl, Hl.
    + apply filling_fold.
      exists (renderItemsIndex (list_state p)).
      cbn [pooled_init list_state is_null init renderItemsIndex renderItems].
      split; [lia|]. rewrite Hl, Hf, Hi.
      split; [|reflexivity].
      pose proof (used_le_longest fs). lia.
Qed.

End RenderListFrameFacts.
(** ** The lists of the scenes *)
Module WebGLRenderListsFacts.

Import WebGLRenderLists.

Lemma get_effect (scene d : nat) (s : Lists) :
  let n := length (listArray_of scene s) in
  (d < n)%nat /\ get scene d s = (default 0%nat (listArray_of scene s !! d), s)
  \/
  (n <= d)%nat /\ fst (get scene d s) = created s /\
  created (snd (get scene d s)) = S (created s) /\
  listArray_of scene (snd (get scene d s))
  = listArray_of scene s ++ [created s] /\
  forall scene', scene' <> scene ->
    listArray_of scene' (snd (get scene d s)) = listArray_of scene' s.
Proof.
  cbv zeta. unfold get, listArray_of.
  destruct (lists s !! scene) as [listArray|] eqn:E; cbn [default from_option id].
  - destruct (listArray !! d) as [l|] eqn:F.
    + left. split; [|reflexivity]. now apply lookup_lt_Some in F.
    + apply lookup_ge_None_1 in F.
      right. cbn [fst snd lists created].
      rewrite lookup_insert_eq. cbn.
      repeat split; try lia.
      intros scene' Hne. now rewrite lookup_insert_ne.
  - right. cbn [fst snd lists created length].
    rewrite lookup_insert_eq. cbn.
    repeat split; try lia.
    intros scene' Hne. now rewrite lookup_insert_ne.
Qed.

Lemma lists_Inv_initial : Inv initial.
Proof.
  split; unfold listArray_of; cbn; intros *; rewrite lookup_empty; cbn;
    intros H; discriminate.
Qed.

Lemma lists_Inv_get (scene d : nat) (s : Lists) :
  Inv s -> Inv (snd (get scene d s)).
Proof.
  intros [Hm Hu].
  destruct (get_effect scene d s) as [[_ ->]|(_ & _ & Hc & Ha & Ho)];
    [split; assumption|].
  set (s' := snd (get scene d s)) in *.
  assert (Hin : forall sc i l, listArray_of sc s' !! i = Some l ->
            listArray_of sc s !! i = Some l \/
            sc = scene /\ i = length (listArray_of scene s) /\ l = created s).
  { intros sc i l Hl. destruct (decide (sc = scene)) as [->|Hne].
    - rewrite Ha in Hl. apply lookup_app_Some in Hl as [Hl|[Hge Hl]]; [auto|].
      right. apply list_lookup_singleton_Some in Hl as [Hi ->].
      split; [reflexivity|]. split; [lia|reflexivity].
    - rewrite (Ho sc Hne) in Hl. auto. }
  split.
  - intros sc i l Hl. rewrite Hc.
    destruct (Hin sc i l Hl) as [H|(_ & _ & ->)]; [|lia].
    specialize (Hm _ _ _ H). lia.
  - intros sc sc' i j l Hl Hl'.
    destruct (Hin sc i l Hl) as [H|(F1 & F2 & F3)],
             (Hin sc' j l Hl') as [H'|(E1 & E2 & E3)].
    + exact (Hu _ _ _ _ _ H H').
    + subst l. specialize (Hm _ _ _ H). lia.
    + subst l. specialize (Hm _ _ _ H'). lia.
    + subst. auto.
Qed.

Lemma lists_Inv_run (cs : list Call) : Inv (run cs).
Proof.
  unfold run. induction cs as [|c cs IH] using rev_ind; [exact lists_Inv_initial|].
  rewrite fold_left_app. cbn [fold_left]. destruct c as [scene d|]; cbn [step].
  - now apply lists_Inv_get.
  - split; unfold listArray_of, dispose; cbn; intros *; rewrite lookup_empty;
      cbn; intros H; discriminate.
Qed.

(** X11.  After any calls of [get] and [dispose]: no render list is in
    the arrays of two scenes or twice in one array.  [get] with a depth
    below the length of the scene's array returns the list at the depth
    and changes nothing.  With any other depth it makes a new list,
    which is in no array yet, and pushes it at the end of the array of
    the scene (not at the depth), leaving the other scenes alone.  So a
    second [get] with the same arguments returns the same list exactly
    when the depth is at most the length the array had. *)
Theorem scene_lists_are_stable_and_unshared (cs : list Call) :
  let s := run cs in
  (forall scene scene' i j l,
      listArray_of scene s !! i = Some l ->
      listArray_of scene' s !! j = Some l -> scene = scene' /\ i = j) /\
  (forall scene d l,
      listArray_of scene s !! d = Some l -> get scene d s = (l, s)) /\
  (forall scene d,
      listArray_of scene s !! d = None ->
      let l := fst (get scene d s) in
      let s' := snd (get scene d s) in
      (forall scene' i, listArray_of scene' s !! i <> Some l) /\
      listArray_of scene s' = listArray_of scene s ++ [l] /\
      (forall scene', scene' <> scene ->
                      listArray_of scene' s' = listArray_of scene' s)) /\
  (forall scene d,
      fst (get scene d (snd (get scene d s))) = fst (get scene d s)
      <-> (d <= length (listArray_of scene s))%nat).
Proof.
  cbv zeta. pose proof (lists_Inv_run cs) as [Hm Hu].
  set (s := run cs) in *.
  split; [exact Hu|]. split; [|split].
  - intros scene d l Hl.
    destruct (get_effect scene d s) as [[_ E]|(Hge & _)].
    + rewrite E, Hl. reflexivity.
    + apply lookup_lt_Some in Hl. lia.
  - intros scene d Hn. apply lookup_ge_None_1 in Hn.
    destruct (get_effect scene d s) as [[Hlt _]|(_ & Hf & _ & Ha & Ho)]; [lia|].
    rewrite Hf. split; [|split; assumption].
    intros scene' i H. specialize (Hm _ _ _ H). lia.
  - intros scene d.
    destruct (get_effect scene d s) as [[Hlt E]|(Hge & Hf & Hc & Ha & Ho)].
    + rewrite E. cbn [fst snd]. rewrite E. cbn [fst]. split; [lia|reflexivity].
    + set (s' := snd (get scene d s)) in *.
      destruct (get_effect scene d s') as [[Hlt E]|(Hge' & Hf' & _)].
      * rewrite E, Hf. cbn [fst]. rewrite Ha in *.
        rewrite length_app in Hlt. cbn [length] in Hlt.
        assert (d = length (listArray_of scene s)) as -> by lia.
        rewrite lookup_app_r, Nat.sub_diag by lia. cbn. split; [lia|reflexivity].
      * rewrite Hf', Hf, Hc. rewrite Ha, length_app in Hge'. cbn [length] in Hge'.
        split; lia.
Qed.

Lemma scene_lists_are_stable_and_unshared_witness :
  listArray_of 7%nat (run [Get 7%nat 0%nat]) !! 0%nat = Some 0%nat /\
  get 7%nat 0%nat (run [Get 7%nat 0%nat]) = (0%nat, run [Get 7%nat 0%nat]).
Proof.
  split; [vm_compute; reflexivity|].
  apply (proj1 (proj2 (scene_lists_are_stable_and_unshared [Get 7%nat 0%nat]))).
  vm_compute. reflexivity.
Defined.

End WebGLRenderListsFacts.

(** ** Binding states *)
Module WebGLBindingStatesFacts.

Import WebGLBindingStates.

Lemma saveCache_loop_spec (object : Object3D)
      (geometryAttributes : gmap string Attribute)
      (programAttributes : ProgramAttributes) :
  snd (saveCache_loop object geometryAttributes programAttributes)
  = length (active programAttributes) /\
  forall name,
    fst (saveCache_loop object geometryAttributes programAttributes) !! name
    = if bool_decide (name ∈ active programAttributes)
      then Some (entry_of name object geometryAttributes) else None.
Proof.
  unfold saveCache_loop, active.
  induction programAttributes as [|[name' location] pas IH] using rev_ind.
  - cbn. split; [reflexivity|]. intros name. rewrite lookup_empty.
    rewrite bool_decide_eq_false_2; [reflexivity|]. apply not_elem_of_nil.
  - rewrite fold_left_app, filter_app, fmap_app, length_app. cbn [fold_left].
    destruct (fold_left _ pas _) as [cache n].
    cbn [fst snd] in IH. destruct IH as [-> IH].
    destruct (Z.leb_spec 0 location) as [Hle|Hlt].
    + rewrite filter_cons_True, filter_nil by exact Hle. cbn [fmap list_fmap fst snd length].
      split; [rewrite Nat.add_1_r; reflexivity|]. intros name.
      destruct (decide (name = name')) as [->|Hne].
      * rewrite lookup_insert_eq, bool_decide_eq_true_2; [reflexivity|].
        apply elem_of_app. right. apply list_elem_of_singleton. reflexivity.
      * rewrite lookup_insert_ne, IH by congruence.
        apply (f_equal (fun b : bool => if b then _ else _)).
        apply bool_decide_ext. rewrite elem_of_app, list_elem_of_singleton. tauto.
    + rewrite filter_cons_False, filter_nil by (cbn; lia).
      cbn [fmap list_fmap length]. rewrite app_nil_r.
      split; [rewrite Nat.add_0_r; reflexivity|]. exact IH.
Qed.

Lemma needsUpdate_loop_spec (cache : gmap string CachedAttribute)
      (object : Object3D) (geometryAttributes : gmap string Attribute)
      (programAttributes : ProgramAttributes) (n : nat) :
  (forall name, name ∈ active programAttributes ->
                exists c, cache !! name = Some c /\
                          same_attribute c (geometryAttribute_of name object geometryAttributes)) /\
  needsUpdate_loop cache object geometryAttributes programAttributes n
  = Some (n + length (active programAttributes))%nat
  \/
  ~ (forall name, name ∈ active programAttributes ->
                  exists c, cache !! name = Some c /\
                            same_attribute c (geometryAttribute_of name object geometryAttributes)) /\
  needsUpdate_loop cache object geometryAttributes programAttributes n = None.
Proof.
  unfold active. revert n.
  induction programAttributes as [|[name location] pas IH]; intros n.
  - left. cbn. split; [|f_equal; lia]. intros name H. now apply elem_of_nil in H.
  - cbn [needsUpdate_loop].
    destruct (Z.leb_spec 0 location) as [Hle|Hlt].
    + rewrite filter_cons_True by exact Hle. cbn [fmap list_fmap fst length].
      destruct (cache !! name) as [c|] eqn:Ec.
      * destruct (decide (cached_attribute c = attribute_ref <$>
                            geometryAttribute_of name object geometryAttributes))
          as [Ha|Ha].
        -- rewrite (bool_decide_eq_true_2 _ Ha). cbn [negb].
           destruct (geometryAttribute_of name object geometryAttributes)
             as [a|] eqn:Eg.
           ++ destruct (decide (cached_data c = attribute_data a)) as [Hd|Hd].
              ** rewrite (bool_decide_eq_true_2 _ Hd). cbn [negb].
                 destruct (IH (S n)) as [[Hall ->]|[Hnot ->]].
                 --- left. split; [|f_equal; lia].
                     intros name' [->|Hin]%elem_of_cons; [|auto].
                     exists c. rewrite Eg. split; [exact Ec|]. split; [exact Ha|].
                     intros a' [= <-]. exact Hd.
                 --- right. split; [|reflexivity]. intros Hall. apply Hnot.
                     intros name' Hin. apply Hall. now apply elem_of_cons; right.
              ** rewrite (bool_decide_eq_false_2 _ Hd). cbn [negb].
                 right. split; [|reflexivity]. intros Hall.
                 destruct (Hall name) as (c' & Ec' & _ & Hd'); [apply elem_of_cons; auto|].
                 rewrite Ec in Ec'. injection Ec' as <-. rewrite Eg in Hd'.
                 apply Hd, Hd'. reflexivity.
           ++ destruct (IH (S n)) as [[Hall ->]|[Hnot ->]].
              ** left. split; [|f_equal; lia].
                 intros name' [->|Hin]%elem_of_cons; [|auto].
                 exists c. rewrite Eg. split; [exact Ec|]. split; [exact Ha|].
                 intros a' [=].
              ** right. split; [|reflexivity]. intros Hall. apply Hnot.
                 intros name' Hin. apply Hall. now apply elem_of_cons; right.
        -- rewrite (bool_decide_eq_false_2 _ Ha). cbn [negb].
           right. split; [|reflexivity]. intros Hall.
           destruct (Hall name) as (c' & Ec' & Ha' & _); [apply elem_of_cons; auto|].
           rewrite Ec in Ec'. injection Ec' as <-. exact (Ha Ha').
      * right. split; [|reflexivity]. intros Hall.
        destruct (Hall name) as (c' & Ec' & _); [apply elem_of_cons; auto|].
        rewrite Ec in Ec'. discriminate.
    + rewrite filter_cons_False by (cbn; lia). apply IH.
Qed.

Lemma active_elem (programAttributes : list (string * Z)) (name : string) :
  name ∈ active programAttributes
  <-> exists location, (name, location) ∈ programAttributes /\ (0 <= location)%Z.
Proof.
  unfold active. rewrite list_elem_of_fmap. split.
  - intros ([n l] & -> & [Hl Hin]%list_elem_of_filter). exists l. auto.
  - intros (l & Hin & Hl). exists (name, l). split; [reflexivity|].
    apply list_elem_of_filter. auto.
Qed.

(** X12.  [needsUpdate] against what [saveCache] has stored.  Right
    after [saveCache], [needsUpdate] with the same arguments is false.
    With other arguments it is false exactly when the index is the one
    stored and, for every attribute of the program that has a location,
    the attribute of the geometry is the object stored and, if there is
    one, its [data] is the [data] stored.  A state that
    [createBindingState] has just made always needs an update. *)
Theorem needsUpdate_detects_the_changes
        (object object' : Object3D)
        (geometryAttributes geometryAttributes' : gmap string Attribute)
        (programAttributes : ProgramAttributes) (index index' : option nat)
        (st : BindingState) (maxVertexAttributes : nat) (vao : option nat) :
  let saved := saveCache object geometryAttributes programAttributes index st in
  needsUpdate object geometryAttributes programAttributes index saved = false /\
  (needsUpdate object' geometryAttributes' programAttributes index' saved = false
   <-> index' = index /\
       forall name location,
         (name, location) ∈ programAttributes -> (0 <= location)%Z ->
         let a := geometryAttribute_of name object geometryAttributes in
         let a' := geometryAttribute_of name object' geometryAttributes' in
         attribute_ref <$> a' = attribute_ref <$> a /\
         (a' = None \/ a' ≫= attribute_data = a ≫= attribute_data)) /\
  needsUpdate object geometryAttributes programAttributes index
              (createBindingState maxVertexAttributes vao) = true.
Proof.
  cbv zeta.
  assert (Hiff : needsUpdate object' geometryAttributes' programAttributes index'
                   (saveCache object geometryAttributes programAttributes index st)
                 = false
   <-> index' = index /\
       forall name location,
         (name, location) ∈ programAttributes -> (0 <= location)%Z ->
         attribute_ref <$> geometryAttribute_of name object' geometryAttributes'
         = attribute_ref <$> geometryAttribute_of name object geometryAttributes /\
         (geometryAttribute_of name object' geometryAttributes' = None \/
          geometryAttribute_of name object' geometryAttributes' ≫= attribute_data
          = geometryAttribute_of name object geometryAttributes ≫= attribute_data)).
  { unfold needsUpdate, saveCache.
    destruct (saveCache_loop_spec object geometryAttributes programAttributes)
      as [Hn Hc].
    destruct (saveCache_loop object geometryAttributes programAttributes)
      as [cache n]. cbn [fst snd] in Hn, Hc. subst n.
    cbn [attributes attributesNum WebGLBindingStates.index].
    destruct (needsUpdate_loop_spec cache object' geometryAttributes'
                programAttributes 0) as [[Hall ->]|[Hnot ->]].
    - cbn [Nat.add]. rewrite bool_decide_eq_true_2 by reflexivity. cbn [negb].
      rewrite negb_false_iff, bool_decide_eq_true.
      split.
      + intros ->. split; [reflexivity|]. intros name location Hin Hle.
        destruct (Hall name) as (c & Ec & Ha & Hd);
          [apply active_elem; eauto|].
        rewrite Hc, bool_decide_eq_true_2 in Ec by (apply active_elem; eauto).
        injection Ec as <-. cbn in Ha, Hd. split; [now rewrite Ha|].
        destruct (geometryAttribute_of name object' geometryAttributes')
          as [a'|]; [right|left; reflexivity].
        cbn. symmetry. now apply Hd.
      + intros [-> _]. reflexivity.
    - split; [discriminate|]. intros [_ H]. exfalso. apply Hnot.
      intros name (location & Hin & Hle)%active_elem.
      exists (entry_of name object geometryAttributes).
      rewrite Hc, bool_decide_eq_true_2 by (apply active_elem; eauto).
      split; [reflexivity|].
      destruct (H name location Hin Hle) as [Hr Hd]. split.
      + cbn. now rewrite Hr.
      + intros a Ea. cbn. destruct Hd as [Hd|Hd]; [congruence|].
        rewrite <- Hd, Ea. reflexivity. }
  split; [|split; [exact Hiff|]].
  - clear Hiff. unfold needsUpdate, saveCache.
    destruct (saveCache_loop_spec object geometryAttributes programAttributes)
      as [Hn Hc].
    destruct (saveCache_loop object geometryAttributes programAttributes)
      as [cache n]. cbn [fst snd] in Hn, Hc. subst n.
    cbn [attributes attributesNum WebGLBindingStates.index].
    destruct (needsUpdate_loop_spec cache object geometryAttributes
                programAttributes 0) as [[Hall ->]|[Hnot ->]].
    + cbn [Nat.add]. now rewrite !bool_decide_eq_true_2.
    + exfalso. apply Hnot. intros name Hin.
      exists (entry_of name object geometryAttributes).
      rewrite Hc, bool_decide_eq_true_2 by exact Hin.
      split; [reflexivity|]. split; [reflexivity|].
      intros a Ea. cbn. now rewrite Ea.
  - unfold needsUpdate, createBindingState.
    cbn [attributes attributesNum WebGLBindingStates.index].
    destruct (needsUpdate_loop _ _ _ _ _); reflexivity.
Qed.

(** *** The vertex attribute arrays *)

Lemma array_get_set (l : JSArray) (i j : nat) (v : Z) :
  (i < length l)%nat ->
  array_get (array_set i v l) j
  = if decide (j = i) then Some v else array_get l j.
Proof.
  intros Hi. unfold array_get, array_set. rewrite decide_True by exact Hi.
  destruct (decide (j = i)) as [->|Hne].
  - now rewrite list_lookup_insert_eq.
  - now rewrite list_lookup_insert_ne.
Qed.

Lemma array_set_length (l : JSArray) (i : nat) (v : Z) :
  (i < length l)%nat -> length (array_set i v l) = length l.
Proof.
  intros Hi. unfold array_set. rewrite decide_True by exact Hi.
  apply length_insert.
Qed.

Lemma gl_run_app (l1 l2 : list GLCall) (vao : VertexArray) :
  gl_run (l1 ++ l2) vao = gl_run l2 (gl_run l1 vao).
Proof. apply fold_left_app. Qed.

Lemma redundant_calls_app (l1 l2 : list GLCall) (vao : VertexArray) :
  redundant_calls vao (l1 ++ l2)
  = (redundant_calls vao l1 + redundant_calls (gl_run l1 vao) l2)%nat.
Proof.
  revert vao. induction l1 as [|c l1 IH]; intros vao; [reflexivity|].
  cbn [app redundant_calls gl_run fold_left]. rewrite IH. unfold gl_run. lia.
Qed.

Lemma enable_arrays (st : BindingState) (log : list GLCall) (a : nat) (d : Z) :
  let c' := enableAttributeAndDivisor a d (st, log) in
  let b1 := bool_decide (array_get (enabledAttributes st) a = Some 0) in
  let b2 := negb (bool_decide (array_get (attributeDivisors st) a = Some d)) in
  newAttributes (fst c') = array_set a 1 (newAttributes st) /\
  enabledAttributes (fst c')
  = (if b1 then array_set a 1 (enabledAttributes st) else enabledAttributes st) /\
  attributeDivisors (fst c')
  = (if b2 then array_set a d (attributeDivisors st) else attributeDivisors st) /\
  snd c' = log ++ (if b1 then [enableVertexAttribArray a] else [])
               ++ (if b2 then [vertexAttribDivisor a d] else []).
Proof.
  cbv zeta. unfold enableAttributeAndDivisor.
  destruct (bool_decide (array_get (enabledAttributes st) a = Some 0));
    destruct (bool_decide (array_get (attributeDivisors st) a = Some d));
    cbn; rewrite <- ?app_assoc, ?app_nil_r; auto.
Qed.

Lemma enable_calls_run (vao : VertexArray) (a : nat) (d : Z) :
  enabled (gl_run (enable_calls vao a d) vao) = {[a]} ∪ enabled vao /\
  (forall i, divisor_of (gl_run (enable_calls vao a d) vao) i
             = if decide (a = i) then d else divisor_of vao i) /\
  redundant_calls vao (enable_calls vao a d) = 0%nat.
Proof.
  unfold enable_calls.
  destruct (decide (a ∈ enabled vao)) as [Hin|Hin];
    [rewrite (bool_decide_eq_true_2 _ Hin)
    |rewrite (bool_decide_eq_false_2 _ Hin)];
    (destruct (decide (divisor_of vao a = d)) as [Hd|Hd];
     [rewrite (bool_decide_eq_true_2 _ Hd)
     |rewrite (bool_decide_eq_false_2 _ Hd)]);
    cbn [app gl_run fold_left gl_call redundant_calls redundant enabled divisors];
    rewrite ?(bool_decide_eq_false_2 _ Hin), ?(bool_decide_eq_false_2 _ Hd);
    (split; [apply set_eq; intros j;
             rewrite ?elem_of_union, ?elem_of_singleton;
             split; [auto|intros [->|?]; auto]|]);
    (split; [|reflexivity]); intros i;
    unfold divisor_of; cbn [divisors];
    destruct (decide (a = i)) as [<-|Hne];
    rewrite ?lookup_insert_eq, ?lookup_insert_ne by exact Hne;
    try reflexivity; exact Hd.
Qed.

Lemma mirror_bit (P : Prop) `{Decision P} :
  bool_decide (Some (if bool_decide P then 1 else 0) = Some 0)
  = negb (bool_decide P).
Proof. destruct (bool_decide P); reflexivity. Qed.

Lemma mirror_value (x d : Z) :
  bool_decide (Some x = Some d) = bool_decide (x = d).
Proof. apply bool_decide_ext. split; congruence. Qed.

(** One call of [enableAttributeAndDivisor] for a location below [n]. *)
Lemma enable_step (n : nat) (st : BindingState) (vao : VertexArray)
      (log : list GLCall) (a : nat) (d : Z) :
  Mirror n st vao -> (a < n)%nat ->
  snd (enableAttributeAndDivisor a d (st, log)) = log ++ enable_calls vao a d /\
  Mirror n (fst (enableAttributeAndDivisor a d (st, log)))
         (gl_run (enable_calls vao a d) vao) /\
  newAttributes (fst (enableAttributeAndDivisor a d (st, log)))
  = array_set a 1 (newAttributes st).
Proof.
  intros [Hn He Hd Hme Hmd Hr] Ha.
  destruct (enable_arrays st log a d) as (En & Ee & Ed & El).
  rewrite (Hme a Ha), mirror_bit in Ee, El.
  rewrite (Hmd a Ha), mirror_value in Ed, El.
  destruct (enable_calls_run vao a d) as (Re & Rd & _).
  split; [|split; [|exact En]].
  - rewrite El. unfold enable_calls.
    destruct (bool_decide (a ∈ enabled vao)),
             (bool_decide (divisor_of vao a = d)); reflexivity.
  - split.
    + rewrite En, array_set_length; lia.
    + rewrite Ee. destruct (negb (bool_decide (a ∈ enabled vao)));
        rewrite ?array_set_length; lia.
    + rewrite Ed. destruct (negb (bool_decide (divisor_of vao a = d)));
        rewrite ?array_set_length; lia.
    + intros i Hi. rewrite Ee, Re.
      destruct (decide (i = a)) as [->|Hne].
      * rewrite (bool_decide_eq_true_2 (a ∈ {[a]} ∪ enabled vao))
          by (apply elem_of_union; left; now apply elem_of_singleton).
        destruct (decide (a ∈ enabled vao)) as [Hin|Hin].
        -- rewrite (bool_decide_eq_true_2 _ Hin). cbn [negb].
           rewrite (Hme a Ha), (bool_decide_eq_true_2 _ Hin). reflexivity.
        -- rewrite (bool_decide_eq_false_2 _ Hin). cbn [negb].
           rewrite array_get_set, decide_True by (reflexivity || lia).
           reflexivity.
      * rewrite (bool_decide_ext (i ∈ {[a]} ∪ enabled vao) (i ∈ enabled vao))
          by (rewrite elem_of_union, elem_of_singleton; tauto).
        destruct (negb (bool_decide (a ∈ enabled vao))); [|now apply Hme].
        rewrite array_get_set, decide_False by (assumption || lia).
        now apply Hme.
    + intros i Hi. rewrite Ed, Rd.
      destruct (decide (a = i)) as [<-|Hne].
      * destruct (decide (divisor_of vao a = d)) as [Hdv|Hdv].
        -- rewrite (bool_decide_eq_true_2 _ Hdv). cbn [negb].
           rewrite (Hmd a Ha), Hdv. reflexivity.
        -- rewrite (bool_decide_eq_false_2 _ Hdv). cbn [negb].
           rewrite array_get_set, decide_True by (reflexivity || lia).
           reflexivity.
      * destruct (negb (bool_decide (divisor_of vao a = d))); [|now apply Hmd].
        rewrite array_get_set, decide_False by (congruence || lia).
        now apply Hmd.
    + intros i. rewrite Re. intros [->%elem_of_singleton|Hin]%elem_of_union;
        [exact Ha|now apply Hr].
Qed.

Lemma enables_fold (n : nat) (used : list (nat * Z)) :
  forall (st : BindingState) (vao : VertexArray) (log : list GLCall),
    Mirror n st vao ->
    (forall a d, (a, d) ∈ used -> (a < n)%nat) ->
    let c' := fold_left (fun c '(attribute, meshPerAttribute) =>
                           enableAttributeAndDivisor attribute meshPerAttribute c)
                        used (st, log) in
    exists calls,
      snd c' = log ++ calls /\
      Mirror n (fst c') (gl_run calls vao) /\
      (forall i, i ∈ enabled (gl_run calls vao)
                 <-> i ∈ used.*1 \/ i ∈ enabled vao) /\
      (forall i, divisor_of (gl_run calls vao) i
                 = requested_divisor used i (divisor_of vao i)) /\
      redundant_calls vao calls = 0%nat /\
      (forall i, (i < n)%nat ->
                 array_get (newAttributes (fst c')) i
                 = if bool_decide (i ∈ used.*1) then Some 1
                   else array_get (newAttributes st) i).
Proof.
  induction used as [|[a d] used IH]; intros st vao log Hm Hu; cbv zeta.
  - exists []. cbn. rewrite app_nil_r.
    split; [reflexivity|]. split; [exact Hm|]. split; [|auto].
    intros i. rewrite elem_of_nil. tauto.
  - cbn [fold_left].
    assert (Ha : (a < n)%nat) by (apply (Hu a d), elem_of_cons; auto).
    destruct (enable_step n st vao log a d Hm Ha) as (El & Hm1 & En).
    destruct (enable_calls_run vao a d) as (Re & Rd & Rr).
    destruct (enableAttributeAndDivisor a d (st, log)) as [st1 log1].
    cbn [fst snd] in El, Hm1, En. subst log1.
    destruct (IH st1 _ (log ++ enable_calls vao a d) Hm1) as
      (calls & Hl & Hm2 & He & Hd & Hr & Hnew).
    { intros a' d' Hin. apply (Hu a' d'), elem_of_cons. auto. }
    exists (enable_calls vao a d ++ calls).
    rewrite gl_run_app, redundant_calls_app, Rr, Hr, Hl, app_assoc.
    split; [reflexivity|]. split; [exact Hm2|]. split; [|split; [|split]].
    + intros i. rewrite He, Re. cbn [fmap list_fmap fst].
      rewrite elem_of_union, elem_of_singleton, elem_of_cons. tauto.
    + intros i. rewrite Hd, Rd. reflexivity.
    + reflexivity.
    + intros i Hi. rewrite (Hnew i Hi), En. cbn [fmap list_fmap fst].
      destruct Hm as [Hn _ _ _ _ _].
      rewrite array_get_set by lia.
      destruct (decide (i = a)) as [->|Hne].
      * rewrite (bool_decide_eq_true_2 (a ∈ a :: used.*1))
          by (apply elem_of_cons; auto).
        destruct (bool_decide (a ∈ used.*1)); reflexivity.
      * apply (f_equal (fun b : bool => if b then _ else _)).
        apply bool_decide_ext. rewrite elem_of_cons. tauto.
Qed.

Lemma disable_fold (n : nat) (U : list nat) (k : nat) :
  forall (st : BindingState) (vao : VertexArray) (log : list GLCall),
    Mirror n st vao ->
    (forall i, (i < n)%nat ->
               array_get (newAttributes st) i
               = Some (if bool_decide (i ∈ U) then 1 else 0)) ->
    (forall i, i ∈ U -> i ∈ enabled vao) ->
    (k <= n)%nat ->
    let c' := fold_left disable_unused (seq 0 k) (st, log) in
    exists calls,
      snd c' = log ++ calls /\
      Mirror n (fst c') (gl_run calls vao) /\
      newAttributes (fst c') = newAttributes st /\
      (forall i, i ∈ enabled (gl_run calls vao)
                 <-> i ∈ enabled vao /\ ((k <= i)%nat \/ i ∈ U)) /\
      divisors (gl_run calls vao) = divisors vao /\
      redundant_calls vao calls = 0%nat.
Proof.
  induction k as [|k IH]; intros st vao log Hm Hnew HU Hk; cbv zeta.
  - exists []. cbn. rewrite app_nil_r.
    split; [reflexivity|]. split; [exact Hm|]. split; [reflexivity|].
    split; [|auto]. intros i. split; [|tauto].
    intros H. split; [exact H|]. left. lia.
  - rewrite seq_S, fold_left_app. cbn [fold_left Nat.add].
    destruct (IH st vao log Hm Hnew HU) as (calls & Hl & Hm1 & Hn1 & He & Hd & Hr);
      [lia|].
    destruct (fold_left disable_unused (seq 0 k) (st, log)) as [st1 log1].
    cbn [fst snd] in Hl, Hm1, Hn1, He. subst log1.
    set (vao1 := gl_run calls vao) in *.
    unfold disable_unused.
    pose proof (mirror_enabled _ _ _ Hm1 k ltac:(lia)) as Ek.
    rewrite Ek, Hn1, (Hnew k) by lia.
    assert (Hk1 : k ∈ enabled vao1 <-> k ∈ enabled vao).
    { rewrite He. split; [tauto|]. intros H. split; [exact H|]. left. lia. }
    destruct (decide (k ∈ enabled vao)) as [Hin|Hin].
    + rewrite (bool_decide_eq_true_2 (k ∈ enabled vao1)) by tauto.
      destruct (decide (k ∈ U)) as [HinU|HinU].
      * rewrite (bool_decide_eq_true_2 _ HinU).
        rewrite bool_decide_eq_true_2 by reflexivity. cbn [negb fst snd].
        exists calls. fold vao1.
        split; [reflexivity|]. split; [exact Hm1|]. split; [exact Hn1|].
        split; [|split; assumption].
        intros i. rewrite He. split; intros [H1 H2]; (split; [exact H1|]).
        -- destruct H2 as [H2|H2]; [|auto].
           destruct (decide (i = k)) as [->|Hne]; [auto|]. left. lia.
        -- destruct H2 as [H2|H2]; [left; lia|auto].
      * rewrite (bool_decide_eq_false_2 _ HinU).
        rewrite bool_decide_eq_false_2 by discriminate. cbn [negb fst snd].
        exists (calls ++ [disableVertexAttribArray k]).
        rewrite gl_run_app, redundant_calls_app, Hr, app_assoc. fold vao1.
        cbn [gl_run fold_left gl_call redundant_calls redundant enabled divisors].
        split; [reflexivity|]. split; [|split; [reflexivity|split; [|split]]].
        -- destruct Hm1 as [M1 M2 M3 M4 M5 M6].
           split; cbn [with_arrays newAttributes enabledAttributes
                         attributeDivisors enabled divisors];
             rewrite ?array_set_length by lia; try assumption.
           ++ apply (mirror_new _ _ _ Hm).
           ++ intros i Hi. rewrite array_get_set by lia.
              destruct (decide (i = k)) as [->|Hne].
              ** rewrite bool_decide_eq_false_2; [reflexivity|].
                 rewrite elem_of_difference, elem_of_singleton. tauto.
              ** rewrite (M4 i Hi).
                 apply (f_equal (fun b : bool => Some (if b then 1 else 0))).
                 apply bool_decide_ext.
                 rewrite elem_of_difference, elem_of_singleton. tauto.
           ++ intros i. rewrite elem_of_difference. intros [H _]. now apply M6.
        -- intros i. rewrite elem_of_difference, elem_of_singleton, He.
           split.
           ++ intros [[H1 H2] H3]. split; [exact H1|].
              destruct H2 as [H2|H2]; [left; lia|auto].
           ++ intros [H1 H2]. split; [split; [exact H1|]|].
              ** destruct H2 as [H2|H2]; [left; lia|auto].
              ** intros ->. destruct H2 as [H2|H2]; [lia|auto].
        -- exact Hd.
        -- rewrite bool_decide_eq_false_2 by tauto. reflexivity.
    + rewrite (bool_decide_eq_false_2 (k ∈ enabled vao1)) by tauto.
      assert (HinU : k ∉ U) by (intros H; apply Hin, HU, H).
      rewrite (bool_decide_eq_false_2 _ HinU).
      rewrite bool_decide_eq_true_2 by reflexivity. cbn [negb fst snd].
      exists calls. fold vao1.
      split; [reflexivity|]. split; [exact Hm1|]. split; [exact Hn1|].
      split; [|split; assumption].
      intros i. rewrite He. split; intros [H1 H2]; (split; [exact H1|]).
      * destruct H2 as [H2|H2]; [|auto].
        destruct (decide (i = k)) as [->|Hne]; [tauto|]. left. lia.
      * destruct H2 as [H2|H2]; [left; lia|auto].
Qed.

Lemma createBindingState_Mirror (n : nat) (vao : option nat) :
  Mirror n (createBindingState n vao) {| enabled := ∅; divisors := ∅ |}.
Proof.
  split; cbn [createBindingState newAttributes enabledAttributes
                attributeDivisors enabled];
    rewrite ?length_replicate; try reflexivity.
  - intros i Hi. unfold array_get. now rewrite lookup_replicate_2.
  - intros i Hi. unfold array_get. now rewrite lookup_replicate_2.
  - intros i H. now apply elem_of_empty in H.
Qed.

(** X13.  The vertex attribute arrays of a draw call, set as
    [setupVertexAttributes] sets them, for a binding state that mirrors
    its vertex array object over the locations below [n] (as a new
    binding state does) and locations below [n].  Afterwards the state
    mirrors the object again, the enabled arrays of the object are
    exactly the locations used, each location used has the divisor of
    its last call and the other divisors are as before; and no call was
    redundant: every [enableVertexAttribArray] met a disabled array,
    every [disableVertexAttribArray] an enabled one, and every
    [vertexAttribDivisor] changed the divisor. *)
Theorem pass_mirrors_the_vertex_array
        (n : nat) (st : BindingState) (vao : VertexArray)
        (log : list GLCall) (used : list (nat * Z)) :
  Mirror n st vao ->
  (forall a d, (a, d) ∈ used -> (a < n)%nat) ->
  exists calls,
    snd (pass used (st, log)) = log ++ calls /\
    Mirror n (fst (pass used (st, log))) (gl_run calls vao) /\
    enabled (gl_run calls vao) = list_to_set used.*1 /\
    (forall i, divisor_of (gl_run calls vao) i
               = requested_divisor used i (divisor_of vao i)) /\
    redundant_calls vao calls = 0%nat.
Proof.
  intros Hm Hu. unfold pass, initAttributes.
  set (st0 := with_arrays _ _ _ st).
  assert (Hm0 : Mirror n st0 vao).
  { destruct Hm as [M1 M2 M3 M4 M5 M6].
    split; cbn [st0 with_arrays newAttributes enabledAttributes attributeDivisors];
      rewrite ?length_fmap; assumption. }
  assert (Hn0 : forall i, (i < n)%nat -> array_get (newAttributes st0) i = Some 0).
  { intros i Hi. cbn [st0 with_arrays newAttributes]. unfold array_get.
    rewrite list_lookup_fmap.
    destruct (newAttributes st !! i) as [x|] eqn:E; [reflexivity|].
    apply lookup_ge_None_1 in E. rewrite (mirror_new _ _ _ Hm) in E. lia. }
  destruct (enables_fold n used st0 vao log Hm0 Hu)
    as (calls1 & Hl1 & Hm1 & He1 & Hd1 & Hr1 & Hnew1).
  unfold disableUnusedAttributes.
  destruct (fold_left _ used (st0, log)) as [st1 log1].
  cbn [fst snd] in *. subst log1.
  rewrite (mirror_enabled_length _ _ _ Hm1).
  destruct (disable_fold n used.*1 n st1 (gl_run calls1 vao) (log ++ calls1) Hm1)
    as (calls2 & Hl2 & Hm2 & _ & He2 & Hd2 & Hr2).
  { intros i Hi. rewrite (Hnew1 i Hi), (Hn0 i Hi).
    destruct (bool_decide (i ∈ used.*1)); reflexivity. }
  { intros i Hi. apply He1. auto. }
  { lia. }
  exists (calls1 ++ calls2).
  rewrite gl_run_app, redundant_calls_app, Hr1, Hr2, Hl2, app_assoc.
  split; [reflexivity|]. split; [exact Hm2|]. split; [|split; [|reflexivity]].
  - apply set_eq. intros i. rewrite He2, He1, elem_of_list_to_set.
    split.
    + intros [[H|H] [H'|H']]; auto.
      apply (mirror_range _ _ _ Hm) in H. lia.
    + intros H. auto.
  - intros i. unfold divisor_of at 1. rewrite Hd2. apply Hd1.
Qed.

Lemma pass_mirrors_the_vertex_array_witness :
  exists calls,
    snd (pass [(1%nat, 0); (2%nat, 1)] (createBindingState 4 (Some 0%nat), []))
    = [] ++ calls /\
    Mirror 4 (fst (pass [(1%nat, 0); (2%nat, 1)]
                        (createBindingState 4 (Some 0%nat), [])))
           (gl_run calls {| enabled := ∅; divisors := ∅ |}) /\
    enabled (gl_run calls {| enabled := ∅; divisors := ∅ |})
    = list_to_set [(1%nat, 0); (2%nat, 1)].*1 /\
    (forall i, divisor_of (gl_run calls {| enabled := ∅; divisors := ∅ |}) i
               = requested_divisor [(1%nat, 0); (2%nat, 1)] i
                   (divisor_of {| enabled := ∅; divisors := ∅ |} i)) /\
    redundant_calls {| enabled := ∅; divisors := ∅ |} calls = 0%nat.
Proof.
  apply (pass_mirrors_the_vertex_array 4 (createBindingState 4 (Some 0%nat))).
  - apply createBindingState_Mirror.
  - intros a d H. repeat (apply elem_of_cons in H as [[= -> ->]|H]; [lia|]).
    now apply elem_of_nil in H.
Defined.

(** *** The binding states of the geometries *)

Lemma release_refs_spec (refs : list nat) (s : State) :
  release_refs refs s
  = with_vertexArrays
      (vertexArrays s ∖ list_to_set (omap (state_object s) refs)) s.
Proof.
  revert s. induction refs as [|r refs IH]; intros s.
  - cbn. destruct s. unfold with_vertexArrays. cbn. f_equal.
    apply set_eq. intros v. rewrite elem_of_difference, elem_of_empty. tauto.
  - unfold release_refs in *. cbn [fold_left]. rewrite IH.
    cbn [omap list_omap].
    destruct (state_object s r) as [v|] eqn:E; cbn [deleteVertexArrayObject].
    + unfold with_vertexArrays, state_object.
      cbn [states bindingStates currentState forceUpdate vertexArrays
             createdArrays calls].
      f_equal. apply set_eq. intros x. fold (state_object s).
      rewrite !elem_of_difference, !elem_of_list_to_set, elem_of_cons,
        elem_of_singleton. tauto.
    + reflexivity.
Qed.

Lemma release_refs_app (a b : list nat) (s : State) :
  release_refs (a ++ b) s = release_refs b (release_refs a s).
Proof. apply fold_left_app. Qed.

Lemma release_fold {K : Type} (f : K -> list nat) (g : State -> K -> State)
      (l : list K) (s : State) :
  (forall s x, g s x = release_refs (f x) s) ->
  fold_left g l s = release_refs (l ≫= f) s.
Proof.
  intros Hg. revert s. induction l as [|x l IH]; intros s; [reflexivity|].
  cbn [fold_left mbind list_bind]. rewrite Hg, IH.
  symmetry. apply release_refs_app.
Qed.

Lemma release_programMap_refs (programMap : gmap Z (gmap bool nat)) (s : State) :
  release_programMap programMap s
  = release_refs (refs_of_programMap programMap) s.
Proof.
  unfold release_programMap, refs_of_programMap.
  apply release_fold. intros s' [p sm]. reflexivity.
Qed.

Lemma elem_refs_stateMap (stateMap : gmap bool nat) (r : nat) :
  r ∈ refs_of_stateMap stateMap <-> exists w, stateMap !! w = Some r.
Proof.
  unfold refs_of_stateMap. rewrite list_elem_of_fmap. split.
  - intros ([w r'] & -> & Hin%elem_of_map_to_list). eauto.
  - intros (w & Hw). exists (w, r). split; [reflexivity|].
    now apply elem_of_map_to_list.
Qed.

Lemma elem_refs_programMap (programMap : gmap Z (gmap bool nat)) (r : nat) :
  r ∈ refs_of_programMap programMap
  <-> exists p stateMap w, programMap !! p = Some stateMap /\
                           stateMap !! w = Some r.
Proof.
  unfold refs_of_programMap. rewrite list_elem_of_bind. split.
  - intros ([p sm] & (w & Hw)%elem_refs_stateMap & Hin%elem_of_map_to_list).
    eauto.
  - intros (p & sm & w & Hp & Hw). exists (p, sm).
    split; [apply elem_refs_stateMap; eauto|now apply elem_of_map_to_list].
Qed.

Lemma release_refs_Released (K : Z -> Z -> bool -> Prop) (refs : list nat)
      (m : gmap Z (gmap Z (gmap bool nat))) (s : State) :
  (forall r, r ∈ refs <-> exists g p w, K g p w /\ stored s g p w = Some r) ->
  (forall g p w r,
      stored (with_bindingStates m s) g p w = Some r
      <-> ~ K g p w /\ stored s g p w = Some r) ->
  Released K s (with_bindingStates m (release_refs refs s)).
Proof.
  intros Hrefs Hm. rewrite release_refs_spec.
  split; [reflexivity|]. split; [reflexivity|]. split; [exact Hm|].
  intros v. cbn [with_bindingStates with_vertexArrays vertexArrays].
  rewrite elem_of_difference, elem_of_list_to_set, list_elem_of_omap.
  split; intros [Hv Hn]; (split; [exact Hv|]).
  - intros (g & p & w & r & HK & Hs & Ho). apply Hn. exists r.
    split; [apply Hrefs; eauto|exact Ho].
  - intros (r & (g & p & w & HK & Hs)%Hrefs & Ho). apply Hn. eauto 8.
Qed.

Lemma stored_Some (s : State) (g p : Z) (w : bool) (r : nat) :
  stored s g p w = Some r
  <-> exists programMap stateMap,
      bindingStates s !! g = Some programMap /\
      programMap !! p = Some stateMap /\ stateMap !! w = Some r.
Proof.
  unfold stored. split.
  - destruct (bindingStates s !! g) as [pm|]; [|discriminate]. cbn.
    destruct (pm !! p) as [sm|] eqn:Ep; [|discriminate]. cbn.
    intros Hw. exists pm, sm. auto.
  - intros (pm & sm & -> & Hp & Hw). cbn. rewrite Hp. exact Hw.
Qed.

Lemma releaseStatesOfGeometry_Released (g0 : Z) (s : State) :
  Released (fun g _ _ => g = g0) s (releaseStatesOfGeometry g0 s).
Proof.
  unfold releaseStatesOfGeometry.
  destruct (bindingStates s !! g0) as [programMap|] eqn:E.
  - rewrite release_programMap_refs. apply release_refs_Released.
    + intros r. rewrite elem_refs_programMap. split.
      * intros (p & sm & w & Hp & Hw). exists g0, p, w.
        split; [reflexivity|]. apply stored_Some. eauto.
      * intros (g & p & w & -> & (pm & sm & Hg & Hp & Hw)%stored_Some).
        rewrite E in Hg. injection Hg as <-. eauto.
    + intros g p w r. unfold stored. cbn [with_bindingStates bindingStates].
      destruct (decide (g = g0)) as [->|Hne].
      * rewrite lookup_delete_eq. cbn. split; [discriminate|tauto].
      * rewrite lookup_delete_ne by congruence. tauto.
  - split; [reflexivity|]. split; [reflexivity|]. split.
    + intros g p w r. split; [|tauto]. intros H. split; [|exact H].
      intros ->. apply stored_Some in H as (pm & sm & Hg & _). congruence.
    + intros v. split; [|tauto]. intros H. split; [exact H|].
      intros (g & p & w & r & -> & (pm & sm & Hg & _)%stored_Some & _).
      congruence.
Qed.

Lemma releaseStatesOfProgram_Released (p0 : Z) (s : State) :
  Released (fun _ p _ => p = p0) s (releaseStatesOfProgram p0 s).
Proof.
  unfold releaseStatesOfProgram.
  rewrite (release_fold
             (fun x : Z * gmap Z (gmap bool nat) =>
                match snd x !! p0 with
                | None => []
                | Some stateMap => refs_of_stateMap stateMap
                end)).
  2:{ intros s' [g pm]. cbn [snd]. destruct (pm !! p0); reflexivity. }
  apply release_refs_Released.
  - intros r. rewrite list_elem_of_bind. split.
    + intros ([g pm] & Hr & Hin%elem_of_map_to_list). cbn [snd] in Hr.
      destruct (pm !! p0) as [sm|] eqn:Ep; [|now apply elem_of_nil in Hr].
      apply elem_refs_stateMap in Hr as (w & Hw).
      exists g, p0, w. split; [reflexivity|]. apply stored_Some. eauto.
    + intros (g & p & w & -> & (pm & sm & Hg & Hp & Hw)%stored_Some).
      exists (g, pm). cbn [snd]. rewrite Hp.
      split; [apply elem_refs_stateMap; eauto|now apply elem_of_map_to_list].
  - intros g p w r. unfold stored. cbn [with_bindingStates bindingStates].
    rewrite lookup_fmap.
    destruct (bindingStates s !! g) as [pm|]; cbn; [|split; [discriminate|tauto]].
    destruct (decide (p = p0)) as [->|Hne].
    + rewrite lookup_delete_eq. cbn. split; [discriminate|tauto].
    + rewrite lookup_delete_ne by congruence. tauto.
Qed.

Lemma reset_keeps (s : State) :
  bindingStates (reset s) = bindingStates s /\
  vertexArrays (reset s) = vertexArrays s /\
  createdArrays (reset s) = createdArrays s /\
  (forall r, state_object (reset s) r = state_object s r) /\
  (forall g p w, stored (reset s) g p w = stored s g p w).
Proof.
  assert (H : forall r, (states (resetDefaultState s) !! r ≫= object)
                        = (states s !! r ≫= object)).
  { intros r. cbn [resetDefaultState states].
    destruct (decide (r = defaultState)) as [->|Hne].
    - rewrite list_lookup_alter_eq. destruct (states s !! defaultState); reflexivity.
    - rewrite list_lookup_alter_ne by congruence. reflexivity. }
  unfold reset, stored, state_object.
  destruct (decide (currentState (resetDefaultState s) = defaultState));
    cbn [bindingStates vertexArrays createdArrays states resetDefaultState];
    repeat split; auto.
Qed.

Lemma dispose_Released (s : State) :
  Released (fun _ _ _ => True) (reset s) (dispose s).
Proof.
  unfold dispose.
  rewrite (release_fold
             (fun x : Z * gmap Z (gmap bool nat) => refs_of_programMap (snd x))).
  2:{ intros s' [g pm]. apply release_programMap_refs. }
  apply release_refs_Released.
  - intros r. rewrite list_elem_of_bind. split.
    + intros ([g pm] & (p & sm & w & Hp & Hw)%elem_refs_programMap
              & Hin%elem_of_map_to_list).
      exists g, p, w. split; [exact I|]. apply stored_Some. eauto.
    + intros (g & p & w & _ & (pm & sm & Hg & Hp & Hw)%stored_Some).
      exists (g, pm). cbn [snd].
      split; [apply elem_refs_programMap; eauto|now apply elem_of_map_to_list].
  - intros g p w r. unfold stored at 1. cbn [with_bindingStates bindingStates].
    rewrite lookup_empty. cbn. split; [discriminate|tauto].
Qed.

Lemma states_Inv_Released (K : Z -> Z -> bool -> Prop) (s s' : State) :
  Inv s -> Released K s s' -> Inv s'.
Proof.
  intros [Ho Hr Hh Hl Hc] (Hs & Hca & Hst & Hv).
  assert (Hso : forall r, state_object s' r = state_object s r)
    by (intros r; unfold state_object; now rewrite Hs).
  split.
  - intros g p w r [HK H]%Hst. destruct (Ho _ _ _ _ H) as (v & Hv1 & Hv2).
    exists v. rewrite Hso. split; [exact Hv1|]. apply Hv. split; [exact Hv2|].
    intros (g' & p' & w' & r' & HK' & Hs' & Ho').
    assert (r' = r) as -> by (eapply Hh; eassumption).
    destruct (Hr _ _ _ _ _ _ _ H Hs') as (-> & -> & ->). contradiction.
  - intros g p w g' p' w' r [_ H]%Hst [_ H']%Hst. eapply Hr; eassumption.
  - intros r r' v. rewrite !Hso. apply Hh.
  - intros v [Hv1 Hv2]%Hv. destruct (Hl v Hv1) as (g & p & w & r & H1 & H2).
    exists g, p, w, r. rewrite Hso. split; [|exact H2]. apply Hst.
    split; [|exact H1]. intros HK. apply Hv2. eauto 8.
  - intros r v. rewrite Hso, Hca. apply Hc.
Qed.

Lemma states_Inv_reset (s : State) : Inv s -> Inv (reset s).
Proof.
  intros [Ho Hr Hh Hl Hc].
  destruct (reset_keeps s) as (_ & Ev & Ec & Eo & Es).
  split; intros *; rewrite ?Es, ?Eo, ?Ev, ?Ec; eauto.
  intros H. destruct (Hl _ H) as (g & p & w & r & H1 & H2).
  exists g, p, w, r. now rewrite Es, Eo.
Qed.

Lemma stored_default (s : State) (g p : Z) (w : bool) :
  stored s g p w
  = default ∅ (default ∅ (bindingStates s !! g) !! p) !! w.
Proof.
  unfold stored. destruct (bindingStates s !! g) as [pm|]; cbn.
  - destruct (pm !! p) as [sm|]; cbn; [reflexivity|now rewrite lookup_empty].
  - now rewrite !lookup_empty.
Qed.

Lemma getBindingState_effect (n : nat) (g0 p0 : Z) (w0 : bool) (s : State) :
  (exists r, stored s g0 p0 w0 = Some r /\
             getBindingState n g0 p0 w0 s = (r, s))
  \/
  stored s g0 p0 w0 = None /\
  fst (getBindingState n g0 p0 w0 s) = length (states s) /\
  states (snd (getBindingState n g0 p0 w0 s))
  = states s ++ [createBindingState n (Some (createdArrays s))] /\
  vertexArrays (snd (getBindingState n g0 p0 w0 s))
  = {[createdArrays s]} ∪ vertexArrays s /\
  createdArrays (snd (getBindingState n g0 p0 w0 s)) = S (createdArrays s) /\
  forall g p w,
    stored (snd (getBindingState n g0 p0 w0 s)) g p w
    = if decide (g = g0 /\ p = p0 /\ w = w0)
      then Some (length (states s)) else stored s g p w.
Proof.
  rewrite (stored_default s g0 p0 w0). unfold getBindingState.
  set (pm := default ∅ (bindingStates s !! g0)).
  set (sm := default ∅ (pm !! p0)).
  destruct (sm !! w0) as [r|] eqn:E; [left; eauto|right].
  cbn [fst snd states vertexArrays createdArrays].
  repeat (split; [reflexivity|]).
  intros g p w. rewrite (stored_default s g p w). unfold stored.
  cbn [bindingStates].
  destruct (decide (g = g0)) as [->|Hg].
  - rewrite lookup_insert_eq. cbn. fold pm.
    destruct (decide (p = p0)) as [->|Hp].
    + rewrite lookup_insert_eq. cbn. fold sm.
      destruct (decide (w = w0)) as [->|Hw].
      * rewrite lookup_insert_eq, decide_True by auto. reflexivity.
      * rewrite lookup_insert_ne, decide_False by (congruence || tauto).
        reflexivity.
    + rewrite lookup_insert_ne, decide_False by (congruence || tauto).
      destruct (pm !! p); cbn; [reflexivity|now rewrite lookup_empty].
  - rewrite lookup_insert_ne, decide_False by (congruence || tauto).
    destruct (bindingStates s !! g) as [pm'|]; cbn; [|now rewrite !lookup_empty].
    destruct (pm' !! p); cbn; [reflexivity|now rewrite lookup_empty].
Qed.

Lemma states_Inv_getBindingState (n : nat) (g0 p0 : Z) (w0 : bool) (s : State) :
  Inv s -> Inv (snd (getBindingState n g0 p0 w0 s)).
Proof.
  intros Hinv.
  destruct (getBindingState_effect n g0 p0 w0 s)
    as [(r & _ & ->)|(Hnone & _ & Hs & Hv & Hc & Hst)]; [exact Hinv|].
  destruct Hinv as [Ho Hr Hh Hl Hcr].
  set (s' := snd (getBindingState n g0 p0 w0 s)) in *.
  assert (Hold : forall r v, state_object s r = Some v ->
                             state_object s' r = Some v).
  { intros r v H. unfold state_object in *. rewrite Hs.
    destruct (states s !! r) as [st|] eqn:E; [|discriminate].
    now rewrite (lookup_app_l_Some _ _ _ _ E). }
  assert (Hnew : forall r v, state_object s' r = Some v ->
                             state_object s r = Some v \/
                             r = length (states s) /\ v = createdArrays s).
  { intros r v H. unfold state_object in *. rewrite Hs in H.
    destruct (decide (r < length (states s))%nat) as [Hlt|Hge].
    - rewrite lookup_app_l in H by exact Hlt. auto.
    - rewrite lookup_app_r in H by lia.
      destruct (r - length (states s))%nat as [|k] eqn:Ek; cbn in H.
      + injection H as <-. right. split; [lia|reflexivity].
      + discriminate. }
  assert (Hlen : forall r v, state_object s r = Some v ->
                             (r < length (states s))%nat).
  { intros r v H. unfold state_object in H.
    destruct (states s !! r) eqn:E; [|discriminate].
    now apply lookup_lt_Some in E. }
  assert (Hfresh : state_object s' (length (states s)) = Some (createdArrays s)).
  { unfold state_object. rewrite Hs, lookup_app_r, Nat.sub_diag by lia.
    reflexivity. }
  split.
  - intros g p w r. rewrite Hst, Hv. destruct (decide _) as [_|_].
    + intros [= <-]. exists (createdArrays s). split; [exact Hfresh|].
      apply elem_of_union. left. now apply elem_of_singleton.
    + intros H. destruct (Ho _ _ _ _ H) as (v & H1 & H2).
      exists v. split; [now apply Hold|]. apply elem_of_union. auto.
  - intros g p w g' p' w' r. rewrite !Hst.
    destruct (decide (g = g0 /\ p = p0 /\ w = w0)) as [(-> & -> & ->)|H1],
             (decide (g' = g0 /\ p' = p0 /\ w' = w0)) as [(-> & -> & ->)|H2].
    + auto.
    + intros [= <-] H. destruct (Ho _ _ _ _ H) as (v & Hv1 & _).
      apply Hlen in Hv1. lia.
    + intros H [= <-]. destruct (Ho _ _ _ _ H) as (v & Hv1 & _).
      apply Hlen in Hv1. lia.
    + apply Hr.
  - intros r r' v H H'.
    destruct (Hnew _ _ H) as [H1|[-> ->]], (Hnew _ _ H') as [H2|[E1 E2]].
    + eapply Hh; eassumption.
    + subst v. apply Hcr in H1. lia.
    + apply Hcr in H2. lia.
    + auto.
  - intros v. rewrite Hv, elem_of_union, elem_of_singleton. intros [->|H].
    + exists g0, p0, w0, (length (states s)). rewrite Hst, decide_True by auto.
      auto.
    + destruct (Hl v H) as (g & p & w & r & H1 & H2).
      exists g, p, w, r. split; [|now apply Hold].
      rewrite Hst. destruct (decide _) as [(-> & -> & ->)|_]; [congruence|exact H1].
  - intros r v H. rewrite Hc. destruct (Hnew _ _ H) as [H1|[_ ->]]; [|lia].
    apply Hcr in H1. lia.
Qed.

Lemma states_Inv_run (n : nat) (cs : list Call) : Inv (run n cs).
Proof.
  unfold run. induction cs as [|c cs IH] using rev_ind.
  - split; cbn; intros *; try (unfold stored; cbn; rewrite lookup_empty; cbn;
                               intros H; discriminate).
    + unfold state_object. cbn. destruct r as [|r]; cbn; intros H; discriminate.
    + intros H. now apply elem_of_empty in H.
    + unfold state_object. cbn. destruct r as [|r]; cbn; intros H; discriminate.
  - rewrite fold_left_app. cbn [fold_left]. destruct c; cbn [step].
    + now apply states_Inv_getBindingState.
    + eapply states_Inv_Released; [exact IH|apply releaseStatesOfGeometry_Released].
    + eapply states_Inv_Released; [exact IH|apply releaseStatesOfProgram_Released].
    + now apply states_Inv_reset.
    + eapply states_Inv_Released; [apply states_Inv_reset, IH|apply dispose_Released].
Qed.

(** X14.  After any calls of [getBindingState], the two
    [releaseStatesOf...], [reset] and [dispose]: the vertex array
    objects of the context that are not deleted are exactly those of
    the binding states stored, and no two keys (geometry, program,
    wireframe) share one.  [getBindingState] stores the state it
    returns, and returns it again without a change.
    [releaseStatesOfGeometry] and [releaseStatesOfProgram] leave no
    state for the geometry or the program and delete exactly the vertex
    array objects of the states they drop; [dispose] leaves no state
    and no vertex array object. *)
Theorem vertex_arrays_follow_the_binding_states (n : nat) (cs : list Call) :
  let s := run n cs in
  (forall v, v ∈ vertexArrays s
             <-> exists g p w r, stored s g p w = Some r /\
                                 state_object s r = Some v) /\
  (forall g p w g' p' w' r r' v,
      stored s g p w = Some r -> stored s g' p' w' = Some r' ->
      state_object s r = Some v -> state_object s r' = Some v ->
      g = g' /\ p = p' /\ w = w') /\
  (forall g p w,
      let r := fst (getBindingState n g p w s) in
      let s' := snd (getBindingState n g p w s) in
      stored s' g p w = Some r /\ getBindingState n g p w s' = (r, s')) /\
  (forall g0,
      let s' := releaseStatesOfGeometry g0 s in
      (forall p w, stored s' g0 p w = None) /\
      (forall g p w, g <> g0 -> stored s' g p w = stored s g p w) /\
      forall v, v ∈ vertexArrays s'
                <-> v ∈ vertexArrays s /\
                    ~ exists p w r, stored s g0 p w = Some r /\
                                    state_object s r = Some v) /\
  (forall p0,
      let s' := releaseStatesOfProgram p0 s in
      (forall g w, stored s' g p0 w = None) /\
      (forall g p w, p <> p0 -> stored s' g p w = stored s g p w) /\
      forall v, v ∈ vertexArrays s'
                <-> v ∈ vertexArrays s /\
                    ~ exists g w r, stored s g p0 w = Some r /\
                                    state_object s r = Some v) /\
  vertexArrays (dispose s) = ∅ /\ bindingStates (dispose s) = ∅.
Proof.
  cbv zeta. pose proof (states_Inv_run n cs) as Hinv.
  set (s := run n cs) in *.
  assert (Hopt : forall (s1 s2 : State) g p w,
             (forall r, stored s1 g p w = Some r <-> stored s2 g p w = Some r) ->
             stored s1 g p w = stored s2 g p w).
  { intros s1 s2 g p w H. destruct (stored s1 g p w) as [r|].
    - symmetry. now apply H.
    - destruct (stored s2 g p w) as [r|]; [|reflexivity].
      now apply (H r). }
  split; [|split; [|split; [|split; [|split; [|split]]]]].
  - intros v. split; [apply (inv_no_leak _ Hinv)|].
    intros (g & p & w & r & H1 & H2).
    destruct (inv_object _ Hinv _ _ _ _ H1) as (v' & H3 & H4). congruence.
  - intros g p w g' p' w' r r' v H1 H2 H3 H4.
    assert (r = r') as -> by (eapply (inv_heap _ Hinv); eassumption).
    eapply (inv_refs _ Hinv); eassumption.
  - intros g p w.
    destruct (getBindingState_effect n g p w s)
      as [(r & Hr & E)|(Hnone & Hf & _ & _ & _ & Hst)].
    + rewrite E. cbn [fst snd]. auto.
    + set (s' := snd (getBindingState n g p w s)) in *.
      assert (Hr : stored s' g p w = Some (fst (getBindingState n g p w s))).
      { rewrite Hst, decide_True by auto. now rewrite Hf. }
      split; [exact Hr|].
      destruct (getBindingState_effect n g p w s')
        as [(r & Hr' & E)|(Hnone' & _)]; [|congruence].
      rewrite E. congruence.
  - intros g0.
    destruct (releaseStatesOfGeometry_Released g0 s) as (_ & _ & Hst & Hv).
    split; [|split].
    + intros p w. destruct (stored _ g0 p w) as [r|] eqn:E; [|reflexivity].
      apply Hst in E as [E _]. now contradiction E.
    + intros g p w Hne. apply Hopt. intros r. rewrite Hst. tauto.
    + intros v. rewrite Hv. split; intros [H1 H2]; (split; [exact H1|]).
      * intros (p & w & r & H3 & H4). apply H2. exists g0, p, w, r. auto.
      * intros (g & p & w & r & -> & H3 & H4). apply H2. eauto.
  - intros p0.
    destruct (releaseStatesOfProgram_Released p0 s) as (_ & _ & Hst & Hv).
    split; [|split].
    + intros g w. destruct (stored _ g p0 w) as [r|] eqn:E; [|reflexivity].
      apply Hst in E as [E _]. now contradiction E.
    + intros g p w Hne. apply Hopt. intros r. rewrite Hst. tauto.
    + intros v. rewrite Hv. split; intros [H1 H2]; (split; [exact H1|]).
      * intros (g & w & r & H3 & H4). apply H2. exists g, p0, w, r. auto.
      * intros (g & p & w & r & -> & H3 & H4). apply H2. eauto.
  - destruct (dispose_Released s) as (_ & _ & _ & Hv).
    pose proof (states_Inv_reset s Hinv) as Hinv'.
    apply set_eq. intros v. rewrite Hv, elem_of_empty.
    split; [|tauto]. intros [H1 H2]. apply H2.
    destruct (inv_no_leak _ Hinv' v H1) as (g & p & w & r & H3 & H4).
    exists g, p, w, r. auto.
  - reflexivity.
Qed.

Lemma vertex_arrays_follow_the_binding_states_witness :
  stored (run 16 [GetBindingState 1 2 false; GetBindingState 1 3 true])
         1 2 false = Some 1%nat /\
  stored (run 16 [GetBindingState 1 2 false; GetBindingState 1 3 true])
         1 3 true = Some 2%nat /\
  state_object (run 16 [GetBindingState 1 2 false; GetBindingState 1 3 true])
               1%nat = Some 0%nat /\
  state_object (run 16 [GetBindingState 1 2 false; GetBindingState 1 3 true])
               2%nat = Some 1%nat /\
  (0%nat ∈ vertexArrays
     (run 16 [GetBindingState 1 2 false; GetBindingState 1 3 true])).
Proof.
  assert (H1 : stored (run 16 [GetBindingState 1 2 false; GetBindingState 1 3 true])
                      1 2 false = Some 1%nat) by (vm_compute; reflexivity).
  assert (H2 : state_object
                 (run 16 [GetBindingState 1 2 false; GetBindingState 1 3 true])
                 1%nat = Some 0%nat) by (vm_compute; reflexivity).
  split; [exact H1|]. split; [vm_compute; reflexivity|].
  split; [exact H2|]. split; [vm_compute; reflexivity|].
  apply (proj1 (vertex_arrays_follow_the_binding_states
                  16 [GetBindingState 1 2 false; GetBindingState 1 3 true])).
  exists 1, 2, false, 1%nat. split; assumption.
Defined.

End WebGLBindingStatesFacts.

(** ** The texture units *)
Module TextureUnitsFacts.

Import TextureUnits.

Section Units.

Variable maxTextures : Z.
Variable emptyTextures : gmap Z nat.

Lemma gl_run_snoc (log : list GLCall) (c : GLCall) (gl : Context) :
  gl_run (log ++ [c]) gl = gl_call (gl_run log gl) c.
Proof. unfold gl_run. now rewrite fold_left_app. Qed.

Lemma activeTexture_coherent (webglSlot : option Z) (s : State) (gl0 : Context) :
  Coherent emptyTextures s (gl_run (calls s) gl0) ->
  Coherent emptyTextures (activeTexture maxTextures webglSlot s)
           (gl_run (calls (activeTexture maxTextures webglSlot s)) gl0).
Proof.
  intros [Ha Hu]. unfold activeTexture.
  destruct (bool_decide _); [|split; assumption].
  cbn [calls currentTextureSlot currentBoundTextures].
  rewrite gl_run_snoc. split; cbn [gl_call active units].
  - now intros slot [= <-].
  - exact Hu.
Qed.

Lemma bindTexture_coherent (webglType : Z) (webglTexture : Texture)
      (webglSlot : option Z) (s : State) (gl0 : Context) :
  Coherent emptyTextures s (gl_run (calls s) gl0) ->
  Coherent emptyTextures
           (bindTexture maxTextures emptyTextures webglType webglTexture
                        webglSlot s)
           (gl_run (calls (bindTexture maxTextures emptyTextures webglType
                                       webglTexture webglSlot s)) gl0).
Proof.
  intros [Ha Hu]. unfold bindTexture.
  set (slot := match webglSlot with Some slot => slot | None => _ end).
  set (gl := gl_run (calls s) gl0) in *.
  assert (Hb : forall sl boundTexture t,
             (match currentBoundTextures s !! slot with
              | Some boundTexture => (boundTexture, currentBoundTextures s)
              | None =>
                  ({| type := None; texture := Undefined |},
                   <[slot := {| type := None; texture := Undefined |}]>
                     (currentBoundTextures s))
              end).2 !! sl = Some boundTexture ->
             type boundTexture = Some t ->
             units gl !! (sl, t)
             = Some (or_empty emptyTextures t (texture boundTexture))).
  { intros sl bt t. destruct (currentBoundTextures s !! slot) eqn:E;
      cbn [snd]; [apply Hu|].
    destruct (decide (sl = slot)) as [->|Hne].
    - rewrite lookup_insert_eq. intros [= <-]. discriminate.
    - rewrite lookup_insert_ne by congruence. apply Hu. }
  destruct (match currentBoundTextures s !! slot with
            | Some boundTexture => _ | None => _ end) as [boundTexture bound].
  cbn [snd] in Hb.
  destruct (bool_decide (type boundTexture <> Some webglType)
            || bool_decide (texture boundTexture <> webglTexture));
    [|split; assumption].
  destruct (decide (currentTextureSlot s = Some slot)) as [Hs|Hs].
  - rewrite (bool_decide_eq_false_2 (currentTextureSlot s <> Some slot))
      by tauto.
    cbn [calls currentTextureSlot currentBoundTextures].
    rewrite gl_run_snoc. fold gl. split; cbn [gl_call active units].
    + exact Ha.
    + intros sl bt t. rewrite (Ha slot Hs).
      cbn [currentBoundTextures].
      destruct (decide (sl = slot)) as [->|Hne].
      * rewrite lookup_insert_eq. intros [= <-]. cbn [type texture].
        intros [= <-]. now rewrite lookup_insert_eq.
      * rewrite !lookup_insert_ne by congruence. apply Hb.
  - rewrite (bool_decide_eq_true_2 (currentTextureSlot s <> Some slot))
      by exact Hs.
    cbn [calls currentTextureSlot currentBoundTextures].
    rewrite !gl_run_snoc. fold gl. split; cbn [gl_call active units].
    + now intros sl [= <-].
    + intros sl bt t. cbn [currentBoundTextures].
      destruct (decide (sl = slot)) as [->|Hne].
      * rewrite lookup_insert_eq. intros [= <-]. cbn [type texture].
        intros [= <-]. now rewrite lookup_insert_eq.
      * rewrite !lookup_insert_ne by congruence. apply Hb.
Qed.

Lemma unbindTexture_coherent (s : State) (gl0 : Context) :
  Coherent emptyTextures s (gl_run (calls s) gl0) ->
  Coherent emptyTextures (unbindTexture s) (gl_run (calls (unbindTexture s)) gl0).
Proof.
  intros H. unfold unbindTexture.
  destruct (currentTextureSlot s) as [slot|] eqn:Es; [|exact H].
  destruct (currentBoundTextures s !! slot) as [[[t|] x]|] eqn:E;
    try exact H.
  destruct H as [Ha Hu].
  cbn [calls currentTextureSlot currentBoundTextures].
  rewrite gl_run_snoc. split; cbn [gl_call active units].
  - cbn [currentTextureSlot]. rewrite <- Es. exact Ha.
  - intros sl bt t'. rewrite (Ha slot Es). cbn [currentBoundTextures].
    destruct (decide (sl = slot)) as [->|Hne].
    + rewrite lookup_insert_eq. intros [= <-]. discriminate.
    + rewrite !lookup_insert_ne by congruence. apply Hu.
Qed.

Lemma run_coherent (cs : list Call) (gl0 : Context) :
  Coherent emptyTextures (run maxTextures emptyTextures cs)
           (gl_run (calls (run maxTextures emptyTextures cs)) gl0).
Proof.
  unfold run. induction cs as [|c cs IH] using rev_ind.
  - split; cbn; [discriminate|]. intros slot bt t H.
    rewrite lookup_empty in H. discriminate.
  - rewrite fold_left_app. cbn [fold_left]. destruct c; cbn [step].
    + now apply activeTexture_coherent.
    + now apply bindTexture_coherent.
    + now apply unbindTexture_coherent.
Qed.

Lemma bindTexture_cases (webglType : Z) (webglTexture : Texture)
      (webglSlot : option Z) (s : State) :
  let s' := bindTexture maxTextures emptyTextures webglType webglTexture
                        webglSlot s in
  let slot := slot_of maxTextures webglSlot s in
  currentBoundTextures s !! slot
  = Some {| type := Some webglType; texture := webglTexture |} /\ s' = s
  \/
  currentBoundTextures s !! slot
  <> Some {| type := Some webglType; texture := webglTexture |} /\
  currentTextureSlot s' = Some slot /\
  currentBoundTextures s' !! slot
  = Some {| type := Some webglType; texture := webglTexture |} /\
  exists log,
    calls s' = calls s ++ log
               ++ [gl_bindTexture webglType
                                  (or_empty emptyTextures webglType webglTexture)].
Proof.
  cbv zeta. unfold bindTexture. fold (slot_of maxTextures webglSlot s).
  set (slot := slot_of maxTextures webglSlot s).
  destruct (currentBoundTextures s !! slot) as [[ty tx]|] eqn:E.
  - cbn [type texture].
    destruct (decide (ty = Some webglType)) as [->|Hty];
      [destruct (decide (tx = webglTexture)) as [->|Htx]|].
    + left. rewrite !bool_decide_eq_false_2 by tauto. cbn [orb].
      split; [reflexivity|]. now destruct s.
    + right. rewrite (bool_decide_eq_true_2 (tx <> webglTexture)) by exact Htx.
      rewrite orb_true_r. split; [congruence|].
      destruct (bool_decide (currentTextureSlot s <> Some slot)) eqn:B;
        cbn [currentTextureSlot currentBoundTextures calls];
        rewrite lookup_insert_eq.
      * split; [reflexivity|]. split; [reflexivity|].
        exists [gl_activeTexture slot]. now rewrite <- app_assoc.
      * apply bool_decide_eq_false in B.
        split; [destruct (decide (currentTextureSlot s = Some slot)); tauto|].
        split; [reflexivity|]. now exists [].
    + right. rewrite (bool_decide_eq_true_2 (ty <> Some webglType)) by exact Hty.
      cbn [orb]. split; [congruence|].
      destruct (bool_decide (currentTextureSlot s <> Some slot)) eqn:B;
        cbn [currentTextureSlot currentBoundTextures calls];
        rewrite lookup_insert_eq.
      * split; [reflexivity|]. split; [reflexivity|].
        exists [gl_activeTexture slot]. now rewrite <- app_assoc.
      * apply bool_decide_eq_false in B.
        split; [destruct (decide (currentTextureSlot s = Some slot)); tauto|].
        split; [reflexivity|]. now exists [].
  - right. cbn [type texture].
    rewrite (bool_decide_eq_true_2 (None <> Some webglType)) by discriminate.
    cbn [orb]. split; [discriminate|].
    destruct (bool_decide (currentTextureSlot s <> Some slot)) eqn:B;
      cbn [currentTextureSlot currentBoundTextures calls];
      rewrite lookup_insert_eq.
    * split; [reflexivity|]. split; [reflexivity|].
      exists [gl_activeTexture slot]. now rewrite <- app_assoc.
    * apply bool_decide_eq_false in B.
      split; [destruct (decide (currentTextureSlot s = Some slot)); tauto|].
      split; [reflexivity|]. now exists [].
Qed.

Lemma bindTexture_twice (webglType : Z) (webglTexture : Texture)
      (webglSlot : option Z) (s : State) :
  bindTexture maxTextures emptyTextures webglType webglTexture webglSlot
    (bindTexture maxTextures emptyTextures webglType webglTexture webglSlot s)
  = bindTexture maxTextures emptyTextures webglType webglTexture webglSlot s.
Proof.
  destruct (bindTexture_cases webglType webglTexture webglSlot s)
    as [[_ E]|(_ & Hs & Hb & _)]; [now rewrite !E|].
  set (s' := bindTexture _ _ _ _ _ s) in *.
  assert (Hslot : slot_of maxTextures webglSlot s'
                  = slot_of maxTextures webglSlot s).
  { unfold slot_of at 1. destruct webglSlot; [reflexivity|]. now rewrite Hs. }
  destruct (bindTexture_cases webglType webglTexture webglSlot s')
    as [[_ E]|(Hn & _)]; [exact E|].
  rewrite Hslot in Hn. contradiction.
Qed.

(** X15.  The texture units after any calls of [activeTexture],
    [bindTexture] and [unbindTexture], whatever the context held
    before: the slot of the snapshot, once set, is the active unit of
    the context, and a texture that the snapshot holds for a slot is
    the one bound to its target in that unit (the empty texture of
    the type for [null] and [undefined]).  A [bindTexture] of what
    the snapshot holds changes nothing and makes no call; any other
    one ends with the call of [gl.bindTexture] and leaves its slot
    current; so a second [bindTexture] with the same arguments does
    nothing. *)
Theorem texture_units_mirror_the_context (cs : list Call) (gl0 : Context) :
  let s := run maxTextures emptyTextures cs in
  let gl := gl_run (calls s) gl0 in
  (forall slot, currentTextureSlot s = Some slot -> active gl = slot) /\
  (forall slot boundTexture t,
      currentBoundTextures s !! slot = Some boundTexture ->
      type boundTexture = Some t ->
      units gl !! (slot, t)
      = Some (or_empty emptyTextures t (texture boundTexture))) /\
  (forall webglType webglTexture webglSlot,
      let s' := bindTexture maxTextures emptyTextures webglType webglTexture
                            webglSlot s in
      let slot := slot_of maxTextures webglSlot s in
      (currentBoundTextures s !! slot
       = Some {| type := Some webglType; texture := webglTexture |} ->
       s' = s) /\
      (currentBoundTextures s !! slot
       <> Some {| type := Some webglType; texture := webglTexture |} ->
       currentTextureSlot s' = Some slot /\
       currentBoundTextures s' !! slot
       = Some {| type := Some webglType; texture := webglTexture |} /\
       exists log,
         calls s' = calls s ++ log
                    ++ [gl_bindTexture webglType
                          (or_empty emptyTextures webglType webglTexture)]) /\
      bindTexture maxTextures emptyTextures webglType webglTexture webglSlot s'
      = s').
Proof.
  cbv zeta. destruct (run_coherent cs gl0) as [Ha Hu].
  split; [exact Ha|]. split; [exact Hu|].
  intros webglType webglTexture webglSlot.
  split; [|split; [|apply bindTexture_twice]].
  - intros H.
    destruct (bindTexture_cases webglType webglTexture webglSlot
                (run maxTextures emptyTextures cs)) as [[_ E]|[Hn _]];
      [exact E|contradiction].
  - intros H.
    destruct (bindTexture_cases webglType webglTexture webglSlot
                (run maxTextures emptyTextures cs)) as [[E _]|[_ Hr]];
      [contradiction|exact Hr].
Qed.

End Units.

Lemma texture_units_mirror_the_context_witness :
  currentTextureSlot
    (run 16 ∅ [BindTexture 3553 (Object 7) (Some 33985); ActiveTexture None])
  = Some 33999 /\
  active (gl_run (calls (run 16 ∅ [BindTexture 3553 (Object 7) (Some 33985);
                                   ActiveTexture None]))
                 {| active := TEXTURE0; units := ∅ |}) = 33999.
Proof.
  split; [vm_compute; reflexivity|].
  apply (proj1 (texture_units_mirror_the_context
                  16 ∅ [BindTexture 3553 (Object 7) (Some 33985);
                        ActiveTexture None]
                  {| active := TEXTURE0; units := ∅ |})).
  vm_compute. reflexivity.
Defined.

End TextureUnitsFacts.

(** ** The shader cache *)
Module WebGLShaderCacheFacts.

Import WebGLShaderCache.

Lemma users_insert (stage m : nat) (set : list nat) (mc : gmap nat (list nat)) :
  size (filter (uses stage) (<[m := set]> mc))
  = (size (filter (uses stage) (delete m mc))
     + (if bool_decide (stage ∈ set) then 1 else 0))%nat.
Proof.
  rewrite (WebGLTexturesFacts.size_filter_insert (uses stage)).
  unfold WebGLTextures.count, uses. cbn [snd].
  destruct (decide (stage ∈ set)) as [H|H].
  - now rewrite bool_decide_eq_true_2.
  - now rewrite bool_decide_eq_false_2.
Qed.

Lemma users_lookup (stage m : nat) (mc : gmap nat (list nat)) :
  size (filter (uses stage) mc)
  = (size (filter (uses stage) (delete m mc))
     + match mc !! m with
       | Some set => if bool_decide (stage ∈ set) then 1 else 0
       | None => 0
       end)%nat.
Proof.
  rewrite (WebGLTexturesFacts.size_filter_delete (uses stage) mc m).
  destruct (mc !! m) as [set|]; [|reflexivity].
  unfold WebGLTextures.count, uses. cbn [snd].
  destruct (decide (stage ∈ set)) as [H|H].
  - now rewrite bool_decide_eq_true_2.
  - now rewrite bool_decide_eq_false_2.
Qed.

Lemma uses_nil (stage m : nat) (mc : gmap nat (list nat)) :
  mc !! m = None ->
  size (filter (uses stage) (<[m := []]> mc)) = size (filter (uses stage) mc).
Proof.
  intros H. rewrite users_insert, delete_id by exact H.
  rewrite bool_decide_eq_false_2 by apply not_elem_of_nil. lia.
Qed.

Lemma no_user (stage : nat) (s : Cache) :
  (forall m set, materialCache s !! m = Some set -> stage ∉ set) ->
  size (users stage s) = 0%nat.
Proof.
  intros H. unfold users. apply map_size_empty_iff, map_empty.
  intros m. apply map_lookup_filter_None. right. intros set Hs. apply (H m set Hs).
Qed.

Lemma a_user (stage : nat) (s : Cache) (m : nat) (set : list nat) :
  materialCache s !! m = Some set -> stage ∈ set ->
  (0 < size (users stage s))%nat.
Proof.
  intros Hm Hin. unfold users. rewrite (users_lookup stage m), Hm.
  rewrite bool_decide_eq_true_2 by exact Hin. lia.
Qed.

Lemma shader_Inv_initial : Inv initial.
Proof.
  split; unfold initial; cbn [shaderCache stages materialCache _id];
    intros *; rewrite lookup_empty; discriminate.
Qed.

Lemma _getShaderStage_cases (c : string) (s : Cache) :
  (exists stage, shaderCache s !! c = Some stage /\
                 _getShaderStage c s = (stage, s))
  \/
  shaderCache s !! c = None /\
  _getShaderStage c s
  = (_id s,
     {| _id := S (_id s);
        stages := <[_id s := {| code := c; usedTimes := 0 |}]> (stages s);
        shaderCache := <[c := _id s]> (shaderCache s);
        materialCache := materialCache s |}).
Proof.
  unfold _getShaderStage. destruct (shaderCache s !! c) as [stage|]; eauto.
Qed.

Lemma shader_Inv_getShaderStage (c : string) (s : Cache) :
  Inv s ->
  Inv (snd (_getShaderStage c s)) /\
  (exists st, stages (snd (_getShaderStage c s)) !! fst (_getShaderStage c s)
              = Some st /\ code st = c) /\
  shaderCache (snd (_getShaderStage c s)) !! c
  = Some (fst (_getShaderStage c s)) /\
  materialCache (snd (_getShaderStage c s)) = materialCache s /\
  (forall c' stage, shaderCache s !! c' = Some stage ->
                    shaderCache (snd (_getShaderStage c s)) !! c' = Some stage).
Proof.
  intros Hinv.
  destruct (_getShaderStage_cases c s) as [(stage & Hc & ->)|(Hc & ->)];
    cbn [fst snd].
  - split; [exact Hinv|]. split; [|auto].
    apply (inv_code _ Hinv _ _ Hc).
  - destruct Hinv as [I1 I2 I3 I4 I5].
    assert (Hfresh : stages s !! _id s = None).
    { destruct (stages s !! _id s) as [st|] eqn:E; [|reflexivity].
      apply I5 in E. lia. }
    assert (Hunused : forall m set, materialCache s !! m = Some set -> _id s ∉ set).
    { intros m set Hm Hin. destruct (I3 _ _ _ Hm Hin) as (st & Hst & _).
      congruence. }
    split; [split|]; cbn [_id stages shaderCache materialCache].
    + intros c' stage. destruct (decide (c' = c)) as [->|Hne].
      * rewrite lookup_insert_eq. intros [= <-].
        rewrite lookup_insert_eq. eauto.
      * rewrite lookup_insert_ne by congruence. intros H.
        destruct (I1 _ _ H) as (st & Hst & Hcode).
        exists st. split; [|exact Hcode].
        rewrite lookup_insert_ne; [exact Hst|]. intros <-. congruence.
    + intros c' stage st. unfold users. cbn [materialCache].
      destruct (decide (c' = c)) as [->|Hne].
      * rewrite lookup_insert_eq. intros [= <-].
        rewrite lookup_insert_eq. intros [= <-]. cbn [usedTimes].
        fold (users (_id s) s). now rewrite (no_user _ s Hunused).
      * rewrite lookup_insert_ne by congruence. intros H.
        destruct (I1 _ _ H) as (st' & Hst & _).
        rewrite lookup_insert_ne by (intros <-; congruence).
        apply (I2 _ _ _ H).
    + intros m set stage Hm Hin. destruct (I3 _ _ _ Hm Hin) as (st & Hst & Hs).
      exists st.
      rewrite lookup_insert_ne by (intros E; subst; congruence).
      rewrite lookup_insert_ne by (intros E; subst; congruence).
      auto.
    + exact I4.
    + intros stage st. destruct (decide (stage = _id s)) as [->|Hne]; [lia|].
      rewrite lookup_insert_ne by congruence. intros H. apply I5 in H. lia.
    + split; [rewrite lookup_insert_eq; eauto|].
      split; [apply lookup_insert_eq|]. split; [reflexivity|].
      intros c' stage H. rewrite lookup_insert_ne; [exact H|].
      intros <-. congruence.
Qed.

Lemma shader_Inv_getShaderCacheForMaterial (material : Material) (s : Cache) :
  Inv s ->
  Inv (_getShaderCacheForMaterial material s) /\
  _id (_getShaderCacheForMaterial material s) = _id s /\
  stages (_getShaderCacheForMaterial material s) = stages s /\
  shaderCache (_getShaderCacheForMaterial material s) = shaderCache s /\
  exists set,
    materialCache (_getShaderCacheForMaterial material s)
    !! material_ref material = Some set.
Proof.
  intros Hinv. unfold _getShaderCacheForMaterial.
  destruct (materialCache s !! material_ref material) as [set|] eqn:E.
  { split; [exact Hinv|]. do 3 (split; [reflexivity|]). eauto. }
  cbn [_id stages shaderCache materialCache].
  split; [|do 3 (split; [reflexivity|]); rewrite lookup_insert_eq; eauto].
  destruct Hinv as [I1 I2 I3 I4 I5].
  split; cbn [_id stages shaderCache materialCache]; auto.
  - intros c stage st Hc Hst. unfold users. cbn [materialCache].
    rewrite uses_nil by exact E. apply (I2 _ _ _ Hc Hst).
  - intros m set stage. destruct (decide (m = material_ref material)) as [->|Hne].
    + rewrite lookup_insert_eq. intros [= <-] H. now apply elem_of_nil in H.
    + rewrite lookup_insert_ne by congruence. apply I3.
  - intros m set. destruct (decide (m = material_ref material)) as [->|Hne].
    + rewrite lookup_insert_eq. intros [= <-]. apply NoDup_nil_2.
    + rewrite lookup_insert_ne by congruence. apply I4.
Qed.

Lemma two_users (stage : nat) (s : Cache) (m m' : nat) (set set' : list nat) :
  m <> m' ->
  materialCache s !! m = Some set -> stage ∈ set ->
  materialCache s !! m' = Some set' -> stage ∈ set' ->
  (2 <= size (users stage s))%nat.
Proof.
  intros Hne Hm Hin Hm' Hin'. unfold users.
  rewrite (users_lookup stage m), Hm, bool_decide_eq_true_2 by exact Hin.
  rewrite (users_lookup stage m' (delete m _)), lookup_delete_ne, Hm',
    bool_decide_eq_true_2 by (exact Hin' || congruence).
  lia.
Qed.

Lemma shader_Inv_add_stage (material : Material) (stage : nat) (s : Cache) :
  Inv s ->
  (exists set, materialCache s !! material_ref material = Some set) ->
  (exists st, stages s !! stage = Some st /\
              shaderCache s !! code st = Some stage) ->
  Inv (add_stage material stage s) /\
  _id (add_stage material stage s) = _id s /\
  shaderCache (add_stage material stage s) = shaderCache s /\
  (forall r st, stages s !! r = Some st ->
                exists st', stages (add_stage material stage s) !! r = Some st' /\
                            code st' = code st) /\
  exists set',
    materialCache (add_stage material stage s) !! material_ref material
    = Some set' /\ stage ∈ set' /\
    forall r set, materialCache s !! material_ref material = Some set ->
                  r ∈ set -> r ∈ set'.
Proof.
  intros Hinv (set & Hset) (st0 & Hst0 & Hc0). unfold add_stage.
  rewrite Hset. cbn [default from_option id].
  destruct (decide (stage ∈ set)) as [Hin|Hin].
  - rewrite bool_decide_eq_true_2 by exact Hin.
    split; [exact Hinv|]. do 2 (split; [reflexivity|]).
    split; [eauto|].
    exists set. split; [exact Hset|]. split; [exact Hin|].
    now intros r set0 [= <-].
  - rewrite bool_decide_eq_false_2 by exact Hin.
    cbn [_id stages shaderCache materialCache].
    assert (Hkeep : forall r st,
               stages s !! r = Some st ->
               exists st',
                 alter (fun st => {| code := code st;
                                     usedTimes := usedTimes st + 1 |})
                       stage (stages s) !! r = Some st' /\
                 code st' = code st).
    { intros r st Hr. destruct (decide (r = stage)) as [->|Hne].
      - rewrite lookup_alter_eq, Hr. cbn. eauto.
      - rewrite lookup_alter_ne by congruence. eauto. }
    split; [|do 2 (split; [reflexivity|]); split; [exact Hkeep|]].
    2:{ exists (set ++ [stage]). rewrite lookup_insert_eq.
        split; [reflexivity|]. split.
        - apply elem_of_app. right. now apply list_elem_of_singleton.
        - intros r set0 [= <-] Hr. apply elem_of_app. auto. }
    destruct Hinv as [I1 I2 I3 I4 I5].
    split; cbn [_id stages shaderCache materialCache].
    + intros c r Hc. destruct (I1 _ _ Hc) as (st & Hst & Hcode).
      destruct (Hkeep _ _ Hst) as (st' & Hst' & Hcode').
      exists st'. split; [exact Hst'|congruence].
    + intros c r st Hc. unfold users. cbn [materialCache].
      rewrite users_insert.
      pose proof (users_lookup r (material_ref material) (materialCache s))
        as Hu. rewrite Hset in Hu. fold (users r s) in Hu.
      destruct (decide (r = stage)) as [->|Hne].
      * rewrite lookup_alter_eq, Hst0. cbn. intros [= <-]. cbn [usedTimes].
        assert (c = code st0) as ->.
        { destruct (I1 _ _ Hc) as (st1 & Hst1 & <-). congruence. }
        rewrite (I2 _ _ _ Hc Hst0), Hu.
        rewrite (bool_decide_eq_false_2 _ Hin).
        rewrite bool_decide_eq_true_2
          by (apply elem_of_app; right; now apply list_elem_of_singleton).
        lia.
      * rewrite lookup_alter_ne by congruence. intros Hst.
        rewrite (I2 _ _ _ Hc Hst), Hu. f_equal. f_equal.
        apply (f_equal (fun b : bool => if b then 1%nat else 0%nat)).
        apply bool_decide_ext. rewrite elem_of_app, list_elem_of_singleton.
        tauto.
    + intros m set' r.
      destruct (decide (m = material_ref material)) as [->|Hne].
      * rewrite lookup_insert_eq. intros [= <-] [Hr|Hr]%elem_of_app.
        -- destruct (I3 _ _ _ Hset Hr) as (st & Hst & Hs).
           destruct (Hkeep _ _ Hst) as (st' & Hst' & Hcode').
           exists st'. split; [exact Hst'|]. now rewrite Hcode'.
        -- apply list_elem_of_singleton in Hr as ->.
           destruct (Hkeep _ _ Hst0) as (st' & Hst' & Hcode').
           exists st'. split; [exact Hst'|]. now rewrite Hcode'.
      * rewrite lookup_insert_ne by congruence. intros Hm Hr.
        destruct (I3 _ _ _ Hm Hr) as (st & Hst & Hs).
        destruct (Hkeep _ _ Hst) as (st' & Hst' & Hcode').
        exists st'. split; [exact Hst'|]. now rewrite Hcode'.
    + intros m set'. destruct (decide (m = material_ref material)) as [->|Hne].
      * rewrite lookup_insert_eq. intros [= <-].
        apply NoDup_app. split; [apply (I4 _ _ Hset)|]. split.
        -- intros x Hx Hx'. apply list_elem_of_singleton in Hx' as ->. contradiction.
        -- apply NoDup_singleton.
      * rewrite lookup_insert_ne by congruence. apply I4.
    + intros r st Hr. destruct (decide (r = stage)) as [->|Hne].
      * rewrite lookup_alter_eq in Hr. destruct (stages s !! stage) eqn:E;
          [|discriminate]. now apply (I5 _ _ E).
      * rewrite lookup_alter_ne in Hr by congruence. now apply (I5 _ _ Hr).
Qed.

Lemma cached_stage (s : Cache) (c : string) (stage : nat) :
  Inv s -> shaderCache s !! c = Some stage ->
  exists st, stages s !! stage = Some st /\
             shaderCache s !! code st = Some stage.
Proof.
  intros Hinv Hc. destruct (inv_code _ Hinv _ _ Hc) as (st & Hst & Hcode).
  exists st. split; [exact Hst|]. now rewrite Hcode.
Qed.

Lemma shader_Inv_update (material : Material) (s : Cache) :
  Inv s ->
  Inv (update material s) /\
  exists set v f,
    materialCache (update material s) !! material_ref material = Some set /\
    shaderCache (update material s) !! vertexShader material = Some v /\
    shaderCache (update material s) !! fragmentShader material = Some f /\
    v ∈ set /\ f ∈ set.
Proof.
  intros Hinv. unfold update.
  destruct (shader_Inv_getShaderStage (vertexShader material) s Hinv)
    as (Hinv1 & _ & Hv1 & _ & _).
  destruct (_getShaderStage (vertexShader material) s) as [v s1].
  cbn [fst snd] in Hinv1, Hv1.
  destruct (shader_Inv_getShaderStage (fragmentShader material) s1 Hinv1)
    as (Hinv2 & _ & Hf2 & _ & Hkeep2).
  destruct (_getShaderStage (fragmentShader material) s1) as [f s2].
  cbn [fst snd] in Hinv2, Hf2, Hkeep2.
  pose proof (Hkeep2 _ _ Hv1) as Hv2.
  destruct (shader_Inv_getShaderCacheForMaterial material s2 Hinv2)
    as (Hinv3 & _ & _ & Hc3 & Hset3).
  set (s3 := _getShaderCacheForMaterial material s2) in *.
  rewrite <- Hc3 in Hv2, Hf2.
  destruct (shader_Inv_add_stage material v s3 Hinv3 Hset3
              (cached_stage s3 _ v Hinv3 Hv2))
    as (Hinv4 & _ & Hc4 & _ & (set4 & Hset4 & Hin4 & _)).
  set (s4 := add_stage material v s3) in *.
  rewrite <- Hc4 in Hv2, Hf2.
  destruct (shader_Inv_add_stage material f s4 Hinv4
              (ex_intro _ set4 Hset4) (cached_stage s4 _ f Hinv4 Hf2))
    as (Hinv5 & _ & Hc5 & _ & (set5 & Hset5 & Hin5 & Hmono)).
  split; [exact Hinv5|].
  exists set5, v, f. rewrite Hc5. repeat split; auto.
  apply (Hmono v set4 Hset4 Hin4).
Qed.

(** The stages and the shader cache after the loop of [remove] over a
    set. *)
Lemma release_loop (set : list nat) :
  forall s : Cache,
    NoDup set ->
    (forall r, r ∈ set ->
               exists st, stages s !! r = Some st /\
                          shaderCache s !! code st = Some r) ->
    (forall c r, shaderCache s !! c = Some r ->
                 exists st, stages s !! r = Some st /\ code st = c) ->
    let s' := fold_left release_stage set s in
    _id s' = _id s /\ materialCache s' = materialCache s /\
    (forall r, stages s' !! r
               = if bool_decide (r ∈ set)
                 then (fun st => {| code := code st;
                                    usedTimes := usedTimes st - 1 |})
                        <$> stages s !! r
                 else stages s !! r) /\
    (forall c r, shaderCache s' !! c = Some r
                 <-> shaderCache s !! c = Some r /\
                     ~ (r ∈ set /\
                        usedTimes <$> stages s !! r = Some 1)).
Proof.
  induction set as [|r0 set IH]; intros s Hnd Hset Hcode; cbv zeta.
  - cbn [fold_left]. split; [reflexivity|]. split; [reflexivity|]. split.
    + intros r. now rewrite bool_decide_eq_false_2 by apply not_elem_of_nil.
    + intros c r. split; [|tauto]. intros Hx. split; [exact Hx|].
      intros [Hr _]. now apply elem_of_nil in Hr.
  - cbn [fold_left]. apply NoDup_cons in Hnd as [Hr0 Hnd].
    destruct (Hset r0 (list_elem_of_here _ _)) as (st0 & Hst0 & Hc0).
    assert (E : release_stage s r0
                = {| _id := _id s;
                     stages := <[r0 := {| code := code st0;
                                          usedTimes := usedTimes st0 - 1 |}]>
                                 (stages s);
                     shaderCache :=
                       if usedTimes st0 - 1 =? 0
                       then delete (code st0) (shaderCache s)
                       else shaderCache s;
                     materialCache := materialCache s |}).
    { unfold release_stage. rewrite Hst0. reflexivity. }
    set (s1 := release_stage s r0) in *.
    assert (Hsc1 : forall c r, shaderCache s1 !! c = Some r
                               <-> shaderCache s !! c = Some r /\
                                   ~ (r = r0 /\ usedTimes st0 = 1)).
    { intros c r. rewrite E. cbn [shaderCache].
      destruct (Z.eqb_spec (usedTimes st0 - 1) 0) as [Hz|Hz].
      - destruct (decide (c = code st0)) as [->|Hne].
        + rewrite lookup_delete_eq, Hc0. split; [discriminate|].
          intros [[= <-] Hn]. exfalso. apply Hn. split; [reflexivity|lia].
        + rewrite lookup_delete_ne by congruence. split; [|tauto].
          intros H. split; [exact H|]. intros [-> _].
          destruct (Hcode _ _ H) as (st & Hst & Hcd). congruence.
      - split; [|tauto]. intros H. split; [exact H|]. intros [_ H1]. lia. }
    destruct (IH s1 Hnd) as (Hid & Hmc & Hst & Hsc).
    + intros r Hr. destruct (Hset r (list_elem_of_further _ _ _ Hr))
        as (st & Hst & Hc).
      assert (r <> r0) by (intros ->; contradiction).
      exists st. rewrite E at 1. cbn [stages].
      rewrite lookup_insert_ne by congruence. split; [exact Hst|].
      apply Hsc1. split; [exact Hc|]. tauto.
    + intros c r [H _]%Hsc1. destruct (Hcode _ _ H) as (st & Hst & Hcd).
      rewrite E. cbn [stages]. destruct (decide (r = r0)) as [->|Hne].
      * rewrite lookup_insert_eq. rewrite Hst0 in Hst. injection Hst as <-.
        eauto.
      * rewrite lookup_insert_ne by congruence. eauto.
    + split; [rewrite Hid, E; reflexivity|].
      split; [rewrite Hmc, E; reflexivity|]. split.
      * intros r. rewrite Hst, E. cbn [stages].
        destruct (decide (r = r0)) as [->|Hne].
        -- rewrite (bool_decide_eq_false_2 _ Hr0), lookup_insert_eq, Hst0.
           rewrite bool_decide_eq_true_2 by apply list_elem_of_here.
           reflexivity.
        -- rewrite lookup_insert_ne by congruence.
           apply (f_equal (fun b : bool => if b then _ else _)).
           apply bool_decide_ext. rewrite elem_of_cons. tauto.
      * intros c r. rewrite Hsc, Hsc1, elem_of_cons, E. cbn [stages].
        destruct (decide (r = r0)) as [->|Hne].
        -- rewrite lookup_insert_eq, Hst0. cbn. split.
           ++ intros [[H1 H2] H3]. split; [exact H1|].
              intros [_ [= H4]]. apply H2. auto.
           ++ intros [H1 H2]. split; [split; [exact H1|]|].
              ** intros [_ H3]. apply H2. split; [auto|]. now rewrite H3.
              ** intros [H3 _]. contradiction.
        -- rewrite lookup_insert_ne by congruence. tauto.
Qed.

Lemma remove_effect (material : Material) (s s' : Cache) :
  Inv s -> remove material s = Some s' ->
  exists set,
    materialCache s !! material_ref material = Some set /\
    _id s' = _id s /\
    materialCache s' = delete (material_ref material) (materialCache s) /\
    (forall r, stages s' !! r
               = if bool_decide (r ∈ set)
                 then (fun st => {| code := code st;
                                    usedTimes := usedTimes st - 1 |})
                        <$> stages s !! r
                 else stages s !! r) /\
    (forall c r, shaderCache s' !! c = Some r
                 <-> shaderCache s !! c = Some r /\
                     ~ (r ∈ set /\ size (users r s) = 1%nat)).
Proof.
  intros Hinv. unfold remove.
  destruct (materialCache s !! material_ref material) as [set|] eqn:Hset;
    [|discriminate].
  intros [= <-]. exists set. split; [reflexivity|].
  destruct (release_loop set s (inv_set _ Hinv _ _ Hset)
              (fun r => inv_cached _ Hinv _ _ r Hset) (inv_code _ Hinv))
    as (Hid & Hmc & Hst & Hsc).
  cbn [_id stages shaderCache materialCache].
  split; [exact Hid|]. split; [now rewrite Hmc|]. split; [exact Hst|].
  intros c r. rewrite Hsc. split; intros [Hc Hn]; (split; [exact Hc|]);
    intros [Hr Hu]; apply Hn; (split; [exact Hr|]);
    destruct (inv_code _ Hinv _ _ Hc) as (st & Hs & _);
    pose proof (inv_usedTimes _ Hinv _ _ _ Hc Hs) as Hut; rewrite Hs in *; cbn in *.
  - f_equal. lia.
  - injection Hu as Hu. lia.
Qed.

Lemma shader_Inv_remove (material : Material) (s s' : Cache) :
  Inv s -> remove material s = Some s' -> Inv s'.
Proof.
  intros Hinv Hrem.
  destruct (remove_effect material s s' Hinv Hrem)
    as (set & Hset & Hid & Hmc & Hst & Hsc).
  assert (Hkeep : forall r st, stages s !! r = Some st ->
                               exists st', stages s' !! r = Some st' /\
                                           code st' = code st).
  { intros r st Hr. rewrite Hst, Hr. destruct (bool_decide (r ∈ set)); cbn; eauto. }
  assert (Husers : forall r,
             size (users r s)
             = (size (users r s') + if bool_decide (r ∈ set) then 1 else 0)%nat).
  { intros r. unfold users. rewrite Hmc.
    rewrite (users_lookup r (material_ref material) (materialCache s)), Hset.
    reflexivity. }
  split.
  - intros c r [Hc _]%Hsc. destruct (inv_code _ Hinv _ _ Hc) as (st & Hs & Hcd).
    destruct (Hkeep _ _ Hs) as (st' & Hs' & Hcd'). exists st'. split; congruence.
  - intros c r st' [Hc Hn]%Hsc. rewrite Hst.
    destruct (inv_code _ Hinv _ _ Hc) as (st & Hs & Hcd). rewrite Hs.
    pose proof (inv_usedTimes _ Hinv _ _ _ Hc Hs) as Hut.
    pose proof (Husers r) as Hu.
    destruct (bool_decide (r ∈ set)); cbn; intros [= <-]; cbn [usedTimes]; lia.
  - intros m set' r. rewrite Hmc. intros Hm Hr.
    apply lookup_delete_Some in Hm as [Hne Hm].
    destruct (inv_cached _ Hinv _ _ _ Hm Hr) as (st & Hs & Hc).
    destruct (Hkeep _ _ Hs) as (st' & Hs' & Hcd'). exists st'.
    split; [exact Hs'|]. rewrite Hcd'. apply Hsc. split; [exact Hc|].
    intros [Hin Hu].
    pose proof (two_users r s _ _ _ _ Hne Hset Hin Hm Hr). lia.
  - intros m set'. rewrite Hmc. intros [_ Hm]%lookup_delete_Some.
    apply (inv_set _ Hinv _ _ Hm).
  - intros r st'. rewrite Hst, Hid. intros Hr.
    destruct (stages s !! r) as [st|] eqn:E.
    + apply (inv_made _ Hinv _ _ E).
    + destruct (bool_decide (r ∈ set)); discriminate.
Qed.

Lemma shader_Inv_run (cs : list Call) : Inv (run cs).
Proof.
  unfold run. induction cs as [|c cs IH] using rev_ind;
    [exact shader_Inv_initial|].
  rewrite fold_left_app. cbn [fold_left].
  set (s := fold_left step cs initial) in *.
  destruct c as [m|m|m|m|]; cbn [step].
  - now apply shader_Inv_update.
  - destruct (remove m s) as [s'|] eqn:E; cbn; [|exact IH].
    now apply (shader_Inv_remove m s s').
  - now apply shader_Inv_getShaderStage.
  - now apply shader_Inv_getShaderStage.
  - split; unfold dispose; cbn [_id stages shaderCache materialCache];
      intros *; rewrite ?lookup_empty; try discriminate.
    apply (inv_made _ IH).
Qed.

(** X16.  The shader cache after any calls of its methods.  A stage of
    the cache belongs to the code it is cached under, and its
    [usedTimes] is the number of materials whose set holds it; a stage
    in the set of a material is cached and used at least once.
    [update] leaves the stages of both shaders of the material in its
    set, and [getVertexShaderID] and [getFragmentShaderID] then give
    these stages and create nothing.  [remove] throws exactly for a
    material that has no set; otherwise it forgets the set, and of the
    cache it drops exactly the stages that no other material uses. *)
Theorem shader_stages_are_counted (cs : list Call) :
  let s := run cs in
  (forall c stage,
      shaderCache s !! c = Some stage ->
      exists st, stages s !! stage = Some st /\ code st = c /\
                 usedTimes st = Z.of_nat (size (users stage s))) /\
  (forall m set stage,
      materialCache s !! m = Some set -> stage ∈ set ->
      exists st, stages s !! stage = Some st /\
                 shaderCache s !! code st = Some stage /\
                 1 <= usedTimes st) /\
  (forall material,
      let s' := update material s in
      exists set,
        materialCache s' !! material_ref material = Some set /\
        fst (getVertexShaderID material s') ∈ set /\
        fst (getFragmentShaderID material s') ∈ set /\
        snd (getVertexShaderID material s') = s' /\
        snd (getFragmentShaderID material s') = s') /\
  (forall material,
      remove material s = None
      <-> materialCache s !! material_ref material = None) /\
  (forall material s',
      remove material s = Some s' ->
      materialCache s' !! material_ref material = None /\
      (forall m, m <> material_ref material ->
                 materialCache s' !! m = materialCache s !! m) /\
      forall c stage,
        shaderCache s' !! c = Some stage
        <-> shaderCache s !! c = Some stage /\
            ~ (stage ∈ default [] (materialCache s !! material_ref material) /\
               size (users stage s) = 1%nat)).
Proof.
  cbv zeta. pose proof (shader_Inv_run cs) as Hinv.
  set (s := run cs) in *.
  split; [|split; [|split; [|split]]].
  - intros c stage Hc. destruct (inv_code _ Hinv _ _ Hc) as (st & Hs & Hcd).
    exists st. split; [exact Hs|]. split; [exact Hcd|].
    apply (inv_usedTimes _ Hinv _ _ _ Hc Hs).
  - intros m set stage Hm Hin.
    destruct (inv_cached _ Hinv _ _ _ Hm Hin) as (st & Hs & Hc).
    exists st. split; [exact Hs|]. split; [exact Hc|].
    rewrite (inv_usedTimes _ Hinv _ _ _ Hc Hs).
    pose proof (a_user stage s m set Hm Hin). lia.
  - intros material.
    destruct (shader_Inv_update material s Hinv)
      as (_ & set & v & f & Hset & Hv & Hf & Hinv' & Hinf).
    exists set. split; [exact Hset|].
    unfold getVertexShaderID, getFragmentShaderID.
    destruct (_getShaderStage_cases (vertexShader material) (update material s))
      as [(v' & Hv' & ->)|[Hn _]]; [|congruence].
    destruct (_getShaderStage_cases (fragmentShader material) (update material s))
      as [(f' & Hf' & ->)|[Hn _]]; [|congruence].
    cbn [fst snd]. rewrite Hv in Hv'. rewrite Hf in Hf'.
    injection Hv' as <-. injection Hf' as <-. auto.
  - intros material. unfold remove.
    destruct (materialCache s !! material_ref material); split;
      intros; (discriminate || reflexivity).
  - intros material s' Hrem.
    destruct (remove_effect material s s' Hinv Hrem)
      as (set & Hset & _ & Hmc & _ & Hsc).
    rewrite Hmc, Hset. cbn [default from_option id].
    split; [apply lookup_delete_eq|]. split; [|exact Hsc].
    intros m Hne. now rewrite lookup_delete_ne.
Qed.

Lemma shader_stages_are_counted_witness :
  shaderCache (run [Update {| material_ref := 1; vertexShader := "v";
                              fragmentShader := "f" |};
                    Update {| material_ref := 2; vertexShader := "v";
                              fragmentShader := "g" |}]) !! "v"
  = Some 0%nat /\
  exists st,
    stages (run [Update {| material_ref := 1; vertexShader := "v";
                           fragmentShader := "f" |};
                 Update {| material_ref := 2; vertexShader := "v";
                           fragmentShader := "g" |}]) !! 0%nat = Some st /\
    code st = "v" /\
    usedTimes st
    = Z.of_nat
        (size (users 0 (run [Update {| material_ref := 1; vertexShader := "v";
                                       fragmentShader := "f" |};
                             Update {| material_ref := 2; vertexShader := "v";
                                       fragmentShader := "g" |}]))).
Proof.
  split; [vm_compute; reflexivity|].
  apply (proj1 (shader_stages_are_counted
                  [Update {| material_ref := 1; vertexShader := "v";
                             fragmentShader := "f" |};
                   Update {| material_ref := 2; vertexShader := "v";
                             fragmentShader := "g" |}])).
  vm_compute. reflexivity.
Defined.

End WebGLShaderCacheFacts.

(** ** WebGLObjects *)
Module WebGLObjectsFacts.

Import WebGLObjects.

Section Objects.

Variable buffergeometry_of : nat -> nat -> nat.
Variable onInstancedMeshDispose : nat.

Local Abbreviation advances := (advances onInstancedMeshDispose).
Local Abbreviation updated := (updated buffergeometry_of onInstancedMeshDispose).
Local Abbreviation update_instances := (update_instances onInstancedMeshDispose).
Local Abbreviation update := (update buffergeometry_of onInstancedMeshDispose).
Local Abbreviation updates := (updates buffergeometry_of onInstancedMeshDispose).

Lemma advances_refl (frame : Z) (s : State) : advances frame s s.
Proof. split; [auto|]. split; [auto|]. exists []. now rewrite app_nil_r. Qed.

Lemma advances_trans (frame : Z) (s1 s2 s3 : State) :
  advances frame s1 s2 -> advances frame s2 s3 -> advances frame s1 s3.
Proof.
  intros (H1 & L1 & l1 & C1) (H2 & L2 & l2 & C2). split; [|split; [auto|]].
  - intros key. destruct (H2 key) as [E|E]; [auto|].
    rewrite E. apply H1.
  - exists (l1 ++ l2). now rewrite C2, C1, app_assoc.
Qed.

Lemma advances_call (frame : Z) (c : Call) (s : State) :
  advances frame s (call c s).
Proof. split; [auto|]. split; [auto|]. now exists [c]. Qed.

Lemma advances_set (frame : Z) (key : nat + nat + nat) (s : State) :
  advances frame s (updateMap_set key frame s).
Proof.
  split; [|split; [auto|exists []; cbn; now rewrite app_nil_r]].
  intros key'. cbn [updateMap_set updateMap].
  destruct (decide (key' = key)) as [->|Hne].
  - left. apply lookup_insert_eq.
  - right. now apply lookup_insert_ne.
Qed.

Lemma update_geometry_spec (frame : Z) (bg : nat) (s : State) :
  advances frame s (update_geometry frame bg s) /\
  updateMap (update_geometry frame bg s) !! buffergeometry_key bg = Some frame /\
  (updateMap s !! buffergeometry_key bg = Some frame ->
   update_geometry frame bg s = s) /\
  (updateMap s !! buffergeometry_key bg <> Some frame ->
   calls (update_geometry frame bg s) = calls s ++ [geometries_update bg]).
Proof.
  unfold update_geometry.
  destruct (decide (updateMap s !! buffergeometry_key bg = Some frame))
    as [E|E].
  - rewrite bool_decide_eq_false_2 by tauto.
    split; [apply advances_refl|]. tauto.
  - rewrite bool_decide_eq_true_2 by exact E.
    split; [|split; [apply lookup_insert_eq|split; [tauto|reflexivity]]].
    eapply advances_trans; [apply advances_call|apply advances_set].
Qed.

Lemma update_skeleton_spec (frame : Z) (object : Object3D) (s : State) :
  advances frame s (update_skeleton frame object s) /\
  (isSkinnedMesh object = true ->
   updateMap (update_skeleton frame object s) !! skeleton_key (skeleton object)
   = Some frame) /\
  ((isSkinnedMesh object = true ->
    updateMap s !! skeleton_key (skeleton object) = Some frame) ->
   update_skeleton frame object s = s).
Proof.
  unfold update_skeleton. destruct (isSkinnedMesh object).
  - destruct (decide (updateMap s !! skeleton_key (skeleton object)
                      = Some frame)) as [E|E].
    + rewrite bool_decide_eq_false_2 by tauto.
      split; [apply advances_refl|]. tauto.
    + rewrite bool_decide_eq_true_2 by exact E.
      split; [|split; [intros _; apply lookup_insert_eq|]].
      * eapply advances_trans; [apply advances_call|apply advances_set].
      * intros H. now specialize (H eq_refl).
  - split; [apply advances_refl|]. split; [discriminate|reflexivity].
Qed.

Lemma has_after_add (ls : EventDispatcher.Listeners) (x y : nat) :
  (EventDispatcher.hasEventListener "dispose" x ls = true \/ x = y) ->
  EventDispatcher.hasEventListener
    "dispose" x (EventDispatcher.addEventListener "dispose" y ls) = true.
Proof.
  rewrite !EventDispatcherFacts.hasEventListener_spec,
    EventDispatcherFacts.listeners_of_add.
  rewrite decide_True by reflexivity.
  destruct (decide (y ∈ EventDispatcher.listeners_of "dispose" ls)) as [Hy|Hy].
  - intros [H| ->]; assumption.
  - rewrite elem_of_app, list_elem_of_singleton. tauto.
Qed.

Lemma update_instances_spec (frame : Z) (object : Object3D) (s : State) :
  advances frame s (update_instances frame object s) /\
  (isInstancedMesh object = true ->
   EventDispatcher.hasEventListener
     "dispose" onInstancedMeshDispose
     (listeners_at (update_instances frame object s) object) = true /\
   updateMap (update_instances frame object s)
   !! object_key (object_ref object) = Some frame) /\
  ((isInstancedMesh object = true ->
    EventDispatcher.hasEventListener
      "dispose" onInstancedMeshDispose (listeners_at s object) = true /\
    updateMap s !! object_key (object_ref object) = Some frame) ->
   update_instances frame object s = s).
Proof.
  unfold WebGLObjects.update_instances. destruct (isInstancedMesh object).
  2:{ split; [apply advances_refl|]. split; [discriminate|reflexivity]. }
  set (s1 := if negb _ then _ else s).
  assert (H1 : advances frame s s1 /\
               EventDispatcher.hasEventListener
                 "dispose" onInstancedMeshDispose (listeners_at s1 object)
               = true /\
               updateMap s1 = updateMap s /\
               (EventDispatcher.hasEventListener
                  "dispose" onInstancedMeshDispose (listeners_at s object)
                = true -> s1 = s)).
  { subst s1.
    destruct (EventDispatcher.hasEventListener
                "dispose" onInstancedMeshDispose (listeners_at s object))
      eqn:E; cbn [negb].
    - split; [apply advances_refl|]. auto.
    - split; [|split; [|split; [reflexivity|discriminate]]].
      + split; [auto|]. split; [|exists []; cbn; now rewrite app_nil_r].
        intros o Ho. unfold listeners_at.
        cbn [_listeners].
        destruct (decide (object_ref o = object_ref object)) as [Er|Hne].
        * rewrite Er, lookup_insert_eq. cbn. apply has_after_add. left.
          unfold listeners_at in Ho. now rewrite Er in Ho.
        * rewrite lookup_insert_ne by congruence. exact Ho.
      + unfold listeners_at at 1. cbn [_listeners].
        rewrite lookup_insert_eq. cbn. apply has_after_add. now right. }
  destruct H1 as (A1 & L1 & M1 & N1).
  destruct (decide (updateMap s1 !! object_key (object_ref object)
                    = Some frame)) as [E|E].
  - rewrite bool_decide_eq_false_2 by tauto.
    split; [exact A1|]. split; [auto|].
    intros H. destruct (H eq_refl) as [Hl _]. now apply N1.
  - rewrite bool_decide_eq_true_2 by exact E.
    split; [|split].
    + eapply advances_trans; [exact A1|].
      eapply advances_trans; [apply advances_call|].
      eapply advances_trans; [|apply advances_set].
      destruct (instanceColor object); [apply advances_call|apply advances_refl].
    + intros _. split; [|apply lookup_insert_eq].
      unfold listeners_at in *. cbn [updateMap_set _listeners].
      destruct (instanceColor object); exact L1.
    + intros H. destruct (H eq_refl) as [_ Hm]. rewrite M1 in E. contradiction.
Qed.

Lemma advances_keeps (frame : Z) (object : Object3D) (s s' : State) :
  updated frame object s -> advances frame s s' -> updated frame object s'.
Proof.
  intros (Hg & Hi & Hs) (Hm & Hl & _).
  assert (Hk : forall key, updateMap s !! key = Some frame ->
                           updateMap s' !! key = Some frame).
  { intros key E. destruct (Hm key) as [H|H]; [exact H|congruence]. }
  split; [auto|]. split.
  - intros H. destruct (Hi H). auto.
  - auto.
Qed.

Lemma update_advances (frame : Z) (object : Object3D) (s : State) :
  advances frame s (snd (update frame object s)).
Proof.
  unfold WebGLObjects.update. cbn [snd].
  eapply advances_trans; [apply advances_call|].
  eapply advances_trans; [apply update_geometry_spec|].
  eapply advances_trans; [apply update_instances_spec|].
  apply update_skeleton_spec.
Qed.

Lemma update_updated (frame : Z) (object : Object3D) (s : State) :
  updated frame object (snd (update frame object s)).
Proof.
  unfold WebGLObjects.update. cbn [snd].
  set (bg := buffergeometry_of (object_ref object) (geometry object)).
  set (s0 := call _ s).
  destruct (update_geometry_spec frame bg s0) as (_ & G & _).
  set (s1 := update_geometry frame bg s0) in *.
  destruct (update_instances_spec frame object s1) as ((A2 & _) & I & _).
  set (s2 := update_instances frame object s1) in *.
  destruct (update_skeleton_spec frame object s2) as ((A3 & L3 & _) & S & _).
  set (s3 := update_skeleton frame object s2) in *.
  assert (K2 : forall key, updateMap s1 !! key = Some frame ->
                           updateMap s2 !! key = Some frame).
  { intros key E. destruct (A2 key) as [H|H]; [exact H|congruence]. }
  assert (K3 : forall key, updateMap s2 !! key = Some frame ->
                           updateMap s3 !! key = Some frame).
  { intros key E. destruct (A3 key) as [H|H]; [exact H|congruence]. }
  split; [auto|]. split; [|exact S].
  intros H. destruct (I H). auto.
Qed.

Lemma update_noop (frame : Z) (object : Object3D) (s : State) :
  updated frame object s ->
  update frame object s
  = (buffergeometry_of (object_ref object) (geometry object),
     call (geometries_get (object_ref object) (geometry object)) s).
Proof.
  intros (Hg & Hi & Hs). unfold WebGLObjects.update. f_equal.
  set (bg := buffergeometry_of (object_ref object) (geometry object)) in *.
  set (s0 := call _ s).
  destruct (update_geometry_spec frame bg s0) as (_ & _ & G & _).
  rewrite G by exact Hg.
  destruct (update_instances_spec frame object s0) as (_ & _ & I).
  rewrite I by exact Hi.
  destruct (update_skeleton_spec frame object s0) as (_ & _ & S).
  now rewrite S.
Qed.

Lemma updates_advances (frame : Z) (objects : list Object3D) (s : State) :
  advances frame s (updates frame objects s).
Proof.
  unfold WebGLObjects.updates. revert s.
  induction objects as [|o os IH]; intros s; [apply advances_refl|].
  cbn [fold_left].
  eapply advances_trans; [apply update_advances|apply IH].
Qed.

Lemma updates_updated (frame : Z) (objects : list Object3D)
      (object : Object3D) (s : State) :
  object ∈ objects -> updated frame object (updates frame objects s).
Proof.
  unfold WebGLObjects.updates. revert s.
  induction objects as [|o os IH]; intros s Hin;
    [now apply elem_of_nil in Hin|].
  cbn [fold_left]. apply elem_of_cons in Hin as [->|Hin]; [|now apply IH].
  eapply advances_keeps; [apply update_updated|apply updates_advances].
Qed.

(** X17.  An object is updated once per frame.  After the updates of
    a list of objects in a frame, one more [update] of any object of
    the list in that frame does nothing but call [geometries.get],
    whose buffer geometry it returns: the update map, the listeners
    and the other calls stay as they are.  The listener
    [onInstancedMeshDispose] is registered on the instanced meshes
    of the list.  In another frame the [update] of the object calls
    [geometries.update] for its buffer geometry again. *)
Theorem objects_update_once_per_frame
        (frame : Z) (objects : list Object3D) (object : Object3D)
        (s : State) :
  object ∈ objects ->
  let s' := updates frame objects s in
  update frame object s'
  = (buffergeometry_of (object_ref object) (geometry object),
     call (geometries_get (object_ref object) (geometry object)) s') /\
  (isInstancedMesh object = true ->
   EventDispatcher.hasEventListener
     "dispose" onInstancedMeshDispose (listeners_at s' object) = true) /\
  forall frame', frame' <> frame ->
    exists log,
      calls (snd (update frame' object s'))
      = calls s'
        ++ geometries_get (object_ref object) (geometry object)
        :: geometries_update
             (buffergeometry_of (object_ref object) (geometry object))
        :: log.
Proof.
  intros Hin. cbv zeta.
  pose proof (updates_updated frame objects object s Hin) as Hu.
  set (s' := updates frame objects s) in *.
  split; [now apply update_noop|]. split.
  - intros H. destruct Hu as (_ & Hi & _). now destruct (Hi H).
  - intros frame' Hne. unfold WebGLObjects.update. cbn [snd].
    set (bg := buffergeometry_of (object_ref object) (geometry object)) in *.
    set (s0 := call _ s').
    destruct (update_geometry_spec frame' bg s0) as (_ & _ & _ & G).
    destruct (update_instances_spec frame' object
                (update_geometry frame' bg s0)) as ((_ & _ & l2 & C2) & _).
    destruct (update_skeleton_spec frame' object
                (update_instances frame' object
                   (update_geometry frame' bg s0)))
      as ((_ & _ & l3 & C3) & _).
    exists (l2 ++ l3). rewrite C3, C2, G.
    + cbn [s0 call calls]. rewrite <- !app_assoc. reflexivity.
    + destruct Hu as (Hg & _). cbn [s0 call updateMap]. fold bg in Hg.
      rewrite Hg. congruence.
Qed.

End Objects.

Lemma objects_update_once_per_frame_witness :
  update (fun _ geometry => geometry) 0
         7 {| object_ref := 1; geometry := 2; isInstancedMesh := true;
              instanceMatrix := 3; instanceColor := None;
              isSkinnedMesh := false; skeleton := 0 |}
         (updates (fun _ geometry => geometry) 0 7
                  [{| object_ref := 1; geometry := 2; isInstancedMesh := true;
                      instanceMatrix := 3; instanceColor := None;
                      isSkinnedMesh := false; skeleton := 0 |}]
                  {| updateMap := ∅; _listeners := ∅; calls := [] |})
  = (2%nat,
     call (geometries_get 1 2)
          (updates (fun _ geometry => geometry) 0 7
                   [{| object_ref := 1; geometry := 2; isInstancedMesh := true;
                       instanceMatrix := 3; instanceColor := None;
                       isSkinnedMesh := false; skeleton := 0 |}]
                   {| updateMap := ∅; _listeners := ∅; calls := [] |})).
Proof.
  apply (proj1 (objects_update_once_per_frame
                  (fun _ geometry => geometry) 0 7
                  [{| object_ref := 1; geometry := 2; isInstancedMesh := true;
                      instanceMatrix := 3; instanceColor := None;
                      isSkinnedMesh := false; skeleton := 0 |}]
                  {| object_ref := 1; geometry := 2; isInstancedMesh := true;
                     instanceMatrix := 3; instanceColor := None;
                     isSkinnedMesh := false; skeleton := 0 |}
                  {| updateMap := ∅; _listeners := ∅; calls := [] |}
                  ltac:(apply list_elem_of_here))).
Defined.

End WebGLObjectsFacts.

(** ** The flags of the program cache key *)
Module ProgramCacheKeyBooleansFacts.

Import ProgramCacheKeyBooleans.

Lemma testbit_enable_if (flag : bool) (channel mask i : Z) :
  0 <= i < 32 ->
  Z.testbit (enable_if flag channel mask) i
  = Z.testbit mask i || (flag && (i =? channel mod 32)).
Proof.
  intros Hi. unfold enable_if, Layers.enable. destruct flag; cbn [andb].
  - now rewrite Z.lor_spec, LayersFacts.low_bit_int32,
      LayersFacts.low_bit_channel by exact Hi.
  - now rewrite orb_false_r.
Qed.

Lemma enable_if_range (flag : bool) (channel mask : Z) :
  0 <= channel < 31 -> 0 <= mask < 2 ^ 31 ->
  0 <= enable_if flag channel mask < 2 ^ 31.
Proof.
  intros Hc Hm. unfold enable_if. destruct flag; [|exact Hm].
  unfold Layers.enable, Layers.channel_bit, Layers.to_int32.
  rewrite Z.lor_0_r, (Z.mod_small channel 32) by lia.
  rewrite (Z.mod_small (mask + 2 ^ 31)) by lia.
  assert (Hp : 0 < 2 ^ channel < 2 ^ 31)
    by (split; [apply Z.pow_pos_nonneg; lia|apply Z.pow_lt_mono_r; lia]).
  rewrite Z.shiftl_1_l, (Z.mod_small (2 ^ channel + 2 ^ 31)) by lia.
  replace (mask + 2 ^ 31 - 2 ^ 31) with mask by lia.
  replace (2 ^ channel + 2 ^ 31 - 2 ^ 31) with (2 ^ channel) by lia.
  split; [apply Z.lor_nonneg; lia|].
  destruct (Z.eq_dec (Z.lor mask (2 ^ channel)) 0) as [->|Hne]; [lia|].
  apply Z.log2_lt_pow2; [pose proof (Z.lor_nonneg mask (2 ^ channel)); lia|].
  rewrite Z.log2_lor by lia.
  apply Z.max_lub_lt.
  - destruct (Z.eq_dec mask 0) as [->|Hm0]; [cbn; lia|].
    apply Z.log2_lt_pow2; lia.
  - rewrite Z.log2_pow2; lia.
Qed.

Ltac flag_of H i :=
  let E := fresh "E" in
  pose proof (f_equal (fun mask => Z.testbit mask i) H) as E;
  cbv beta in E; unfold first_mask, second_mask in E; cbv zeta in E;
  rewrite !testbit_enable_if in E by lia;
  cbn [Z.eqb Z.modulo Z.div_eucl Z.pos_div_eucl Pos.eqb Z.leb Z.ltb Z.compare
       Pos.compare Pos.compare_cont Z.add Z.mul Pos.add Pos.mul Z.sub Z.opp
       Z.pos_sub Z.succ_double Z.pred_double Z.double Pos.pred_double
       Pos.succ fst snd Layers.disableAll Z.testbit] in E;
  rewrite ?andb_false_r, ?andb_true_r, ?orb_false_r, ?orb_false_l in E.

Lemma first_mask_flags (p p' : Parameters) :
  first_mask p = first_mask p' ->
  supportsVertexTextures p = supportsVertexTextures p' /\
  instancing p = instancing p' /\
  instancingColor p = instancingColor p' /\
  instancingMorph p = instancingMorph p' /\
  matcap p = matcap p' /\
  envMap p = envMap p' /\
  normalMapObjectSpace p = normalMapObjectSpace p' /\
  normalMapTangentSpace p = normalMapTangentSpace p' /\
  clearcoat p = clearcoat p' /\
  iridescence p = iridescence p' /\
  alphaTest p = alphaTest p' /\
  vertexColors p = vertexColors p' /\
  vertexAlphas p = vertexAlphas p' /\
  vertexUv1s p = vertexUv1s p' /\
  vertexUv2s p = vertexUv2s p' /\
  vertexUv3s p = vertexUv3s p' /\
  vertexTangents p = vertexTangents p' /\
  anisotropy p = anisotropy p' /\
  alphaHash p = alphaHash p' /\
  batching p = batching p' /\
  dispersion p = dispersion p' /\
  batchingColor p = batchingColor p'.
Proof.
  intros H.
  flag_of H 0.
  flag_of H 1.
  flag_of H 2.
  flag_of H 3.
  flag_of H 4.
  flag_of H 5.
  flag_of H 6.
  flag_of H 7.
  flag_of H 8.
  flag_of H 9.
  flag_of H 10.
  flag_of H 11.
  flag_of H 12.
  flag_of H 13.
  flag_of H 14.
  flag_of H 15.
  flag_of H 16.
  flag_of H 17.
  flag_of H 18.
  flag_of H 19.
  flag_of H 20.
  flag_of H 21.
  repeat split; assumption.
Qed.

Lemma second_mask_flags (p p' : Parameters) :
  second_mask p = second_mask p' ->
  fog p = fog p' /\
  useFog p = useFog p' /\
  flatShading p = flatShading p' /\
  logarithmicDepthBuffer p = logarithmicDepthBuffer p' /\
  skinning p = skinning p' /\
  morphTargets p = morphTargets p' /\
  morphNormals p = morphNormals p' /\
  morphColors p = morphColors p' /\
  premultipliedAlpha p = premultipliedAlpha p' /\
  shadowMapEnabled p = shadowMapEnabled p' /\
  doubleSided p = doubleSided p' /\
  flipSided p = flipSided p' /\
  useDepthPacking p = useDepthPacking p' /\
  dithering p = dithering p' /\
  transmission p = transmission p' /\
  sheen p = sheen p' /\
  opaque p = opaque p' /\
  pointsUvs p = pointsUvs p' /\
  decodeVideoTexture p = decodeVideoTexture p' /\
  alphaToCoverage p = alphaToCoverage p'.
Proof.
  intros H.
  flag_of H 0.
  flag_of H 1.
  flag_of H 2.
  flag_of H 3.
  flag_of H 4.
  flag_of H 5.
  flag_of H 6.
  flag_of H 7.
  flag_of H 8.
  flag_of H 9.
  flag_of H 10.
  flag_of H 11.
  flag_of H 12.
  flag_of H 13.
  flag_of H 14.
  flag_of H 15.
  flag_of H 16.
  flag_of H 17.
  flag_of H 18.
  flag_of H 19.
  repeat split; assumption.
Qed.

(** X18.  The flags of the program cache key are packed without loss:
    [getProgramCacheKeyBooleans] pushes two masks from which every one
    of its 42 flags can be read, so two parameter sets that differ in a
    flag get different entries in the key.  Both masks are non-negative
    32-bit integers. *)
Theorem cache_key_booleans_are_injective
        (array array' : list Z) (p p' : Parameters) :
  (getProgramCacheKeyBooleans array p = getProgramCacheKeyBooleans array' p'
   <-> array = array' /\ p = p') /\
  0 <= first_mask p < 2 ^ 31 /\
  0 <= second_mask p < 2 ^ 31.
Proof.
  split; [split|split].
  - unfold getProgramCacheKeyBooleans. rewrite !app_assoc.
    intros [[Ha H1]%app_inj_tail H2]%app_inj_tail.
    split; [exact Ha|].
    pose proof (first_mask_flags p p' H1) as F.
    pose proof (second_mask_flags p p' H2) as S.
    destruct p, p'. cbn in F, S.
    repeat match goal with H : _ /\ _ |- _ => destruct H end.
    subst. reflexivity.
  - intros [-> ->]. reflexivity.
  - unfold first_mask. cbv zeta.
    repeat (apply enable_if_range; [lia|]). unfold Layers.disableAll. lia.
  - unfold second_mask. cbv zeta.
    repeat (apply enable_if_range; [lia|]). unfold Layers.disableAll. lia.
Qed.

End ProgramCacheKeyBooleansFacts.

(** ** The size of the canvas *)
Module RendererSizeFacts.

Import WebGLState WebGLRenderer RendererSize.





End RendererSizeFacts.

(** ** Raycaster *)
Module RaycasterFacts.

Import Raycaster.

(** Induction on the scene graph. *)
Lemma Object3D_forall (P : Object3D -> Prop) :
  (forall l r cs, Forall P cs -> P (Object3D_new l r cs)) ->
  forall o, P o.
Proof.
  intros H. fix IH 1. intros [l r cs]. apply H.
  induction cs as [|c cs IHcs]; constructor; [apply IH | exact IHcs].
Qed.

Lemma reached_cases (raycaster : Raycaster) (recursive : bool)
      (root o : Object3D) :
  reached raycaster recursive root o <->
  o = root \/
  (recursive = true /\ propagates raycaster root = true /\
   exists child, child ∈ children root /\
                 reached raycaster recursive child o).
Proof.
  split.
  - intros [o'|root' child o' Hr Hp Hc Hre]; [now left|].
    right. eauto.
  - intros [->|(Hr & Hp & child & Hc & Hre)]; [constructor|].
    eapply reached_below; eauto.
Qed.

Lemma fold_children_elem (raycaster : Raycaster) (cs : list Object3D)
      (h : Intersection) :
  Forall (fun c => forall recursive acc,
              h ∈ intersect c raycaster acc recursive <->
              h ∈ acc \/ found raycaster recursive c h) cs ->
  forall recursive acc,
    h ∈ fold_left (fun acc c => intersect c raycaster acc recursive) cs acc <->
    h ∈ acc \/ exists c, c ∈ cs /\ found raycaster recursive c h.
Proof.
  intros Hcs recursive.
  induction Hcs as [|c cs Hc Hcs IH]; intros acc; cbn [fold_left].
  - split; [now left|]. intros [H|(c & Hc & _)]; [exact H|].
    now apply elem_of_nil in Hc.
  - rewrite IH, Hc. split.
    + intros [[H|H]|(c' & Hc' & H)].
      * now left.
      * right. exists c. split; [apply list_elem_of_here | exact H].
      * right. exists c'. split; [now apply list_elem_of_further | exact H].
    + intros [H|(c' & Hc' & H)].
      * left. now left.
      * apply elem_of_cons in Hc' as [->|Hc'].
        -- left. now right.
        -- right. eauto.
Qed.

Lemma intersect_elem (raycaster : Raycaster) (h : Intersection)
      (o : Object3D) :
  forall recursive acc,
    h ∈ intersect o raycaster acc recursive <->
    h ∈ acc \/ found raycaster recursive o h.
Proof.
  induction o as [l r cs IH] using Object3D_forall.
  intros recursive acc.
  set (o := Object3D_new l r cs).
  assert (Hfound : found raycaster recursive o h <->
            (tested raycaster o = true /\ h ∈ fst (r raycaster)) \/
            (recursive = true /\ propagates raycaster o = true /\
             exists c, c ∈ cs /\ found raycaster recursive c h)).
  { unfold found. split.
    - intros (o' & Hre & Ht & Hh).
      apply reached_cases in Hre as [->|(Hr & Hp & c & Hc & Hre)].
      + left. split; [exact Ht | exact Hh].
      + right. split; [exact Hr|]. split; [exact Hp|].
        exists c. split; [exact Hc|]. exists o'. auto.
    - intros [[Ht Hh]|(Hr & Hp & c & Hc & o' & Hre & Ht & Hh)].
      + exists o. split; [constructor|]. split; [exact Ht | exact Hh].
      + exists o'. split; [|split; [exact Ht | exact Hh]].
        eapply reached_below; eauto. }
  rewrite Hfound. clear Hfound.
  unfold propagates, tested. cbn [intersect object_layers raycast o].
  destruct (Layers.test l (layers raycaster)) eqn:Et.
  - destruct (r raycaster) as [pushed result] eqn:Er. cbn [fst snd].
    destruct result; cbn [andb].
    + destruct recursive.
      * rewrite (fold_children_elem raycaster cs h IH true), elem_of_app.
        split.
        -- intros [[H|H]|H]; [now left | right; left; auto |].
           right. right. auto.
        -- intros [H|[[_ H]|(_ & _ & H)]]; [left; now left | left; now right |].
           now right.
      * rewrite elem_of_app. split.
        -- intros [H|H]; [now left | right; left; auto].
        -- intros [H|[[_ H]|(Hr & _)]]; [now left | now right | discriminate].
    + rewrite elem_of_app. split.
      * intros [H|H]; [now left | right; left; auto].
      * intros [H|[[_ H]|(_ & Hp & _)]]; [now left | now right | discriminate].
  - destruct recursive; cbn [andb].
    + rewrite (fold_children_elem raycaster cs h IH true).
      split.
      * intros [H|H]; [now left | right; right; auto].
      * intros [H|[[Hf _]|(_ & _ & H)]]; [now left | discriminate | now right].
    + split; [now left|].
      intros [H|[[Hf _]|(Hr & _)]]; [exact H | discriminate | discriminate].
Qed.

Lemma collected_elem (raycaster : Raycaster) (objects : list Object3D)
      (recursive : bool) (h : Intersection) :
  forall intersects,
    h ∈ collected raycaster objects recursive intersects <->
    h ∈ intersects \/
    exists root, root ∈ objects /\ found raycaster recursive root h.
Proof.
  unfold collected.
  induction objects as [|o objects IH]; intros intersects; cbn [fold_left].
  - split; [now left|]. intros [H|(c & Hc & _)]; [exact H|].
    now apply elem_of_nil in Hc.
  - rewrite IH, intersect_elem. split.
    + intros [[H|H]|(c' & Hc' & H)].
      * now left.
      * right. exists o. split; [apply list_elem_of_here | exact H].
      * right. exists c'. split; [now apply list_elem_of_further | exact H].
    + intros [H|(c' & Hc' & H)].
      * left. now left.
      * apply elem_of_cons in Hc' as [->|Hc'].
        -- left. now right.
        -- right. eauto.
Qed.

Lemma ascSort_spec (a b : Intersection) :
  Qle_bool (ascSort a b) 0 = true <-> nearer a b.
Proof.
  unfold ascSort, nearer. rewrite Qle_bool_iff. split; intros H; lra.
Qed.

Lemma nearer_total (a b : Intersection) : nearer a b \/ nearer b a.
Proof. unfold nearer. destruct (Qlt_le_dec (distance a) (distance b)); [left|right]; lra. Qed.

Lemma nearer_trans (a b c : Intersection) :
  nearer a b -> nearer b c -> nearer a c.
Proof. unfold nearer. intros. lra. Qed.

(** The sort keeps the intersections at one distance in their order. *)
Lemma sorted_insert_at_distance (d : Q) (x : Intersection)
      (l : list Intersection) :
  at_distance d (sorted_insert ascSort x l) = at_distance d (x :: l).
Proof.
  unfold at_distance.
  induction l as [|y l IH]; cbn [sorted_insert]; [reflexivity|].
  destruct (Qle_bool (ascSort x y) 0) eqn:E; [reflexivity|].
  rewrite filter_cons, IH, !filter_cons.
  destruct (decide (Qeq_bool (distance y) d = true)) as [Hy|Hy];
    destruct (decide (Qeq_bool (distance x) d = true)) as [Hx|Hx];
    try reflexivity.
  exfalso. apply Qeq_bool_iff in Hx, Hy.
  assert (Qle_bool (ascSort x y) 0 = true); [|congruence].
  apply ascSort_spec. unfold nearer. lra.
Qed.

Lemma array_sort_at_distance (d : Q) (l : list Intersection) :
  at_distance d (array_sort ascSort l) = at_distance d l.
Proof.
  induction l as [|x l IH]; cbn [array_sort]; [reflexivity|].
  rewrite sorted_insert_at_distance. unfold at_distance in *.
  now rewrite !filter_cons, IH.
Qed.

(** X20.  The intersections that [intersectObjects] returns are in
    ascending order of distance, and those at one distance are in the
    order in which they were collected.  They are the intersections
    that the array held before, and the ones pushed by the [raycast] of
    every object that passes the layer test of the raycaster and that
    the search reaches: the objects given and, in a recursive search,
    the descendants below objects that fail the layer test or whose
    [raycast] does not return [false].  An object that fails the layer
    test is not asked, but its children are still searched.
    [intersectObject] is the search from one object. *)
Theorem intersections_are_the_reached_hits_by_distance
        (raycaster : Raycaster) (objects : list Object3D)
        (recursive : bool) (intersects : list Intersection) :
  let result := intersectObjects raycaster objects recursive intersects in
  StronglySorted (fun a b => (distance a <= distance b)%Q) result /\
  (forall d,
      at_distance d result =
      at_distance d (collected raycaster objects recursive intersects)) /\
  (forall h,
      h ∈ result <->
      h ∈ intersects \/
      exists root o,
        root ∈ objects /\
        reached raycaster recursive root o /\
        Layers.test (object_layers o) (layers raycaster) = true /\
        h ∈ fst (raycast o raycaster)) /\
  (forall object,
      intersectObject raycaster object recursive intersects =
      intersectObjects raycaster [object] recursive intersects).
Proof.
  intros result. subst result. unfold intersectObjects.
  split; [|split; [|split; [|reflexivity]]].
  - apply (array_sort_strongly_sorted ascSort nearer).
    + apply ascSort_spec.
    + apply nearer_total.
    + apply nearer_trans.
  - intros d. apply array_sort_at_distance.
  - intros h.
    rewrite <- (elem_of_Permutation_proper _ _ _
                  (array_sort_perm ascSort
                     (collected raycaster objects recursive intersects))).
    rewrite collected_elem. unfold found, tested.
    split; (intros [H|H]; [now left | right]).
    + destruct H as (root & Hroot & o & Hre & Ht & Hh). exists root, o. auto.
    + destruct H as (root & o & Hroot & Hre & Ht & Hh). exists root.
      split; [exact Hroot|]. exists o. auto.
Qed.

End RaycasterFacts.

(** ** WebGLProperties *)
Module WebGLPropertiesFacts.

Import WebGLProperties.

Section Facts.

Context {Value : Type}.
Implicit Types (s : State Value) (c : Call Value).

Lemma get_Some (o b : nat) s :
  properties s !! o = Some b -> get o s = (b, s).
Proof. unfold get. now intros ->. Qed.

Lemma get_None (o : nat) s :
  properties s !! o = None ->
  get o s = (length (bags s),
             {| bags := bags s ++ [∅];
                properties := <[o := length (bags s)]> (properties s) |}).
Proof. unfold get. now intros ->. Qed.

Lemma bags_Inv_initial : Inv (@initial Value).
Proof.
  split; cbn [properties initial]; intros *; rewrite lookup_empty; discriminate.
Qed.

Lemma bags_Inv_get (o : nat) s : Inv s -> Inv (snd (get o s)).
Proof.
  intros [Hb Ho]. unfold get.
  destruct (properties s !! o) as [b|] eqn:E; cbn [snd]; [now split|].
  split; cbn [bags properties].
  - intros o1 b1. rewrite length_app. cbn [length].
    destruct (decide (o1 = o)) as [->|Hne].
    + rewrite lookup_insert_eq. intros [= <-]. lia.
    + rewrite lookup_insert_ne by congruence. intros H.
      apply Hb in H. lia.
  - intros o1 o2 b1.
    destruct (decide (o1 = o)) as [->|H1], (decide (o2 = o)) as [->|H2];
      rewrite ?lookup_insert_eq, ?lookup_insert_ne by congruence.
    + reflexivity.
    + intros [= <-] H. apply Hb in H. lia.
    + intros H [= <-]. apply Hb in H. lia.
    + apply Ho.
Qed.

Lemma bags_Inv_assign (b : nat) (k : string) (v : Value) s :
  Inv s -> Inv (assign b k v s).
Proof.
  intros [Hb Ho]. split; cbn [bags properties assign].
  - intros o1 b1 H. rewrite length_alter. now apply Hb in H.
  - apply Ho.
Qed.

Lemma bags_Inv_step s c : Inv s -> Inv (step s c).
Proof.
  intros Hinv. destruct c as [o|o|o k v| |b k v]; cbn [step].
  - now apply bags_Inv_get.
  - destruct Hinv as [Hb Ho]. split; cbn [bags properties remove].
    + intros o1 b1 H. apply lookup_delete_Some in H as [_ H]. eauto.
    + intros o1 o2 b1 H1 H2.
      apply lookup_delete_Some in H1 as [_ H1].
      apply lookup_delete_Some in H2 as [_ H2]. eauto.
  - unfold update. destruct (properties s !! o); cbn [default from_option id];
      [now apply bags_Inv_assign | exact Hinv].
  - split; cbn [bags properties dispose]; intros *;
      rewrite lookup_empty; discriminate.
  - now apply bags_Inv_assign.
Qed.

Lemma bags_Inv_run (cs : list (Call Value)) : Inv (run cs).
Proof.
  unfold run. induction cs as [|c cs IH] using rev_ind; cbn [fold_left].
  - apply bags_Inv_initial.
  - rewrite fold_left_app. cbn [fold_left]. now apply bags_Inv_step.
Qed.

(** X21.  The property bags after any calls of the four methods and
    any assignments to bags.  [get] gives an object its bag: a new,
    empty one when it has none, else the one it has, which no other
    object has; it changes no bag.  [update] throws exactly when the
    object has no bag, and creates none; otherwise it is the
    assignment to the bag of the object.  After [remove], [get]
    gives the object a new empty bag: what was stored is not read
    back, and an assignment through a reference to the old bag does
    not reach the object any more. *)
Theorem bags_belong_to_one_object (cs : list (Call Value)) :
  let s := run cs in
  (forall o,
      let b := fst (get o s) in
      let s' := snd (get o s) in
      get o s' = (b, s') /\
      (forall o', o' <> o -> fst (get o' s') <> b) /\
      (forall b', (b' < length (bags s))%nat ->
                  bags s' !! b' = bags s !! b') /\
      (properties s !! o = None ->
       bags s !! b = None /\ bags s' !! b = Some ∅)) /\
  (forall o k v,
      update o k v s = None <-> properties s !! o = None) /\
  (forall o k v s',
      update o k v s = Some s' ->
      s' = assign (fst (get o s)) k v s /\
      read (fst (get o s')) k s' = Some v /\
      get o s = (fst (get o s), s)) /\
  (forall o b k v,
      properties s !! o = Some b ->
      let s1 := remove o s in
      let b' := fst (get o s1) in
      let s2 := snd (get o s1) in
      b' <> b /\
      (forall k', read b' k' s2 = None) /\
      read (fst (get o (assign b k v s2))) k (assign b k v s2) = None).
Proof.
  intros s. pose proof (bags_Inv_run cs) as Hinv. fold s in Hinv.
  clearbody s. destruct Hinv as [Hb Ho].
  split; [|split; [|split]].
  - intros o b s'. subst b s'.
    destruct (properties s !! o) as [b|] eqn:E.
    + rewrite (get_Some o b s E). cbn [fst snd].
      split; [now apply get_Some|].
      split; [|split; [reflexivity | discriminate]].
      intros o' Hne.
      destruct (properties s !! o') as [b'|] eqn:E'.
      * rewrite (get_Some o' b' s E'). cbn [fst].
        intros ->. apply Hne. eauto.
      * rewrite (get_None o' s E'). cbn [fst].
        intros <-. apply Hb in E. lia.
    + rewrite (get_None o s E). cbn [fst snd].
      split.
      { apply get_Some. cbn [properties]. now rewrite lookup_insert_eq. }
      split.
      { intros o' Hne.
        destruct (properties s !! o') as [b'|] eqn:E'.
        - rewrite (get_Some o' b').
          + cbn [fst]. apply Hb in E'. lia.
          + cbn [properties]. now rewrite lookup_insert_ne by congruence.
        - rewrite get_None.
          + cbn [fst bags]. rewrite length_app. cbn [length]. lia.
          + cbn [properties]. now rewrite lookup_insert_ne by congruence. }
      split.
      { intros b' Hlt. cbn [bags]. now rewrite lookup_app_l. }
      intros _. cbn [bags]. split.
      * apply lookup_ge_None. lia.
      * rewrite lookup_app_r by lia. now rewrite Nat.sub_diag.
  - intros o k v. unfold update.
    destruct (properties s !! o); split; intros; congruence.
  - intros o k v s'. unfold update, get.
    destruct (properties s !! o) as [b|] eqn:E; [|discriminate].
    intros [= <-]. cbn [fst snd properties assign]. rewrite E. cbn [fst].
    split; [reflexivity|]. split; [|reflexivity].
    unfold read. cbn [bags assign].
    destruct (lookup_lt_is_Some_2 (bags s) b (Hb _ _ E)) as [bag Hbag].
    rewrite list_lookup_alter_eq, Hbag. cbn. apply lookup_insert_eq.
  - intros o b k v E s1 b' s2. subst s1 b' s2.
    unfold get. cbn [properties remove bags].
    rewrite lookup_delete_eq. cbn [fst snd].
    assert (Hlt := Hb _ _ E).
    split; [lia|]. split.
    + intros k'. unfold read. cbn [bags].
      rewrite lookup_app_r by lia. now rewrite Nat.sub_diag.
    + cbn [assign properties bags]. rewrite lookup_insert_eq. cbn [fst].
      unfold read. cbn [bags assign].
      rewrite list_lookup_alter_ne by lia.
      rewrite lookup_app_r by lia. now rewrite Nat.sub_diag.
Qed.

End Facts.

End WebGLPropertiesFacts.

(** ** RenderTarget *)
Module RenderTargetFacts.

Import RenderTarget.

Lemma lookup_app_add {A : Type} (l l' : list A) (j : nat) :
  (l ++ l') !! (length l + j)%nat = l' !! j.
Proof. rewrite lookup_app_r by lia. f_equal. lia. Qed.

Lemma lookup_app_length {A : Type} (l l' : list A) :
  (l ++ l') !! length l = l' !! 0%nat.
Proof. rewrite lookup_app_r by lia. f_equal. lia. Qed.

Lemma Texture_clone_eq (texture s : nat) (m : Memory) :
  Textures m !! texture = Some s ->
  Texture_clone texture m =
  Some (length (Textures m),
        {| Images := Images m;
           Sources := Sources m ++ [None];
           Textures := Textures m ++ [s] |}).
Proof.
  intros H. unfold Texture_clone, new_Texture, new_Source, Texture_copy.
  cbn [Images Sources Textures].
  rewrite (lookup_app_l_Some _ _ _ _ H). cbn [mbind option_bind].
  rewrite insert_app_r_alt by lia. rewrite Nat.sub_diag. reflexivity.
Qed.

Lemma clone_times_eq (count texture s : nat) :
  forall (array : list nat) (m : Memory),
    Textures m !! texture = Some s ->
    clone_times count texture array m =
    Some (array ++ seq (length (Textures m)) count,
          {| Images := Images m;
             Sources := Sources m ++ replicate count None;
             Textures := Textures m ++ replicate count s |}).
Proof.
  induction count as [|count IH]; intros array m H; cbn [clone_times].
  - cbn [seq replicate]. rewrite !app_nil_r. now destruct m.
  - rewrite (Texture_clone_eq texture s m H). cbn [mbind option_bind].
    rewrite IH by (cbn [Textures]; now apply lookup_app_l_Some).
    cbn [Images Sources Textures seq replicate].
    rewrite length_app, Nat.add_1_r, <- !app_assoc. reflexivity.
Qed.

Lemma clone_all_eq (ts ss : list nat) :
  forall (array : list nat) (m : Memory),
    Forall2 (fun t s => Textures m !! t = Some s) ts ss ->
    clone_all ts array m =
    Some (array ++ seq (length (Textures m)) (length ts),
          {| Images := Images m;
             Sources := Sources m ++ replicate (length ts) None;
             Textures := Textures m ++ ss |}).
Proof.
  revert ss. induction ts as [|t ts IH]; intros ss array m H.
  - apply Forall2_nil_inv_l in H as ->. cbn [clone_all length seq replicate].
    rewrite !app_nil_r. now destruct m.
  - apply Forall2_cons_inv_l in H as (s & ss' & Hs & Hss & ->).
    cbn [clone_all]. rewrite (Texture_clone_eq t s m Hs).
    cbn [mbind option_bind].
    rewrite (IH ss').
    + cbn [Images Sources Textures seq replicate length].
      rewrite length_app, Nat.add_1_r, <- !app_assoc. reflexivity.
    + cbn [Textures]. eapply Forall2_impl; [exact Hss|].
      intros t' s' H'. now apply lookup_app_l_Some.
Qed.

Lemma constructor_eq (width height : Z) (count : nat) (m : Memory) :
  constructor width height count m =
  Some ({| width := width;
           height := height;
           depth := 1;
           scissor := {| x := 0; y := 0; z := width; w := height |};
           scissorTest := false;
           viewport := {| x := 0; y := 0; z := width; w := height |};
           textures := seq (S (length (Textures m))) count;
           disposed := 0 |},
        {| Images := Images m ++ [image_with width height 1];
           Sources := (Sources m ++ [Some (length (Images m))])
                        ++ replicate count None;
           Textures := (Textures m ++ [length (Sources m)])
                         ++ replicate count (length (Sources m)) |}).
Proof.
  unfold constructor, new_image, new_Texture, new_Source.
  cbn [Images Sources Textures].
  rewrite (clone_times_eq count _ (length (Sources m))).
  - cbn [mbind option_bind Images Sources Textures app].
    rewrite length_app, Nat.add_1_r. reflexivity.
  - cbn [Textures]. rewrite lookup_app_length. reflexivity.
Qed.

Lemma copy_eq (this source : RenderTarget) (m : Memory)
      (first : nat) (rest : list nat) (s : nat) (ss : list nat)
      (data : option nat) (properties : Image) :
  textures source = first :: rest ->
  Forall2 (fun t s => Textures m !! t = Some s) (first :: rest) (s :: ss) ->
  Sources m !! s = Some data ->
  match data with
  | Some image => Images m !! image
  | None => Some ∅
  end = Some properties ->
  copy this source m =
  Some ({| width := width source;
           height := height source;
           depth := depth source;
           scissor := scissor source;
           scissorTest := scissorTest source;
           viewport := viewport source;
           textures := seq (length (Textures m)) (S (length rest));
           disposed := disposed this |},
        {| Images := Images m ++ [properties];
           Sources := (Sources m ++ replicate (S (length rest)) None)
                        ++ [Some (length (Images m))];
           Textures := Textures m
                         ++ (length (Sources m) + S (length rest))%nat :: ss |}).
Proof.
  intros Htex Hss Hs Hp. unfold copy. rewrite Htex.
  rewrite (clone_all_eq (first :: rest) (s :: ss) [] m Hss).
  cbn [mbind option_bind app length]. unfold texture. rewrite Htex.
  cbn [lookup list_lookup mbind option_bind].
  apply Forall2_cons_1 in Hss as [Hfirst _].
  unfold Texture_image. cbn [Textures Sources].
  rewrite (lookup_app_l_Some _ _ _ _ Hfirst). cbn [mbind option_bind].
  rewrite (lookup_app_l_Some _ _ _ _ Hs). cbn [mbind option_bind Images].
  rewrite Hp. cbn [mbind option_bind].
  unfold new_image, new_Source. cbn [Images Sources Textures seq].
  cbn [lookup list_lookup mbind option_bind].
  rewrite insert_app_r_alt by lia. rewrite Nat.sub_diag.
  rewrite length_app, length_replicate. reflexivity.
Qed.

Lemma resized_width (width height depth : Z) (image : Image) :
  resized width height depth image !! "width" = Some width.
Proof.
  unfold resized.
  rewrite lookup_insert_ne by discriminate.
  rewrite lookup_insert_ne by discriminate.
  apply lookup_insert_eq.
Qed.

Lemma resized_height (width height depth : Z) (image : Image) :
  resized width height depth image !! "height" = Some height.
Proof.
  unfold resized.
  rewrite lookup_insert_ne by discriminate.
  apply lookup_insert_eq.
Qed.

Lemma resized_depth (width height depth : Z) (image : Image) :
  resized width height depth image !! "depth" = Some depth.
Proof. unfold resized. apply lookup_insert_eq. Qed.

Lemma image_with_size (width height depth : Z) :
  image_with width height depth !! "width" = Some width /\
  image_with width height depth !! "height" = Some height /\
  image_with width height depth !! "depth" = Some depth.
Proof.
  unfold image_with. split; [|split].
  - apply lookup_insert_eq.
  - rewrite lookup_insert_ne by discriminate. apply lookup_insert_eq.
  - rewrite lookup_insert_ne by discriminate.
    rewrite lookup_insert_ne by discriminate. apply lookup_singleton_eq.
Qed.

Lemma set_image_sizes_eq (width height depth : Z) (ts refs : list nat) :
  forall m : Memory,
    Forall2 (fun t i => Texture_image t m = Some (Some i)) ts refs ->
    set_image_sizes width height depth ts m =
    Some {| Images := resize_all width height depth refs (Images m);
            Sources := Sources m;
            Textures := Textures m |}.
Proof.
  revert refs. induction ts as [|t ts IH]; intros refs m H.
  - apply Forall2_nil_inv_l in H as ->. cbn. now destruct m.
  - apply Forall2_cons_inv_l in H as (i & refs' & Hi & Hrefs & ->).
    cbn [set_image_sizes]. unfold set_image_size. rewrite Hi.
    cbn [mbind option_bind]. rewrite (IH refs'); [reflexivity|].
    eapply Forall2_impl; [exact Hrefs|]. intros t' i' H'. exact H'.
Qed.

Lemma resize_all_other (width height depth : Z) (refs : list nat) (i : nat) :
  forall images : list Image,
    i ∉ refs ->
    resize_all width height depth refs images !! i = images !! i.
Proof.
  unfold resize_all.
  induction refs as [|r refs IH]; intros images Hi; cbn [foldl]; [reflexivity|].
  apply not_elem_of_cons in Hi as [Hne Hi].
  rewrite IH by exact Hi. now apply list_lookup_alter_ne.
Qed.

Lemma resize_all_resized (width height depth : Z) (refs : list nat) (i : nat) :
  forall (images : list Image) (image : Image),
    i ∈ refs ->
    images !! i = Some image ->
    exists image',
      resize_all width height depth refs images !! i = Some image' /\
      image' !! "width" = Some width /\
      image' !! "height" = Some height /\
      image' !! "depth" = Some depth.
Proof.
  unfold resize_all.
  induction refs as [|r refs IH]; intros images image Hi Him; cbn [foldl].
  - now apply elem_of_nil in Hi.
  - destruct (decide (i ∈ refs)) as [Hin|Hnin].
    + destruct (decide (i = r)) as [->|Hne].
      * apply (IH _ (resized width height depth image) Hin).
        now rewrite list_lookup_alter_eq, Him.
      * apply (IH _ image Hin).
        now rewrite list_lookup_alter_ne by congruence.
    + apply elem_of_cons in Hi as [->|Hi]; [|contradiction].
      exists (resized width height depth image).
      split.
      * fold (resize_all width height depth refs
                (alter (resized width height depth) r images)).
        rewrite resize_all_other by exact Hnin.
        now rewrite list_lookup_alter_eq, Him.
      * split; [apply resized_width|].
        split; [apply resized_height | apply resized_depth].
Qed.

Lemma clone_eq (t : RenderTarget) (m : Memory)
      (first : nat) (rest : list nat) (s : nat) (ss : list nat)
      (data : option nat) (properties : Image) :
  textures t = first :: rest ->
  Forall2 (fun t s => Textures m !! t = Some s) (first :: rest) (s :: ss) ->
  Sources m !! s = Some data ->
  match data with
  | Some image => Images m !! image
  | None => Some ∅
  end = Some properties ->
  clone t m =
  Some ({| width := width t;
           height := height t;
           depth := depth t;
           scissor := scissor t;
           scissorTest := scissorTest t;
           viewport := viewport t;
           textures := seq (length (Textures m) + 2) (S (length rest));
           disposed := 0 |},
        {| Images := (Images m ++ [image_with 1 1 1]) ++ [properties];
           Sources := (((Sources m ++ [Some (length (Images m))]) ++ [None])
                         ++ replicate (S (length rest)) None)
                        ++ [Some (S (length (Images m)))];
           Textures := ((Textures m ++ [length (Sources m)])
                          ++ [length (Sources m)])
                         ++ (length (Sources m) + 2 + S (length rest))%nat
                              :: ss |}).
Proof.
  intros Htex Hss Hs Hp. unfold clone. rewrite constructor_eq.
  cbn [mbind option_bind replicate].
  erewrite (copy_eq _ t _ first rest s ss data properties Htex).
  - cbn [width height depth scissor scissorTest viewport disposed
         Images Sources Textures].
    rewrite !length_app. cbn [length].
    rewrite <- !Nat.add_assoc. cbn [Nat.add].
    rewrite (Nat.add_1_r (length (Images m))). reflexivity.
  - cbn [Textures]. eapply Forall2_impl; [exact Hss|].
    intros t' s' H'. now do 2 apply lookup_app_l_Some.
  - cbn [Sources]. now do 2 apply lookup_app_l_Some.
  - cbn [Images]. destruct data as [image|]; [|exact Hp].
    now apply lookup_app_l_Some.
Qed.

Lemma Texture_image_eq (texture s : nat) (data : option nat) (m : Memory) :
  Textures m !! texture = Some s ->
  Sources m !! s = Some data ->
  Texture_image texture m = Some data.
Proof. unfold Texture_image. intros -> H. exact H. Qed.

Lemma image_size_eq (texture i : nat) (properties : Image) (m : Memory) :
  Texture_image texture m = Some (Some i) ->
  Images m !! i = Some properties ->
  image_size texture m =
  Some (properties !! "width", properties !! "height", properties !! "depth").
Proof. unfold image_size. intros -> H. cbn. now rewrite H. Qed.

Lemma size_differs (t : RenderTarget) (width' height' depth' : Z) :
  (width', height', depth') <> (width t, height t, depth t) ->
  negb (width t =? width') || negb (height t =? height')
  || negb (depth t =? depth') = true.
Proof.
  intros H.
  destruct (Z.eqb_spec (width t) width') as [<-|]; [|reflexivity].
  destruct (Z.eqb_spec (height t) height') as [<-|]; [|reflexivity].
  destruct (Z.eqb_spec (depth t) depth') as [<-|]; [|reflexivity].
  now destruct H.
Qed.

(** The memory after the constructor. *)
Lemma constructed_textures (m : Memory) (count j : nat) (s : nat)
      (tail : list nat) :
  (j < count)%nat ->
  (((Textures m ++ [s]) ++ replicate count s) ++ tail)
    !! (S (length (Textures m)) + j)%nat = Some s.
Proof.
  intros Hj. apply lookup_app_l_Some.
  replace (S (length (Textures m)) + j)%nat
    with (length (Textures m ++ [s]) + j)%nat
    by (rewrite length_app; cbn [length]; lia).
  rewrite lookup_app_add. now apply lookup_replicate_2.
Qed.

(** X22.  The textures of a new render target have one image between
    them.  [clone] gives a target of the same size, viewport and
    scissor with as many textures, all of them new; the first has an
    image of its own, a new object with the same size, and each of the
    others has the image of the original.  So when the clone is
    resized, it dispatches [dispose] and the images of its textures
    have the new size; the images of the textures of the original keep
    their size when it has one texture, and all take the new size when
    it has more.  A target without textures cannot be cloned:
    [clone] throws. *)
Theorem clone_shares_the_images_past_the_first
        (width0 height0 : Z) (count : nat) (m : Memory)
        (width' height' depth' : Z) :
  (exists t m1 t' m2,
      constructor width0 height0 (S count) m = Some (t, m1) /\
      clone t m1 = Some (t', m2) /\
      (forall o o', o ∈ textures t -> o' ∈ textures t ->
                    is_Some (image_of o m1) /\
                    image_of o m1 = image_of o' m1) /\
      (width t', height t', depth t') = (width0, height0, 1) /\
      viewport t' = viewport t /\
      scissor t' = scissor t /\
      length (textures t') = S count /\
      (forall c, c ∈ textures t' -> (length (Textures m1) <= c)%nat) /\
      (exists first image,
          texture t' = Some first /\
          image_of first m2 = Some image /\
          (length (Images m1) <= image)%nat /\
          image_size first m2 = Some (Some width0, Some height0, Some 1)) /\
      (forall j o c,
          (1 <= j)%nat ->
          textures t !! j = Some o ->
          textures t' !! j = Some c ->
          is_Some (image_of o m2) /\ image_of c m2 = image_of o m2) /\
      ((width', height', depth') <> (width0, height0, 1) ->
       exists t'' m3,
         setSize width' height' depth' t' m2 = Some (t'', m3) /\
         disposed t'' = S (disposed t') /\
         (forall c, c ∈ textures t' ->
                    image_size c m3 =
                    Some (Some width', Some height', Some depth')) /\
         (forall o, o ∈ textures t ->
                    image_size o m3 =
                    Some (if decide (count = 0%nat)
                          then (Some width0, Some height0, Some 1)
                          else (Some width', Some height', Some depth'))))) /\
  (exists t m1,
      constructor width0 height0 0 m = Some (t, m1) /\
      clone t m1 = None).
Proof.
  split.
  2:{ eexists _, _. split; [apply constructor_eq|].
      unfold clone. rewrite constructor_eq. reflexivity. }
  set (T0 := length (Textures m)).
  set (s0 := length (Sources m)).
  set (i0 := length (Images m)).
  set (img := image_with width0 height0 1).
  set (t := {| width := width0;
               height := height0;
               depth := 1;
               scissor := {| x := 0; y := 0; z := width0; w := height0 |};
               scissorTest := false;
               viewport := {| x := 0; y := 0; z := width0; w := height0 |};
               textures := seq (S T0) (S count);
               disposed := 0 |}).
  set (m1 := {| Images := Images m ++ [img];
                Sources := (Sources m ++ [Some i0]) ++ replicate (S count) None;
                Textures := (Textures m ++ [s0]) ++ replicate (S count) s0 |}).
  set (a := (length (Textures m1) + 2)%nat).
  set (snew := (length (Sources m1) + 2 + S count)%nat).
  set (inew := S (length (Images m1))).
  set (t' := {| width := width t;
                height := height t;
                depth := depth t;
                scissor := scissor t;
                scissorTest := scissorTest t;
                viewport := viewport t;
                textures := seq a (S count);
                disposed := 0 |}).
  set (m2 := {| Images := (Images m1 ++ [image_with 1 1 1]) ++ [img];
                Sources := (((Sources m1 ++ [Some (length (Images m1))])
                              ++ [None]) ++ replicate (S count) None)
                             ++ [Some inew];
                Textures := ((Textures m1 ++ [length (Sources m1)])
                               ++ [length (Sources m1)])
                              ++ snew :: replicate count s0 |}).
  exists t, m1, t', m2.
  split; [apply constructor_eq|].
  assert (Ht : forall j, (j < S count)%nat ->
                         Textures m1 !! (S T0 + j)%nat = Some s0).
  { intros j Hj. unfold m1, T0. cbn [Textures].
    rewrite <- (app_nil_r (_ ++ replicate _ _)).
    now apply constructed_textures. }
  assert (Hs : Sources m1 !! s0 = Some (Some i0)).
  { unfold m1, s0. cbn [Sources]. apply lookup_app_l_Some.
    now rewrite lookup_app_length. }
  assert (Hi : Images m1 !! i0 = Some img).
  { unfold m1, i0. cbn [Images]. now rewrite lookup_app_length. }
  assert (Hto : forall o, o ∈ textures t ->
                          exists j, (j < S count)%nat /\ o = (S T0 + j)%nat).
  { intros o Ho. unfold t in Ho. cbn [textures] in Ho.
    apply elem_of_seq in Ho. fold T0 in Ho.
    exists (o - S T0)%nat. lia. }
  assert (Hclone : clone t m1 = Some (t', m2)).
  { rewrite (clone_eq t m1 (S T0) (seq (S (S T0)) count) s0
                      (replicate count s0) (Some i0) img).
    - unfold t', m2, a, snew, inew. now rewrite length_seq.
    - reflexivity.
    - apply Forall2_same_length_lookup_2.
      + cbn [length]. now rewrite length_seq, length_replicate.
      + intros j o s Ho Hs'.
        assert (Hj : (j < S count)%nat).
        { apply lookup_lt_Some in Ho. cbn [length] in Ho.
          now rewrite length_seq in Ho. }
        change (S T0 :: seq (S (S T0)) count) with (seq (S T0) (S count)) in Ho.
        apply lookup_seq in Ho as [-> _].
        change (s0 :: replicate count s0) with (replicate (S count) s0) in Hs'.
        apply lookup_replicate in Hs' as [-> _].
        now apply Ht.
    - exact Hs.
    - exact Hi. }
  split; [exact Hclone|]. clear Hclone.
  (* the memory of the copy *)
  assert (Ht2 : forall j, (j < S count)%nat ->
                          Textures m2 !! (S T0 + j)%nat = Some s0).
  { intros j Hj. unfold m2. cbn [Textures].
    do 3 apply lookup_app_l_Some. now apply Ht. }
  assert (Hs2 : Sources m2 !! s0 = Some (Some i0)).
  { unfold m2. cbn [Sources]. now do 4 apply lookup_app_l_Some. }
  assert (Hi2 : Images m2 !! i0 = Some img).
  { unfold m2. cbn [Images]. now do 2 apply lookup_app_l_Some. }
  assert (Hc0 : Textures m2 !! a = Some snew).
  { unfold m2, a. cbn [Textures].
    replace (length (Textures m1) + 2)%nat
      with (length ((Textures m1 ++ [length (Sources m1)])
                      ++ [length (Sources m1)]))
      by (rewrite !length_app; cbn [length]; lia).
    now rewrite lookup_app_length. }
  assert (Hcj : forall j, (j < count)%nat ->
                          Textures m2 !! (a + S j)%nat = Some s0).
  { intros j Hj. unfold m2, a. cbn [Textures].
    replace (length (Textures m1) + 2 + S j)%nat
      with (length ((Textures m1 ++ [length (Sources m1)])
                      ++ [length (Sources m1)]) + S j)%nat
      by (rewrite !length_app; cbn [length]; lia).
    rewrite lookup_app_add. cbn [lookup list_lookup].
    now apply lookup_replicate_2. }
  assert (Hsn : Sources m2 !! snew = Some (Some inew)).
  { unfold m2, snew. cbn [Sources].
    replace (length (Sources m1) + 2 + S count)%nat
      with (length (((Sources m1 ++ [Some (length (Images m1))]) ++ [None])
                      ++ replicate (S count) None))
      by (rewrite !length_app, length_replicate; cbn [length]; lia).
    now rewrite lookup_app_length. }
  assert (Hin : Images m2 !! inew = Some img).
  { unfold m2, inew. cbn [Images].
    replace (S (length (Images m1)))
      with (length (Images m1 ++ [image_with 1 1 1]))
      by (rewrite length_app; cbn [length]; lia).
    now rewrite lookup_app_length. }
  assert (Hi0 : (i0 < length (Images m1))%nat).
  { unfold m1, i0. cbn [Images]. rewrite length_app. cbn [length]. lia. }
  assert (Hio : forall o, o ∈ textures t ->
                          Texture_image o m2 = Some (Some i0)).
  { intros o Ho. destruct (Hto o Ho) as (j & Hj & ->).
    eapply Texture_image_eq; [now apply Ht2 | exact Hs2]. }
  assert (Hic0 : Texture_image a m2 = Some (Some inew)).
  { eapply Texture_image_eq; [exact Hc0 | exact Hsn]. }
  assert (Hicj : forall j, (j < count)%nat ->
                           Texture_image (a + S j)%nat m2 = Some (Some i0)).
  { intros j Hj. eapply Texture_image_eq; [now apply Hcj | exact Hs2]. }
  assert (Hsize : img !! "width" = Some width0 /\
                  img !! "height" = Some height0 /\
                  img !! "depth" = Some 1)
    by apply image_with_size.
  destruct Hsize as (Hw & Hh & Hd).
  split.
  { intros o o' Ho Ho'.
    destruct (Hto o Ho) as (j & Hj & ->), (Hto o' Ho') as (j' & Hj' & ->).
    unfold image_of.
    rewrite (Texture_image_eq _ s0 (Some i0) m1 (Ht j Hj) Hs).
    rewrite (Texture_image_eq _ s0 (Some i0) m1 (Ht j' Hj') Hs).
    cbn. split; [eauto | reflexivity]. }
  split; [reflexivity|].
  split; [reflexivity|].
  split; [reflexivity|].
  split; [unfold t'; cbn [textures]; apply length_seq|].
  split.
  { intros c Hc. unfold t' in Hc. cbn [textures] in Hc.
    apply elem_of_seq in Hc. unfold a in Hc. lia. }
  split.
  { exists a, inew. split; [reflexivity|].
    split; [unfold image_of; now rewrite Hic0|].
    split; [unfold inew; lia|].
    rewrite (image_size_eq a inew img m2 Hic0 Hin). now rewrite Hw, Hh, Hd. }
  split.
  { intros j o c Hj Ho Hc.
    unfold t in Ho. unfold t' in Hc. cbn [textures] in Ho, Hc.
    apply lookup_seq in Ho as [-> Hlt]. apply lookup_seq in Hc as [-> _].
    destruct j as [|j]; [lia|].
    unfold image_of.
    rewrite (Texture_image_eq _ s0 (Some i0) m2 (Ht2 (S j) Hlt) Hs2).
    rewrite (Hicj j) by lia. cbn. split; [eauto | reflexivity]. }
  intros Hdiff.
  assert (Hrefs : Forall2 (fun c i => Texture_image c m2 = Some (Some i))
                          (textures t') (inew :: replicate count i0)).
  { unfold t'. cbn [textures seq]. constructor; [exact Hic0|].
    apply Forall2_same_length_lookup_2.
    - now rewrite length_seq, length_replicate.
    - intros j c i Hc Hi'.
      apply lookup_seq in Hc as [-> Hlt].
      apply lookup_replicate in Hi' as [-> _].
      replace (S a + j)%nat with (a + S j)%nat by lia.
      now apply Hicj. }
  unfold setSize.
  rewrite (size_differs t' width' height' depth') by exact Hdiff.
  rewrite (set_image_sizes_eq width' height' depth' _ _ m2 Hrefs).
  cbn [mbind option_bind].
  eexists _, _. split; [reflexivity|].
  split; [reflexivity|].
  set (refs := inew :: replicate count i0).
  match goal with
  | |- context [image_size _ ?x] => set (m3 := x)
  end.
  assert (Hsame : forall c data, Texture_image c m2 = Some data ->
                                 Texture_image c m3 = Some data).
  { intros c data H. exact H. }
  assert (Hnew : forall c i, i ∈ refs ->
                   Texture_image c m2 = Some (Some i) ->
                   image_size c m3 =
                   Some (Some width', Some height', Some depth')).
  { intros c i Hi' Hc.
    assert (Himg : Images m2 !! i = Some img).
    { apply elem_of_cons in Hi' as [->|Hi']; [exact Hin|].
      apply elem_of_replicate in Hi' as [-> _]. exact Hi2. }
    destruct (resize_all_resized width' height' depth' refs i
                (Images m2) img Hi' Himg) as (image' & Him & Hw' & Hh' & Hd').
    rewrite (image_size_eq c i image' m3 (Hsame _ _ Hc) Him).
    now rewrite Hw', Hh', Hd'. }
  split.
  { intros c Hc. unfold t' in Hc. cbn [textures] in Hc.
    apply elem_of_seq in Hc.
    destruct (decide (c = a)) as [->|Hne].
    - apply (Hnew a inew); [apply list_elem_of_here | exact Hic0].
    - apply (Hnew c i0).
      + unfold refs. apply list_elem_of_further.
        apply elem_of_replicate. split; [reflexivity | lia].
      + replace c with (a + S (c - S a))%nat by lia.
        apply Hicj. lia. }
  intros o Ho. specialize (Hio o Ho).
  destruct (decide (count = 0%nat)) as [Hc|Hc].
  - assert (Hnot : i0 ∉ refs).
    { unfold refs. rewrite Hc. cbn [replicate].
      intros H. apply list_elem_of_singleton in H. unfold inew in H. lia. }
    rewrite (image_size_eq o i0 img m3 (Hsame _ _ Hio)).
    + now rewrite Hw, Hh, Hd.
    + unfold m3. cbn [Images]. now rewrite resize_all_other.
  - apply (Hnew o i0); [|exact Hio].
    unfold refs. apply list_elem_of_further.
    apply elem_of_replicate. split; [reflexivity | exact Hc].
Qed.

End RenderTargetFacts.


(** ** Texture *)
Module TextureFacts.

Import Texture.

Lemma Qlt_spec (a b : Q) : negb (Qle_bool b a) = true <-> (a < b)%Q.
Proof.
  rewrite negb_true_iff. split.
  - intros H. apply Qnot_le_lt. intros Hle.
    apply Qle_bool_iff in Hle. congruence.
  - intros H. destruct (Qle_bool b a) eqn:E; [|reflexivity].
    apply Qle_bool_iff in E. lra.
Qed.

Lemma Qlt_false (a b : Q) : negb (Qle_bool b a) = false <-> (b <= a)%Q.
Proof.
  rewrite negb_false_iff. apply Qle_bool_iff.
Qed.

Lemma floor_bounds (u : Q) :
  (inject_Z (Qfloor u) <= u)%Q /\ (u < inject_Z (Qfloor u) + 1)%Q.
Proof.
  split; [apply Qfloor_le|].
  pose proof (Qlt_floor u) as H. rewrite inject_Z_plus in H. exact H.
Qed.

Lemma ceil_bounds (u : Q) :
  (u <= inject_Z (Qceiling u))%Q /\ (inject_Z (Qceiling u) - 1 < u)%Q.
Proof.
  split; [apply Qle_ceiling|].
  pose proof (Qceiling_lt u) as H.
  unfold Z.sub in H. rewrite inject_Z_plus in H.
  change (inject_Z (- (1))) with (- (1))%Q in H. lra.
Qed.

(** A finite coordinate is wrapped into the unit interval. *)
Lemma wrap_in_unit (mode : Wrapping) (u : Number) :
  wraps mode -> finite u -> in_unit (wrap mode u).
Proof.
  intros Hm Hf. destruct u as [q| | |]; try destruct Hf.
  unfold wrap. cbn [lt floor ceil floor_rem2 abs sub].
  pose proof (floor_bounds q) as Hfl. pose proof (ceil_bounds q) as Hce.
  destruct (negb (Qle_bool 0 q)) eqn:E0; cbn [orb].
  - apply Qlt_spec in E0.
    destruct mode; [| |destruct (is_one _)|destruct Hm];
      cbn [in_unit sub]; lra.
  - apply Qlt_false in E0.
    destruct (negb (Qle_bool q 1)) eqn:E1.
    + apply Qlt_spec in E1.
      destruct mode; [| |destruct (is_one _)|destruct Hm];
        cbn [in_unit sub]; lra.
    + apply Qlt_false in E1. cbn [in_unit]. lra.
Qed.

(** A coordinate in the unit interval is not wrapped. *)
Lemma wrap_unit (mode : Wrapping) (u : Number) :
  in_unit u -> wrap mode u = u.
Proof.
  intros Hu. destruct u as [q| | |]; cbn [in_unit] in Hu; try contradiction.
  destruct Hu as [H0 H1]. unfold wrap. cbn [lt].
  rewrite (proj2 (Qlt_false q 0) H0), (proj2 (Qlt_false 1 q) H1).
  reflexivity.
Qed.

(** What is not finite: [NaN] passes every test, and an infinite
    coordinate is clamped or becomes [NaN]. *)
Lemma wrap_NaN (mode : Wrapping) : wrap mode NaN = NaN.
Proof. reflexivity. Qed.

Lemma wrap_Infinity (mode : Wrapping) :
  wraps mode -> wrap mode Infinity = clamped mode 1.
Proof. intros Hm. destruct mode; [reflexivity..|destruct Hm]. Qed.

Lemma wrap_NegInfinity (mode : Wrapping) :
  wraps mode -> wrap mode NegInfinity = clamped mode 0.
Proof. intros Hm. destruct mode; [reflexivity..|destruct Hm]. Qed.

Lemma flip_in_unit (v : Number) : in_unit v -> in_unit (sub (Finite 1) v).
Proof.
  destruct v as [q| | |]; cbn [in_unit sub]; try tauto. intros [H0 H1].
  split; lra.
Qed.

Section Facts.

Context {Matrix3 : Type}.
Variable applyMatrix3 : Number * Number -> Matrix3 -> Number * Number.

(** X23.  With wrap modes of the switch, [transformUv] of a texture
    with [UVMapping] gives a coordinate in the unit interval wherever
    the matrix makes a finite coordinate of the input, the arithmetic
    of finite numbers taken as exact.  A coordinate that the matrix
    leaves in the unit interval is not wrapped: only [flipY] acts on
    it.  A coordinate that the matrix makes [NaN] stays [NaN], and one
    that it makes infinite becomes the end of the unit interval on
    its side under [ClampToEdgeWrapping] (the other end of it after
    [flipY]) and [NaN] under the other two modes.  With another
    mapping the coordinates are given back as they are. *)
Theorem transformUv_stays_in_the_unit_square
        (this : Texture) (uv : Number * Number) :
  wraps (wrapS this) ->
  wraps (wrapT this) ->
  let moved := applyMatrix3 uv (matrix this) in
  let uv' := transformUv applyMatrix3 this uv in
  let flip := fun v => if flipY this then sub (Finite 1) v else v in
  (mapping this = UVMapping ->
   (finite (fst moved) -> in_unit (fst uv')) /\
   (finite (snd moved) -> in_unit (snd uv')) /\
   (in_unit (fst moved) -> fst uv' = fst moved) /\
   (in_unit (snd moved) -> snd uv' = flip (snd moved)) /\
   (fst moved = NaN -> fst uv' = NaN) /\
   (snd moved = NaN -> snd uv' = NaN) /\
   (fst moved = Infinity -> fst uv' = clamped (wrapS this) 1) /\
   (fst moved = NegInfinity -> fst uv' = clamped (wrapS this) 0) /\
   (snd moved = Infinity ->
    snd uv' = clamped (wrapT this) (if flipY this then 0 else 1)) /\
   (snd moved = NegInfinity ->
    snd uv' = clamped (wrapT this) (if flipY this then 1 else 0))) /\
  (mapping this <> UVMapping -> uv' = uv).
Proof.
  intros HS HT moved uv' flip. subst uv' flip. unfold transformUv.
  destruct (mapping this) as [|value]; split; try congruence.
  intros _. fold moved. cbn [fst snd].
  repeat split.
  - intros Hf. now apply wrap_in_unit.
  - intros Hf. pose proof (wrap_in_unit (wrapT this) (snd moved) HT Hf) as Hv.
    destruct (flipY this); [now apply flip_in_unit|exact Hv].
  - intros Hu. now apply wrap_unit.
  - intros Hv. now rewrite wrap_unit.
  - intros ->. apply wrap_NaN.
  - intros ->. rewrite wrap_NaN. now destruct (flipY this).
  - intros ->. now apply wrap_Infinity.
  - intros ->. now apply wrap_NegInfinity.
  - intros ->. rewrite wrap_Infinity by exact HT.
    destruct (wrapT this), (flipY this); reflexivity.
  - intros ->. rewrite wrap_NegInfinity by exact HT.
    destruct (wrapT this), (flipY this); reflexivity.
Qed.

End Facts.

Lemma transformUv_stays_in_the_unit_square_witness :
  let this := {| mapping := UVMapping; matrix := 2%Q;
                 wrapS := MirroredRepeatWrapping; wrapT := RepeatWrapping;
                 flipY := true |} in
  let uv := (Finite (3 # 4), Finite (-1 # 4)) in
  wraps (wrapS this) /\ wraps (wrapT this) /\
  finite (fst (scale uv (matrix this))) /\
  finite (snd (scale uv (matrix this))) /\
  in_unit (fst (transformUv scale this uv)) /\
  in_unit (snd (transformUv scale this uv)).
Proof.
  intros this uv.
  split; [exact I|]. split; [exact I|]. split; [exact I|]. split; [exact I|].
  destruct (transformUv_stays_in_the_unit_square scale this uv I I) as [H _].
  destruct (H eq_refl) as (Hu & Hv & _). split; [exact (Hu I) | exact (Hv I)].
Defined.

End TextureFacts.

(** ** The programs of the materials *)
Module MaterialProgramsFacts.

Import Programs MaterialPrograms.

Lemma Map_get_Some (key : string) (l : ProgramMap) (r : nat) :
  Map_get key l = Some r -> (key, r) ∈ l.
Proof.
  induction l as [|[k x] l IH]; cbn [Map_get]; [discriminate|].
  destruct (String.eqb_spec k key) as [->|Hne].
  - intros [= ->]. apply list_elem_of_here.
  - intros H. apply list_elem_of_further. now apply IH.
Qed.

Lemma Map_get_None (key : string) (l : ProgramMap) :
  Map_get key l = None -> key ∉ l.*1.
Proof.
  induction l as [|[k x] l IH]; cbn [Map_get fmap list_fmap fst].
  - intros _. apply not_elem_of_nil.
  - destruct (String.eqb_spec k key) as [->|Hne]; [discriminate|].
    intros H. apply not_elem_of_cons. split; [congruence | now apply IH].
Qed.

Lemma Map_get_elem (key : string) (l : ProgramMap) (r : nat) :
  NoDup l.*1 -> (key, r) ∈ l -> Map_get key l = Some r.
Proof.
  induction l as [|[k x] l IH]; cbn [Map_get fmap list_fmap fst];
    intros Hnd Hin.
  - now apply elem_of_nil in Hin.
  - apply NoDup_cons in Hnd as [Hk Hnd].
    apply elem_of_cons in Hin as [[= <- <-]|Hin].
    + now rewrite String.eqb_refl.
    + destruct (String.eqb_spec k key) as [->|Hne]; [|now apply IH].
      exfalso. apply Hk. apply list_elem_of_fmap. now exists (key, r).
Qed.

(** The two cases of [acquireProgram]. *)
Lemma acquire_cases (key : string) (c : Programs.State) :
  (exists r p,
      r ∈ programs c /\ heap c !! r = Some p /\ cacheKey p = key /\
      acquireProgram key c =
      (r, {| heap := alter (fun p => set_usedTimes (usedTimes p + 1) p) r (heap c);
             programs := programs c;
             programIdCount := programIdCount c;
             events := events c |})) \/
  (find_program (heap c) key (programs c) = None /\
   acquireProgram key c =
   (length (heap c),
    {| heap := heap c ++ [{| id := programIdCount c; cacheKey := key;
                             usedTimes := 1;
                             handle := Z.of_nat (length (heap c));
                             program := Some (Z.of_nat (length (heap c))) |}];
       programs := programs c ++ [length (heap c)];
       programIdCount := programIdCount c + 1;
       events := events c ++ [GlCreateProgram (Z.of_nat (length (heap c)))] |})).
Proof.
  unfold acquireProgram.
  destruct (find_program (heap c) key (programs c)) as [r|] eqn:E.
  - left. destruct (ProgramsFacts.find_program_Some _ _ _ _ E)
      as (Hr & p & Hp & Hk).
    exists r, p. auto.
  - right. split; reflexivity.
Qed.

(** One release of a cached program. *)
Lemma release_one (r : nat) (p : WebGLProgram) (c : Programs.State) :
  Programs.Inv c -> r ∈ programs c -> heap c !! r = Some p ->
  let c' := releaseProgram r c in
  Programs.Inv c' /\
  (forall x, cacheKey <$> heap c' !! x = cacheKey <$> heap c !! x) /\
  usedTimes_of r c' = Some (usedTimes p - 1) /\
  (forall x, x <> r -> heap c' !! x = heap c !! x) /\
  (forall x, x ∈ programs c' <->
             x ∈ programs c /\ ~ (x = r /\ usedTimes p = 1)).
Proof.
  intros Hinv Hr Hp c'.
  split; [now apply ProgramsFacts.Inv_release|].
  subst c'. rewrite (ProgramsFacts.releaseProgram_unfold r p c Hp).
  assert (Hlt : (r < length (heap c))%nat) by now apply lookup_lt_Some in Hp.
  destruct (Z.eqb_spec (usedTimes p - 1) 0) as [Hz|Hnz];
    unfold usedTimes_of; cbn [heap programs].
  - destruct (ProgramsFacts.Inv_release_last r p c Hinv Hp Hz)
      as (_ & Hperm & _).
    pose proof (Programs.inv_nodup c Hinv) as Hnd.
    rewrite Hperm in Hnd. apply NoDup_cons in Hnd as [Hnot _].
    split; [|split; [|split]].
    + intros x. destruct (decide (x = r)) as [->|Hne].
      * rewrite list_lookup_insert_eq by (now rewrite length_insert).
        now rewrite Hp.
      * now rewrite !list_lookup_insert_ne by congruence.
    + rewrite list_lookup_insert_eq by (now rewrite length_insert).
      reflexivity.
    + intros x Hne. now rewrite !list_lookup_insert_ne by congruence.
    + intros x. rewrite (elem_of_Permutation_proper x _ _ Hperm).
      rewrite elem_of_cons. split.
      * intros Hx. split; [now right|]. intros [-> _]. contradiction.
      * intros [[->|Hx] Hn]; [|exact Hx]. exfalso. apply Hn. split; [reflexivity | lia].
  - split; [|split; [|split]].
    + intros x. destruct (decide (x = r)) as [->|Hne].
      * rewrite list_lookup_insert_eq by exact Hlt. now rewrite Hp.
      * now rewrite list_lookup_insert_ne by congruence.
    + now rewrite list_lookup_insert_eq by exact Hlt.
    + intros x Hne. now rewrite list_lookup_insert_ne by congruence.
    + intros x. split; [|tauto]. intros Hx. split; [exact Hx|].
      intros [_ H1]. lia.
Qed.

(** The releases of [releaseMaterialProgramReferences]. *)
Lemma release_all_spec (l : ProgramMap) :
  forall c : Programs.State,
    Programs.Inv c -> NoDup l.*2 ->
    (forall r, r ∈ l.*2 -> r ∈ programs c) ->
    let c' := release_all l c in
    Programs.Inv c' /\
    (forall x, cacheKey <$> heap c' !! x = cacheKey <$> heap c !! x) /\
    (forall x p,
        heap c !! x = Some p ->
        exists p', heap c' !! x = Some p' /\
                   usedTimes p' =
                   usedTimes p - Z.of_nat (WebGLTextures.count (x ∈ l.*2))) /\
    (forall x,
        x ∈ programs c' <->
        x ∈ programs c /\
        ~ (x ∈ l.*2 /\ exists p, heap c !! x = Some p /\ usedTimes p = 1)).
Proof.
  induction l as [|[k r] l IH]; intros c Hinv Hnd Hin c'; subst c';
    cbn [release_all fold_left snd fmap list_fmap] in *.
  - split; [exact Hinv|]. split; [reflexivity|]. split.
    + intros x p Hp. exists p. split; [exact Hp|].
      unfold WebGLTextures.count.
      destruct (decide (x ∈ [])) as [H|_]; [now apply elem_of_nil in H | lia].
    + intros x. split; [|tauto]. intros Hx. split; [exact Hx|].
      intros [H _]. now apply elem_of_nil in H.
  - apply NoDup_cons in Hnd as [Hr Hnd].
    assert (Hrc : r ∈ programs c) by (apply Hin, list_elem_of_here).
    destruct (Programs.inv_live c Hinv r Hrc) as (p & Hp & _).
    destruct (release_one r p c Hinv Hrc Hp) as (Hinv1 & Hk1 & Hu1 & Ho1 & Hp1).
    set (c1 := releaseProgram r c) in *.
    assert (Hin1 : forall r', r' ∈ l.*2 -> r' ∈ programs c1).
    { intros r' Hr'. apply Hp1. split.
      - apply Hin. now apply list_elem_of_further.
      - intros [-> _]. contradiction. }
    destruct (IH c1 Hinv1 Hnd Hin1) as (Hinv2 & Hk2 & Hu2 & Hp2).
    fold (release_all l c1) in *.
    split; [exact Hinv2|]. split; [|split].
    + intros x. now rewrite Hk2, Hk1.
    + intros x px Hpx. unfold WebGLTextures.count.
      destruct (decide (x = r)) as [->|Hne].
      * unfold usedTimes_of in Hu1.
        destruct (heap c1 !! r) as [p1|] eqn:E1; [|discriminate].
        cbn in Hu1. injection Hu1 as Hu1.
        destruct (Hu2 r p1 E1) as (p' & Hp' & Hut).
        exists p'. split; [exact Hp'|].
        unfold WebGLTextures.count in Hut.
        destruct (decide (r ∈ l.*2)) as [H|_]; [contradiction|].
        destruct (decide (r ∈ r :: l.*2)) as [_|H];
          [|exfalso; apply H, list_elem_of_here].
        assert (px = p) by congruence. subst px. lia.
      * rewrite <- (Ho1 x Hne) in Hpx.
        destruct (Hu2 x px Hpx) as (p' & Hp' & Hut).
        exists p'. split; [exact Hp'|].
        unfold WebGLTextures.count in Hut.
        destruct (decide (x ∈ l.*2)) as [H|H];
          destruct (decide (x ∈ r :: l.*2)) as [H'|H']; try exact Hut.
        -- exfalso. apply H'. now apply list_elem_of_further.
        -- exfalso. apply elem_of_cons in H' as [->|H']; [congruence | contradiction].
    + intros x. rewrite Hp2, Hp1. destruct (decide (x = r)) as [->|Hne].
      * split.
        -- intros [[Hx Hn] _]. split; [exact Hx|].
           intros [_ (p0 & Hp0 & H1)]. apply Hn. split; [reflexivity|].
           congruence.
        -- intros [Hx Hn]. split; [split; [exact Hx|]|].
           ++ intros [_ H1]. apply Hn. split; [apply list_elem_of_here|].
              eauto.
           ++ intros [H _]. contradiction.
      * rewrite (Ho1 x Hne). split.
        -- intros [[Hx _] Hn]. split; [exact Hx|].
           intros [H Hex]. apply Hn. split; [|exact Hex].
           apply elem_of_cons in H as [->|H]; [congruence | exact H].
        -- intros [Hx Hn]. split; [split; [exact Hx|]|].
           ++ intros [-> _]. congruence.
           ++ intros [H Hex]. apply Hn. split; [|exact Hex].
              now apply list_elem_of_further.
Qed.

Lemma count_or (P Q : Prop) `{Decision P, Decision Q, Decision (P \/ Q)} :
  ~ (P /\ Q) ->
  WebGLTextures.count (P \/ Q) =
  (WebGLTextures.count P + WebGLTextures.count Q)%nat.
Proof.
  intros Hn. unfold WebGLTextures.count.
  destruct (decide P), (decide Q), (decide (P \/ Q)); tauto || lia.
Qed.

Lemma size_filter_none {A : Type} (P : nat * A -> Prop)
      `{!forall x, Decision (P x)} (M : gmap nat A) :
  (forall i x, M !! i = Some x -> ~ P (i, x)) ->
  size (filter P M) = 0%nat.
Proof.
  intros Hnone. apply map_size_empty_iff, map_empty. intros i.
  apply map_lookup_filter_None. right. intros x Hx. eauto.
Qed.

Lemma count_holds (x material : nat) (l : ProgramMap) :
  WebGLTextures.count (holds x (material, l)) = WebGLTextures.count (x ∈ l.*2).
Proof. apply WebGLTexturesFacts.count_iff. reflexivity. Qed.

(** The holders of a program when a material gets another list. *)
Lemma holders_insert (x : nat) (material : nat) (l : ProgramMap) (s s' : State) :
  material_programs s' = <[material := l]> (material_programs s) ->
  (size (holders x s')
   + match material_programs s !! material with
     | Some l0 => WebGLTextures.count (x ∈ l0.*2)
     | None => 0
     end)%nat
  = (size (holders x s) + WebGLTextures.count (x ∈ l.*2))%nat.
Proof.
  intros E. unfold holders. rewrite E.
  rewrite (WebGLTexturesFacts.size_filter_insert (holds x)).
  rewrite (WebGLTexturesFacts.size_filter_delete (holds x)
             (material_programs s) material).
  rewrite count_holds.
  destruct (material_programs s !! material) as [l0|]; [|lia].
  rewrite count_holds. lia.
Qed.

Lemma holders_delete (x : nat) (material : nat) (l : ProgramMap) (s s' : State) :
  material_programs s !! material = Some l ->
  material_programs s' = delete material (material_programs s) ->
  size (holders x s)
  = (size (holders x s') + WebGLTextures.count (x ∈ l.*2))%nat.
Proof.
  intros Hl E. unfold holders. rewrite E.
  rewrite (WebGLTexturesFacts.size_filter_delete (holds x)
             (material_programs s) material).
  rewrite Hl. now rewrite count_holds.
Qed.

Lemma programs_Inv_initial : Inv initial.
Proof.
  split; cbn [programCache material_programs listening initial].
  - apply ProgramsFacts.Inv_initial.
  - intros m l key r H. now rewrite lookup_empty in H.
  - intros m l H. now rewrite lookup_empty in H.
  - intros r p H. now apply elem_of_nil in H.
  - intros m. rewrite lookup_empty. split.
    + intros H. now apply elem_of_empty in H.
    + intros [x H]. discriminate.
Qed.

(** What [acquireProgram] does to the cache. *)
Lemma acquire_effect (key : string) (c : Programs.State) :
  Programs.Inv c ->
  let r := fst (acquireProgram key c) in
  let c' := snd (acquireProgram key c) in
  Programs.Inv c' /\
  (forall x, x ∈ programs c' <-> x ∈ programs c \/ x = r) /\
  (forall x px,
      heap c !! x = Some px -> x ∈ programs c ->
      exists px', heap c' !! x = Some px' /\ cacheKey px' = cacheKey px /\
                  usedTimes px' =
                  usedTimes px + Z.of_nat (WebGLTextures.count (x = r))) /\
  (exists pr, heap c' !! r = Some pr /\ cacheKey pr = key /\
              (r ∉ programs c -> usedTimes pr = 1)).
Proof.
  intros Hinv r c'. split; [now apply ProgramsFacts.Inv_acquire|].
  subst r c'. unfold WebGLTextures.count.
  destruct (acquire_cases key c)
    as [(r & p & Hr & Hp & Hk & E)|[Hnone E]]; rewrite E;
    cbn [fst snd heap programs].
  - assert (Hlt : (r < length (heap c))%nat) by now apply lookup_lt_Some in Hp.
    split; [|split].
    + intros x. split; [now left|]. intros [H| ->]; [exact H | exact Hr].
    + intros x px Hpx _. destruct (decide (x = r)) as [->|Hne].
      * rewrite list_lookup_alter_eq, Hpx. cbn.
        eexists. split; [reflexivity|]. cbn. split; [reflexivity | lia].
      * rewrite list_lookup_alter_ne by congruence.
        exists px. split; [exact Hpx|]. split; [reflexivity | lia].
    + rewrite list_lookup_alter_eq, Hp. cbn.
      eexists. split; [reflexivity|]. cbn. split; [exact Hk|].
      intros H. contradiction.
  - split; [|split].
    + intros x. rewrite elem_of_app, list_elem_of_singleton. tauto.
    + intros x px Hpx Hx.
      assert (Hlt : (x < length (heap c))%nat) by now apply lookup_lt_Some in Hpx.
      rewrite lookup_app_l by exact Hlt.
      exists px. split; [exact Hpx|]. split; [reflexivity|].
      destruct (decide (x = length (heap c))); lia.
    + rewrite lookup_app_r by lia. rewrite Nat.sub_diag. cbn.
      eexists. split; [reflexivity|]. cbn. auto.
Qed.

Lemma NoDup_programs (l : ProgramMap) :
  NoDup l.*1 ->
  (forall k k' r, (k, r) ∈ l -> (k', r) ∈ l -> k = k') ->
  NoDup l.*2.
Proof.
  induction l as [|[k r] l IH]; cbn [fmap list_fmap fst snd];
    intros Hnd Hkey; [constructor|].
  apply NoDup_cons in Hnd as [Hk Hnd]. apply NoDup_cons. split.
  - intros Hr. apply list_elem_of_fmap in Hr as ([k' r'] & Heq & Hin).
    cbn in Heq. subst r'.
    assert (k = k').
    { apply (Hkey k k' r); [apply list_elem_of_here|].
      now apply list_elem_of_further. }
    subst k'. apply Hk. apply list_elem_of_fmap. now exists (k, r).
  - apply IH; [exact Hnd|]. intros k1 k2 x H1 H2.
    apply (Hkey k1 k2 x); now apply list_elem_of_further.
Qed.

Lemma elem_of_programs (x : nat) (l : ProgramMap) :
  x ∈ l.*2 <-> exists key, (key, x) ∈ l.
Proof.
  rewrite list_elem_of_fmap. split.
  - intros ([k r] & Heq & Hin). cbn in Heq. subst r. eauto.
  - intros (key & Hin). now exists (key, x).
Qed.

Lemma Inv_add_entry (material : nat) (key : string) (s : State)
      (l : ProgramMap) (L : gset nat) :
  Inv s ->
  l = default [] (material_programs s !! material) ->
  key ∉ l.*1 ->
  (forall m, m ∈ L <-> m ∈ listening s \/ m = material) ->
  Inv {| programCache := snd (acquireProgram key (programCache s));
         material_programs :=
           <[material := l ++ [(key, fst (acquireProgram key (programCache s)))]]>
             (material_programs s);
         listening := L |}.
Proof.
  intros Hinv Hl Hkey HL.
  destruct (acquire_effect key (programCache s) (inv_cache s Hinv))
    as (P1 & P2 & P3 & pr & Hpr & Hprk & Hpr1).
  set (r := fst (acquireProgram key (programCache s))) in *.
  set (c' := snd (acquireProgram key (programCache s))) in *.
  set (c := programCache s) in *.
  assert (F1 : forall key' x, (key', x) ∈ l ->
                              material_programs s !! material = Some l).
  { intros key' x Hin. destruct (material_programs s !! material) as [l0|].
    - now rewrite Hl.
    - rewrite Hl in Hin. now apply elem_of_nil in Hin. }
  assert (Hold : forall m l' key' x,
             material_programs s !! m = Some l' -> (key', x) ∈ l' ->
             x ∈ programs c' /\
             exists p, heap c' !! x = Some p /\ cacheKey p = key').
  { intros m l' key' x Hm Hin.
    destruct (inv_entry s Hinv m l' key' x Hm Hin) as (Hx & p & Hp & Hk).
    split; [apply P2; now left|].
    destruct (P3 x p Hp Hx) as (p' & Hp' & Hk' & _).
    exists p'. split; [exact Hp' | congruence]. }
  assert (F2 : r ∉ l.*2).
  { intros Hr. apply elem_of_programs in Hr as (key' & Hin).
    destruct (Hold material l key' r (F1 _ _ Hin) Hin) as (_ & p & Hp & Hk).
    apply Hkey. apply list_elem_of_fmap. exists (key', r).
    split; [|exact Hin]. cbn. congruence. }
  assert (Hnd : NoDup l.*1).
  { destruct (material_programs s !! material) as [l0|] eqn:E.
    - rewrite Hl. apply (inv_once s Hinv material l0 E).
    - rewrite Hl. constructor. }
  split; cbn [programCache material_programs listening].
  - exact P1.
  - intros m l' key' x Hm Hin.
    destruct (decide (m = material)) as [->|Hne].
    + rewrite lookup_insert_eq in Hm. injection Hm as <-.
      apply elem_of_app in Hin as [Hin|Hin].
      * apply (Hold material l key' x (F1 _ _ Hin) Hin).
      * apply list_elem_of_singleton in Hin. injection Hin as -> ->.
        split; [apply P2; now right|]. eauto.
    + rewrite lookup_insert_ne in Hm by congruence.
      apply (Hold m l' key' x Hm Hin).
  - intros m l' Hm. destruct (decide (m = material)) as [->|Hne].
    + rewrite lookup_insert_eq in Hm. injection Hm as <-.
      rewrite fmap_app. cbn [fmap list_fmap fst].
      apply NoDup_app. split; [exact Hnd|]. split; [|apply NoDup_singleton].
      intros k Hk Hk'. apply list_elem_of_singleton in Hk'. congruence.
    + rewrite lookup_insert_ne in Hm by congruence.
      apply (inv_once s Hinv m l' Hm).
  - intros x p' Hx Hp'.
    match goal with
    | |- context [holders x ?st] => set (s' := st)
    end.
    pose proof (holders_insert x material (l ++ [(key, r)]) s s' eq_refl) as Hh.
    assert (Hcount :
              WebGLTextures.count (x ∈ (l ++ [(key, r)]).*2) =
              (WebGLTextures.count (x ∈ l.*2)
               + WebGLTextures.count (x = r))%nat).
    { rewrite <- (count_or (x ∈ l.*2) (x = r)).
      - apply WebGLTexturesFacts.count_iff.
        rewrite fmap_app, elem_of_app. cbn [fmap list_fmap snd].
        now rewrite list_elem_of_singleton.
      - intros [H1 ->]. contradiction. }
    assert (Hprev :
              match material_programs s !! material with
              | Some l0 => WebGLTextures.count (x ∈ l0.*2)
              | None => 0%nat
              end = WebGLTextures.count (x ∈ l.*2)).
    { destruct (material_programs s !! material) as [l0|]; rewrite Hl.
      - reflexivity.
      - unfold WebGLTextures.count. cbn.
        destruct (decide (x ∈ [])) as [H|_]; [now apply elem_of_nil in H|].
        reflexivity. }
    rewrite Hprev, Hcount in Hh.
    destruct (decide (x ∈ programs c)) as [Hxc|Hxc].
    + destruct (Programs.inv_live c (inv_cache s Hinv) x Hxc) as (p & Hp & _).
      destruct (P3 x p Hp Hxc) as (p'' & Hp'' & _ & Hu).
      assert (p'' = p') by congruence. subst p''.
      rewrite Hu, (inv_count s Hinv x p Hxc Hp). lia.
    + assert (x = r) by (apply P2 in Hx as [Hx| ->]; [contradiction | reflexivity]).
      subst x. assert (pr = p') by congruence. subst p'.
      rewrite (Hpr1 Hxc).
      assert (Hzero : size (holders r s) = 0%nat).
      { apply size_filter_none. intros m l' Hm Hholds.
        unfold holds in Hholds. cbn [snd] in Hholds.
        apply elem_of_programs in Hholds as (key' & Hin).
        destruct (inv_entry s Hinv m l' key' r Hm Hin) as (Hr & _).
        contradiction. }
      unfold WebGLTextures.count in Hh.
      destruct (decide (r = r)) as [_|Hn]; [|congruence].
      destruct (decide (r ∈ l.*2)) as [Hr|_]; [contradiction|]. lia.
  - intros m. rewrite HL. destruct (decide (m = material)) as [->|Hne].
    + rewrite lookup_insert_eq. split; [eauto | now right].
    + rewrite lookup_insert_ne by congruence.
      rewrite <- (inv_listening s Hinv m). tauto.
Qed.

Lemma programs_Inv_getProgram (material : nat) (key : string) (s : State) :
  Inv s -> Inv (snd (getProgram material key s)).
Proof.
  intros Hinv. unfold getProgram.
  destruct (material_programs s !! material) as [l|] eqn:E.
  - destruct (Map_get key l) as [r|] eqn:Eg; cbn [snd].
    + rewrite insert_id by exact E. now destruct s.
    + pose proof (Inv_add_entry material key s l (listening s) Hinv) as H.
      rewrite E in H. specialize (H eq_refl (Map_get_None _ _ Eg)).
      destruct (acquireProgram key (programCache s)) as [r c'].
      cbn [fst snd] in *. apply H. intros m. split; [now left|].
      intros [Hm| ->]; [exact Hm|].
      apply (inv_listening s Hinv). rewrite E. eauto.
  - cbn [Map_get].
    pose proof (Inv_add_entry material key s []
                  ({[material]} ∪ listening s) Hinv) as H.
    rewrite E in H. specialize (H eq_refl (not_elem_of_nil _)).
    destruct (acquireProgram key (programCache s)) as [r c'].
    cbn [fst snd app] in *. apply H. intros m.
    rewrite elem_of_union, elem_of_singleton. tauto.
Qed.

(** A program that two materials hold has two holders. *)
Lemma holders_two (x m material : nat) (l l' : ProgramMap) (s : State) :
  m <> material ->
  material_programs s !! material = Some l -> x ∈ l.*2 ->
  material_programs s !! m = Some l' -> x ∈ l'.*2 ->
  (2 <= size (holders x s))%nat.
Proof.
  intros Hne Hl Hx Hl' Hx'.
  set (s' := {| programCache := programCache s;
                material_programs := delete material (material_programs s);
                listening := listening s |}).
  rewrite (holders_delete x material l s s' Hl eq_refl).
  unfold WebGLTextures.count.
  destruct (decide (x ∈ l.*2)) as [_|Hn]; [|contradiction].
  assert (Hm : holders x s' !! m = Some l').
  { unfold holders. apply map_lookup_filter_Some. split; [|exact Hx'].
    change (material_programs s')
      with (delete material (material_programs s)).
    now rewrite lookup_delete_ne by congruence. }
  pose proof (map_size_ne_0_lookup_2 _ _ (ex_intro _ l' Hm)) as Hs.
  lia.
Qed.

(** The programs of a material are distinct programs. *)
Lemma held_once (material : nat) (l : ProgramMap) (s : State) :
  Inv s -> material_programs s !! material = Some l -> NoDup l.*2.
Proof.
  intros Hinv Hl. apply NoDup_programs; [apply (inv_once s Hinv material l Hl)|].
  intros k k' r Hk Hk'.
  destruct (inv_entry s Hinv material l k r Hl Hk) as (_ & p & Hp & <-).
  destruct (inv_entry s Hinv material l k' r Hl Hk') as (_ & p' & Hp' & <-).
  congruence.
Qed.

Lemma held_cached (material : nat) (l : ProgramMap) (s : State) :
  Inv s -> material_programs s !! material = Some l ->
  forall r, r ∈ l.*2 -> r ∈ programs (programCache s).
Proof.
  intros Hinv Hl r Hr. apply elem_of_programs in Hr as (key & Hin).
  apply (inv_entry s Hinv material l key r Hl Hin).
Qed.

Lemma dispose_eq (material : nat) (l : ProgramMap) (s : State) :
  Inv s -> material_programs s !! material = Some l ->
  dispose material s =
  {| programCache := release_all l (programCache s);
     material_programs := delete material (material_programs s);
     listening := listening s ∖ {[material]} |}.
Proof.
  intros Hinv Hl. unfold dispose.
  destruct (decide (material ∈ listening s)) as [_|Hn].
  - unfold onMaterialDispose, deallocateMaterial,
      releaseMaterialProgramReferences.
    cbn [material_programs programCache listening]. rewrite Hl. reflexivity.
  - exfalso. apply Hn. apply (inv_listening s Hinv). rewrite Hl. eauto.
Qed.

Lemma dispose_none (material : nat) (s : State) :
  Inv s -> material_programs s !! material = None -> dispose material s = s.
Proof.
  intros Hinv Hl. unfold dispose.
  destruct (decide (material ∈ listening s)) as [Hin|_]; [|reflexivity].
  apply (inv_listening s Hinv) in Hin. rewrite Hl in Hin.
  destruct Hin as [x H]. discriminate.
Qed.

Lemma programs_Inv_dispose (material : nat) (s : State) :
  Inv s -> Inv (dispose material s).
Proof.
  intros Hinv.
  destruct (material_programs s !! material) as [l|] eqn:Hl;
    [|now rewrite dispose_none].
  rewrite (dispose_eq material l s Hinv Hl).
  destruct (release_all_spec l (programCache s) (inv_cache s Hinv)
              (held_once material l s Hinv Hl)
              (held_cached material l s Hinv Hl))
    as (R1 & R2 & R3 & R4).
  split; cbn [programCache material_programs listening].
  - exact R1.
  - intros m l' key x Hm Hin.
    apply lookup_delete_Some in Hm as [Hne Hm].
    destruct (inv_entry s Hinv m l' key x Hm Hin) as (Hx & p & Hp & Hk).
    split.
    + apply R4. split; [exact Hx|]. intros [Hxl (p0 & Hp0 & H1)].
      assert (p0 = p) by congruence. subst p0.
      pose proof (inv_count s Hinv x p Hx Hp) as Hc.
      assert (x ∈ l'.*2) by (apply elem_of_programs; eauto).
      pose proof (holders_two x m material l l' s ltac:(congruence)
                    Hl Hxl Hm ltac:(assumption)).
      lia.
    + destruct (R3 x p Hp) as (p' & Hp' & _).
      exists p'. split; [exact Hp'|].
      pose proof (R2 x) as Hkey. rewrite Hp', Hp in Hkey. cbn in Hkey.
      congruence.
  - intros m l' Hm. apply lookup_delete_Some in Hm as [_ Hm].
    apply (inv_once s Hinv m l' Hm).
  - intros x p' Hx Hp'.
    apply R4 in Hx as [Hx _].
    destruct (Programs.inv_live (programCache s) (inv_cache s Hinv) x Hx) as (p & Hp & _).
    destruct (R3 x p Hp) as (p'' & Hp'' & Hu).
    assert (p'' = p') by congruence. subst p''.
    match goal with
    | |- context [holders x ?st] => set (s' := st)
    end.
    pose proof (holders_delete x material l s s' Hl eq_refl) as Hh.
    rewrite Hu, (inv_count s Hinv x p Hx Hp). lia.
  - intros m. rewrite elem_of_difference, elem_of_singleton.
    rewrite (inv_listening s Hinv m).
    destruct (decide (m = material)) as [->|Hne].
    + rewrite lookup_delete_eq. split.
      * intros [_ H]. congruence.
      * intros [x H]. discriminate.
    + rewrite lookup_delete_ne by congruence. tauto.
Qed.

Lemma programs_Inv_step (s : State) (c : Call) : Inv s -> Inv (step s c).
Proof.
  intros Hinv. destruct c as [material key|material]; cbn [step].
  - now apply programs_Inv_getProgram.
  - now apply programs_Inv_dispose.
Qed.

Lemma programs_Inv_run (cs : list Call) : Inv (run cs).
Proof.
  unfold run. induction cs as [|c cs IH] using rev_ind; cbn [fold_left].
  - apply programs_Inv_initial.
  - rewrite fold_left_app. cbn [fold_left]. now apply programs_Inv_step.
Qed.

Lemma getProgram_holds (material : nat) (key : string) (s : State) :
  exists l, material_programs (snd (getProgram material key s)) !! material
            = Some l /\
            (key, fst (getProgram material key s)) ∈ l.
Proof.
  unfold getProgram.
  destruct (material_programs s !! material) as [l|] eqn:E.
  - destruct (Map_get key l) as [r|] eqn:Eg.
    + cbn [fst snd material_programs]. rewrite lookup_insert_eq.
      exists l. split; [reflexivity | now apply Map_get_Some].
    + destruct (acquireProgram key (programCache s)) as [r c'].
      cbn [fst snd material_programs]. rewrite lookup_insert_eq.
      eexists. split; [reflexivity|].
      apply elem_of_app. right. apply list_elem_of_here.
  - cbn [Map_get].
    destruct (acquireProgram key (programCache s)) as [r c'].
    cbn [fst snd material_programs app]. rewrite lookup_insert_eq.
    eexists. split; [reflexivity | apply list_elem_of_here].
Qed.

Lemma getProgram_again (material : nat) (key : string) (s : State)
      (l : ProgramMap) (r : nat) :
  Inv s -> material_programs s !! material = Some l -> (key, r) ∈ l ->
  getProgram material key s = (r, s).
Proof.
  intros Hinv Hl Hin. unfold getProgram. rewrite Hl.
  rewrite (Map_get_elem key l r (inv_once s Hinv material l Hl) Hin).
  rewrite insert_id by exact Hl. now destruct s.
Qed.

(** X24.  The programs of the materials after any calls of [getProgram]
    and any [dispose] events of materials.  What a material holds under
    a cache key is a cached program with this key whose GPU program has
    not been deleted.  The [usedTimes] of a cached program is the number
    of materials that hold it, and is not zero.  [getProgram] with the
    same material and key gives the same program again and changes
    nothing.  When a material is disposed it holds no programs any
    more; of the cached programs, exactly those that it alone held leave
    the cache, and their GPU programs are deleted; the others lose one
    use if it held them.  When no material holds programs, the cache is
    empty and the GPU program of every program made has been deleted,
    once. *)
Theorem materials_count_their_programs (cs : list Call) :
  let s := run cs in
  let c := programCache s in
  (forall m l key r,
      material_programs s !! m = Some l -> (key, r) ∈ l ->
      r ∈ programs c /\ deletions r c = 0%nat /\
      exists p, heap c !! r = Some p /\ cacheKey p = key) /\
  (forall r,
      r ∈ programs c ->
      usedTimes_of r c = Some (Z.of_nat (size (holders r s))) /\
      (1 <= size (holders r s))%nat) /\
  (forall m key,
      let r := fst (getProgram m key s) in
      let s1 := snd (getProgram m key s) in
      getProgram m key s1 = (r, s1)) /\
  (forall m l,
      material_programs s !! m = Some l ->
      let s' := dispose m s in
      let c' := programCache s' in
      material_programs s' !! m = None /\
      (forall m', m' <> m ->
                  material_programs s' !! m' = material_programs s !! m') /\
      (forall r,
          r ∈ programs c ->
          (r ∈ programs c' <-> ~ (r ∈ l.*2 /\ size (holders r s) = 1%nat)) /\
          usedTimes_of r c' =
          Some (Z.of_nat (size (holders r s))
                - Z.of_nat (WebGLTextures.count (r ∈ l.*2))) /\
          (r ∉ programs c' -> deletions r c' = 1%nat))) /\
  (forall m, material_programs s !! m = None -> dispose m s = s) /\
  (material_programs s = ∅ ->
   programs c = [] /\
   forall r, (r < length (heap c))%nat -> deletions r c = 1%nat).
Proof.
  intros s c. pose proof (programs_Inv_run cs) as Hinv.
  fold s in Hinv. clearbody s. subst c.
  assert (Hcount : forall r,
             r ∈ programs (programCache s) ->
             exists p, heap (programCache s) !! r = Some p /\
                       usedTimes p = Z.of_nat (size (holders r s)) /\
                       (1 <= size (holders r s))%nat).
  { intros r Hr.
    destruct (Programs.inv_live _ (inv_cache s Hinv) r Hr) as (p & Hp & H1).
    pose proof (inv_count s Hinv r p Hr Hp) as Hc.
    exists p. split; [exact Hp|]. split; [exact Hc | lia]. }
  split; [|split; [|split; [|split; [|split]]]].
  - intros m l key r Hl Hin.
    destruct (inv_entry s Hinv m l key r Hl Hin) as (Hr & p & Hp & Hk).
    split; [exact Hr|]. split; [|eauto].
    rewrite (Programs.inv_deleted _ (inv_cache s Hinv) r p Hp).
    now rewrite decide_True by exact Hr.
  - intros r Hr. destruct (Hcount r Hr) as (p & Hp & Hu & H1).
    split; [|exact H1]. unfold usedTimes_of. rewrite Hp. cbn. now rewrite Hu.
  - intros m key r s1.
    destruct (getProgram_holds m key s) as (l & Hl & Hin).
    apply (getProgram_again m key s1 l r); [|exact Hl | exact Hin].
    now apply programs_Inv_getProgram.
  - intros m l Hl s' c'. subst c' s'.
    rewrite (dispose_eq m l s Hinv Hl).
    cbn [programCache material_programs].
    destruct (release_all_spec l (programCache s) (inv_cache s Hinv)
                (held_once m l s Hinv Hl) (held_cached m l s Hinv Hl))
      as (R1 & R2 & R3 & R4).
    split; [apply lookup_delete_eq|].
    split; [intros m' Hne; now apply lookup_delete_ne|].
    intros r Hr. destruct (Hcount r Hr) as (p & Hp & Hu & H1).
    destruct (R3 r p Hp) as (p' & Hp' & Hu').
    split; [|split].
    + rewrite R4. split.
      * intros [_ Hn] [Hrl Hs]. apply Hn. split; [exact Hrl|].
        exists p. split; [exact Hp | lia].
      * intros Hn. split; [exact Hr|].
        intros [Hrl (p0 & Hp0 & H0)]. apply Hn. split; [exact Hrl|].
        assert (p0 = p) by congruence. subst p0. lia.
    + unfold usedTimes_of. rewrite Hp'. cbn. now rewrite Hu', Hu.
    + intros Hnot.
      rewrite (Programs.inv_deleted _ R1 r p' Hp').
      now rewrite decide_False by exact Hnot.
  - intros m Hm. now apply dispose_none.
  - intros Hempty.
    assert (Hnil : programs (programCache s) = []).
    { apply elem_of_nil_inv. intros r Hr.
      destruct (Hcount r Hr) as (p & _ & _ & H1).
      unfold holders in H1. rewrite Hempty, map_filter_empty in H1.
      rewrite map_size_empty in H1. lia. }
    split; [exact Hnil|].
    intros r Hr.
    destruct (lookup_lt_is_Some_2 _ _ Hr) as [p Hp].
    rewrite (Programs.inv_deleted _ (inv_cache s Hinv) r p Hp).
    rewrite decide_False; [reflexivity|].
    rewrite Hnil. apply not_elem_of_nil.
Qed.

End MaterialProgramsFacts.

(** ** Clock *)
Module ClockFacts.

Import Clock.

Section Facts.

Variable now : nat -> Q.
Hypothesis now_monotone : forall i j, (i <= j)%nat -> (now i <= now j)%Q.

Lemma diff_nonneg (a b : Q) : (a <= b)%Q -> (0 <= (b - a) / 1000)%Q.
Proof.
  intros H. apply Qle_shift_div_l; [reflexivity|]. lra.
Qed.

Lemma clock_Inv_constructor (a : bool) : Inv now (constructor a).
Proof. split; cbn; [discriminate | lra]. Qed.

Lemma clock_Inv_start (this : Clock) : Inv now (start now this).
Proof. split; cbn; [eauto | lra]. Qed.

Lemma getDelta_nonneg (this : Clock) :
  Inv now this ->
  (0 <= fst (getDelta now this))%Q /\
  (elapsedTime this <= elapsedTime (snd (getDelta now this))
   \/ running this = false)%Q /\
  Inv now (snd (getDelta now this)).
Proof.
  intros [Hold Hel]. unfold getDelta.
  destruct (autoStart this && negb (running this)) eqn:E.
  - cbn [fst snd]. split; [lra|]. split.
    + right. apply andb_true_iff in E as [_ E].
      now apply negb_true_iff in E.
    + apply clock_Inv_start.
  - destruct (running this) eqn:Er; cbn [fst snd].
    + destruct (Hold eq_refl) as (k & Hk & Ho).
      assert (Hd : (0 <= (now (reads this) - oldTime this) / 1000)%Q).
      { apply diff_nonneg. rewrite Ho, Hk. apply now_monotone. lia. }
      split; [exact Hd|]. split.
      * left. cbn [elapsedTime]. lra.
      * split; cbn [running reads oldTime elapsedTime]; [eauto | lra].
    + split; [lra|]. split; [now right|]. split; [|exact Hel].
      intros H. congruence.
Qed.

Lemma clock_Inv_step (this : Clock) (c : Call) :
  Inv now this -> Inv now (step now this c).
Proof.
  intros Hinv. destruct c; cbn [step].
  - apply clock_Inv_start.
  - destruct (getDelta_nonneg this Hinv) as (_ & _ & [_ Hel]).
    split; cbn; [discriminate | exact Hel].
  - apply (getDelta_nonneg this Hinv).
  - apply (getDelta_nonneg this Hinv).
Qed.

Lemma clock_Inv_run (a : bool) (cs : list Call) : Inv now (run now a cs).
Proof.
  unfold run. induction cs as [|c cs IH] using rev_ind; cbn [fold_left].
  - apply clock_Inv_constructor.
  - rewrite fold_left_app. cbn [fold_left]. now apply clock_Inv_step.
Qed.

(** X25.  A clock whose readings of the time never go back, after any
    calls of its methods.  [getDelta] never returns a negative
    number, and the elapsed time is not negative and does not go down
    while the clock runs.  [stop] also clears [autoStart]: after it
    the clock is stopped for good, [getDelta] returns zero,
    [getElapsedTime] returns the time at the stop, and neither reads
    the time or changes the clock, until [start] is called.  A clock
    that is not running starts at the first [getDelta] exactly when
    [autoStart] is set, and this [getDelta] returns zero. *)
Theorem stopped_clock_stands_still (a : bool) (cs : list Call) :
  let this := run now a cs in
  (0 <= fst (getDelta now this))%Q /\
  (0 <= elapsedTime this)%Q /\
  (running this = true ->
   (elapsedTime this <= fst (getElapsedTime now this))%Q /\
   (elapsedTime this <= elapsedTime (snd (getDelta now this)))%Q) /\
  (let stopped := stop now this in
   getDelta now stopped = (0%Q, stopped) /\
   getElapsedTime now stopped = (elapsedTime stopped, stopped) /\
   stop now stopped = stopped /\
   (elapsedTime this <= elapsedTime stopped \/ running this = false)%Q) /\
  (running this = false ->
   fst (getDelta now this) = 0%Q /\
   running (snd (getDelta now this)) = autoStart this /\
   (autoStart this = false -> snd (getDelta now this) = this)).
Proof.
  intros this. pose proof (clock_Inv_run a cs) as Hinv. fold this in Hinv.
  clearbody this.
  destruct (getDelta_nonneg this Hinv) as (Hd & Hup & Hinv').
  split; [exact Hd|]. split; [apply (inv_elapsed now this Hinv)|].
  split; [|split].
  - intros Hr. unfold getElapsedTime. cbn [fst].
    destruct Hup as [Hup|Hup]; [|congruence]. split; exact Hup.
  - assert (Hs : getDelta now (stop now this) = (0%Q, stop now this))
      by reflexivity.
    split; [exact Hs|].
    split; [unfold getElapsedTime; now rewrite Hs|].
    split; [unfold stop at 1, getElapsedTime; now rewrite Hs|].
    exact Hup.
  - intros Hr. unfold getDelta. rewrite Hr. cbn [negb].
    rewrite andb_true_r. destruct (autoStart this); cbn; auto.
    split; [reflexivity|]. split; [reflexivity|]. discriminate.
Qed.

End Facts.

Lemma stopped_clock_stands_still_witness :
  let now := fun k : nat => inject_Z (16 * Z.of_nat k) in
  let this := run now true [GetDelta; GetDelta; GetElapsedTime] in
  (forall i j, (i <= j)%nat -> (now i <= now j)%Q) /\
  (0 <= fst (getDelta now this))%Q /\
  getDelta now (stop now this) = (0%Q, stop now this).
Proof.
  intros now this.
  assert (Hm : forall i j, (i <= j)%nat -> (now i <= now j)%Q).
  { intros i j Hij. unfold now. rewrite <- Zle_Qle. lia. }
  split; [exact Hm|].
  destruct (stopped_clock_stands_still
              now Hm true [GetDelta; GetDelta; GetElapsedTime])
    as (H1 & _ & _ & (H2 & _) & _).
  split; [exact H1 | exact H2].
Defined.

End ClockFacts.

